(** * Depot HIL simulator: a shallow embedding of the Python core

    The development follows the four modules of the repository:
    [src/simulation/sensors.py], [src/simulation/vehicles.py],
    [src/control/depot_controller.py] and [src/simulation/engine.py].

    Python objects are records, Python [dict]s are insertion-ordered
    association lists, Python [int]s are [Z].  Methods that mutate their
    object, draw from the [random]/[uuid] modules or may raise are written
    in the monad [M] below: it threads the object and the position in
    the streams of random draws, and stops at the first exception,
    keeping the state reached at the [raise]. *)

From Stdlib Require Import ZArith QArith Qminmax List String Ascii Bool Lia.
From Stdlib Require Import Decimal DecimalString DecimalZ FinFun.
Import ListNotations.

Local Open Scope Z_scope.
Local Open Scope string_scope.
Local Open Scope list_scope.

Set Implicit Arguments.

(* ------------------------------------------------------------------ *)
(** ** Python dictionaries *)

(** A [dict] keeps its keys in insertion order; assigning to a key that
    is present replaces the value in place, assigning to a new key
    appends it. *)
Section Dict.
Variables (K V : Type).
Variable eqb : K -> K -> bool.

Definition dict := list (K * V).

Fixpoint dict_get (k : K) (d : dict) : option V :=
  match d with
  | [] => None
  | (k', v) :: t => if eqb k k' then Some v else dict_get k t
  end.

Definition dict_mem (k : K) (d : dict) : bool :=
  match dict_get k d with Some _ => true | None => false end.

Fixpoint dict_set (k : K) (v : V) (d : dict) : dict :=
  match d with
  | [] => [(k, v)]
  | (k', v') :: t =>
      if eqb k k' then (k', v) :: t else (k', v') :: dict_set k v t
  end.

Fixpoint dict_del (k : K) (d : dict) : dict :=
  match d with
  | [] => []
  | (k', v') :: t => if eqb k k' then t else (k', v') :: dict_del k t
  end.

Definition dict_keys (d : dict) : list K := map fst d.
Definition dict_values (d : dict) : list V := map snd d.
End Dict.

Arguments dict_get {K V} eqb k d.
Arguments dict_mem {K V} eqb k d.
Arguments dict_set {K V} eqb k v d.
Arguments dict_del {K V} eqb k d.
Arguments dict_keys {K V} d.
Arguments dict_values {K V} d.

(** Dictionaries keyed by [int] and by [str]. *)
Abbreviation zget := (dict_get Z.eqb).
Abbreviation zset := (dict_set Z.eqb).
Abbreviation zmem := (dict_mem Z.eqb).
Abbreviation sget := (dict_get String.eqb).
Abbreviation sset := (dict_set String.eqb).
Abbreviation smem := (dict_mem String.eqb).
Abbreviation sdel := (dict_del String.eqb).

(** [range(n)] *)
Definition range (n : Z) : list Z := map Z.of_nat (seq 0 (Z.to_nat n)).

(** [{i: f(i) for i in range(n)}] *)
Definition dict_of_range {V : Type} (n : Z) (f : Z -> V) : dict Z V :=
  map (fun i => (i, f i)) (range n).

(* ------------------------------------------------------------------ *)
(** ** Strings: [str(int)], [int(str)], [str.split], [str.startswith] *)

(** [str(n)] for an [int]. *)
Definition str_of_int (n : Z) : string := NilZero.string_of_int (Z.to_int n).

(** [s.startswith(p)] *)
Definition startswith (s p : string) : bool := String.prefix p s.

(** [s.split(sep)] for a one-character separator: always at least one
    piece. *)
Fixpoint split_on (sep : ascii) (s : string) : list string :=
  match s with
  | EmptyString => [EmptyString]
  | String c r =>
      if Ascii.eqb c sep then EmptyString :: split_on sep r
      else match split_on sep r with
           | h :: t => String c h :: t
           | [] => [String c EmptyString]
           end
  end.

Definition is_space (c : ascii) : bool :=
  let n := nat_of_ascii c in
  (((9 <=? n) && (n <=? 13)) || (n =? 32))%nat.

Definition is_digit (c : ascii) : bool :=
  let n := nat_of_ascii c in ((48 <=? n) && (n <=? 57))%nat.

Fixpoint lstrip (s : string) : string :=
  match s with
  | String c r => if is_space c then lstrip r else s
  | EmptyString => s
  end.

Fixpoint all_space (s : string) : bool :=
  match s with
  | String c r => is_space c && all_space r
  | EmptyString => true
  end.

(** The longest prefix of digits, and what follows it. *)
Fixpoint span_digits (s : string) : string * string :=
  match s with
  | String c r =>
      if is_digit c then let (d, rest) := span_digits r in (String c d, rest)
      else (EmptyString, s)
  | EmptyString => (EmptyString, EmptyString)
  end.

Definition parse_digits (s : string) : option Z :=
  let (d, rest) := span_digits s in
  match d with
  | EmptyString => None
  | _ => if all_space rest
         then option_map Z.of_uint (NilEmpty.uint_of_string d)
         else None
  end.

(** [int(s)] in base ten on a string of ASCII characters without
    underscores (the pieces of [split("_")] have none): white space
    around, one optional sign, at least one digit.  [None] is
    [ValueError].  [int()] also reads the decimal digits and the white
    space of other scripts, and refuses more than 4300 digits; neither
    is modelled, so [py_int] is [int()] on the pieces of a
    [plain_name] only. *)
Definition py_int (s : string) : option Z :=
  match lstrip s with
  | String "+" r => parse_digits r
  | String "-" r => option_map Z.opp (parse_digits r)
  | r => parse_digits r
  end.

(** [l[1]] on a list, [None] being [IndexError]. *)
Definition second {A : Type} (l : list A) : option A := nth_error l 1.

(* ------------------------------------------------------------------ *)
(** ** Comparisons of floats as rationals

    Rates and random draws are only ever compared, and every finite
    float is a rational, so they are [Q]. *)
Definition Qltb (x y : Q) : bool := negb (Qle_bool y x).

(* ------------------------------------------------------------------ *)
(** ** The monad of methods *)

Inductive exn : Type := ValueError | KeyError | IndexError.

Inductive outcome (A : Type) : Type :=
| Ok (a : A)
| Raise (e : exn).
Arguments Ok {A} a.
Arguments Raise {A} e.

(** The [random] and [uuid] modules are two streams fixed once for a
    run: [rnd i] is the [i]-th result of [random.random()], [uid i] the
    [i]-th [str(uuid.uuid4())].  A cursor tells how far each has been
    consumed. *)
Record Streams : Type := mkStreams {
  rnd : nat -> Q;
  uid : nat -> string
}.

Record Cursor : Type := mkCursor {
  rnd_pos : nat;
  uid_pos : nat
}.

Definition cursor0 : Cursor := mkCursor 0 0.

(** [random.random()] returns a float in [[0, 1)]. *)
Definition unit_draws (o : Streams) : Prop :=
  forall i, (0 <= rnd o i)%Q /\ (rnd o i < 1)%Q.

(** A method reads the streams, changes its object and the cursor, and
    returns or raises. *)
Definition M (S A : Type) : Type :=
  Streams -> S -> Cursor -> outcome A * S * Cursor.

Definition ret {S A} (a : A) : M S A := fun _ s c => (Ok a, s, c).

Definition bind {S A B} (m : M S A) (f : A -> M S B) : M S B :=
  fun o s c =>
    match m o s c with
    | (Ok a, s', c') => f a o s' c'
    | (Raise e, s', c') => (Raise e, s', c')
    end.

Definition raise {S A} (e : exn) : M S A := fun _ s c => (Raise e, s, c).

Definition get {S} : M S S := fun _ s c => (Ok s, s, c).
Definition gets {S A} (f : S -> A) : M S A := fun _ s c => (Ok (f s), s, c).
Definition put {S} (s' : S) : M S unit := fun _ _ c => (Ok tt, s', c).
Definition modify {S} (f : S -> S) : M S unit := fun _ s c => (Ok tt, f s, c).

(** [random.random()] *)
Definition random {S} : M S Q :=
  fun o s c => (Ok (rnd o (rnd_pos c)), s,
                mkCursor (Datatypes.S (rnd_pos c)) (uid_pos c)).

(** [str(uuid.uuid4())] *)
Definition uuid4 {S} : M S string :=
  fun o s c => (Ok (uid o (uid_pos c)), s,
                mkCursor (rnd_pos c) (Datatypes.S (uid_pos c))).

(** Run a method of a sub-object [T] held in a field of [S]. *)
Definition zoom {S T A} (proj : S -> T) (upd : T -> S -> S) (m : M T A) : M S A :=
  fun o s c => match m o (proj s) c with (x, t', c') => (x, upd t' s, c') end.

(** [d[k]] with [KeyError]. *)
Definition index {S K V} (eqb : K -> K -> bool) (k : K) (d : dict K V) : M S V :=
  match dict_get eqb k d with
  | Some v => ret v
  | None => raise KeyError
  end.

(** An [Optional] result that raises [e] when it is [None]. *)
Definition from_option {S A} (e : exn) (o : option A) : M S A :=
  match o with
  | Some a => ret a
  | None => raise e
  end.

Declare Scope monad_scope.
Delimit Scope monad_scope with monad.
Notation "x <- m ;; k" := (bind m (fun x => k))
  (at level 61, m at next level, right associativity) : monad_scope.
Notation "m ;; k" := (bind m (fun _ => k))
  (at level 61, right associativity) : monad_scope.
Local Open Scope monad_scope.

(** [for x in l: body(x)] *)
Fixpoint for_each {S X} (l : list X) (body : X -> M S unit) : M S unit :=
  match l with
  | [] => ret tt
  | x :: t => body x ;; for_each t body
  end.

(** [for x in l: acc.extend(body(x))] *)
Fixpoint for_extend {S X Y} (l : list X) (body : X -> M S (list Y)) : M S (list Y) :=
  match l with
  | [] => ret []
  | x :: t => ys <- body x ;; rest <- for_extend t body ;; ret (ys ++ rest)
  end.

(** [for x in l: acc = body(x, acc)], for a local accumulator. *)
Fixpoint for_fold {S X Acc} (l : list X) (body : X -> Acc -> M S Acc) (acc : Acc)
  : M S Acc :=
  match l with
  | [] => ret acc
  | x :: t => acc' <- body x acc ;; for_fold t body acc'
  end.

(** A method written as a function from the object to a result and the
    object after the call. *)
Definition call {S A} (f : S -> A * S) : M S A :=
  fun _ s c => let (a, s') := f s in (Ok a, s', c).

(** Run a method on the object stored under key [k] of a dictionary. *)
Definition with_entry {K V A} (eqb : K -> K -> bool) (k : K) (m : M V A)
  : M (dict K V) A :=
  fun o d c =>
    match dict_get eqb k d with
    | Some v => match m o v c with (x, v', c') => (x, dict_set eqb k v' d, c') end
    | None => (Raise KeyError, d, c)
    end.

(** [int(sensor_name.split("_")[1])] *)
Definition sensor_id {S} (sensor_name : string) : M S Z :=
  piece <- from_option IndexError (second (split_on "_" sensor_name)) ;;
  from_option ValueError (py_int piece).

(* ------------------------------------------------------------------ *)
(** ** src/database/models.py: enumerations and log records *)

Inductive VehicleState : Type :=
| APPROACHING | WAITING | ENTERING | PARKING | CHARGING | EXITING | DEPARTED.

Definition VehicleState_eqb (a b : VehicleState) : bool :=
  match a, b with
  | APPROACHING, APPROACHING | WAITING, WAITING | ENTERING, ENTERING
  | PARKING, PARKING | CHARGING, CHARGING | EXITING, EXITING
  | DEPARTED, DEPARTED => true
  | _, _ => false
  end.

Inductive FaultType : Type :=
| CHARGER_FAILURE | GATE_STUCK | SENSOR_NOISE | OCCUPANCY_CONFLICT | SYSTEM_ERROR.

Inductive AlertLevel : Type := INFO | WARNING | CRITICAL.

Record ControlAction : Type := mkControlAction {
  action_id : string;
  action_step_id : string;
  action_controller : string;
  action_type : string;
  target : string;
  command : string;
  success : bool
}.

Record FaultEvent : Type := mkFaultEvent {
  fault_id : string;
  fault_step_id : option string;
  fault_type : FaultType;
  alert_level : AlertLevel;
  description : string;
  affected_component : string;
  detected_at : Z;
  resolved_at : option Z
}.

(* ------------------------------------------------------------------ *)
(** ** src/simulation/sensors.py *)

Inductive SensorType : Type := GATE | OCCUPANCY | CHARGER.

(** [SensorType.value] *)
Definition SensorType_value (t : SensorType) : string :=
  match t with
  | GATE => "gate"
  | OCCUPANCY => "occupancy"
  | CHARGER => "charger"
  end.

(** The status dictionary of a charger.  Its four keys are the only ones
    the code reads or writes; [None] is an absent key (the controller's
    initial entries have neither ["power_kw"] nor ["failed"]). *)
Module Status.
Record t : Type := mk {
  connected : option bool;
  charging : option bool;
  power_kw : option Q;
  failed : option bool
}.

(** [status.get(key, False)] *)
Definition get_or_false (o : option bool) : bool :=
  match o with Some b => b | None => false end.

Definition is_empty (d : t) : bool :=
  match connected d, charging d, power_kw d, failed d with
  | None, None, None, None => true
  | _, _, _, _ => false
  end.

(** [status["connected"] = False; status["charging"] = False] *)
Definition disconnect (d : t) : t :=
  mk (Some false) (Some false) (power_kw d) (failed d).
End Status.

(** [SensorReading.value]: a boolean for gates and spots, the status
    dictionary for chargers. *)
Inductive pyvalue : Type :=
| VBool (b : bool)
| VDict (d : Status.t).

(** Truth value of a [pyvalue] in a condition. *)
Definition truthy (v : pyvalue) : bool :=
  match v with
  | VBool b => b
  | VDict d => negb (Status.is_empty d)
  end.

Module SensorReading.
Record t : Type := mk {
  sensor_name : string;
  sensor_type : SensorType;
  value : pyvalue;
  is_fault : bool;
  noise_level : Q
}.
End SensorReading.

Module GateSensor.
Record t : Type := mk {
  gate_id : Z;
  is_open : bool;
  is_failed : bool;
  failure_rate : Q
}.

Definition init (gate_id : Z) : t := mk gate_id false false (1 # 100).

Definition fail (self : t) : t :=
  mk (gate_id self) (is_open self) true (failure_rate self).

Definition read : M t SensorReading.t :=
  x <- random ;;
  rate <- gets failure_rate ;;
  (if Qltb x rate then modify fail else ret tt) ;;
  self <- get ;;
  ret (SensorReading.mk
         ("gate_" ++ str_of_int (gate_id self))
         GATE
         (VBool (is_open self && negb (is_failed self)))
         (is_failed self)
         0).

Definition set_state (is_open' : bool) (self : t) : t :=
  if negb (is_failed self)
  then mk (gate_id self) is_open' (is_failed self) (failure_rate self)
  else self.
End GateSensor.

Module OccupancySensor.
Record t : Type := mk {
  spot_id : Z;
  is_occupied : bool;
  noise_rate : Q
}.

Definition init (spot_id : Z) : t := mk spot_id false (5 # 100).

Definition read : M t SensorReading.t :=
  x <- random ;;
  self <- get ;;
  let noise := Qltb x (noise_rate self) in
  let actual_reading := is_occupied self in
  let actual_reading := if noise then negb actual_reading else actual_reading in
  ret (SensorReading.mk
         ("spot_" ++ str_of_int (spot_id self))
         OCCUPANCY
         (VBool actual_reading)
         noise
         (noise_rate self)).

Definition set_occupancy (occupied : bool) (self : t) : t :=
  mk (spot_id self) occupied (noise_rate self).
End OccupancySensor.

Module ChargerSensor.
Record t : Type := mk {
  charger_id : Z;
  is_connected : bool;
  is_charging : bool;
  is_failed : bool;
  failure_rate : Q;
  power_output : Q
}.

Definition init (charger_id : Z) : t :=
  mk charger_id false false false (2 # 100) 0.

(** [self.is_failed = True] alone, as the engine and [inject_fault] do. *)
Definition fail (self : t) : t :=
  mk (charger_id self) (is_connected self) (is_charging self) true
     (failure_rate self) (power_output self).

(** The three assignments of a failure drawn in [read]. *)
Definition break_down (self : t) : t :=
  mk (charger_id self) (is_connected self) false true (failure_rate self) 0.

Definition read : M t SensorReading.t :=
  x <- random ;;
  rate <- gets failure_rate ;;
  (if Qltb x rate then modify break_down else ret tt) ;;
  self <- get ;;
  let status :=
    Status.mk (Some (is_connected self))
              (Some (is_charging self && negb (is_failed self)))
              (Some (if negb (is_failed self) then power_output self else 0%Q))
              (Some (is_failed self)) in
  ret (SensorReading.mk
         ("charger_" ++ str_of_int (charger_id self))
         CHARGER
         (VDict status)
         (is_failed self)
         0).

Definition connect_vehicle (self : t) : t :=
  mk (charger_id self) true (is_charging self) (is_failed self)
     (failure_rate self) (power_output self).

Definition disconnect_vehicle (self : t) : t :=
  mk (charger_id self) false false (is_failed self) (failure_rate self) 0.

Definition start_charging (power_kw : Q) (self : t) : t :=
  if negb (is_failed self) && is_connected self
  then mk (charger_id self) (is_connected self) true (is_failed self)
          (failure_rate self) power_kw
  else self.

Definition stop_charging (self : t) : t :=
  mk (charger_id self) (is_connected self) false (is_failed self)
     (failure_rate self) 0.
End ChargerSensor.

Module SensorNetwork.
Record t : Type := mk {
  gates : dict Z GateSensor.t;
  occupancy_sensors : dict Z OccupancySensor.t;
  chargers : dict Z ChargerSensor.t
}.

Definition init (num_gates num_spots num_chargers : Z) : t :=
  mk (dict_of_range num_gates GateSensor.init)
     (dict_of_range num_spots OccupancySensor.init)
     (dict_of_range num_chargers ChargerSensor.init).

Definition set_gates (g : dict Z GateSensor.t) (self : t) : t :=
  mk g (occupancy_sensors self) (chargers self).
Definition set_occupancy_sensors (o : dict Z OccupancySensor.t) (self : t) : t :=
  mk (gates self) o (chargers self).
Definition set_chargers (c : dict Z ChargerSensor.t) (self : t) : t :=
  mk (gates self) (occupancy_sensors self) c.

(** One of the three loops of [read_all_sensors]: read every sensor of
    a dictionary, in its order, and file the reading under its name. *)
Definition read_each {V} (read : M V SensorReading.t)
    (keys : list Z) (readings : dict string SensorReading.t)
  : M (dict Z V) (dict string SensorReading.t) :=
  for_fold keys
    (fun k readings =>
       reading <- with_entry Z.eqb k read ;;
       ret (sset (SensorReading.sensor_name reading) reading readings))
    readings.

Definition read_all_sensors : M t (dict string SensorReading.t) :=
  let readings := [] in
  gate_ids <- gets (fun self => dict_keys (gates self)) ;;
  readings <- zoom gates set_gates
                (read_each GateSensor.read gate_ids readings) ;;
  spot_ids <- gets (fun self => dict_keys (occupancy_sensors self)) ;;
  readings <- zoom occupancy_sensors set_occupancy_sensors
                (read_each OccupancySensor.read spot_ids readings) ;;
  charger_ids <- gets (fun self => dict_keys (chargers self)) ;;
  readings <- zoom chargers set_chargers
                (read_each ChargerSensor.read charger_ids readings) ;;
  ret readings.



End SensorNetwork.

(* ------------------------------------------------------------------ *)
(** ** Arithmetic of charge levels

    [charge_level] is a Python float that is added to and compared.  The
    model is written over any number type [F] with an addition and an
    order: the exact rationals are one instance, IEEE doubles with
    round-to-nearest addition (and no NaN) satisfy the same laws. *)
Class ChargeArith (F : Type) : Type := {
  fadd : F -> F -> F;            (* x + y *)
  fleb : F -> F -> bool;         (* x <= y *)
  f_zero : F;                    (* 0.0 *)
  f_one : F;                     (* 1.0 *)
  f_initial : F;                 (* 0.2, the default charge_level *)
  f_target : F;                  (* 0.8, the default target_charge *)
  f_rate : F                     (* 0.05, the default charge_rate *)
}.

Section FloatOps.
Context {F : Type} {CA : ChargeArith F}.

(** [x >= y] *)
Definition fgeb (x y : F) : bool := fleb y x.
(** [x < y] *)
Definition fltb (x y : F) : bool := negb (fleb y x).
(** [min(a, b)]: the first argument unless the second is smaller. *)
Definition fmin (a b : F) : F := if fltb b a then b else a.
End FloatOps.

(** What the proofs about charge use of the arithmetic: [<=] is a total
    preorder, the constants are ordered as their values are, and adding
    the charge rate (a positive number) never gives a smaller result. *)
Class ChargeLaws (F : Type) {CA : ChargeArith F} : Prop := {
  fleb_refl : forall x : F, fleb x x = true;
  fleb_trans : forall x y z : F, fleb x y = true -> fleb y z = true -> fleb x z = true;
  fleb_total : forall x y : F, fleb x y = true \/ fleb y x = true;
  f_initial_lower : fleb f_zero f_initial = true;
  f_initial_upper : fleb f_initial f_one = true;
  fadd_rate_le : forall x : F, fleb x (fadd x f_rate) = true
}.
Arguments ChargeLaws F {CA}.

#[global] Instance ChargeArith_Q : ChargeArith Q := {
  fadd := Qplus;
  fleb := Qle_bool;
  f_zero := 0%Q;
  f_one := 1%Q;
  f_initial := (2 # 10)%Q;
  f_target := (8 # 10)%Q;
  f_rate := (5 # 100)%Q
}.

(* ------------------------------------------------------------------ *)
(** ** src/simulation/vehicles.py *)

Module Vehicle.
Section WithCharge.
Context {F : Type} {CA : ChargeArith F}.

Record t : Type := mk {
  vehicle_id : string;
  state : VehicleState;
  assigned_spot : option Z;
  assigned_charger : option Z;
  charge_level : F;
  target_charge : F;
  arrival_time : Z;
  departure_time : option Z
}.

Definition set_state (s : VehicleState) (v : t) : t :=
  mk (vehicle_id v) s (assigned_spot v) (assigned_charger v)
     (charge_level v) (target_charge v) (arrival_time v) (departure_time v).
Definition set_assigned_spot (o : option Z) (v : t) : t :=
  mk (vehicle_id v) (state v) o (assigned_charger v)
     (charge_level v) (target_charge v) (arrival_time v) (departure_time v).
Definition set_assigned_charger (o : option Z) (v : t) : t :=
  mk (vehicle_id v) (state v) (assigned_spot v) o
     (charge_level v) (target_charge v) (arrival_time v) (departure_time v).
Definition set_charge_level (c : F) (v : t) : t :=
  mk (vehicle_id v) (state v) (assigned_spot v) (assigned_charger v)
     c (target_charge v) (arrival_time v) (departure_time v).
Definition set_departure_time (o : option Z) (v : t) : t :=
  mk (vehicle_id v) (state v) (assigned_spot v) (assigned_charger v)
     (charge_level v) (target_charge v) (arrival_time v) o.

(** [str(uuid.uuid4())[:8]] and the dataclass defaults. *)
Definition create_new {S} (arrival_time : Z) : M S t :=
  u <- uuid4 ;;
  ret (mk (substring 0 8 u) APPROACHING None None f_initial f_target
          arrival_time None).

Definition is_charging_complete (v : t) : bool :=
  fgeb (charge_level v) (target_charge v).

Definition update_charge_by (charge_rate : F) (v : t) : t :=
  if VehicleState_eqb (state v) CHARGING
  then set_charge_level (fmin f_one (fadd (charge_level v) charge_rate)) v
  else v.

(** [update_charge()] with the default rate, as every caller has it. *)
Definition update_charge (v : t) : t := update_charge_by f_rate v.

Definition can_depart (v : t) : bool :=
  VehicleState_eqb (state v) CHARGING && is_charging_complete v.
End WithCharge.
Arguments t F : clear implicits.
End Vehicle.

Module VehicleManager.
Section WithCharge.
Context {F : Type} {CA : ChargeArith F}.

Record t : Type := mk {
  vehicles : dict string (Vehicle.t F);
  vehicle_positions : dict Z (option string)   (* spot_id -> vehicle_id *)
}.

Definition init : t := mk [] [].

Definition set_vehicles (vs : dict string (Vehicle.t F)) (self : t) : t :=
  mk vs (vehicle_positions self).

Definition add_vehicle (vehicle : Vehicle.t F) (self : t) : t :=
  mk (sset (Vehicle.vehicle_id vehicle) vehicle (vehicles self))
     (vehicle_positions self).

Definition remove_vehicle (vehicle_id : string) (self : t) : t :=
  match sget vehicle_id (vehicles self) with
  | Some vehicle =>
      let positions :=
        match Vehicle.assigned_spot vehicle with
        | Some spot => zset spot None (vehicle_positions self)
        | None => vehicle_positions self
        end in
      mk (sdel vehicle_id (vehicles self)) positions
  | None => self
  end.

(** [spot_id in self.vehicle_positions and
     self.vehicle_positions[spot_id] is not None] *)
Definition spot_taken (spot_id : Z) (self : t) : bool :=
  match zget spot_id (vehicle_positions self) with
  | Some (Some _) => true
  | _ => false
  end.

Definition assign_spot (vehicle_id : string) (spot_id : Z) (self : t)
  : bool * t :=
  if spot_taken spot_id self then (false, self)
  else
    match sget vehicle_id (vehicles self) with
    | Some vehicle =>
        let positions :=
          match Vehicle.assigned_spot vehicle with
          | Some previous => zset previous None (vehicle_positions self)
          | None => vehicle_positions self
          end in
        let vehicle := Vehicle.set_assigned_spot (Some spot_id) vehicle in
        (true, mk (sset vehicle_id vehicle (vehicles self))
                  (zset spot_id (Some vehicle_id) positions))
    | None => (false, self)
    end.

Definition free_spot (spot_id : Z) (self : t) : t :=
  match zget spot_id (vehicle_positions self) with
  | Some vehicle_id =>
      let vs :=
        match vehicle_id with
        | Some vid =>
            if negb (String.eqb vid "") then
              match sget vid (vehicles self) with
              | Some v => sset vid (Vehicle.set_assigned_spot None v) (vehicles self)
              | None => vehicles self
              end
            else vehicles self
        | None => vehicles self
        end in
      mk vs (zset spot_id None (vehicle_positions self))
  | None => self
  end.

Definition get_vehicle_at_spot (spot_id : Z) (self : t) : option (Vehicle.t F) :=
  match zget spot_id (vehicle_positions self) with
  | Some (Some vid) =>
      if negb (String.eqb vid "") then sget vid (vehicles self) else None
  | _ => None
  end.

Definition get_vehicles_by_state (s : VehicleState) (self : t)
  : list (Vehicle.t F) :=
  filter (fun v => VehicleState_eqb (Vehicle.state v) s)
         (dict_values (vehicles self)).

Definition update_all_vehicles (self : t) : t :=
  mk (map (fun kv => (fst kv, Vehicle.update_charge (snd kv))) (vehicles self))
     (vehicle_positions self).

Definition get_occupancy_status (self : t) : dict Z bool :=
  map (fun kv => (fst kv, match snd kv with Some _ => true | None => false end))
      (vehicle_positions self).

(** The first loop of [detect_occupancy_conflicts]. *)
Fixpoint spot_claims (vs : list (Vehicle.t F)) (claims : dict Z (list string))
  : dict Z (list string) :=
  match vs with
  | [] => claims
  | v :: rest =>
      match Vehicle.assigned_spot v with
      | Some spot =>
          let claims :=
            if zmem spot claims then claims else zset spot [] claims in
          let ids := match zget spot claims with Some l => l | None => [] end in
          spot_claims rest (zset spot (ids ++ [Vehicle.vehicle_id v]) claims)
      | None => spot_claims rest claims
      end
  end.

Definition detect_occupancy_conflicts (self : t) : list (Z * list string) :=
  filter (fun c => (1 <? List.length (snd c))%nat)
         (spot_claims (dict_values (vehicles self)) []).
End WithCharge.
Arguments t F : clear implicits.
End VehicleManager.

(* ------------------------------------------------------------------ *)
(** ** src/control/depot_controller.py *)

Module DepotState.
Record t : Type := mk {
  available_spots : list Z;
  available_chargers : list Z;
  gate_states : dict Z pyvalue;          (* gate_id -> is_open *)
  spot_occupancy : dict Z pyvalue;       (* spot_id -> occupied *)
  charger_status : dict Z Status.t       (* charger_id -> status *)
}.

Definition set_gate_states (g : dict Z pyvalue) (d : t) : t :=
  mk (available_spots d) (available_chargers d) g (spot_occupancy d)
     (charger_status d).
Definition set_spot_occupancy (o : dict Z pyvalue) (d : t) : t :=
  mk (available_spots d) (available_chargers d) (gate_states d) o
     (charger_status d).
Definition set_charger_status (c : dict Z Status.t) (d : t) : t :=
  mk (available_spots d) (available_chargers d) (gate_states d)
     (spot_occupancy d) c.
End DepotState.

Module DepotController.
Record t : Type := mk {
  num_gates : Z;
  num_spots : Z;
  num_chargers : Z;
  depot_state : DepotState.t
}.

Definition set_depot_state (d : DepotState.t) (self : t) : t :=
  mk (num_gates self) (num_spots self) (num_chargers self) d.

Definition init (num_gates num_spots num_chargers : Z) : t :=
  mk num_gates num_spots num_chargers
     (DepotState.mk
        (range num_spots)
        (range num_chargers)
        (dict_of_range num_gates (fun _ => VBool false))
        (dict_of_range num_spots (fun _ => VBool false))
        (dict_of_range num_chargers
           (fun _ => Status.mk (Some false) (Some false) None None))).

(** The body of the loop of [_update_depot_state]. *)
Definition update_from_reading (sensor_name : string) (reading : SensorReading.t)
  : M DepotState.t unit :=
  if startswith sensor_name "gate_" then
    gate_id <- sensor_id sensor_name ;;
    modify (fun d => DepotState.set_gate_states
                       (zset gate_id (SensorReading.value reading)
                             (DepotState.gate_states d)) d)
  else if startswith sensor_name "spot_" then
    spot_id <- sensor_id sensor_name ;;
    modify (fun d => DepotState.set_spot_occupancy
                       (zset spot_id (SensorReading.value reading)
                             (DepotState.spot_occupancy d)) d)
  else if startswith sensor_name "charger_" then
    charger_id <- sensor_id sensor_name ;;
    match SensorReading.value reading with
    | VDict status =>
        modify (fun d => DepotState.set_charger_status
                           (zset charger_id status
                                 (DepotState.charger_status d)) d)
    | VBool _ => ret tt
    end
  else ret tt.

Definition _update_depot_state (sensor_readings : dict string SensorReading.t)
  : M t unit :=
  zoom depot_state set_depot_state
    (for_each sensor_readings
       (fun item => update_from_reading (fst item) (snd item))).

Definition _can_admit_vehicle (self : t) : bool :=
  let available_spots :=
    List.length (filter (fun occupied => negb (truthy occupied))
                   (dict_values (DepotState.spot_occupancy (depot_state self)))) in
  let working_chargers :=
    List.length (filter (fun status => negb (Status.get_or_false (Status.failed status)))
                   (dict_values (DepotState.charger_status (depot_state self)))) in
  ((0 <? available_spots) && (0 <? working_chargers))%nat.

(** [ControlAction(action_id=str(uuid.uuid4()), ...)] *)
Definition _create_action {S} (controller action_type target command : string)
    (current_step : Z) : M S ControlAction :=
  u <- uuid4 ;;
  ret (mkControlAction u ("step_" ++ str_of_int current_step)
         controller action_type target command true).

Section WithCharge.
Context {F : Type} {CA : ChargeArith F}.

(** The controller and the vehicle manager its methods are handed. *)
Definition W : Type := (t * VehicleManager.t F)%type.

Definition on_self {A} (m : M t A) : M W A :=
  zoom fst (fun c w => (c, snd w)) m.
Definition on_manager {A} (m : M (VehicleManager.t F) A) : M W A :=
  zoom snd (fun v w => (fst w, v)) m.

(** An assignment to attributes of the vehicle object stored under
    key [k]. *)
Definition update_vehicle (k : string) (f : Vehicle.t F -> Vehicle.t F)
  : M W unit :=
  on_manager
    (modify (fun vm =>
       match sget k (VehicleManager.vehicles vm) with
       | Some v => VehicleManager.set_vehicles
                     (sset k (f v) (VehicleManager.vehicles vm)) vm
       | None => vm
       end)).

Fixpoint assign_parking_spot_from (spot_ids : list Z) (vehicle_id : string)
  : M W (option Z) :=
  match spot_ids with
  | [] => ret None
  | spot_id :: rest =>
      occupied <- on_self (self <- get ;;
                           index Z.eqb spot_id
                             (DepotState.spot_occupancy (depot_state self))) ;;
      if negb (truthy occupied) then
        assigned <- on_manager
                      (call (VehicleManager.assign_spot vehicle_id spot_id)) ;;
        if assigned then ret (Some spot_id)
        else assign_parking_spot_from rest vehicle_id
      else assign_parking_spot_from rest vehicle_id
  end.

Definition _assign_parking_spot (vehicle : Vehicle.t F) : M W (option Z) :=
  self <- gets fst ;;
  assign_parking_spot_from (range (num_spots self)) (Vehicle.vehicle_id vehicle).

Fixpoint assign_charger_from (charger_ids : list Z) : M t (option Z) :=
  match charger_ids with
  | [] => ret None
  | charger_id :: rest =>
      self <- get ;;
      status <- index Z.eqb charger_id
                  (DepotState.charger_status (depot_state self)) ;;
      if negb (Status.get_or_false (Status.connected status))
         && negb (Status.get_or_false (Status.failed status))
      then ret (Some charger_id)
      else assign_charger_from rest
  end.

(** The vehicle argument is not read. *)
Definition _assign_charger (vehicle : Vehicle.t F) : M t (option Z) :=
  self <- get ;;
  assign_charger_from (range (num_chargers self)).

Definition _is_charger_failed (charger_id : option Z) (self : t) : bool :=
  match charger_id with
  | None => false
  | Some c =>
      match zget c (DepotState.charger_status (depot_state self)) with
      | Some status => Status.get_or_false (Status.failed status)
      | None => false
      end
  end.

(** The status written here is the dictionary object of the step's
    reading, which the view shares with it; the engine has logged the
    readings before the controller runs and [_detect_faults] reads only
    [is_fault] and the names afterwards, so the sharing is not observed
    and the view holds its own copy. *)
Definition _free_vehicle_resources (vehicle : Vehicle.t F) : M W unit :=
  match Vehicle.assigned_spot vehicle with
  | Some spot => on_manager (modify (VehicleManager.free_spot spot))
  | None => ret tt
  end ;;
  match Vehicle.assigned_charger vehicle with
  | Some c =>
      on_self
        (self <- get ;;
         status <- index Z.eqb c
                     (DepotState.charger_status (depot_state self)) ;;
         put (set_depot_state
                (DepotState.set_charger_status
                   (zset c (Status.disconnect status)
                         (DepotState.charger_status (depot_state self)))
                   (depot_state self))
                self))
  | None => ret tt
  end.

(** [_process_vehicle] for the vehicle object stored under key [k] of
    the manager's dictionary, as [process_step] calls it. *)
Definition _process_vehicle (k : string) (current_step : Z)
  : M W (list ControlAction) :=
  w <- get ;;
  match sget k (VehicleManager.vehicles (snd w)) with
  | None => ret []
  | Some vehicle =>
      match Vehicle.state vehicle with
      | APPROACHING =>
          if _can_admit_vehicle (fst w) then
            spot <- _assign_parking_spot vehicle ;;
            match spot with
            | Some s =>
                update_vehicle k (Vehicle.set_state ENTERING) ;;
                a <- _create_action "depot_controller" "vehicle_assignment"
                       ("vehicle_" ++ Vehicle.vehicle_id vehicle)
                       ("assign_spot_" ++ str_of_int s) current_step ;;
                ret [a]
            | None =>
                update_vehicle k (Vehicle.set_state WAITING) ;;
                ret []
            end
          else ret []
      | ENTERING =>
          update_vehicle k (Vehicle.set_state PARKING) ;;
          ret []
      | PARKING =>
          charger <- on_self (_assign_charger vehicle) ;;
          match charger with
          | Some c =>
              update_vehicle k (Vehicle.set_assigned_charger (Some c)) ;;
              update_vehicle k (Vehicle.set_state CHARGING) ;;
              a <- _create_action "depot_controller" "charger_assignment"
                     ("charger_" ++ str_of_int c) "start_charging"
                     current_step ;;
              ret [a]
          | None => ret []
          end
      | CHARGING =>
          if Vehicle.can_depart vehicle then
            update_vehicle k (Vehicle.set_state EXITING) ;;
            match Vehicle.assigned_charger vehicle with
            | Some c =>
                a <- _create_action "depot_controller" "charger_control"
                       ("charger_" ++ str_of_int c) "stop_charging"
                       current_step ;;
                ret [a]
            | None => ret []
            end
          else if _is_charger_failed (Vehicle.assigned_charger vehicle) (fst w)
          then
            update_vehicle k (Vehicle.set_state WAITING) ;;
            a <- _create_action "depot_controller" "fault_response"
                   ("vehicle_" ++ Vehicle.vehicle_id vehicle)
                   "charger_failure_detected" current_step ;;
            ret [a]
          else ret []
      | EXITING =>
          _free_vehicle_resources vehicle ;;
          update_vehicle k (Vehicle.set_state DEPARTED) ;;
          update_vehicle k (Vehicle.set_departure_time (Some current_step)) ;;
          ret []
      | WAITING | DEPARTED => ret []      (* no branch of the if/elif chain *)
      end
  end.

(** The decision of [_control_gates]. *)
Definition should_open_gate (w : W) : bool :=
  let waiting_vehicles :=
    VehicleManager.get_vehicles_by_state WAITING (snd w) in
  let approaching_vehicles :=
    VehicleManager.get_vehicles_by_state APPROACHING (snd w) in
  ((0 <? List.length waiting_vehicles)%nat
   || (0 <? List.length approaching_vehicles)%nat)
  && _can_admit_vehicle (fst w).

(** The body of the loop of [_control_gates]. *)
Definition control_gate (should_open : bool) (current_step gate_id : Z)
  : M W (list ControlAction) :=
  self <- gets fst ;;
  current_state <- index Z.eqb gate_id
                     (DepotState.gate_states (depot_state self)) ;;
  if should_open && negb (truthy current_state) then
    a <- _create_action "depot_controller" "gate_control"
           ("gate_" ++ str_of_int gate_id) "open" current_step ;;
    ret [a]
  else if negb should_open && truthy current_state then
    a <- _create_action "depot_controller" "gate_control"
           ("gate_" ++ str_of_int gate_id) "close" current_step ;;
    ret [a]
  else ret [].

Definition _control_gates (current_step : Z) : M W (list ControlAction) :=
  w <- get ;;
  let should_open := should_open_gate w in
  for_extend (range (num_gates (fst w)))
             (control_gate should_open current_step).

Definition process_step (sensor_readings : dict string SensorReading.t)
    (current_step : Z) : M W (list ControlAction) :=
  on_self (_update_depot_state sensor_readings) ;;
  keys <- gets (fun w => dict_keys (VehicleManager.vehicles (snd w))) ;;
  actions <- for_extend keys (fun k => _process_vehicle k current_step) ;;
  gate_actions <- _control_gates current_step ;;
  ret (actions ++ gate_actions).
End WithCharge.
End DepotController.

(* ------------------------------------------------------------------ *)
(** ** The log sink of src/database/models.py

    The database is an append-only sink: each table is the list of the
    rows inserted so far.  Wall-clock time stamps are left out.  An
    INSERT of a primary key that is already there raises
    [sqlite3.IntegrityError] in the code and is accepted here: the sink
    is the code's on ids that are new, as the [uuid4] ids of an engine
    just built are. *)

Record SimulationRun : Type := mkSimulationRun {
  run_run_id : string;
  scenario_name : string;
  run_total_steps : Z
}.

Record SimulationStep : Type := mkSimulationStep {
  step_step_id : string;
  step_run_id : string;
  time_step : Z
}.

Module DBSensorReading.
Record t : Type := mk {
  reading_id : string;
  step_id : string;
  sensor_type : string;
  sensor_name : string;
  value : pyvalue;
  is_fault : bool
}.
End DBSensorReading.

Module DatabaseManager.
Record t : Type := mk {
  simulation_runs : list SimulationRun;
  simulation_steps : list SimulationStep;
  sensor_readings : list DBSensorReading.t;
  control_actions : list ControlAction;
  fault_events : list FaultEvent
}.

Definition empty : t := mk [] [] [] [] [].

Definition insert_simulation_run (run : SimulationRun) (db : t) : t :=
  mk (simulation_runs db ++ [run]) (simulation_steps db) (sensor_readings db)
     (control_actions db) (fault_events db).
Definition insert_simulation_step (step : SimulationStep) (db : t) : t :=
  mk (simulation_runs db) (simulation_steps db ++ [step]) (sensor_readings db)
     (control_actions db) (fault_events db).
Definition insert_sensor_reading (reading : DBSensorReading.t) (db : t) : t :=
  mk (simulation_runs db) (simulation_steps db) (sensor_readings db ++ [reading])
     (control_actions db) (fault_events db).
Definition insert_control_action (action : ControlAction) (db : t) : t :=
  mk (simulation_runs db) (simulation_steps db) (sensor_readings db)
     (control_actions db ++ [action]) (fault_events db).
Definition insert_fault_event (fault : FaultEvent) (db : t) : t :=
  mk (simulation_runs db) (simulation_steps db) (sensor_readings db)
     (control_actions db) (fault_events db ++ [fault]).

(** [UPDATE simulation_runs SET total_steps = ? WHERE run_id = ?] *)
Definition update_total_steps (run_id : string) (total_steps : Z) (db : t) : t :=
  mk (map (fun run => if String.eqb (run_run_id run) run_id
                      then mkSimulationRun (run_run_id run) (scenario_name run)
                                           total_steps
                      else run)
          (simulation_runs db))
     (simulation_steps db) (sensor_readings db)
     (control_actions db) (fault_events db).
End DatabaseManager.

(* ------------------------------------------------------------------ *)
(** ** src/simulation/engine.py *)

Module SimulationConfig.
Record t : Type := mk {
  num_gates : Z;
  num_spots : Z;
  num_chargers : Z;
  max_steps : Z;
  vehicle_arrival_rate : Q;
  charger_failure_step : option Z;
  gate_failure_step : option Z;
  noise_level : Q
}.

Definition default : t := mk 2 10 6 100 (3 # 10) None None (5 # 100).
End SimulationConfig.

(** The dictionary [run_step] returns. *)
Record StepResult : Type := mkStepResult {
  result_step : Z;
  result_vehicles : nat;
  result_sensor_readings : nat;
  result_control_actions : nat;
  result_faults : nat
}.

(** The dictionary [run_complete_simulation] returns. *)
Record RunResult : Type := mkRunResult {
  result_run_id : string;
  total_steps : Z;
  total_faults : nat;
  step_results : list StepResult
}.

(** [str(l)] for a list of strings without quotes or escapes. *)
Definition repr_str_list (l : list string) : string :=
  ("[" ++ String.concat ", " (map (fun s => "'" ++ s ++ "'")%string l) ++ "]")%string.

(** Truth value of an [Optional[int]]. *)
Definition truthy_step (o : option Z) : bool :=
  match o with
  | Some n => negb (n =? 0)%Z
  | None => false
  end.

Module SimulationEngine.
Section WithCharge.
Context {F : Type} {CA : ChargeArith F}.

Record t : Type := mk {
  config : SimulationConfig.t;
  db_manager : DatabaseManager.t;
  sensor_network : SensorNetwork.t;
  vehicle_manager : VehicleManager.t F;
  controller : DepotController.t;
  current_step : Z;
  run_id : string;
  step_id : option string;
  faults_detected : list FaultEvent
}.

Definition set_db_manager (d : DatabaseManager.t) (e : t) : t :=
  mk (config e) d (sensor_network e) (vehicle_manager e) (controller e)
     (current_step e) (run_id e) (step_id e) (faults_detected e).
Definition set_sensor_network (n : SensorNetwork.t) (e : t) : t :=
  mk (config e) (db_manager e) n (vehicle_manager e) (controller e)
     (current_step e) (run_id e) (step_id e) (faults_detected e).
Definition set_vehicle_manager (v : VehicleManager.t F) (e : t) : t :=
  mk (config e) (db_manager e) (sensor_network e) v (controller e)
     (current_step e) (run_id e) (step_id e) (faults_detected e).
Definition set_controller (c : DepotController.t) (e : t) : t :=
  mk (config e) (db_manager e) (sensor_network e) (vehicle_manager e) c
     (current_step e) (run_id e) (step_id e) (faults_detected e).
Definition set_current_step (n : Z) (e : t) : t :=
  mk (config e) (db_manager e) (sensor_network e) (vehicle_manager e)
     (controller e) n (run_id e) (step_id e) (faults_detected e).
Definition set_step_id (s : option string) (e : t) : t :=
  mk (config e) (db_manager e) (sensor_network e) (vehicle_manager e)
     (controller e) (current_step e) (run_id e) s (faults_detected e).
Definition set_faults_detected (l : list FaultEvent) (e : t) : t :=
  mk (config e) (db_manager e) (sensor_network e) (vehicle_manager e)
     (controller e) (current_step e) (run_id e) (step_id e) l.

Definition on_db {A} (m : M DatabaseManager.t A) : M t A :=
  zoom db_manager set_db_manager m.
Definition on_network {A} (m : M SensorNetwork.t A) : M t A :=
  zoom sensor_network set_sensor_network m.
Definition on_manager {A} (m : M (VehicleManager.t F) A) : M t A :=
  zoom vehicle_manager set_vehicle_manager m.
Definition on_controller {A} (m : M DepotController.W A) : M t A :=
  zoom (fun e => (controller e, vehicle_manager e))
       (fun w e => set_vehicle_manager (snd w) (set_controller (fst w) e)) m.

(** [SimulationEngine(config, db_manager)], the run id being given. *)
Definition create (config : SimulationConfig.t) (db_manager : DatabaseManager.t)
    (run_id : string) : t :=
  mk config db_manager
     (SensorNetwork.init (SimulationConfig.num_gates config)
                         (SimulationConfig.num_spots config)
                         (SimulationConfig.num_chargers config))
     VehicleManager.init
     (DepotController.init (SimulationConfig.num_gates config)
                           (SimulationConfig.num_spots config)
                           (SimulationConfig.num_chargers config))
     0 run_id None [].

(** [SimulationEngine(config, db_manager)] *)
Definition init {S} (config : SimulationConfig.t) (db_manager : DatabaseManager.t)
  : M S t :=
  u <- uuid4 ;;
  ret (create config db_manager u).

Definition start_simulation (scenario_name : string) : M t unit :=
  self <- get ;;
  on_db (modify (DatabaseManager.insert_simulation_run
                   (mkSimulationRun (run_id self) scenario_name 0))).

Definition _generate_vehicles : M t unit :=
  x <- random ;;
  self <- get ;;
  if Qltb x (SimulationConfig.vehicle_arrival_rate (config self)) then
    vehicle <- Vehicle.create_new (current_step self) ;;
    on_manager (modify (VehicleManager.add_vehicle vehicle))
  else ret tt.

Definition _inject_failures : M t unit :=
  self <- get ;;
  (if truthy_step (SimulationConfig.charger_failure_step (config self))
      && match SimulationConfig.charger_failure_step (config self) with
         | Some n => (current_step self =? n)%Z
         | None => false
         end
   then on_network (zoom SensorNetwork.chargers SensorNetwork.set_chargers
                      (with_entry Z.eqb 0 (modify ChargerSensor.fail)))
   else ret tt) ;;
  (if truthy_step (SimulationConfig.gate_failure_step (config self))
      && match SimulationConfig.gate_failure_step (config self) with
         | Some n => (current_step self =? n)%Z
         | None => false
         end
   then on_network (zoom SensorNetwork.gates SensorNetwork.set_gates
                      (with_entry Z.eqb 0 (modify GateSensor.fail)))
   else ret tt).

Definition _classify_fault_type (reading : SensorReading.t) : FaultType :=
  if String.eqb (SensorType_value (SensorReading.sensor_type reading)) "charger"
  then CHARGER_FAILURE
  else if String.eqb (SensorType_value (SensorReading.sensor_type reading)) "gate"
  then GATE_STUCK
  else SENSOR_NOISE.

Definition _detect_faults (sensor_readings : dict string SensorReading.t)
  : M t (list FaultEvent) :=
  self <- get ;;
  sensor_faults <-
    for_extend (dict_values sensor_readings)
      (fun reading =>
         if SensorReading.is_fault reading then
           u <- uuid4 ;;
           ret [mkFaultEvent u (step_id self)
                  (_classify_fault_type reading) WARNING
                  ("Sensor fault detected: " ++ SensorReading.sensor_name reading)
                  (SensorReading.sensor_name reading)
                  (current_step self) None]
         else ret []) ;;
  let conflicts :=
    VehicleManager.detect_occupancy_conflicts (vehicle_manager self) in
  conflict_faults <-
    for_extend conflicts
      (fun c =>
         u <- uuid4 ;;
         ret [mkFaultEvent u (step_id self) OCCUPANCY_CONFLICT CRITICAL
                ("Multiple vehicles claiming spot " ++ str_of_int (fst c)
                   ++ ": " ++ repr_str_list (snd c))
                ("spot_" ++ str_of_int (fst c))
                (current_step self) None]) ;;
  ret (sensor_faults ++ conflict_faults).

Definition run_step : M t StepResult :=
  modify (fun self => set_current_step (current_step self + 1) self) ;;
  modify (fun self =>
            set_step_id
              (Some (run_id self ++ "_" ++ str_of_int (current_step self))%string)
              self) ;;
  self <- get ;;
  let this_step_id :=
    (run_id self ++ "_" ++ str_of_int (current_step self))%string in
  on_db (modify (DatabaseManager.insert_simulation_step
                   (mkSimulationStep this_step_id (run_id self)
                                     (current_step self)))) ;;
  _inject_failures ;;
  _generate_vehicles ;;
  sensor_readings <- on_network SensorNetwork.read_all_sensors ;;
  for_each (dict_values sensor_readings)
    (fun reading =>
       u <- uuid4 ;;
       on_db (modify (DatabaseManager.insert_sensor_reading
                        (DBSensorReading.mk u this_step_id
                           (SensorType_value (SensorReading.sensor_type reading))
                           (SensorReading.sensor_name reading)
                           (SensorReading.value reading)
                           (SensorReading.is_fault reading))))) ;;
  on_manager (modify VehicleManager.update_all_vehicles) ;;
  control_actions <-
    on_controller
      (DepotController.process_step sensor_readings (current_step self)) ;;
  for_each control_actions
    (fun action => on_db (modify (DatabaseManager.insert_control_action action))) ;;
  faults <- _detect_faults sensor_readings ;;
  for_each faults
    (fun fault =>
       on_db (modify (DatabaseManager.insert_fault_event fault)) ;;
       modify (fun self =>
                 set_faults_detected (faults_detected self ++ [fault]) self)) ;;
  self <- get ;;
  ret (mkStepResult (current_step self)
         (List.length (VehicleManager.vehicles (vehicle_manager self)))
         (List.length sensor_readings)
         (List.length control_actions)
         (List.length faults)).

Definition _finalize_simulation : M t unit :=
  self <- get ;;
  on_db (modify (DatabaseManager.update_total_steps
                   (run_id self) (current_step self))).

(** The [for _ in range(max_steps)] loop of [run_complete_simulation],
    [n] iterations left. *)
Fixpoint simulation_loop (n : nat) (results : list StepResult)
  : M t (list StepResult) :=
  match n with
  | O => ret results
  | Datatypes.S n' =>
      step_result <- run_step ;;
      let results := results ++ [step_result] in
      self <- get ;;
      if (10 <? List.length (faults_detected self))%nat   (* Too many faults *)
      then ret results
      else simulation_loop n' results
  end.

Definition run_complete_simulation (scenario_name : string) : M t RunResult :=
  start_simulation scenario_name ;;
  self <- get ;;
  results <- simulation_loop
               (Z.to_nat (SimulationConfig.max_steps (config self))) [] ;;
  _finalize_simulation ;;
  self <- get ;;
  ret (mkRunResult (run_id self) (current_step self)
         (List.length (faults_detected self)) results).
End WithCharge.
Arguments t F : clear implicits.
End SimulationEngine.


(* ================================================================== *)
(** * Specifications of methods *)

(** [triple G P m Q]: on streams satisfying [G], from an object
    satisfying [P], the method [m] ends, by a [return] or by a [raise],
    in an outcome and an object satisfying [Q]. *)
Definition triple {S A} (G : Streams -> Prop) (P : S -> Prop) (m : M S A)
    (Q : outcome A -> S -> Prop) : Prop :=
  forall o s c, G o -> P s ->
    match m o s c with (x, s', _) => Q x s' end.

(** No assumption on the streams. *)
Definition any_streams : Streams -> Prop := fun _ => True.

(** The object a run ends in, and its outcome. *)
Definition final_state {S A} (x : outcome A * S * Cursor) : S := snd (fst x).
Definition final_outcome {S A} (x : outcome A * S * Cursor) : outcome A := fst (fst x).

Definition returned {A} (o : outcome A) : bool :=
  match o with Ok _ => true | Raise _ => false end.

(** [k] calls of [run_step] in a row, stopping at the first that raises. *)
Fixpoint run_steps {F : Type} {CA : ChargeArith F} (k : nat)
  : M (SimulationEngine.t F) (list StepResult) :=
  match k with
  | O => ret []
  | Datatypes.S k' =>
      step_result <- SimulationEngine.run_step ;;
      rest <- run_steps k' ;;
      ret (step_result :: rest)
  end.

(* ------------------------------------------------------------------ *)
(** ** Concrete runs *)

(** The scenarios of [run_sim.py] used below. *)
Definition scenario_high_traffic : SimulationConfig.t :=
  SimulationConfig.mk 2 8 6 100 (8 # 10) None None (5 # 100).

(** A depot of one gate, one spot and one charger. *)
Definition one_of_each : SimulationConfig.t :=
  SimulationConfig.mk 1 1 1 100 (3 # 10) None None (5 # 100).

(** uuid stream: "10000000", "10000001", ... *)
Definition uid_counting (i : nat) : string := str_of_int (10000000 + Z.of_nat i).

(** Every draw is 0.5: above every failure and noise rate. *)
Definition streams_half : Streams := mkStreams (fun _ => 1 # 2) uid_counting.

(** Draws are 0.5 but for those whose index is listed, which are 0. *)
Definition streams_zero_at (zeros : list nat) : Streams :=
  mkStreams (fun i => if existsb (Nat.eqb i) zeros then 0%Q else (1 # 2)%Q)
            uid_counting.

(** The engine as constructed for a configuration, on an empty log. *)
Definition fresh_engine (config : SimulationConfig.t) : SimulationEngine.t Q :=
  SimulationEngine.create config DatabaseManager.empty "run".

(** State, spot and charger of every vehicle of a registry. *)
Definition fleet_of {F : Type} (vm : VehicleManager.t F)
  : list (string * VehicleState * option Z * option Z) :=
  map (fun kv => (fst kv, Vehicle.state (snd kv), Vehicle.assigned_spot (snd kv),
                  Vehicle.assigned_charger (snd kv)))
      (VehicleManager.vehicles vm).

Definition fleet {F : Type} (e : SimulationEngine.t F) :=
  fleet_of (SimulationEngine.vehicle_manager e).

(** [Vehicle(vehicle_id=id, state=s)] *)
Definition vehicle_in (s : VehicleState) (id : string) : Vehicle.t Q :=
  Vehicle.mk id s None None f_initial f_target 0 None.

(** A registry to which the given vehicles were added in turn. *)
Definition registry_of (vs : list (Vehicle.t Q)) : VehicleManager.t Q :=
  fold_left (fun vm v => VehicleManager.add_vehicle v vm) vs VehicleManager.init.

(** Readings as the sensors build them. *)
Definition spot_reading (name : string) (occupied : bool) : SensorReading.t :=
  SensorReading.mk name OCCUPANCY (VBool occupied) false (5 # 100).

(* ------------------------------------------------------------------ *)
(** ** Sensor names the controller can read *)

Definition known_prefix (sensor_name : string) : bool :=
  startswith sensor_name "gate_" || startswith sensor_name "spot_"
  || startswith sensor_name "charger_".

(** The id [int(sensor_name.split("_")[1])] evaluates to, if it does. *)
Definition id_of_name (sensor_name : string) : option Z :=
  match second (split_on "_" sensor_name) with
  | Some piece => py_int piece
  | None => None
  end.


(** A name is readable when it has no known prefix (it is skipped) or
    its id is an integer. *)
Definition readable (sensor_name : string) : bool :=
  negb (known_prefix sensor_name)
  || match id_of_name sensor_name with Some _ => true | None => false end.

(* ------------------------------------------------------------------ *)
(** ** Gate commands *)

(** What a gate reports in the controller's view of the depot. *)
Definition reported_open (self : DepotController.t) (gate_id : Z) : bool :=
  match zget gate_id (DepotState.gate_states (DepotController.depot_state self)) with
  | Some v => truthy v
  | None => false
  end.

(** The command a gate is sent under a decision: none when its reported
    state agrees with it. *)
Definition gate_command (self : DepotController.t) (decision : bool) (gate_id : Z)
  : list (string * string * string) :=
  if Bool.eqb (reported_open self gate_id) decision then []
  else [("gate_control", ("gate_" ++ str_of_int gate_id)%string,
         if decision then "open" else "close")].

(** Type, target and command of an action. *)
Definition action_summary (a : ControlAction) : string * string * string :=
  (action_type a, target a, command a).

(** How many of the actions are addressed to a target. *)
Definition actions_for (target_name : string) (actions : list ControlAction) : nat :=
  List.length (filter (fun a => String.eqb (target a) target_name) actions).

(** What is asked of a returned value, nothing being asked after a raise:
    of every item of a returned list, or of the returned value itself. *)
Definition all_items {Y} (Py : Y -> Prop) (x : outcome (list Y)) : Prop :=
  match x with Ok ys => Forall Py ys | Raise _ => True end.

Definition good_result {Acc} (J : Acc -> Prop) (x : outcome Acc) : Prop :=
  match x with Ok acc => J acc | Raise _ => True end.

(** [keeps G I m]: the method [m] maintains [I], whether it returns or
    raises. *)
Definition keeps {S A} (G : Streams -> Prop) (I : S -> Prop) (m : M S A) : Prop :=
  triple G I m (fun _ => I).

(* ------------------------------------------------------------------ *)
(** ** What can happen to a sensor *)

(** The methods of a gate sensor, and the two places that set
    [is_failed] from outside ([SensorNetwork.inject_fault] and the
    engine's [_inject_failures]). *)
Inductive gate_op : Type :=
| GateRead
| GateSetState (is_open : bool)
| GateInjectFault.

Definition gate_apply (op : gate_op) : M GateSensor.t unit :=
  match op with
  | GateRead => _ <- GateSensor.read ;; ret tt
  | GateSetState b => modify (GateSensor.set_state b)
  | GateInjectFault => modify GateSensor.fail
  end.

Inductive charger_op : Type :=
| ChargerRead
| ChargerConnect
| ChargerDisconnect
| ChargerStart (power_kw : Q)
| ChargerStop
| ChargerInjectFault.

Definition charger_apply (op : charger_op) : M ChargerSensor.t unit :=
  match op with
  | ChargerRead => _ <- ChargerSensor.read ;; ret tt
  | ChargerConnect => modify ChargerSensor.connect_vehicle
  | ChargerDisconnect => modify ChargerSensor.disconnect_vehicle
  | ChargerStart p => modify (ChargerSensor.start_charging p)
  | ChargerStop => modify ChargerSensor.stop_charging
  | ChargerInjectFault => modify ChargerSensor.fail
  end.

(** A reading that reports a failed gate, and one that reports a failed
    charger. *)
Definition reports_failed_gate (reading : SensorReading.t) : Prop :=
  SensorReading.is_fault reading = true
  /\ SensorReading.value reading = VBool false.

Definition reports_failed_charger (reading : SensorReading.t) : Prop :=
  SensorReading.is_fault reading = true
  /\ exists status,
       SensorReading.value reading = VDict status
       /\ Status.failed status = Some true
       /\ Status.charging status = Some false
       /\ Status.power_kw status = Some 0%Q.

(** The sensor under an id exists and has its failed flag set. *)
Definition gate_down (gate_id : Z) (net : SensorNetwork.t) : Prop :=
  exists g, zget gate_id (SensorNetwork.gates net) = Some g
            /\ GateSensor.is_failed g = true.

Definition charger_down (charger_id : Z) (net : SensorNetwork.t) : Prop :=
  exists ch, zget charger_id (SensorNetwork.chargers net) = Some ch
             /\ ChargerSensor.is_failed ch = true.

(** [run_complete_simulation] with its loop replaced by exactly [k]
    calls of [run_step]. *)
Definition run_with_steps {F : Type} {CA : ChargeArith F}
    (k : nat) (scenario_name : string) : M (SimulationEngine.t F) RunResult :=
  SimulationEngine.start_simulation scenario_name ;;
  results <- run_steps k ;;
  SimulationEngine._finalize_simulation ;;
  self <- get ;;
  ret (mkRunResult (SimulationEngine.run_id self)
         (SimulationEngine.current_step self)
         (List.length (SimulationEngine.faults_detected self)) results).

(** The number of faults detected so far. *)
Definition fault_count {F : Type} (e : SimulationEngine.t F) : nat :=
  List.length (SimulationEngine.faults_detected e).

(* ------------------------------------------------------------------ *)
(** ** Charge levels *)

(** [0.0 <= x <= 1.0] *)
Definition in_unit {F : Type} {CA : ChargeArith F} (x : F) : Prop :=
  fleb f_zero x = true /\ fleb x f_one = true.

(** Every vehicle of the registry has its charge level in [[0, 1]]. *)
Definition charges_in_unit {F : Type} {CA : ChargeArith F}
    (vehicles : dict string (Vehicle.t F)) : Prop :=
  Forall (fun kv => in_unit (Vehicle.charge_level (snd kv))) vehicles.

(** No [uuid4] of the streams yields the vehicle id [k]. *)
Definition never_issues (k : string) (o : Streams) : Prop :=
  forall i, substring 0 8 (uid o i) <> k.

(** A property of the vehicles dictionary is charge-stable when it
    survives replacing a vehicle by one of the same charge level. *)
Definition charge_stable {F : Type} {CA : ChargeArith F}
    (D : dict string (Vehicle.t F) -> Prop) : Prop :=
  forall d k v v',
    sget k d = Some v ->
    Vehicle.charge_level v' = Vehicle.charge_level v ->
    D d -> D (sset k v' d).

(* ------------------------------------------------------------------ *)
(** ** A controller and a registry that fit together *)

(** The depot state has an entry for every configured gate, spot and
    charger (as [__init__] creates them), and every charger a vehicle
    has been assigned is one the depot state knows. *)
Definition wired {F : Type} {CA : ChargeArith F} (w : DepotController.W (F := F))
  : Prop :=
  let self := fst w in
  let view := DepotController.depot_state self in
  (forall g, In g (range (DepotController.num_gates self)) ->
             zmem g (DepotState.gate_states view) = true)
  /\ (forall s, In s (range (DepotController.num_spots self)) ->
                zmem s (DepotState.spot_occupancy view) = true)
  /\ (forall c, In c (range (DepotController.num_chargers self)) ->
                zmem c (DepotState.charger_status view) = true)
  /\ Forall (fun kv => forall c, Vehicle.assigned_charger (snd kv) = Some c ->
                                 zmem c (DepotState.charger_status view) = true)
            (VehicleManager.vehicles (snd w)).

(** Outcomes: [post Q E] is [Q] of what is returned, [E] after a raise. *)
Definition post {S A} (Q : A -> S -> Prop) (E : S -> Prop)
  : outcome A -> S -> Prop :=
  fun x s => match x with Ok a => Q a s | Raise _ => E s end.

(** [total G I m]: from [I] the method [m] returns, and [I] holds then. *)
Definition total {S A} (G : Streams -> Prop) (I : S -> Prop) (m : M S A) : Prop :=
  triple G I m (post (fun _ => I) (fun _ => False)).

(** The view [d] has an entry wherever [d0] has one. *)
Definition view_covers (d0 d : DepotState.t) : Prop :=
  (forall g, zmem g (DepotState.gate_states d0) = true ->
             zmem g (DepotState.gate_states d) = true)
  /\ (forall s, zmem s (DepotState.spot_occupancy d0) = true ->
                zmem s (DepotState.spot_occupancy d) = true)
  /\ (forall c, zmem c (DepotState.charger_status d0) = true ->
                zmem c (DepotState.charger_status d) = true).

(* ------------------------------------------------------------------ *)
(** ** A depot nobody arrives at *)

(** Every gate sensor is closed. *)
Definition gates_closed (gates : dict Z GateSensor.t) : Prop :=
  Forall (fun kv => GateSensor.is_open (snd kv) = false) gates.

(** Every gate reads closed in the controller's view. *)
Definition view_closed (view : DepotState.t) : Prop :=
  Forall (fun kv => truthy (snd kv) = false) (DepotState.gate_states view).

(** A reading filed under a gate name reads closed. *)
Definition gate_reads_closed (item : string * SensorReading.t) : Prop :=
  startswith (fst item) "gate_" = true ->
  truthy (SensorReading.value (snd item)) = false.

(** No vehicle is registered, the control actions logged are still
    [logged], no gate is open or seen open, and vehicles cannot arrive. *)
Definition quiet {F : Type} (logged : list ControlAction) (e : SimulationEngine.t F)
  : Prop :=
  (SimulationConfig.vehicle_arrival_rate (SimulationEngine.config e) <= 0)%Q
  /\ VehicleManager.vehicles (SimulationEngine.vehicle_manager e) = []
  /\ DatabaseManager.control_actions (SimulationEngine.db_manager e) = logged
  /\ gates_closed (SensorNetwork.gates (SimulationEngine.sensor_network e))
  /\ view_closed (DepotController.depot_state (SimulationEngine.controller e)).

(** A step that reports no vehicle and no control action. *)
Definition idle_step (step_result : StepResult) : Prop :=
  result_vehicles step_result = 0%nat /\ result_control_actions step_result = 0%nat.

(* ------------------------------------------------------------------ *)
(** ** An engine that cannot raise *)

(** A configured failure injection has a device 0 to act on. *)
Definition injections_fit {F : Type} (e : SimulationEngine.t F) : Prop :=
  (truthy_step (SimulationConfig.charger_failure_step (SimulationEngine.config e))
   = true ->
   zmem 0 (SensorNetwork.chargers (SimulationEngine.sensor_network e)) = true)
  /\ (truthy_step (SimulationConfig.gate_failure_step (SimulationEngine.config e))
      = true ->
      zmem 0 (SensorNetwork.gates (SimulationEngine.sensor_network e)) = true).

Definition sound {F : Type} {CA : ChargeArith F} (e : SimulationEngine.t F) : Prop :=
  wired (SimulationEngine.controller e, SimulationEngine.vehicle_manager e)
  /\ injections_fit e.

(** The same of a configuration: a failure step is given only for a kind
    of device the depot has. *)
Definition injections_configured (config : SimulationConfig.t) : Prop :=
  (truthy_step (SimulationConfig.charger_failure_step config) = true ->
   0 < SimulationConfig.num_chargers config)
  /\ (truthy_step (SimulationConfig.gate_failure_step config) = true ->
      0 < SimulationConfig.num_gates config).

(** The "normal" scenario with its arrival rate set to zero. *)
Definition scenario_no_arrivals : SimulationConfig.t :=
  SimulationConfig.mk 2 5 3 50 0 None None (5 # 100).

(* ================================================================== *)
(** * Further vocabulary: the registry, the sensors and the log *)

(* ------------------------------------------------------------------ *)
(** ** Claims on spots *)

(** The vehicle claims the spot: [vehicle.assigned_spot == spot]. *)
Definition claims_spot {F : Type} (spot : Z) (v : Vehicle.t F) : bool :=
  match Vehicle.assigned_spot v with
  | Some s => (s =? spot)%Z
  | None => false
  end.

(** The ids of the vehicles that claim a spot, in the order of the
    registry. *)
Definition claimants {F : Type} (spot : Z) (vs : list (Vehicle.t F)) : list string :=
  map (@Vehicle.vehicle_id F) (filter (claims_spot spot) vs).

(** A registry whose two dictionaries agree: every vehicle is filed
    under its own id, which is not the empty string, and the spot a
    vehicle claims is recorded as held by it. *)
Definition registry_ok {F : Type} (vm : VehicleManager.t F) : Prop :=
  NoDup (dict_keys (VehicleManager.vehicles vm))
  /\ Forall (fun kv =>
               Vehicle.vehicle_id (snd kv) = fst kv
               /\ fst kv <> ""
               /\ forall s, Vehicle.assigned_spot (snd kv) = Some s ->
                    zget s (VehicleManager.vehicle_positions vm) = Some (Some (fst kv)))
            (VehicleManager.vehicles vm).

(** [str(uuid.uuid4())] is never the empty string. *)
Definition ids_nonempty (o : Streams) : Prop := forall i, uid o i <> "".

(** An assignment to a vehicle that leaves its id and its spot alone. *)
Definition same_claim {F : Type} (f : Vehicle.t F -> Vehicle.t F) : Prop :=
  forall v, Vehicle.vehicle_id (f v) = Vehicle.vehicle_id v
            /\ Vehicle.assigned_spot (f v) = Vehicle.assigned_spot v.

(** A fault raised from a sensor reading: a warning, never an occupancy
    conflict. *)
Definition sensor_fault (f : FaultEvent) : Prop :=
  alert_level f = WARNING /\ fault_type f <> OCCUPANCY_CONFLICT.

(* ------------------------------------------------------------------ *)
(** ** The sensor network as built *)

(** The names the three kinds of sensor give their readings. *)
Definition gate_name (i : Z) : string := "gate_" ++ str_of_int i.
Definition spot_name (i : Z) : string := "spot_" ++ str_of_int i.
Definition charger_name (i : Z) : string := "charger_" ++ str_of_int i.

(** Every sensor is filed under its own id, as [SensorNetwork.__init__]
    files it. *)
Definition well_named (net : SensorNetwork.t) : Prop :=
  (NoDup (dict_keys (SensorNetwork.gates net))
   /\ Forall (fun kv => GateSensor.gate_id (snd kv) = fst kv) (SensorNetwork.gates net))
  /\ (NoDup (dict_keys (SensorNetwork.occupancy_sensors net))
      /\ Forall (fun kv => OccupancySensor.spot_id (snd kv) = fst kv)
                (SensorNetwork.occupancy_sensors net))
  /\ (NoDup (dict_keys (SensorNetwork.chargers net))
      /\ Forall (fun kv => ChargerSensor.charger_id (snd kv) = fst kv)
                (SensorNetwork.chargers net)).

(** The names of the readings of a network, in the order
    [read_all_sensors] files them. *)
Definition reading_names (net : SensorNetwork.t) : list string :=
  map gate_name (dict_keys (SensorNetwork.gates net))
  ++ map spot_name (dict_keys (SensorNetwork.occupancy_sensors net))
  ++ map charger_name (dict_keys (SensorNetwork.chargers net)).

(** The cursor after [n] more calls of [random.random()]. *)
Definition after_draws (n : nat) (c : Cursor) : Cursor :=
  mkCursor (n + rnd_pos c) (uid_pos c).

(** No sensor has been acted on: every gate is closed, every spot is
    free, and no charger is connected, charging or delivering power. *)
Definition unactuated (net : SensorNetwork.t) : Prop :=
  Forall (fun kv => GateSensor.is_open (snd kv) = false) (SensorNetwork.gates net)
  /\ Forall (fun kv => OccupancySensor.is_occupied (snd kv) = false)
            (SensorNetwork.occupancy_sensors net)
  /\ Forall (fun kv => ChargerSensor.is_connected (snd kv) = false
                       /\ ChargerSensor.is_charging (snd kv) = false
                       /\ ChargerSensor.power_output (snd kv) = 0%Q)
            (SensorNetwork.chargers net).

(** What a sensor nobody acted on reads: a gate closed, a spot occupied
    only when the reading is noise, a charger idle. *)
Definition idle_reading (item : string * SensorReading.t) : Prop :=
  let reading := snd item in
  match SensorReading.sensor_type reading with
  | GATE => SensorReading.value reading = VBool false
  | OCCUPANCY => SensorReading.value reading = VBool (SensorReading.is_fault reading)
  | CHARGER =>
      SensorReading.value reading
      = VDict (Status.mk (Some false) (Some false) (Some 0%Q)
                 (Some (SensorReading.is_fault reading)))
  end.

(* ------------------------------------------------------------------ *)
(** ** The phases of a step *)

(** The engine as the first statements of [run_step] leave it: the step
    counted, its id set and its record logged. *)
Definition stamp {F : Type} (e : SimulationEngine.t F) : SimulationEngine.t F :=
  let n := SimulationEngine.current_step e + 1 in
  let sid := (SimulationEngine.run_id e ++ "_" ++ str_of_int n)%string in
  SimulationEngine.set_db_manager
    (DatabaseManager.insert_simulation_step
       (mkSimulationStep sid (SimulationEngine.run_id e) n)
       (SimulationEngine.db_manager e))
    (SimulationEngine.set_step_id (Some sid)
       (SimulationEngine.set_current_step n e)).

(** The two conditions of [_inject_failures]. *)
Definition charger_failure_due {F : Type} (e : SimulationEngine.t F) : bool :=
  truthy_step (SimulationConfig.charger_failure_step (SimulationEngine.config e))
  && match SimulationConfig.charger_failure_step (SimulationEngine.config e) with
     | Some n => (SimulationEngine.current_step e =? n)%Z
     | None => false
     end.

Definition gate_failure_due {F : Type} (e : SimulationEngine.t F) : bool :=
  truthy_step (SimulationConfig.gate_failure_step (SimulationEngine.config e))
  && match SimulationConfig.gate_failure_step (SimulationEngine.config e) with
     | Some n => (SimulationEngine.current_step e =? n)%Z
     | None => false
     end.

(** The vehicle [_generate_vehicles] creates at a step from a uuid. *)
Definition arrival {F : Type} {CA : ChargeArith F} (u : string) (step : Z)
  : Vehicle.t F :=
  Vehicle.mk (substring 0 8 u) APPROACHING None None f_initial f_target step None.

(** The fault [_detect_faults] raises from a reading flagged as a fault. *)
Definition fault_of_reading (reading : SensorReading.t) (step : Z) (f : FaultEvent)
  : Prop :=
  fault_type f = SimulationEngine._classify_fault_type reading
  /\ alert_level f = WARNING
  /\ affected_component f = SensorReading.sensor_name reading
  /\ detected_at f = step
  /\ resolved_at f = None.

(** The registry after [_generate_vehicles] at the step that follows
    [e], for the draw and the uuid under the cursor. *)
Definition registry_after_arrival {F : Type} {CA : ChargeArith F}
    (o : Streams) (c : Cursor) (e : SimulationEngine.t F) : VehicleManager.t F :=
  if Qltb (rnd o (rnd_pos c))
          (SimulationConfig.vehicle_arrival_rate (SimulationEngine.config e))
  then VehicleManager.add_vehicle
         (arrival (uid o (uid_pos c)) (SimulationEngine.current_step e + 1))
         (SimulationEngine.vehicle_manager e)
  else SimulationEngine.vehicle_manager e.

Definition cursor_after_arrival {F : Type} (o : Streams) (c : Cursor)
    (e : SimulationEngine.t F) : Cursor :=
  if Qltb (rnd o (rnd_pos c))
          (SimulationConfig.vehicle_arrival_rate (SimulationEngine.config e))
  then mkCursor (S (rnd_pos c)) (S (uid_pos c))
  else mkCursor (S (rnd_pos c)) (uid_pos c).

(** The faults [_detect_faults] raises from one reading, and from one
    conflict. *)
Definition faults_of_reading (step : Z) (reading : SensorReading.t)
    (faults : list FaultEvent) : Prop :=
  if SensorReading.is_fault reading
  then exists f, faults = [f] /\ fault_of_reading reading step f
  else faults = [].

Definition faults_of_conflict (step : Z) (conflict : Z * list string)
    (faults : list FaultEvent) : Prop :=
  exists f, faults = [f]
            /\ fault_type f = OCCUPANCY_CONFLICT
            /\ alert_level f = CRITICAL
            /\ affected_component f = spot_name (fst conflict)
            /\ detected_at f = step
            /\ resolved_at f = None.

(** The type of the fault a flagged reading stands for, by the kind of
    its sensor: a charger has failed, a gate is stuck, an occupancy
    sensor was noisy. *)
Definition fault_by_kind (kind : SensorType) : FaultType :=
  match kind with
  | CHARGER => CHARGER_FAILURE
  | GATE => GATE_STUCK
  | OCCUPANCY => SENSOR_NOISE
  end.

(** What a fault says: its type, its level and the component it names. *)
Definition fault_summary (f : FaultEvent) : FaultType * AlertLevel * string :=
  (fault_type f, alert_level f, affected_component f).

(** If the reading is filed under [name], it is flagged as a fault of a
    sensor of the given kind with that name. *)
Definition flagged (kind : SensorType) (name : string)
    (item : string * SensorReading.t) : Prop :=
  fst item = name ->
  SensorReading.is_fault (snd item) = true
  /\ SensorReading.sensor_type (snd item) = kind
  /\ SensorReading.sensor_name (snd item) = name.

(** A sensor filed under its id, failed if its id is 0. *)
Definition gate_zero_failed (kv : Z * GateSensor.t) : Prop :=
  GateSensor.gate_id (snd kv) = fst kv
  /\ (fst kv = 0 -> GateSensor.is_failed (snd kv) = true).

Definition charger_zero_failed (kv : Z * ChargerSensor.t) : Prop :=
  ChargerSensor.charger_id (snd kv) = fst kv
  /\ (fst kv = 0 -> ChargerSensor.is_failed (snd kv) = true).

(** A fault of the given type raised as a warning on the named
    component. *)
Definition warns (type : FaultType) (component : string) (f : FaultEvent) : Prop :=
  fault_type f = type /\ alert_level f = WARNING /\ affected_component f = component.

(** The "charger_failure" scenario of [run_sim.py]. *)
Definition scenario_charger_failure : SimulationConfig.t :=
  SimulationConfig.mk 2 5 3 80 (4 # 10) (Some 30) None (5 # 100).

(* ------------------------------------------------------------------ *)
(** ** First fit *)

(** A charger the view shows neither connected nor failed. *)
Definition charger_eligible (self : DepotController.t) (charger_id : Z) : bool :=
  match zget charger_id (DepotState.charger_status (DepotController.depot_state self)) with
  | Some status =>
      negb (Status.get_or_false (Status.connected status))
      && negb (Status.get_or_false (Status.failed status))
  | None => false
  end.

(** A spot the view shows free and the registry has not given away. *)
Definition spot_claimable {F : Type} {CA : ChargeArith F}
    (w : DepotController.W (F := F)) (spot_id : Z) : bool :=
  match zget spot_id (DepotState.spot_occupancy (DepotController.depot_state (fst w))) with
  | Some occupied => negb (truthy occupied)
  | None => false
  end
  && negb (VehicleManager.spot_taken spot_id (snd w)).

(* ------------------------------------------------------------------ *)
(** ** The moves of a vehicle *)

(** The moves [_process_vehicle] can make a vehicle do in one call:
    the branches of its if/elif chain. *)
Definition fsm_edge (a b : VehicleState) : bool :=
  match a, b with
  | APPROACHING, (APPROACHING | ENTERING | WAITING) => true
  | ENTERING, PARKING => true
  | PARKING, (PARKING | CHARGING) => true
  | CHARGING, (CHARGING | EXITING | WAITING) => true
  | EXITING, DEPARTED => true
  | WAITING, WAITING => true
  | DEPARTED, DEPARTED => true
  | _, _ => false
  end.

(** The registry files under [k] a vehicle with this id, state and
    charge level. *)
Definition filed {F : Type} (k id : string) (st : VehicleState) (charge : F)
    (vm : VehicleManager.t F) : Prop :=
  exists v, sget k (VehicleManager.vehicles vm) = Some v
            /\ Vehicle.vehicle_id v = id
            /\ Vehicle.state v = st
            /\ Vehicle.charge_level v = charge.

(* ------------------------------------------------------------------ *)
(** ** What can be done to the registry *)

(** The methods of [VehicleManager] that change it. *)
Inductive manager_op {F : Type} : Type :=
| AddVehicle (vehicle : Vehicle.t F)
| RemoveVehicle (vehicle_id : string)
| AssignSpot (vehicle_id : string) (spot_id : Z)
| FreeSpot (spot_id : Z)
| UpdateAllVehicles.
Arguments manager_op F : clear implicits.

Definition manager_apply {F : Type} {CA : ChargeArith F}
    (vm : VehicleManager.t F) (op : manager_op F) : VehicleManager.t F :=
  match op with
  | AddVehicle vehicle => VehicleManager.add_vehicle vehicle vm
  | RemoveVehicle vehicle_id => VehicleManager.remove_vehicle vehicle_id vm
  | AssignSpot vehicle_id spot_id =>
      snd (VehicleManager.assign_spot vehicle_id spot_id vm)
  | FreeSpot spot_id => VehicleManager.free_spot spot_id vm
  | UpdateAllVehicles => VehicleManager.update_all_vehicles vm
  end.

(** A vehicle is added as [Vehicle.create_new] builds it: with an id
    that is not the empty string and no spot. *)
Definition adds_new {F : Type} (op : manager_op F) : Prop :=
  match op with
  | AddVehicle vehicle =>
      Vehicle.vehicle_id vehicle <> "" /\ Vehicle.assigned_spot vehicle = None
  | _ => True
  end.

(* ------------------------------------------------------------------ *)
(** ** The size of the registry *)

(** [after] is [before] followed by at most [n] more entries. *)
Definition extended_by {A : Type} (n : nat) (before after : list A) : Prop :=
  exists more, after = before ++ more /\ (List.length more <= n)%nat.

(** Sizes reported one after the other: each is the one before it, or
    one more. *)
Fixpoint fleet_grows (before : nat) (counts : list nat) : Prop :=
  match counts with
  | [] => True
  | n :: rest => (before <= n <= Datatypes.S before)%nat /\ fleet_grows n rest
  end.

(* ------------------------------------------------------------------ *)
(** ** A charger and what it reports *)

(** A charger sensor charges only while connected, and delivers no
    power unless it charges. *)
Definition charger_consistent (ch : ChargerSensor.t) : Prop :=
  (ChargerSensor.is_charging ch = true -> ChargerSensor.is_connected ch = true)
  /\ (ChargerSensor.is_charging ch = false -> ChargerSensor.power_output ch = 0%Q).

(** The status a reading of a charger carries: all four keys are set,
    the reading is flagged exactly when the charger has failed, charging
    is reported only of a connected charger that has not failed, and
    power only while charging. *)
Definition coherent_status (reading : SensorReading.t) : Prop :=
  exists connected charging power failed,
    SensorReading.value reading
    = VDict (Status.mk (Some connected) (Some charging) (Some power) (Some failed))
    /\ SensorReading.is_fault reading = failed
    /\ (charging = true -> connected = true /\ failed = false)
    /\ (charging = false -> power = 0%Q).
(* ================================================================== *)
(** * Properties *)

Unset Implicit Arguments.

(* ------------------------------------------------------------------ *)
(** ** Dictionaries *)

Section DictFacts.
Context {K V : Type}.
Variable eqb : K -> K -> bool.
Hypothesis eqb_eq : forall x y, eqb x y = true <-> x = y.

Lemma eqb_same (k : K) : eqb k k = true.
Proof. now apply eqb_eq. Qed.

Lemma eqb_diff (k k' : K) : k <> k' -> eqb k k' = false.
Proof.
  intros H. destruct (eqb k k') eqn:E; [|reflexivity].
  apply eqb_eq in E. contradiction.
Qed.

Lemma dict_get_set_same (k : K) (v : V) (d : dict K V) :
  dict_get eqb k (dict_set eqb k v d) = Some v.
Proof.
  induction d as [|[k' v'] t IH]; simpl.
  - now rewrite eqb_same.
  - destruct (eqb k k') eqn:E; simpl; rewrite E; auto.
Qed.

Lemma dict_get_set_other (k k2 : K) (v : V) (d : dict K V) :
  k <> k2 -> dict_get eqb k (dict_set eqb k2 v d) = dict_get eqb k d.
Proof.
  intros Hne. induction d as [|[k' v'] t IH]; simpl.
  - now rewrite (eqb_diff _ _ Hne).
  - destruct (eqb k2 k') eqn:E; simpl.
    + apply eqb_eq in E. subst k'. now rewrite (eqb_diff _ _ Hne).
    + destruct (eqb k k'); auto.
Qed.

Lemma dict_get_In (k : K) (v : V) (d : dict K V) :
  dict_get eqb k d = Some v -> In (k, v) d.
Proof.
  induction d as [|[k' v'] t IH]; simpl; [discriminate|].
  destruct (eqb k k') eqn:E.
  - intros [= ->]. apply eqb_eq in E. subst. now left.
  - intros H. right. auto.
Qed.

Lemma In_dict_get (k : K) (v : V) (d : dict K V) :
  In (k, v) d -> exists v', dict_get eqb k d = Some v'.
Proof.
  induction d as [|[k' v'] t IH]; simpl; [tauto|].
  intros [[= -> ->]|H].
  - rewrite eqb_same. eauto.
  - destruct (eqb k k'); eauto.
Qed.

(** Assigning to a key keeps every other entry and adds or replaces
    one: whatever holds of all values still does. *)
Lemma dict_set_Forall (P : K * V -> Prop) (k : K) (v : V) (d : dict K V) :
  Forall P d -> P (k, v) -> Forall P (dict_set eqb k v d).
Proof.
  intros Hd Hv. induction d as [|[k' v'] t IH]; simpl.
  - now constructor.
  - inversion Hd; subst. destruct (eqb k k') eqn:E.
    + apply eqb_eq in E. subst k'. now constructor.
    + constructor; auto.
Qed.

Lemma dict_set_keeps_key (k k0 : K) (v : V) (d : dict K V) :
  dict_mem eqb k0 d = true -> dict_mem eqb k0 (dict_set eqb k v d) = true.
Proof.
  unfold dict_mem. induction d as [|[k' v'] t IH]; simpl; [discriminate|].
  destruct (eqb k k') eqn:E; simpl.
  - destruct (eqb k0 k'); auto.
  - destruct (eqb k0 k'); auto.
Qed.

End DictFacts.

Lemma Zeqb_eq' (x y : Z) : (x =? y)%Z = true <-> x = y.
Proof. apply Z.eqb_eq. Qed.

Lemma Seqb_eq' (x y : string) : String.eqb x y = true <-> x = y.
Proof. apply String.eqb_eq. Qed.

Lemma In_range (n i : Z) : In i (range n) <-> 0 <= i < n.
Proof.
  unfold range. rewrite in_map_iff. split.
  - intros (k & <- & Hk). apply in_seq in Hk. lia.
  - intros H. exists (Z.to_nat i). split; [lia|]. apply in_seq. lia.
Qed.

Lemma NoDup_range (n : Z) : NoDup (range n).
Proof.
  unfold range. apply Injective_map_NoDup.
  - intros a b H. lia.
  - apply seq_NoDup.
Qed.

Lemma dict_of_range_In {V : Type} (n : Z) (f : Z -> V) (k : Z) (v : V) :
  In (k, v) (dict_of_range n f) <-> (0 <= k < n /\ v = f k).
Proof.
  unfold dict_of_range. rewrite in_map_iff. split.
  - intros (i & [= <- <-] & Hi). apply In_range in Hi. auto.
  - intros [H ->]. exists k. split; auto. now apply In_range.
Qed.

Lemma dict_of_range_get {V : Type} (n : Z) (f : Z -> V) (k : Z) :
  0 <= k < n -> zget k (dict_of_range n f) = Some (f k).
Proof.
  intros H.
  destruct (In_dict_get Z.eqb Zeqb_eq' k (f k) (dict_of_range n f)) as [v Hv].
  - apply dict_of_range_In. auto.
  - rewrite Hv. apply dict_get_In in Hv; [|exact Zeqb_eq'].
    apply dict_of_range_In in Hv. now destruct Hv as [_ ->].
Qed.

(* ------------------------------------------------------------------ *)
(** ** Sensor names: printing an id and reading it back *)

Lemma span_digits_of_uint (d : uint) :
  span_digits (NilEmpty.string_of_uint d) = (NilEmpty.string_of_uint d, EmptyString).
Proof. induction d; simpl; try rewrite IHd; reflexivity. Qed.

Lemma split_on_of_uint (d : uint) :
  split_on "_" (NilEmpty.string_of_uint d) = [NilEmpty.string_of_uint d].
Proof. induction d; simpl; try rewrite IHd; reflexivity. Qed.

Lemma parse_digits_of_uint (d : uint) :
  d <> Nil -> parse_digits (NilEmpty.string_of_uint d) = Some (Z.of_uint d).
Proof.
  intros Hd. unfold parse_digits. rewrite span_digits_of_uint.
  destruct (NilEmpty.string_of_uint d) eqn:E.
  - destruct d; simpl in E; congruence.
  - rewrite <- E. simpl. now rewrite NilEmpty.usu.
Qed.

Lemma py_int_of_uint (d : uint) :
  d <> Nil -> py_int (NilEmpty.string_of_uint d) = Some (Z.of_uint d).
Proof.
  intros Hd. rewrite <- (parse_digits_of_uint _ Hd).
  destruct d; try congruence; reflexivity.
Qed.

Lemma Z_of_uint_to_uint (p : positive) : Z.of_uint (Pos.to_uint p) = Z.pos p.
Proof. unfold Z.of_uint. now rewrite DecimalPos.Unsigned.of_to. Qed.

(** [int(str(n)) == n] *)
Lemma py_int_str_of_int (z : Z) : py_int (str_of_int z) = Some z.
Proof.
  unfold str_of_int. destruct z as [|p|p]; simpl.
  - reflexivity.
  - pose proof (DecimalPos.Unsigned.to_uint_nonnil p) as Hn.
    unfold NilZero.string_of_uint.
    destruct (Pos.to_uint p) eqn:E; try congruence;
      rewrite <- E; rewrite py_int_of_uint by (rewrite E; congruence);
      now rewrite Z_of_uint_to_uint.
  - pose proof (DecimalPos.Unsigned.to_uint_nonnil p) as Hn.
    unfold NilZero.string_of_uint.
    assert (H : py_int (String "-" (NilEmpty.string_of_uint (Pos.to_uint p)))
                = Some (Z.neg p)).
    { unfold py_int. simpl lstrip. cbv iota beta.
      rewrite parse_digits_of_uint by exact Hn.
      simpl. now rewrite Z_of_uint_to_uint. }
    destruct (Pos.to_uint p) eqn:E; try congruence; exact H.
Qed.

Lemma str_of_int_inj (a b : Z) : str_of_int a = str_of_int b -> a = b.
Proof.
  intros H. pose proof (py_int_str_of_int a) as Ha.
  rewrite H, py_int_str_of_int in Ha. congruence.
Qed.

(** [str(n)] contains no underscore. *)
Lemma split_on_str_of_int (z : Z) : split_on "_" (str_of_int z) = [str_of_int z].
Proof.
  unfold str_of_int. destruct z as [|p|p]; simpl.
  - reflexivity.
  - unfold NilZero.string_of_uint.
    destruct (Pos.to_uint p) eqn:E; try reflexivity; rewrite <- E;
      apply split_on_of_uint.
  - unfold NilZero.string_of_uint.
    destruct (Pos.to_uint p) eqn:E; try reflexivity; rewrite <- E;
      now rewrite split_on_of_uint.
Qed.

(* ------------------------------------------------------------------ *)
(** ** Rules for [triple] *)

Section Rules.
Context {S : Type}.
Variable G : Streams -> Prop.
Implicit Types (P I : S -> Prop).

Lemma triple_conseq {A} P P' (m : M S A) Q Q' :
  (forall s, P s -> P' s) ->
  triple G P' m Q' ->
  (forall x s, Q' x s -> Q x s) ->
  triple G P m Q.
Proof.
  intros HP Hm HQ o s c Ho H. specialize (Hm o s c Ho (HP s H)).
  destruct (m o s c) as [[x s'] c']. auto.
Qed.

Lemma triple_bind {A B} P (m : M S A) (f : A -> M S B) Qm Q :
  triple G P m Qm ->
  (forall a, triple G (Qm (Ok a)) (f a) Q) ->
  (forall e s, Qm (Raise e) s -> Q (Raise e) s) ->
  triple G P (bind m f) Q.
Proof.
  intros Hm Hf He o s c Ho H. unfold bind. specialize (Hm o s c Ho H).
  destruct (m o s c) as [[[a|e] s'] c'].
  - now apply Hf.
  - now apply He.
Qed.

(** Loops: an invariant that every iteration keeps, also when it
    raises, holds when the loop ends; what holds of the items each
    iteration returns holds of all that were collected. *)
Lemma triple_for_each {X} (l : list X) (body : X -> M S unit) I :
  (forall x, In x l -> triple G I (body x) (fun _ => I)) ->
  triple G I (for_each l body) (fun _ => I).
Proof.
  induction l as [|x t IH]; intros Hb; simpl.
  - intros o s c _ H. exact H.
  - intros o s c Ho H. unfold bind.
    pose proof (Hb x (or_introl eq_refl) o s c Ho H) as Hx.
    destruct (body x o s c) as [[[[]|e] s1] c1]; [|exact Hx].
    apply IH; auto. intros y Hy. apply Hb. now right.
Qed.

Lemma triple_for_extend {X Y} (l : list X) (body : X -> M S (list Y)) I
      (Py : Y -> Prop) :
  (forall x, In x l ->
     triple G I (body x) (fun x s => I s /\ all_items Py x)) ->
  triple G I (for_extend l body) (fun x s => I s /\ all_items Py x).
Proof.
  induction l as [|x t IH]; intros Hb; simpl.
  - intros o s c _ H. simpl. auto.
  - intros o s c Ho H. unfold bind.
    pose proof (Hb x (or_introl eq_refl) o s c Ho H) as Hx.
    destruct (body x o s c) as [[[ys|e] s1] c1]; [|exact Hx].
    destruct Hx as [HI Hys].
    assert (Ht : forall y, In y t ->
              triple G I (body y) (fun x s => I s /\ all_items Py x))
      by (intros y Hy; apply Hb; now right).
    pose proof (IH Ht o s1 c1 Ho HI) as Hrest.
    destruct (for_extend t body o s1 c1) as [[[rest|e] s2] c2]; [|exact Hrest].
    destruct Hrest as [HI2 Hr]. simpl. split; auto.
    apply Forall_app. auto.
Qed.

Lemma triple_for_fold {X Acc} (l : list X) (body : X -> Acc -> M S Acc) I
      (J : Acc -> Prop) (acc : Acc) :
  (forall x acc, In x l -> J acc ->
     triple G I (body x acc) (fun x s => I s /\ good_result J x)) ->
  J acc ->
  triple G I (for_fold l body acc) (fun x s => I s /\ good_result J x).
Proof.
  revert acc. induction l as [|x t IH]; intros acc Hb Hacc; simpl.
  - intros o s c _ H. simpl. auto.
  - intros o s c Ho H. unfold bind.
    pose proof (Hb x acc (or_introl eq_refl) Hacc o s c Ho H) as Hx.
    destruct (body x acc o s c) as [[[acc'|e] s1] c1]; [|exact Hx].
    destruct Hx as [HI HJ].
    apply (IH acc'); auto.
    intros y a Hy Ha. apply Hb; auto. now right.
Qed.
End Rules.

(** A method of a sub-object: what it establishes of the sub-object is
    carried to the whole, the rest of which is unchanged. *)
Lemma triple_zoom {S T A} (G : Streams -> Prop) (proj : S -> T) (upd : T -> S -> S)
      (m : M T A) (P : S -> Prop) Q :
  (forall s0, P s0 ->
     triple G (fun t => t = proj s0) m (fun x t' => Q x (upd t' s0))) ->
  triple G P (zoom proj upd m) Q.
Proof.
  intros Hm o s c Ho H. unfold zoom. specialize (Hm s H o (proj s) c Ho eq_refl).
  destruct (m o (proj s) c) as [[x t'] c']. exact Hm.
Qed.

(** Running a method on the entry under [k]: what holds of every entry
    of the dictionary still does, if the method keeps it for its entry. *)
Lemma triple_with_entry {V A} (G : Streams -> Prop) (k : Z) (m : M V A)
      (Pv : Z * V -> Prop) (Qa : outcome A -> Prop) :
  Qa (Raise KeyError) ->
  (forall v, triple G (fun v' => v' = v /\ Pv (k, v)) m
                    (fun x v' => Pv (k, v') /\ Qa x)) ->
  triple G (Forall Pv) (with_entry Z.eqb k m)
         (fun x d => Forall Pv d /\ Qa x).
Proof.
  intros Hq Hm o d c Ho Hd. unfold with_entry.
  destruct (zget k d) as [v|] eqn:E; [|auto].
  assert (Hv : Pv (k, v)).
  { apply (dict_get_In Z.eqb Zeqb_eq') in E.
    rewrite Forall_forall in Hd. now apply Hd. }
  specialize (Hm v o v c Ho (conj eq_refl Hv)).
  destruct (m o v c) as [[x v'] c']. destruct Hm as (H1 & H2).
  split; auto. apply dict_set_Forall; auto. exact Zeqb_eq'.
Qed.

(* ------------------------------------------------------------------ *)
(** ** Rules for [keeps] *)

Section KeepsRules.
Context {S : Type}.
Variable G : Streams -> Prop.
Implicit Types (I : S -> Prop).

Lemma keeps_ret {A} I (a : A) : keeps G I (ret a).
Proof. intros o s c _ H. exact H. Qed.

Lemma keeps_raise {A} I (e : exn) : keeps G I (@raise S A e).
Proof. intros o s c _ H. exact H. Qed.

Lemma keeps_bind {A B} I (m : M S A) (f : A -> M S B) :
  keeps G I m -> (forall a, keeps G I (f a)) -> keeps G I (bind m f).
Proof.
  intros Hm Hf. eapply triple_bind; [exact Hm|exact Hf|auto].
Qed.

Lemma keeps_get I : keeps G I get.
Proof. intros o s c _ H. exact H. Qed.

Lemma keeps_gets {A} I (f : S -> A) : keeps G I (gets f).
Proof. intros o s c _ H. exact H. Qed.

Lemma keeps_modify I (f : S -> S) :
  (forall s, I s -> I (f s)) -> keeps G I (modify f).
Proof. intros Hf o s c _ H. now apply Hf. Qed.

Lemma keeps_call {A} I (f : S -> A * S) :
  (forall s, I s -> I (snd (f s))) -> keeps G I (call f).
Proof.
  intros Hf o s c _ H. unfold call. specialize (Hf s H).
  destruct (f s). exact Hf.
Qed.

Lemma keeps_random I : keeps G I random.
Proof. intros o s c _ H. exact H. Qed.

Lemma keeps_uuid4 I : keeps G I uuid4.
Proof. intros o s c _ H. exact H. Qed.

Lemma keeps_from_option {A} I (e : exn) (x : option A) :
  keeps G I (from_option e x).
Proof. intros o s c _ H. destruct x; exact H. Qed.

Lemma keeps_index {K V} I (eqb : K -> K -> bool) (k : K) (d : dict K V) :
  keeps G I (index eqb k d).
Proof. intros o s c _ H. unfold index. destruct (dict_get eqb k d); exact H. Qed.

Lemma keeps_sensor_id I (name : string) : keeps G I (sensor_id name).
Proof.
  unfold sensor_id. apply keeps_bind; [apply keeps_from_option|].
  intros piece. apply keeps_from_option.
Qed.

Lemma keeps_for_each {X} I (l : list X) (body : X -> M S unit) :
  (forall x, In x l -> keeps G I (body x)) -> keeps G I (for_each l body).
Proof. apply triple_for_each. Qed.

Lemma keeps_for_extend {X Y} I (l : list X) (body : X -> M S (list Y)) :
  (forall x, In x l -> keeps G I (body x)) -> keeps G I (for_extend l body).
Proof.
  intros Hb.
  assert (T : triple G I (for_extend l body)
                (fun x s => I s /\ all_items (fun _ : Y => True) x)).
  { apply triple_for_extend. intros x Hx o s c Ho H.
    specialize (Hb x Hx o s c Ho H).
    destruct (body x o s c) as [[[ys|e] s'] c']; simpl; split; auto.
    clear. induction ys; constructor; auto. }
  intros o s c Ho H. specialize (T o s c Ho H).
  destruct (for_extend l body o s c) as [[x s'] c']. tauto.
Qed.

Lemma keeps_for_fold {X Acc} I (l : list X) (body : X -> Acc -> M S Acc)
      (acc : Acc) :
  (forall x acc, In x l -> keeps G I (body x acc)) ->
  keeps G I (for_fold l body acc).
Proof.
  intros Hb.
  assert (T : triple G I (for_fold l body acc)
                (fun x s => I s /\ good_result (fun _ : Acc => True) x)).
  { apply triple_for_fold; [|exact Logic.I]. intros x a Hx _ o s c Ho H.
    specialize (Hb x a Hx o s c Ho H).
    destruct (body x a o s c) as [[[y|e] s'] c']; simpl; auto. }
  intros o s c Ho H. specialize (T o s c Ho H).
  destruct (for_fold l body acc o s c) as [[x s'] c']. tauto.
Qed.

(** A method of a sub-object on which the invariant does not depend. *)
Lemma keeps_zoom_frame {T A} I (proj : S -> T) (upd : T -> S -> S) (m : M T A) :
  (forall t s, I s -> I (upd t s)) -> keeps G I (zoom proj upd m).
Proof.
  intros Hu o s c _ H. unfold zoom.
  destruct (m o (proj s) c) as [[x t'] c']. now apply Hu.
Qed.

(** A method of a sub-object that keeps an invariant of its own. *)
Lemma keeps_zoom {T A} I (J : T -> Prop) (proj : S -> T) (upd : T -> S -> S)
      (m : M T A) :
  keeps G J m ->
  (forall s, I s -> J (proj s)) ->
  (forall s t, I s -> J t -> I (upd t s)) ->
  keeps G I (zoom proj upd m).
Proof.
  intros Hm Hp Hu o s c Ho H. unfold zoom.
  specialize (Hm o (proj s) c Ho (Hp s H)).
  destruct (m o (proj s) c) as [[x t'] c']. now apply Hu.
Qed.
End KeepsRules.

Lemma keeps_with_entry {V A} (G : Streams -> Prop) (k : Z) (m : M V A)
      (Pv : Z * V -> Prop) :
  (forall v, Pv (k, v) -> keeps G (fun v' => Pv (k, v')) m) ->
  keeps G (Forall Pv) (with_entry Z.eqb k m).
Proof.
  intros Hm o d c Ho Hd. unfold with_entry.
  destruct (zget k d) as [v|] eqn:E; [|auto].
  assert (Hv : Pv (k, v)).
  { apply (dict_get_In Z.eqb Zeqb_eq') in E.
    rewrite Forall_forall in Hd. now apply Hd. }
  specialize (Hm v Hv o v c Ho Hv).
  destruct (m o v c) as [[x v'] c'].
  apply dict_set_Forall; auto. exact Zeqb_eq'.
Qed.

Lemma bind_returns {S A B} (m : M S A) (f : A -> M S B) o s c a s' c' :
  m o s c = (Ok a, s', c') -> bind m f o s c = f a o s' c'.
Proof. intros E. unfold bind. now rewrite E. Qed.

Lemma keeps_as_triple {S A} (G : Streams -> Prop) (I : S -> Prop) (m : M S A) :
  keeps G I m -> triple G I m (fun _ => I).
Proof. exact (fun H => H). Qed.

Lemma keeps_final {S A} (G : Streams -> Prop) (I : S -> Prop) (m : M S A) o s c :
  keeps G I m -> G o -> I s -> I (final_state (m o s c)).
Proof.
  intros Hm Ho H. specialize (Hm o s c Ho H). unfold final_state.
  destruct (m o s c) as [[x s'] c']. exact Hm.
Qed.

(** Structural steps of a [keeps] proof; what is left are the
    assignments and the calls into sub-objects. *)
Ltac keeps_step :=
  match goal with
  | |- keeps _ _ (bind _ _) => apply keeps_bind; [|intros ?]
  | |- keeps _ _ (ret _) => apply keeps_ret
  | |- keeps _ _ (raise _) => apply keeps_raise
  | |- keeps _ _ get => apply keeps_get
  | |- keeps _ _ (gets _) => apply keeps_gets
  | |- keeps _ _ random => apply keeps_random
  | |- keeps _ _ uuid4 => apply keeps_uuid4
  | |- keeps _ _ (from_option _ _) => apply keeps_from_option
  | |- keeps _ _ (index _ _ _) => apply keeps_index
  | |- keeps _ _ (sensor_id _) => apply keeps_sensor_id
  | |- keeps _ _ (for_each _ _) => apply keeps_for_each; intros ? ?
  | |- keeps _ _ (for_extend _ _) => apply keeps_for_extend; intros ? ?
  | |- keeps _ _ (for_fold _ _ _) => apply keeps_for_fold; intros ? ? ?
  | |- keeps _ _ (let _ := _ in _) => cbv zeta
  | |- keeps _ _ (if ?b then _ else _) => destruct b
  | |- keeps _ _ (match ?x with _ => _ end) => destruct x
  end.

Ltac keeps_auto := repeat keeps_step.

(* ------------------------------------------------------------------ *)
(** ** The vehicle manager *)

Section ManagerFacts.
Context {F : Type} {CA : ChargeArith F}.
Implicit Types (self : VehicleManager.t F) (vehicle : Vehicle.t F).

Lemma assign_spot_false_unchanged self vehicle_id spot_id self' :
  VehicleManager.assign_spot vehicle_id spot_id self = (false, self') ->
  self' = self.
Proof.
  unfold VehicleManager.assign_spot.
  destruct (VehicleManager.spot_taken spot_id self); [now intros [= <-]|].
  destruct (sget vehicle_id (VehicleManager.vehicles self)); [discriminate|].
  now intros [= <-].
Qed.

Lemma assign_spot_granted self vehicle_id spot_id self' :
  VehicleManager.assign_spot vehicle_id spot_id self = (true, self') ->
  exists vehicle,
    VehicleManager.spot_taken spot_id self = false
    /\ sget vehicle_id (VehicleManager.vehicles self) = Some vehicle
    /\ self' = VehicleManager.mk
                 (sset vehicle_id (Vehicle.set_assigned_spot (Some spot_id) vehicle)
                       (VehicleManager.vehicles self))
                 (zset spot_id (Some vehicle_id)
                    match Vehicle.assigned_spot vehicle with
                    | Some previous =>
                        zset previous None (VehicleManager.vehicle_positions self)
                    | None => VehicleManager.vehicle_positions self
                    end).
Proof.
  unfold VehicleManager.assign_spot.
  destruct (VehicleManager.spot_taken spot_id self); [discriminate|].
  destruct (sget vehicle_id (VehicleManager.vehicles self)) as [v|]; [|discriminate].
  intros [= <-]. exists v. auto.
Qed.
End ManagerFacts.

(** C10.  [assign_spot] returns [False] and changes neither the vehicles
    nor the positions when the spot is occupied or the vehicle is not
    registered, and only then; when it returns [True] the spot the vehicle
    held before (if another one) maps to [None], [spot_id] maps to the
    vehicle, and the vehicle records [spot_id]. *)
Theorem assign_spot_contract {F : Type} {CA : ChargeArith F}
    (self : VehicleManager.t F) (vehicle_id : string) (spot_id : Z) :
  let occupied := VehicleManager.spot_taken spot_id self in
  let registered := smem vehicle_id (VehicleManager.vehicles self) in
  let result := fst (VehicleManager.assign_spot vehicle_id spot_id self) in
  let self' := snd (VehicleManager.assign_spot vehicle_id spot_id self) in
  (result = negb occupied && registered)
  /\ (result = false -> self' = self)
  /\ (result = true ->
      exists vehicle,
        sget vehicle_id (VehicleManager.vehicles self) = Some vehicle
        /\ VehicleManager.vehicle_positions self'
           = zset spot_id (Some vehicle_id)
               match Vehicle.assigned_spot vehicle with
               | Some previous =>
                   zset previous None (VehicleManager.vehicle_positions self)
               | None => VehicleManager.vehicle_positions self
               end
        /\ zget spot_id (VehicleManager.vehicle_positions self') = Some (Some vehicle_id)
        /\ (forall previous,
              Vehicle.assigned_spot vehicle = Some previous ->
              previous <> spot_id ->
              zget previous (VehicleManager.vehicle_positions self') = Some None)
        /\ sget vehicle_id (VehicleManager.vehicles self')
           = Some (Vehicle.set_assigned_spot (Some spot_id) vehicle)).
Proof.
  cbv zeta.
  destruct (VehicleManager.assign_spot vehicle_id spot_id self) as [b self'] eqn:E.
  simpl. split; [|split].
  - unfold VehicleManager.assign_spot, dict_mem in *.
    destruct (VehicleManager.spot_taken spot_id self); [now inversion E|].
    destruct (sget vehicle_id (VehicleManager.vehicles self)); now inversion E.
  - intros ->. now apply assign_spot_false_unchanged in E.
  - intros ->. apply assign_spot_granted in E.
    destruct E as (v & Hfree & Hv & ->). exists v. simpl.
    split; [exact Hv|]. split; [reflexivity|]. split; [|split].
    + apply dict_get_set_same. exact Zeqb_eq'.
    + intros previous Hp Hne. rewrite Hp.
      rewrite dict_get_set_other by (exact Zeqb_eq' || exact Hne).
      apply dict_get_set_same. exact Zeqb_eq'.
    + apply dict_get_set_same. exact Seqb_eq'.
Qed.

(* ------------------------------------------------------------------ *)
(** ** The controller, vehicle by vehicle *)

Section VehicleBranches.
Context {F : Type} {CA : ChargeArith F}.
Implicit Types (w : DepotController.W (F := F)).

(** A WAITING (or DEPARTED) vehicle matches no branch of
    [_process_vehicle]: nothing changes and no action is produced,
    whatever the depot could admit. *)
Lemma process_waiting_noop o w c k (vehicle : Vehicle.t F) current_step :
  sget k (VehicleManager.vehicles (snd w)) = Some vehicle ->
  Vehicle.state vehicle = WAITING ->
  DepotController._process_vehicle k current_step o w c = (Ok [], w, c).
Proof.
  intros Hk Hs. unfold DepotController._process_vehicle, bind, get.
  now rewrite Hk, Hs.
Qed.

(** The scan for a spot changes nothing when it finds none. *)
Lemma assign_parking_spot_none spot_ids vehicle_id o w c w' c' :
  DepotController.assign_parking_spot_from spot_ids vehicle_id o w c
    = (Ok None, w', c') ->
  w' = w /\ c' = c.
Proof.
  revert w c. induction spot_ids as [|spot rest IH]; intros w c; simpl.
  - unfold ret. now intros [= <- <-].
  - unfold bind, DepotController.on_self, DepotController.on_manager, zoom,
      get, index, call, ret, raise.
    destruct (zget spot _) as [occupied|]; [|discriminate].
    destruct w as [ctl vm]. simpl.
    destruct (truthy occupied); simpl.
    + apply IH.
    + destruct (VehicleManager.assign_spot vehicle_id spot vm) as [[|] vm'] eqn:E.
      * discriminate.
      * apply assign_spot_false_unchanged in E. subst vm'. apply IH.
Qed.
(** Nor when it raises: it raises before any spot is claimed. *)
Lemma assign_parking_spot_raise spot_ids vehicle_id o w c ex w' c' :
  DepotController.assign_parking_spot_from spot_ids vehicle_id o w c
    = (Raise ex, w', c') ->
  w' = w /\ c' = c.
Proof.
  revert w c. induction spot_ids as [|spot rest IH]; intros w c; simpl.
  - unfold ret. discriminate.
  - unfold bind, DepotController.on_self, DepotController.on_manager, zoom,
      get, index, call, ret, raise.
    destruct w as [ctl vm]. simpl.
    destruct (zget spot _) as [occupied|]; [|now intros [= _ <- <-]].
    destruct (truthy occupied); simpl.
    + apply IH.
    + destruct (VehicleManager.assign_spot vehicle_id spot vm) as [[|] vm'] eqn:E.
      * discriminate.
      * apply assign_spot_false_unchanged in E. subst vm'. apply IH.
Qed.
End VehicleBranches.

(** C3, as stated, fails.  One spot whose sensor reads occupied: there is
    no free spot, admission is not possible, and the APPROACHING vehicle
    is APPROACHING, not WAITING, after the step. *)
Lemma approaching_without_capacity_not_waiting :
  let readings := [("spot_0", spot_reading "spot_0" true)] in
  let w := (DepotController.init 1 1 1, registry_of [vehicle_in APPROACHING "v1"]) in
  let after := final_state (DepotController.process_step readings 1 streams_half w cursor0) in
  fleet_of (snd w) = [("v1", APPROACHING, None, None)]
  /\ DepotController._can_admit_vehicle (fst after) = false
  /\ fleet_of (snd after) = [("v1", APPROACHING, None, None)]
  /\ fleet_of (snd after) <> [("v1", WAITING, None, None)].
Proof. vm_compute. repeat split; discriminate. Qed.

(** The same in a run of the engine: the vehicle arrives at step 1, the
    spot sensor's reading is flipped by noise, and the vehicle is still
    APPROACHING after the step; it is admitted at step 2. *)
Lemma approaching_retries_next_step :
  let streams := streams_zero_at [0; 2]%nat in
  fleet (final_state (run_steps 1 streams (fresh_engine one_of_each) cursor0))
  = [("10000000", APPROACHING, None, None)]
  /\ fleet (final_state (run_steps 2 streams (fresh_engine one_of_each) cursor0))
     = [("10000000", ENTERING, Some 0, None)].
Proof. vm_compute. split; reflexivity. Qed.

(** C2: the code at the failing input.  A depot of one spot and one
    charger, two arrivals.  The second vehicle finds the spot claimed and
    is set WAITING.  After step 16 the first vehicle has DEPARTED, the
    spot is free and its charger works, so admission is possible; from
    then on every step commands the gate open and leaves the vehicle
    WAITING. *)
Theorem waiting_vehicle_never_admitted :
  let streams := streams_zero_at [0; 4]%nat in
  let at_step k := final_state (run_steps k streams (fresh_engine one_of_each) cursor0) in
  fleet (at_step 16%nat)
  = [("10000000", DEPARTED, None, Some 0); ("10000005", WAITING, None, None)]
  /\ VehicleManager.vehicle_positions (SimulationEngine.vehicle_manager (at_step 16%nat))
     = [(0, None)]
  /\ DepotController._can_admit_vehicle (SimulationEngine.controller (at_step 16%nat))
     = true
  /\ fleet (at_step 40%nat) = fleet (at_step 16%nat)
  /\ DepotController._can_admit_vehicle (SimulationEngine.controller (at_step 40%nat))
     = true.
Proof. vm_compute. repeat split; reflexivity. Qed.

(** C1: the code at the failing input.  Scenario "high_traffic", no
    fault and no noise drawn.  After four steps the first two vehicles
    are both CHARGING on charger 0, which was never released, and no
    fault has been recorded. *)
Theorem charger_zero_assigned_twice :
  let e := final_state (run_steps 4 streams_half (fresh_engine scenario_high_traffic) cursor0) in
  fleet e
  = [("10000000", CHARGING, Some 0, Some 0); ("10000018", CHARGING, Some 1, Some 0);
     ("10000036", PARKING, Some 2, None); ("10000055", ENTERING, Some 3, None)]
  /\ SimulationEngine.faults_detected e = [].
Proof. vm_compute. split; reflexivity. Qed.


(* ------------------------------------------------------------------ *)
(** ** Gate control *)

Lemma exists_filter {A} (f : A -> bool) (l : list A) :
  (0 <? List.length (filter f l))%nat = true <-> exists x, In x l /\ f x = true.
Proof.
  rewrite Nat.ltb_lt. split.
  - intros H. destruct (filter f l) as [|x t] eqn:E; [simpl in H; lia|].
    exists x. apply filter_In. rewrite E. now left.
  - intros (x & Hx & Hf).
    assert (Hin : In x (filter f l)) by (apply filter_In; auto).
    destruct (filter f l); [contradiction|simpl; lia].
Qed.

Lemma gate_name_inj (a b : Z) :
  ("gate_" ++ str_of_int a)%string = ("gate_" ++ str_of_int b)%string -> a = b.
Proof. simpl. intros [= H]. now apply str_of_int_inj. Qed.

Section GateControl.
Context {F : Type} {CA : ChargeArith F}.
Implicit Types (w : DepotController.W (F := F)).

Lemma can_admit_iff (self : DepotController.t) :
  DepotController._can_admit_vehicle self = true <->
  (exists spot v,
      In (spot, v) (DepotState.spot_occupancy (DepotController.depot_state self))
      /\ truthy v = false)
  /\ (exists c status,
         In (c, status) (DepotState.charger_status (DepotController.depot_state self))
         /\ Status.get_or_false (Status.failed status) = false).
Proof.
  unfold DepotController._can_admit_vehicle. rewrite andb_true_iff.
  rewrite !exists_filter. unfold dict_values.
  split; intros [H1 H2]; split.
  - destruct H1 as (v & Hv & Hf). apply in_map_iff in Hv.
    destruct Hv as ([spot v'] & <- & Hin). exists spot, v'. simpl in *.
    split; auto. now apply negb_true_iff.
  - destruct H2 as (st & Hst & Hf). apply in_map_iff in Hst.
    destruct Hst as ([c st'] & <- & Hin). exists c, st'. simpl in *.
    split; auto. now apply negb_true_iff.
  - destruct H1 as (spot & v & Hin & Hv). exists v. split.
    + apply in_map_iff. now exists (spot, v).
    + now apply negb_true_iff.
  - destruct H2 as (c & st & Hin & Hst). exists st. split.
    + apply in_map_iff. now exists (c, st).
    + now apply negb_true_iff.
Qed.

Lemma should_open_gate_iff w :
  DepotController.should_open_gate w = true <->
  (exists vehicle,
      In vehicle (dict_values (VehicleManager.vehicles (snd w)))
      /\ (Vehicle.state vehicle = WAITING \/ Vehicle.state vehicle = APPROACHING))
  /\ DepotController._can_admit_vehicle (fst w) = true.
Proof.
  unfold DepotController.should_open_gate, VehicleManager.get_vehicles_by_state.
  rewrite andb_true_iff, orb_true_iff, !exists_filter.
  split; intros [H1 H2]; split; auto.
  - destruct H1 as [(v & Hv & Hs)|(v & Hv & Hs)]; exists v; split; auto;
      destruct (Vehicle.state v); try discriminate; auto.
  - destruct H1 as (v & Hv & [Hs|Hs]); [left|right]; exists v; rewrite Hs; auto.
Qed.

(** One gate: the controller is unchanged and the action, if any, is the
    command of [gate_command]. *)
Lemma control_gate_run o w c decision current_step gate_id :
  zmem gate_id (DepotState.gate_states (DepotController.depot_state (fst w))) = true ->
  exists actions c',
    DepotController.control_gate decision current_step gate_id o w c
    = (Ok actions, w, c')
    /\ map action_summary actions = gate_command (fst w) decision gate_id.
Proof.
  unfold dict_mem, DepotController.control_gate, gate_command, reported_open,
    bind, gets, index.
  destruct (zget gate_id _) as [v|]; [intros _|discriminate].
  unfold ret. destruct decision, (truthy v); simpl; eauto.
Qed.

Lemma control_gates_run o w c decision current_step (gates : list Z) :
  (forall g, In g gates ->
     zmem g (DepotState.gate_states (DepotController.depot_state (fst w))) = true) ->
  exists actions c',
    for_extend gates (DepotController.control_gate decision current_step) o w c
    = (Ok actions, w, c')
    /\ map action_summary actions = flat_map (gate_command (fst w) decision) gates.
Proof.
  revert c. induction gates as [|g rest IH]; intros c Hkeys; simpl.
  - exists [], c. auto.
  - destruct (control_gate_run o w c decision current_step g) as (a1 & r1 & E1 & H1).
    { apply Hkeys. now left. }
    destruct (IH r1) as (a2 & r2 & E2 & H2).
    { intros g' Hg'. apply Hkeys. now right. }
    exists (a1 ++ a2), r2. unfold bind. rewrite E1, E2. split; [reflexivity|].
    now rewrite map_app, H1, H2.
Qed.

Lemma actions_for_summary (name : string) (actions : list ControlAction) :
  actions_for name actions
  = List.length (filter (fun t => String.eqb (snd (fst t)) name)
                        (map action_summary actions)).
Proof.
  unfold actions_for. induction actions as [|a t IH]; simpl; [reflexivity|].
  destruct (String.eqb (target a) name); simpl; now rewrite IH.
Qed.

Lemma gate_command_other (self : DepotController.t) decision (g g' : Z) :
  g' <> g ->
  filter (fun t => String.eqb (snd (fst t)) ("gate_" ++ str_of_int g)%string)
         (gate_command self decision g') = [].
Proof.
  intros Hne. unfold gate_command.
  destruct (Bool.eqb _ _); [reflexivity|]. cbn [filter fst snd].
  destruct (String.eqb_spec ("gate_" ++ str_of_int g') ("gate_" ++ str_of_int g))
    as [E|E]; [|reflexivity].
  apply gate_name_inj in E. contradiction.
Qed.

Lemma gate_commands_count (self : DepotController.t) decision (g : Z) (gates : list Z) :
  NoDup gates -> In g gates ->
  List.length
    (filter (fun t => String.eqb (snd (fst t)) ("gate_" ++ str_of_int g)%string)
            (flat_map (gate_command self decision) gates))
  = if Bool.eqb (reported_open self g) decision then 0%nat else 1%nat.
Proof.
  intros Hnd. induction Hnd as [|g' rest Hnotin Hnd IH]; [intros []|].
  intros Hin. cbn [flat_map]. rewrite filter_app, length_app.
  destruct (Z.eq_dec g' g) as [->|Hne].
  - assert (Hrest : filter (fun t => String.eqb (snd (fst t))
                                       ("gate_" ++ str_of_int g)%string)
                           (flat_map (gate_command self decision) rest) = []).
    { clear IH Hin Hnd. induction rest as [|x t IHt]; [reflexivity|].
      cbn [flat_map]. rewrite filter_app, gate_command_other.
      - apply IHt. intros H. apply Hnotin. now right.
      - intros ->. apply Hnotin. now left. }
    rewrite Hrest. unfold gate_command.
    destruct (Bool.eqb _ _); [reflexivity|].
    cbn [filter fst snd]. now rewrite String.eqb_refl.
  - rewrite gate_command_other by exact Hne.
    destruct Hin as [->|Hin]; [contradiction|]. now apply IH.
Qed.
End GateControl.

(** C4.  Each step has one decision for the gates: open exactly when
    some vehicle is WAITING or APPROACHING and admission is possible,
    admission being possible exactly when some spot reads free and some
    charger is not failed.  [_control_gates] returns, in gate order, one
    ["gate_control"] action for every gate whose reported state differs
    from the decision (["open"] or ["close"] as decided) and none for the
    others, and leaves controller and registry as they were. *)
Theorem gate_decision_and_actions {F : Type} {CA : ChargeArith F}
    (o : Streams) (w : DepotController.W (F := F)) (c : Cursor) (current_step : Z)
    (Hkeys : forall g, In g (range (DepotController.num_gates (fst w))) ->
               zmem g (DepotState.gate_states
                         (DepotController.depot_state (fst w))) = true) :
  let decision := DepotController.should_open_gate w in
  (decision = true <->
     (exists vehicle,
         In vehicle (dict_values (VehicleManager.vehicles (snd w)))
         /\ (Vehicle.state vehicle = WAITING \/ Vehicle.state vehicle = APPROACHING))
     /\ (exists spot v,
            In (spot, v) (DepotState.spot_occupancy
                            (DepotController.depot_state (fst w)))
            /\ truthy v = false)
     /\ (exists c status,
            In (c, status) (DepotState.charger_status
                              (DepotController.depot_state (fst w)))
            /\ Status.get_or_false (Status.failed status) = false))
  /\ exists actions c',
       DepotController._control_gates current_step o w c = (Ok actions, w, c')
       /\ map action_summary actions
          = flat_map (gate_command (fst w) decision)
                     (range (DepotController.num_gates (fst w)))
       /\ forall g, In g (range (DepotController.num_gates (fst w))) ->
            actions_for ("gate_" ++ str_of_int g) actions
            = if Bool.eqb (reported_open (fst w) g) decision then 0%nat else 1%nat.
Proof.
  intros decision. split.
  - unfold decision. rewrite should_open_gate_iff, can_admit_iff. tauto.
  - destruct (control_gates_run o w c decision current_step
                (range (DepotController.num_gates (fst w))) Hkeys)
      as (actions & r' & E & Hsum).
    exists actions, r'. split; [|split].
    + unfold DepotController._control_gates, bind, get. exact E.
    + exact Hsum.
    + intros g Hg. rewrite actions_for_summary, Hsum.
      apply gate_commands_count; [apply NoDup_range|exact Hg].
Qed.

(** The statement at the controller as constructed for two gates, one
    vehicle approaching: both gates are commanded open. *)
Lemma gate_decision_and_actions_witness :
  let w := (DepotController.init 2 1 1, registry_of [vehicle_in APPROACHING "v1"]) in
  DepotController.should_open_gate w = true
  /\ exists actions c',
       DepotController._control_gates 1 streams_half w cursor0 = (Ok actions, w, c')
       /\ map action_summary actions
          = [("gate_control", "gate_0", "open"); ("gate_control", "gate_1", "open")].
Proof.
  intros w.
  assert (Hkeys : forall g, In g (range (DepotController.num_gates (fst w))) ->
            zmem g (DepotState.gate_states
                      (DepotController.depot_state (fst w))) = true).
  { intros g Hg. apply In_range in Hg. simpl in Hg.
    assert (g = 0 \/ g = 1) as [->| ->] by lia; reflexivity. }
  destruct (gate_decision_and_actions streams_half w cursor0 1 Hkeys)
    as (_ & actions & r' & E & Hsum & _).
  split; [reflexivity|]. exists actions, r'. split; [exact E|exact Hsum].
Defined.

(* ------------------------------------------------------------------ *)
(** ** Sensors: the failed flag is never reset *)

Lemma gate_read_when_failed (o : Streams) (g : GateSensor.t) (c : Cursor) :
  GateSensor.is_failed g = true ->
  exists reading g' c',
    GateSensor.read o g c = (Ok reading, g', c')
    /\ reports_failed_gate reading
    /\ GateSensor.is_failed g' = true.
Proof.
  intros Hf. unfold GateSensor.read, bind, random, gets, modify, get, ret.
  destruct (Qltb _ _); simpl; do 3 eexists; (split; [reflexivity|]);
    unfold reports_failed_gate; simpl; rewrite ?Hf, ?andb_false_r; auto.
Qed.

Lemma charger_read_when_failed (o : Streams) (ch : ChargerSensor.t) (c : Cursor) :
  ChargerSensor.is_failed ch = true ->
  exists reading ch' c',
    ChargerSensor.read o ch c = (Ok reading, ch', c')
    /\ reports_failed_charger reading
    /\ ChargerSensor.is_failed ch' = true.
Proof.
  intros Hf. unfold ChargerSensor.read, bind, random, gets, modify, get, ret.
  destruct (Qltb _ _); simpl; do 3 eexists; (split; [reflexivity|]);
    unfold reports_failed_charger; simpl; rewrite ?Hf, ?andb_false_r;
    (split; [split; [reflexivity|]|reflexivity]);
    eexists; (split; [reflexivity|]); simpl; auto.
Qed.

Lemma gate_read_keeps_failed G :
  keeps G (fun g => GateSensor.is_failed g = true) GateSensor.read.
Proof.
  intros o g c _ Hf.
  destruct (gate_read_when_failed o g c Hf) as (rd & g' & c' & E & _ & H).
  now rewrite E.
Qed.

Lemma charger_read_keeps_failed G :
  keeps G (fun ch => ChargerSensor.is_failed ch = true) ChargerSensor.read.
Proof.
  intros o ch c _ Hf.
  destruct (charger_read_when_failed o ch c Hf) as (rd & ch' & c' & E & _ & H).
  now rewrite E.
Qed.

Lemma gate_apply_keeps_failed G (op : gate_op) :
  keeps G (fun g => GateSensor.is_failed g = true) (gate_apply op).
Proof.
  destruct op; simpl.
  - keeps_auto. apply gate_read_keeps_failed.
  - apply keeps_modify. intros g Hf. unfold GateSensor.set_state. now rewrite Hf.
  - apply keeps_modify. auto.
Qed.

Lemma charger_apply_keeps_failed G (op : charger_op) :
  keeps G (fun ch => ChargerSensor.is_failed ch = true) (charger_apply op).
Proof.
  destruct op; simpl; try (apply keeps_modify; intros ch Hf; simpl; auto).
  - keeps_auto. apply charger_read_keeps_failed.
  - unfold ChargerSensor.start_charging. now rewrite Hf.
Qed.

(** A method run on the entry under [k] keeps what holds of the entry
    under [i], if it keeps it when [k] is [i]. *)
Lemma keeps_with_entry_at {V A} G (i k : Z) (m : M V A) (Pf : V -> Prop) :
  keeps G Pf m ->
  keeps G (fun d => exists v, zget i d = Some v /\ Pf v) (with_entry Z.eqb k m).
Proof.
  intros Hm o d c Ho (v & Hv & Hp). unfold with_entry.
  destruct (zget k d) as [vk|] eqn:E; [|eauto].
  destruct (Z.eq_dec i k) as [->|Hne].
  - assert (vk = v) as -> by congruence.
    specialize (Hm o v c Ho Hp). destruct (m o v c) as [[x v'] c'].
    exists v'. split; auto. apply dict_get_set_same. exact Zeqb_eq'.
  - destruct (m o vk c) as [[x v'] c']. exists v. split; auto.
    rewrite dict_get_set_other; auto. exact Zeqb_eq'.
Qed.

Lemma read_each_keeps_at {V} G (i : Z) (read : M V SensorReading.t)
      (Pf : V -> Prop) keys readings :
  keeps G Pf read ->
  keeps G (fun d => exists v, zget i d = Some v /\ Pf v)
        (SensorNetwork.read_each read keys readings).
Proof.
  intros Hr. unfold SensorNetwork.read_each. keeps_auto.
  now apply keeps_with_entry_at.
Qed.

Lemma read_all_sensors_keeps_gate_down G (i : Z) :
  keeps G (gate_down i) SensorNetwork.read_all_sensors.
Proof.
  unfold SensorNetwork.read_all_sensors. keeps_auto.
  - apply keeps_zoom
      with (J := fun d => exists g, zget i d = Some g /\ GateSensor.is_failed g = true).
    + apply read_each_keeps_at, gate_read_keeps_failed.
    + intros s H. exact H.
    + intros s t _ H. exact H.
  - apply keeps_zoom_frame. auto.
  - apply keeps_zoom_frame. auto.
Qed.

Lemma read_all_sensors_keeps_charger_down G (i : Z) :
  keeps G (charger_down i) SensorNetwork.read_all_sensors.
Proof.
  unfold SensorNetwork.read_all_sensors. keeps_auto.
  - apply keeps_zoom_frame. auto.
  - apply keeps_zoom_frame. auto.
  - apply keeps_zoom
      with (J := fun d => exists ch,
                   zget i d = Some ch /\ ChargerSensor.is_failed ch = true).
    + apply read_each_keeps_at, charger_read_keeps_failed.
    + intros s H. exact H.
    + intros s t _ H. exact H.
Qed.

Section EngineSensors.
Context {F : Type} {CA : ChargeArith F}.

(** Whatever is true of the sensor network and is kept by a reading of
    all sensors and by the two injected failures is kept by a step of
    the engine. *)
Lemma run_step_keeps_network G (Pn : SensorNetwork.t -> Prop) :
  keeps G Pn SensorNetwork.read_all_sensors ->
  keeps G Pn (zoom SensorNetwork.chargers SensorNetwork.set_chargers
                (with_entry Z.eqb 0 (modify ChargerSensor.fail))) ->
  keeps G Pn (zoom SensorNetwork.gates SensorNetwork.set_gates
                (with_entry Z.eqb 0 (modify GateSensor.fail))) ->
  keeps G (fun e : SimulationEngine.t F => Pn (SimulationEngine.sensor_network e))
        SimulationEngine.run_step.
Proof.
  intros Hread Hch Hg.
  assert (Hnet : forall A (m : M SensorNetwork.t A),
             keeps G Pn m ->
             keeps G (fun e : SimulationEngine.t F =>
                        Pn (SimulationEngine.sensor_network e))
                   (SimulationEngine.on_network m)).
  { intros A m Hm. eapply keeps_zoom; [exact Hm| |]; auto. }
  unfold SimulationEngine.run_step, SimulationEngine._inject_failures,
    SimulationEngine._generate_vehicles, SimulationEngine._detect_faults,
    Vehicle.create_new.
  keeps_auto;
    first [ apply Hnet; assumption
          | apply keeps_modify; solve [auto]
          | apply keeps_zoom_frame; solve [auto] ].
Qed.

Lemma run_steps_keeps G (I : SimulationEngine.t F -> Prop) (k : nat) :
  keeps G I SimulationEngine.run_step -> keeps G I (run_steps k).
Proof.
  intros Hs. induction k as [|k IH]; simpl; keeps_auto; auto.
Qed.
End EngineSensors.

Lemma inject_gate_keeps_gate_down G (i : Z) :
  keeps G (gate_down i)
        (zoom SensorNetwork.gates SensorNetwork.set_gates
           (with_entry Z.eqb 0 (modify GateSensor.fail))).
Proof.
  apply keeps_zoom
    with (J := fun d => exists g, zget i d = Some g /\ GateSensor.is_failed g = true).
  - apply keeps_with_entry_at, keeps_modify. auto.
  - intros s H. exact H.
  - intros s t _ H. exact H.
Qed.

Lemma inject_charger_keeps_charger_down G (i : Z) :
  keeps G (charger_down i)
        (zoom SensorNetwork.chargers SensorNetwork.set_chargers
           (with_entry Z.eqb 0 (modify ChargerSensor.fail))).
Proof.
  apply keeps_zoom
    with (J := fun d => exists ch,
                 zget i d = Some ch /\ ChargerSensor.is_failed ch = true).
  - apply keeps_with_entry_at, keeps_modify. auto.
  - intros s H. exact H.
  - intros s t _ H. exact H.
Qed.

(** C5.  A gate or charger sensor whose failed flag is set keeps it set
    through every method of the sensor and every fault injection, and
    through any number of steps of the engine; read at any later time it
    reports the failure: [is_fault] is true, a gate reads closed, and a
    charger's status has [failed] true, [charging] false and [power_kw]
    zero. *)
Theorem failed_flag_is_sticky :
  (forall (ops : list gate_op) o (g : GateSensor.t) c,
      GateSensor.is_failed g = true ->
      let g' := final_state (for_each ops gate_apply o g c) in
      GateSensor.is_failed g' = true
      /\ forall o' c', exists reading g'' c'',
           GateSensor.read o' g' c' = (Ok reading, g'', c'')
           /\ reports_failed_gate reading
           /\ GateSensor.is_failed g'' = true)
  /\ (forall (ops : list charger_op) o (ch : ChargerSensor.t) c,
        ChargerSensor.is_failed ch = true ->
        let ch' := final_state (for_each ops charger_apply o ch c) in
        ChargerSensor.is_failed ch' = true
        /\ forall o' c', exists reading ch'' c'',
             ChargerSensor.read o' ch' c' = (Ok reading, ch'', c'')
             /\ reports_failed_charger reading
             /\ ChargerSensor.is_failed ch'' = true)
  /\ (forall (F : Type) (CA : ChargeArith F) (k : nat) o
             (e : SimulationEngine.t F) c (i : Z),
        let e' := final_state (run_steps k o e c) in
        (gate_down i (SimulationEngine.sensor_network e) ->
         gate_down i (SimulationEngine.sensor_network e'))
        /\ (charger_down i (SimulationEngine.sensor_network e) ->
            charger_down i (SimulationEngine.sensor_network e'))).
Proof.
  split; [|split].
  - intros ops o g c Hf g'.
    assert (Hf' : GateSensor.is_failed g' = true).
    { apply keeps_final with (G := any_streams)
                             (I := fun g => GateSensor.is_failed g = true);
        [|exact Logic.I|exact Hf].
      apply keeps_for_each. intros op _. apply gate_apply_keeps_failed. }
    split; [exact Hf'|]. intros o' c'. now apply gate_read_when_failed.
  - intros ops o ch c Hf ch'.
    assert (Hf' : ChargerSensor.is_failed ch' = true).
    { apply keeps_final with (G := any_streams)
                             (I := fun ch => ChargerSensor.is_failed ch = true);
        [|exact Logic.I|exact Hf].
      apply keeps_for_each. intros op _. apply charger_apply_keeps_failed. }
    split; [exact Hf'|]. intros o' c'. now apply charger_read_when_failed.
  - intros F CA k o e c i e'. split; intros Hd.
    + apply keeps_final
        with (G := any_streams)
             (I := fun e : SimulationEngine.t F =>
                     gate_down i (SimulationEngine.sensor_network e));
        [|exact Logic.I|exact Hd].
      apply run_steps_keeps, run_step_keeps_network.
      * apply read_all_sensors_keeps_gate_down.
      * apply keeps_zoom_frame. auto.
      * apply inject_gate_keeps_gate_down.
    + apply keeps_final
        with (G := any_streams)
             (I := fun e : SimulationEngine.t F =>
                     charger_down i (SimulationEngine.sensor_network e));
        [|exact Logic.I|exact Hd].
      apply run_steps_keeps, run_step_keeps_network.
      * apply read_all_sensors_keeps_charger_down.
      * apply inject_charger_keeps_charger_down.
      * apply keeps_zoom_frame. auto.
Qed.

(* ------------------------------------------------------------------ *)
(** ** The loop of [run_complete_simulation] *)

Section SimulationLoop.
Context {F : Type} {CA : ChargeArith F}.
Implicit Types (e : SimulationEngine.t F).

Lemma run_steps_after_first o e c step_result e1 c1 (j : nat) :
  SimulationEngine.run_step o e c = (Ok step_result, e1, c1) ->
  final_state (run_steps (Datatypes.S j) o e c) = final_state (run_steps j o e1 c1)
  /\ returned (final_outcome (run_steps (Datatypes.S j) o e c))
     = returned (final_outcome (run_steps j o e1 c1)).
Proof.
  intros E. simpl. unfold bind. rewrite E.
  destruct (run_steps j o e1 c1) as [[[rest|ex] e2] c2]; auto.
Qed.

(** The loop is [k] calls of [run_step] for some [k] up to the bound:
    after each call but the last the fault count was at most 10 and the
    call had returned; if [k] is below the bound, the last call raised or
    left more than 10 faults. *)
Lemma simulation_loop_steps (n : nat) : forall acc o e c,
  exists k : nat,
    (k <= n)%nat
    /\ SimulationEngine.simulation_loop n acc o e c
       = (rs <- run_steps k ;; ret (acc ++ rs)) o e c
    /\ (forall j, (0 < j < k)%nat ->
          returned (final_outcome (run_steps j o e c)) = true
          /\ (fault_count (final_state (run_steps j o e c)) <= 10)%nat)
    /\ ((k < n)%nat ->
          returned (final_outcome (run_steps k o e c)) = false
          \/ (10 < fault_count (final_state (run_steps k o e c)))%nat).
Proof.
  induction n as [|n IH]; intros acc o e c.
  - exists 0%nat. simpl. unfold bind, ret. rewrite app_nil_r.
    repeat split; auto; lia.
  - simpl. unfold bind at 1.
    destruct (SimulationEngine.run_step o e c) as [[[sr|ex] e1] c1] eqn:E.
    + unfold bind at 1, get.
      destruct (10 <? List.length (SimulationEngine.faults_detected e1))%nat eqn:Hf.
      * exists 1%nat. simpl. unfold bind, ret. rewrite E.
        repeat split; try lia.
        intros _. right. unfold final_state, fault_count. simpl.
        now apply Nat.ltb_lt.
      * destruct (IH (acc ++ [sr]) o e1 c1) as (k & Hk & Eloop & Hbefore & Hlast).
        exists (Datatypes.S k). split; [lia|]. split; [|split].
        -- rewrite Eloop. simpl. unfold bind, ret. rewrite E.
           destruct (run_steps k o e1 c1) as [[[rs|ex] e2] c2]; auto.
           now rewrite <- app_assoc.
        -- intros j Hj. destruct j as [|j]; [lia|].
           destruct (run_steps_after_first o e c sr e1 c1 j E) as [-> ->].
           destruct j as [|j].
           ++ simpl. unfold final_state, fault_count. simpl.
              apply Nat.ltb_ge in Hf. auto.
           ++ apply Hbefore. lia.
        -- intros Hlt. destruct (run_steps_after_first o e c sr e1 c1 k E) as [-> ->].
           apply Hlast. lia.
    + exists 1%nat. simpl. unfold bind. rewrite E.
      repeat split; try lia. intros _. now left.
Qed.
End SimulationLoop.

(** C7.  [run_complete_simulation] makes [k] calls of [run_step] for some
    [k] not above [max_steps].  Each call before the last returned and
    left at most 10 detected faults, so no call follows a step that ended
    with more than 10; and the loop stops short of [max_steps] only when
    the last call left more than 10 faults (or raised). *)
Theorem simulation_stops_at_max_steps_or_faults {F : Type} {CA : ChargeArith F}
    (scenario_name : string) (o : Streams) (e : SimulationEngine.t F) (c : Cursor) :
  let max_steps := SimulationConfig.max_steps (SimulationEngine.config e) in
  let started := SimulationEngine.start_simulation scenario_name o e c in
  let e0 := final_state started in
  let c0 := snd started in
  exists k : nat,
    Z.of_nat k <= Z.max 0 max_steps
    /\ SimulationEngine.run_complete_simulation scenario_name o e c
       = run_with_steps k scenario_name o e c
    /\ (forall j, (0 < j < k)%nat ->
          returned (final_outcome (run_steps j o e0 c0)) = true
          /\ (fault_count (final_state (run_steps j o e0 c0)) <= 10)%nat)
    /\ (Z.of_nat k < max_steps ->
          returned (final_outcome (run_steps k o e0 c0)) = false
          \/ (10 < fault_count (final_state (run_steps k o e0 c0)))%nat).
Proof.
  cbv zeta.
  set (e0 := SimulationEngine.set_db_manager
               (DatabaseManager.insert_simulation_run
                  (mkSimulationRun (SimulationEngine.run_id e) scenario_name 0)
                  (SimulationEngine.db_manager e)) e).
  assert (Es : SimulationEngine.start_simulation scenario_name o e c = (Ok tt, e0, c))
    by reflexivity.
  rewrite Es. unfold final_state at 1 2 3. cbn [fst snd].
  destruct (simulation_loop_steps
              (Z.to_nat (SimulationConfig.max_steps (SimulationEngine.config e)))
              [] o e0 c)
    as (k & Hk & Eloop & Hbefore & Hlast).
  exists k. split; [lia|]. split; [|split].
  - unfold SimulationEngine.run_complete_simulation, run_with_steps.
    rewrite !(@bind_returns _ _ _ _ _ _ _ _ _ _ _ Es).
    unfold bind at 1, get. change (SimulationEngine.config e0)
      with (SimulationEngine.config e).
    unfold bind at 1 4. rewrite Eloop. unfold bind at 1, ret.
    destruct (run_steps k o e0 c) as [[[rs|ex] e2] c2]; reflexivity.
  - exact Hbefore.
  - intros Hlt. apply Hlast. lia.
Qed.

(* ------------------------------------------------------------------ *)
(** ** Charge levels *)

#[global] Instance ChargeLaws_Q : ChargeLaws Q.
Proof.
  constructor; simpl.
  - intros x. apply Qle_bool_iff, Qle_refl.
  - intros x y z H1 H2. apply Qle_bool_iff in H1, H2.
    apply Qle_bool_iff. eapply Qle_trans; eauto.
  - intros x y. destruct (Qlt_le_dec x y) as [H|H].
    + left. apply Qle_bool_iff. now apply Qlt_le_weak.
    + right. now apply Qle_bool_iff.
  - reflexivity.
  - reflexivity.
  - intros x. apply Qle_bool_iff.
    rewrite <- (Qplus_0_r x) at 1. apply Qplus_le_r. discriminate.
Qed.

Lemma VehicleState_eqb_eq (a b : VehicleState) :
  VehicleState_eqb a b = true <-> a = b.
Proof. destruct a, b; simpl; split; intros H; congruence. Qed.

Section ChargeFacts.
Context {F : Type} {CA : ChargeArith F} {CL : ChargeLaws F}.

Lemma fmin_one_bounds (c y : F) :
  in_unit c -> fleb c y = true ->
  fleb c (fmin f_one y) = true /\ in_unit (fmin f_one y).
Proof.
  intros [H0 H1] Hy. unfold fmin, fltb, in_unit.
  destruct (fleb f_one y) eqn:E; simpl.
  - repeat split; auto.
    + apply (fleb_trans _ _ _ H0 H1).
    + apply fleb_refl.
  - repeat split; auto.
    + apply (fleb_trans _ _ _ H0 Hy).
    + destruct (fleb_total f_one y) as [H|H]; congruence.
Qed.

Lemma update_charge_spec (v : Vehicle.t F) :
  in_unit (Vehicle.charge_level v) ->
  (Vehicle.state v = CHARGING ->
     fleb (Vehicle.charge_level v) (Vehicle.charge_level (Vehicle.update_charge v)) = true)
  /\ (Vehicle.state v <> CHARGING -> Vehicle.update_charge v = v)
  /\ in_unit (Vehicle.charge_level (Vehicle.update_charge v)).
Proof.
  intros Hu. unfold Vehicle.update_charge, Vehicle.update_charge_by.
  destruct (VehicleState_eqb (Vehicle.state v) CHARGING) eqn:E.
  - destruct (fmin_one_bounds _ _ Hu (fadd_rate_le (Vehicle.charge_level v))) as [H1 H2].
    simpl. repeat split; auto; try apply H2.
    intros Hn. apply VehicleState_eqb_eq in E. contradiction.
  - repeat split; auto; try apply Hu.
    intros Hs. rewrite Hs in E. discriminate.
Qed.
End ChargeFacts.

Section ChargeFrame.
Context {F : Type} {CA : ChargeArith F}.
Variable G : Streams -> Prop.
Variable D : dict string (Vehicle.t F) -> Prop.
Hypothesis D_stable : charge_stable D.

Local Abbreviation Dm := (fun vm : VehicleManager.t F => D (VehicleManager.vehicles vm)).
Local Abbreviation Dw := (fun w : DepotController.W (F := F) => D (VehicleManager.vehicles (snd w))).

Lemma assign_spot_charges vehicle_id spot_id (vm : VehicleManager.t F) :
  Dm vm -> Dm (snd (VehicleManager.assign_spot vehicle_id spot_id vm)).
Proof.
  intros H. unfold VehicleManager.assign_spot.
  destruct (VehicleManager.spot_taken spot_id vm); [exact H|].
  destruct (sget vehicle_id (VehicleManager.vehicles vm)) as [v|] eqn:E; [|exact H].
  cbv beta. simpl. now apply (D_stable _ _ v).
Qed.

Lemma free_spot_charges spot_id (vm : VehicleManager.t F) :
  Dm vm -> Dm (VehicleManager.free_spot spot_id vm).
Proof.
  intros H. unfold VehicleManager.free_spot.
  destruct (zget spot_id (VehicleManager.vehicle_positions vm)) as [[vid|]|];
    try exact H.
  cbv beta. simpl. destruct (negb (String.eqb vid "")); [|exact H].
  destruct (sget vid (VehicleManager.vehicles vm)) as [v|] eqn:E; [|exact H].
  now apply (D_stable _ _ v).
Qed.

Lemma update_vehicle_charges k (f : Vehicle.t F -> Vehicle.t F) :
  (forall v, Vehicle.charge_level (f v) = Vehicle.charge_level v) ->
  keeps G Dw (DepotController.update_vehicle k f).
Proof.
  intros Hf. unfold DepotController.update_vehicle, DepotController.on_manager.
  apply keeps_zoom with (J := Dm); auto.
  apply keeps_modify. intros vm H.
  destruct (sget k (VehicleManager.vehicles vm)) as [v|] eqn:E; [|exact H].
  cbv beta. simpl. now apply (D_stable _ _ v).
Qed.

Lemma on_self_charges {A} (m : M DepotController.t A) :
  keeps G Dw (DepotController.on_self m).
Proof. apply keeps_zoom_frame. auto. Qed.

Lemma assign_parking_spot_from_charges spot_ids vehicle_id :
  keeps G Dw (DepotController.assign_parking_spot_from spot_ids vehicle_id).
Proof.
  induction spot_ids as [|spot rest IH]; simpl; keeps_auto; auto.
  - apply on_self_charges.
  - unfold DepotController.on_manager. apply keeps_zoom with (J := Dm); auto.
    apply keeps_call. intros vm. apply assign_spot_charges.
Qed.

Lemma process_vehicle_charges k current_step :
  keeps G Dw (DepotController._process_vehicle k current_step).
Proof.
  unfold DepotController._process_vehicle, DepotController._assign_parking_spot,
    DepotController._free_vehicle_resources, DepotController._create_action.
  keeps_auto;
    first [ apply on_self_charges
          | apply assign_parking_spot_from_charges
          | apply update_vehicle_charges; reflexivity
          | idtac ].
  unfold DepotController.on_manager. apply keeps_zoom with (J := Dm); auto.
  apply keeps_modify. intros vm. apply free_spot_charges.
Qed.

Lemma process_step_charges readings current_step :
  keeps G Dw (DepotController.process_step readings current_step).
Proof.
  unfold DepotController.process_step, DepotController._control_gates,
    DepotController.control_gate, DepotController._create_action.
  keeps_auto;
    first [ apply on_self_charges | apply process_vehicle_charges ].
Qed.
End ChargeFrame.

Section EngineCharge.
Context {F : Type} {CA : ChargeArith F}.
Variable G : Streams -> Prop.
Implicit Types (e : SimulationEngine.t F).

Lemma triple_bind_keeps {S A B} (I : S -> Prop) (m : M S A) (f : A -> M S B)
      (Q : outcome B -> S -> Prop) :
  keeps G I m ->
  (forall a, triple G I (f a) Q) ->
  (forall ex s, I s -> Q (Raise ex) s) ->
  triple G I (bind m f) Q.
Proof. intros Hm Hf He. eapply triple_bind; [exact Hm|exact Hf|exact He]. Qed.

Lemma on_controller_keeps {A} (J : VehicleManager.t F -> Prop)
      (m : M DepotController.W A) :
  keeps G (fun w => J (snd w)) m ->
  keeps G (fun e => J (SimulationEngine.vehicle_manager e))
        (SimulationEngine.on_controller m).
Proof.
  intros Hm. unfold SimulationEngine.on_controller.
  apply keeps_zoom with (J := fun w : DepotController.W => J (snd w)); auto.
Qed.

(** [_detect_faults] changes nothing of the engine. *)
Lemma detect_faults_keeps (I : SimulationEngine.t F -> Prop) readings :
  keeps G I (SimulationEngine._detect_faults readings).
Proof. unfold SimulationEngine._detect_faults. keeps_auto. Qed.

(** A step in two phases: [I1] holds of the registry up to
    [update_all_vehicles], which turns it into [I2], which the controller
    keeps.  A step that raises early ends in [I1]. *)
Lemma run_step_phases (I1 I2 : VehicleManager.t F -> Prop) :
  keeps G (fun e => I1 (SimulationEngine.vehicle_manager e))
        SimulationEngine._generate_vehicles ->
  (forall vm, I1 vm -> I2 (VehicleManager.update_all_vehicles vm)) ->
  (forall readings current_step,
      keeps G (fun w => I2 (snd w))
            (DepotController.process_step readings current_step)) ->
  triple G (fun e => I1 (SimulationEngine.vehicle_manager e))
         SimulationEngine.run_step
         (fun _ e => I1 (SimulationEngine.vehicle_manager e)
                     \/ I2 (SimulationEngine.vehicle_manager e)).
Proof.
  intros Hgen Hupd Hctl.
  unfold SimulationEngine.run_step.
  apply triple_bind_keeps; [apply keeps_modify; auto|intros _|auto].
  apply triple_bind_keeps; [apply keeps_modify; auto|intros _|auto].
  apply triple_bind_keeps; [apply keeps_get|intros self|auto].
  cbv zeta.
  apply triple_bind_keeps; [apply keeps_zoom_frame; auto|intros _|auto].
  apply triple_bind_keeps; [|intros _|auto].
  { unfold SimulationEngine._inject_failures. keeps_auto;
      apply keeps_zoom_frame; auto. }
  apply triple_bind_keeps; [exact Hgen|intros _|auto].
  apply triple_bind_keeps; [apply keeps_zoom_frame; auto|intros readings|auto].
  apply triple_bind_keeps; [|intros _|auto].
  { keeps_auto. apply keeps_zoom_frame; auto. }
  apply triple_bind
    with (Qm := fun (x : outcome unit) e =>
                  match x with
                  | Ok _ => I2 (SimulationEngine.vehicle_manager e)
                  | Raise _ => I1 (SimulationEngine.vehicle_manager e)
                  end).
  - intros o e c _ H. simpl. now apply Hupd.
  - intros _.
    apply triple_conseq
      with (P' := fun e => I2 (SimulationEngine.vehicle_manager e))
           (Q' := fun _ e => I2 (SimulationEngine.vehicle_manager e)); auto.
    apply keeps_as_triple.
    keeps_auto;
      first [ apply on_controller_keeps, Hctl
            | apply detect_faults_keeps
            | apply keeps_zoom_frame; solve [auto]
            | apply keeps_modify; solve [auto] ].
  - auto.
Qed.
End EngineCharge.

Section ChargeInvariants.
Context {F : Type} {CA : ChargeArith F}.

Lemma charges_in_unit_stable : charge_stable (charges_in_unit (F := F)).
Proof.
  intros d k v v' Hk Hc Hd. unfold charges_in_unit in *.
  apply dict_set_Forall; auto using Seqb_eq'. simpl. rewrite Hc.
  apply (dict_get_In _ Seqb_eq') in Hk.
  rewrite Forall_forall in Hd. apply (Hd _ Hk).
Qed.

Lemma charge_at_stable (k : string) (x : F) :
  charge_stable (fun d => exists v', sget k d = Some v' /\ Vehicle.charge_level v' = x).
Proof.
  intros d k0 v0 v0' Hk0 Hc (v' & Hk & Hx).
  destruct (String.eqb_spec k k0) as [->|Hne].
  - exists v0'. split; [apply dict_get_set_same, Seqb_eq'|]. congruence.
  - exists v'. split; [|exact Hx].
    rewrite dict_get_set_other; auto using Seqb_eq'.
Qed.

Lemma sget_update_all (k : string) (d : dict string (Vehicle.t F)) :
  sget k (map (fun kv => (fst kv, Vehicle.update_charge (snd kv))) d)
  = option_map Vehicle.update_charge (sget k d).
Proof.
  induction d as [|[k' v'] t IH]; simpl; [reflexivity|].
  destruct (String.eqb k k'); auto.
Qed.

(** An arrival under another id leaves the vehicle under [k] alone. *)
Lemma generate_vehicles_keeps_other (k : string) (v : Vehicle.t F) :
  keeps (never_issues k)
        (fun e : SimulationEngine.t F =>
           sget k (VehicleManager.vehicles (SimulationEngine.vehicle_manager e))
           = Some v)
        SimulationEngine._generate_vehicles.
Proof.
  intros o e c Ho H.
  unfold SimulationEngine._generate_vehicles, bind, random, get, Vehicle.create_new,
    uuid4, ret, SimulationEngine.on_manager, zoom, modify.
  destruct (Qltb _ _); [|exact H]. simpl.
  rewrite dict_get_set_other; [exact H|exact Seqb_eq'|].
  intros E. apply (Ho (uid_pos c)). now rewrite E.
Qed.

Context {CL : ChargeLaws F}.

Lemma generate_vehicles_keeps_unit G :
  keeps G
        (fun e : SimulationEngine.t F =>
           charges_in_unit
             (VehicleManager.vehicles (SimulationEngine.vehicle_manager e)))
        SimulationEngine._generate_vehicles.
Proof.
  intros o e c _ H.
  unfold SimulationEngine._generate_vehicles, bind, random, get, Vehicle.create_new,
    uuid4, ret, SimulationEngine.on_manager, zoom, modify.
  destruct (Qltb _ _); [|exact H]. simpl.
  apply dict_set_Forall; auto using Seqb_eq'. simpl.
  split; [apply f_initial_lower|apply f_initial_upper].
Qed.

Lemma update_all_keeps_unit (vm : VehicleManager.t F) :
  charges_in_unit (VehicleManager.vehicles vm) ->
  charges_in_unit (VehicleManager.vehicles (VehicleManager.update_all_vehicles vm)).
Proof.
  unfold charges_in_unit. simpl. intros H. apply Forall_map.
  eapply Forall_impl; [|exact H]. intros [k v] Hv. simpl in *.
  now apply update_charge_spec.
Qed.

Lemma run_step_keeps_unit G :
  keeps G
        (fun e : SimulationEngine.t F =>
           charges_in_unit
             (VehicleManager.vehicles (SimulationEngine.vehicle_manager e)))
        SimulationEngine.run_step.
Proof.
  pose proof (run_step_phases G
                (fun vm => charges_in_unit (VehicleManager.vehicles vm))
                (fun vm => charges_in_unit (VehicleManager.vehicles vm))
                (generate_vehicles_keeps_unit G)
                update_all_keeps_unit
                (process_step_charges G _ charges_in_unit_stable)) as Hstep.
  intros o e c Ho H. specialize (Hstep o e c Ho H).
  destruct (SimulationEngine.run_step o e c) as [[x e1] c1]. tauto.
Qed.
End ChargeInvariants.

(** C6.  [update_charge] on a vehicle whose level is in [[0, 1]] does not
    lower the level when the vehicle is CHARGING, leaves the vehicle as
    it is otherwise, and keeps the level in [[0, 1]].  Over a step of the
    engine the same holds of every vehicle of the registry (whose id no
    later arrival is given): its level after the step is not lower if it
    was CHARGING when the step began, is the same if it was not, and is
    in [[0, 1]].  In every run from a new engine the level of every
    vehicle is in [[0, 1]] after any number of steps. *)
Theorem charge_level_monotone_in_unit {F : Type} {CA : ChargeArith F}
    {CL : ChargeLaws F} :
  (forall v : Vehicle.t F,
      in_unit (Vehicle.charge_level v) ->
      (Vehicle.state v = CHARGING ->
         fleb (Vehicle.charge_level v)
              (Vehicle.charge_level (Vehicle.update_charge v)) = true)
      /\ (Vehicle.state v <> CHARGING -> Vehicle.update_charge v = v)
      /\ in_unit (Vehicle.charge_level (Vehicle.update_charge v)))
  /\ (forall o (e : SimulationEngine.t F) c k v,
        never_issues k o ->
        sget k (VehicleManager.vehicles (SimulationEngine.vehicle_manager e)) = Some v ->
        in_unit (Vehicle.charge_level v) ->
        let e' := final_state (SimulationEngine.run_step o e c) in
        exists v',
          sget k (VehicleManager.vehicles (SimulationEngine.vehicle_manager e'))
          = Some v'
          /\ (Vehicle.state v = CHARGING ->
                fleb (Vehicle.charge_level v) (Vehicle.charge_level v') = true)
          /\ (Vehicle.state v <> CHARGING ->
                Vehicle.charge_level v' = Vehicle.charge_level v)
          /\ in_unit (Vehicle.charge_level v'))
  /\ (forall config db run_id o c (n : nat),
        charges_in_unit
          (VehicleManager.vehicles
             (SimulationEngine.vehicle_manager
                (final_state
                   (run_steps n o (SimulationEngine.create (F := F) config db run_id)
                      c))))).
Proof.
  split; [|split].
  - intros v. apply update_charge_spec.
  - intros o e c k v Hfresh Hk Hu e'.
    pose proof (run_step_phases (never_issues k)
                  (fun vm => sget k (VehicleManager.vehicles vm) = Some v)
                  (fun vm => exists v',
                       sget k (VehicleManager.vehicles vm) = Some v'
                       /\ Vehicle.charge_level v'
                          = Vehicle.charge_level (Vehicle.update_charge v))
                  (generate_vehicles_keeps_other k v)) as Hstep.
    specialize (Hstep
      (fun vm H => ex_intro _ (Vehicle.update_charge v)
                     (conj (eq_trans (sget_update_all k _)
                                     (f_equal (option_map Vehicle.update_charge) H))
                           eq_refl))).
    specialize (Hstep
      (fun readings current_step =>
         process_step_charges (never_issues k) _
           (charge_at_stable k (Vehicle.charge_level (Vehicle.update_charge v)))
           readings current_step)).
    specialize (Hstep o e c Hfresh Hk).
    unfold e', final_state.
    destruct (SimulationEngine.run_step o e c) as [[x e1] c1]. simpl.
    destruct (update_charge_spec v Hu) as (Hup & Hsame & Hin).
    destruct Hstep as [H1|(v' & H1 & H2)].
    + exists v. repeat split; auto; try apply Hu. intros _. apply fleb_refl.
    + exists v'. rewrite H2. repeat split; auto; try apply Hin.
      intros Hs. now rewrite (Hsame Hs).
  - intros config db run_id o c n.
    apply keeps_final
      with (G := any_streams)
           (I := fun e : SimulationEngine.t F =>
                   charges_in_unit
                     (VehicleManager.vehicles (SimulationEngine.vehicle_manager e))).
    + apply run_steps_keeps, run_step_keeps_unit.
    + exact Logic.I.
    + constructor.
Qed.

(** The statement for rational charge levels: a vehicle at 0.2 that is
    CHARGING is at a level not below 0.2, and in [[0, 1]], after
    [update_charge]. *)
Lemma charge_level_monotone_in_unit_witness :
  let v := vehicle_in CHARGING "v1" in
  fleb (Vehicle.charge_level v) (Vehicle.charge_level (Vehicle.update_charge v)) = true
  /\ in_unit (Vehicle.charge_level (Vehicle.update_charge v)).
Proof.
  intros v.
  destruct (@charge_level_monotone_in_unit Q ChargeArith_Q ChargeLaws_Q) as [H _].
  destruct (H v) as (H1 & _ & H3).
  - split; reflexivity.
  - split; [apply H1; reflexivity|exact H3].
Defined.

(* ------------------------------------------------------------------ *)
(** ** Reading the sensor snapshot into the depot state *)

Lemma sensor_id_run {S} (name : string) o (s : S) c :
  sensor_id name o s c
  = match id_of_name name with
    | Some z => (Ok z, s, c)
    | None => (Raise (match second (split_on "_" name) with
                      | Some _ => ValueError
                      | None => IndexError
                      end), s, c)
    end.
Proof.
  unfold sensor_id, id_of_name, bind, from_option, ret, raise.
  destruct (second (split_on "_" name)) as [piece|]; [|reflexivity].
  destruct (py_int piece); reflexivity.
Qed.


(** One reading is taken in exactly when its name is readable. *)
Lemma update_from_reading_returns name reading o d c :
  returned (final_outcome (DepotController.update_from_reading name reading o d c))
  = readable name.
Proof.
  unfold readable, known_prefix, DepotController.update_from_reading.
  destruct (startswith name "gate_") eqn:E1;
    [|destruct (startswith name "spot_") eqn:E2;
      [|destruct (startswith name "charger_") eqn:E3]];
    simpl; try reflexivity;
    unfold bind; rewrite sensor_id_run;
    destruct (id_of_name name); try reflexivity.
  destruct (SensorReading.value reading); reflexivity.
Qed.

Lemma for_each_returns_forallb {S X} (l : list X) (body : X -> M S unit)
      (ok : X -> bool) :
  (forall x o s c, returned (final_outcome (body x o s c)) = ok x) ->
  forall o s c, returned (final_outcome (for_each l body o s c)) = forallb ok l.
Proof.
  intros Hb. induction l as [|x t IH]; intros o s c; simpl; [reflexivity|].
  unfold bind. specialize (Hb x o s c).
  destruct (body x o s c) as [[[[]|ex] s1] c1]; simpl in *; rewrite <- Hb; simpl.
  - apply IH.
  - reflexivity.
Qed.

Lemma update_depot_state_returns readings o (self : DepotController.t) c :
  returned (final_outcome (DepotController._update_depot_state readings o self c))
  = forallb (fun item => readable (fst item)) readings.
Proof.
  unfold DepotController._update_depot_state, zoom.
  rewrite <- (for_each_returns_forallb readings
                (fun item => DepotController.update_from_reading (fst item) (snd item))
                (fun item => readable (fst item))
                (fun x o s c => update_from_reading_returns (fst x) (snd x) o s c)
                o (DepotController.depot_state self) c).
  destruct (for_each _ _ o (DepotController.depot_state self) c) as [[x d] c'].
  reflexivity.
Qed.



(* ------------------------------------------------------------------ *)
(** ** Rules for [total] *)

Section TotalRules.
Context {S : Type}.
Variable G : Streams -> Prop.
Implicit Types (I : S -> Prop).

(** A method that returns, as an equation for its run. *)
Lemma total_run {A} I (m : M S A) o s c :
  total G I m -> G o -> I s ->
  exists a s' c', m o s c = (Ok a, s', c') /\ I s'.
Proof.
  intros Hm Ho H. specialize (Hm o s c Ho H).
  destruct (m o s c) as [[[a|ex] s'] c']; simpl in Hm; [eauto|contradiction].
Qed.

Lemma total_ret {A} I (a : A) : total G I (ret a).
Proof. intros o s c _ H. exact H. Qed.

Lemma total_bind {A B} I (m : M S A) (f : A -> M S B) :
  total G I m -> (forall a, total G I (f a)) -> total G I (bind m f).
Proof.
  intros Hm Hf o s c Ho H.
  destruct (total_run I m o s c Hm Ho H) as (a & s' & c' & E & H').
  rewrite (bind_returns m f o s c a s' c' E). now apply Hf.
Qed.

Lemma total_gets {A} I (f : S -> A) : total G I (gets f).
Proof. intros o s c _ H. exact H. Qed.

Lemma total_modify I (f : S -> S) : (forall s, I s -> I (f s)) -> total G I (modify f).
Proof. intros Hf o s c _ H. now apply Hf. Qed.

Lemma total_uuid4 I : total G I uuid4.
Proof. intros o s c _ H. exact H. Qed.

Lemma total_random I : total G I random.
Proof. intros o s c _ H. exact H. Qed.

Lemma total_for_each {X} I (l : list X) (body : X -> M S unit) :
  (forall x, In x l -> total G I (body x)) -> total G I (for_each l body).
Proof.
  induction l as [|x t IH]; intros Hb; simpl.
  - apply total_ret.
  - apply total_bind; [apply Hb; now left|].
    intros _. apply IH. intros y Hy. apply Hb. now right.
Qed.

Lemma total_for_extend {X Y} I (l : list X) (body : X -> M S (list Y)) :
  (forall x, In x l -> total G I (body x)) -> total G I (for_extend l body).
Proof.
  induction l as [|x t IH]; intros Hb; simpl.
  - apply total_ret.
  - apply total_bind; [apply Hb; now left|]. intros ys.
    apply total_bind; [|intros rest; apply total_ret].
    apply IH. intros y Hy. apply Hb. now right.
Qed.

Lemma total_for_fold {X Acc} I (l : list X) (body : X -> Acc -> M S Acc) (acc : Acc) :
  (forall x acc, In x l -> total G I (body x acc)) -> total G I (for_fold l body acc).
Proof.
  revert acc. induction l as [|x t IH]; intros acc Hb; simpl.
  - apply total_ret.
  - apply total_bind; [apply Hb; now left|]. intros acc'.
    apply IH. intros y a Hy. apply Hb. now right.
Qed.

End TotalRules.

Lemma total_zoom {S T A} (G : Streams -> Prop) (I : S -> Prop) (J : T -> Prop)
      (proj : S -> T) (upd : T -> S -> S) (m : M T A) :
  total G J m ->
  (forall s, I s -> J (proj s)) ->
  (forall s t, I s -> J t -> I (upd t s)) ->
  total G I (zoom proj upd m).
Proof.
  intros Hm Hp Hu o s c Ho H. unfold zoom.
  destruct (total_run G J m o (proj s) c Hm Ho (Hp s H)) as (a & t' & c' & E & H').
  rewrite E. simpl. now apply Hu.
Qed.

(* ------------------------------------------------------------------ *)
(** ** The controller does not raise on a wired depot *)

Lemma zmem_get {V} (k : Z) (d : dict Z V) :
  zmem k d = true -> exists v, zget k d = Some v.
Proof. unfold dict_mem. destruct (zget k d); [eauto|discriminate]. Qed.

Lemma view_covers_refl d : view_covers d d.
Proof. repeat split; auto. Qed.

Lemma update_from_reading_covers G d0 name reading :
  keeps G (view_covers d0) (DepotController.update_from_reading name reading).
Proof.
  unfold DepotController.update_from_reading.
  keeps_auto; apply keeps_modify; intros view (H1 & H2 & H3);
    (split; [|split]); simpl; auto;
    intros k Hk; apply dict_set_keeps_key; auto.
Qed.

Section Wired.
Context {F : Type} {CA : ChargeArith F}.
Variable G : Streams -> Prop.
Implicit Types (w : DepotController.W (F := F)).

(** The view of the depot may grow. *)
Lemma wired_covers w d :
  wired w -> view_covers (DepotController.depot_state (fst w)) d ->
  wired (DepotController.set_depot_state d (fst w), snd w).
Proof.
  intros (W1 & W2 & W3 & W4) (C1 & C2 & C3).
  repeat split; simpl; auto.
  eapply Forall_impl; [|exact W4]. simpl. intros kv H c Hc. auto.
Qed.

(** A vehicle of the registry may be replaced by one whose charger, if
    it has one, is known. *)
Lemma wired_replace w k (v' : Vehicle.t F) positions :
  wired w ->
  (forall c, Vehicle.assigned_charger v' = Some c ->
             zmem c (DepotState.charger_status
                       (DepotController.depot_state (fst w))) = true) ->
  wired (fst w, VehicleManager.mk (sset k v' (VehicleManager.vehicles (snd w)))
                                  positions).
Proof.
  intros (W1 & W2 & W3 & W4) Hc. repeat split; simpl; auto.
  apply dict_set_Forall; auto using Seqb_eq'.
Qed.

Lemma wired_vehicle w k v :
  wired w -> sget k (VehicleManager.vehicles (snd w)) = Some v ->
  forall c, Vehicle.assigned_charger v = Some c ->
            zmem c (DepotState.charger_status
                      (DepotController.depot_state (fst w))) = true.
Proof.
  intros (_ & _ & _ & W4) Hk. apply (dict_get_In _ Seqb_eq') in Hk.
  rewrite Forall_forall in W4. apply (W4 _ Hk).
Qed.

Lemma wired_positions w positions :
  wired w ->
  wired (fst w, VehicleManager.mk (VehicleManager.vehicles (snd w)) positions).
Proof. intros (W1 & W2 & W3 & W4). repeat split; auto. Qed.

Lemma wired_assign_spot w vehicle_id spot_id :
  wired w ->
  wired (fst w, snd (VehicleManager.assign_spot vehicle_id spot_id (snd w))).
Proof.
  intros Hw. unfold VehicleManager.assign_spot.
  destruct (VehicleManager.spot_taken spot_id (snd w)); [now destruct w|].
  destruct (sget vehicle_id (VehicleManager.vehicles (snd w))) as [v|] eqn:E;
    [|now destruct w].
  simpl. apply wired_replace; auto. simpl. now apply (wired_vehicle w vehicle_id v).
Qed.

Lemma wired_free_spot w spot_id :
  wired w -> wired (fst w, VehicleManager.free_spot spot_id (snd w)).
Proof.
  intros Hw. unfold VehicleManager.free_spot.
  destruct (zget spot_id (VehicleManager.vehicle_positions (snd w))) as [[vid|]|];
    try (now destruct w); try (now apply wired_positions).
  destruct (negb (String.eqb vid "")); [|now apply wired_positions].
  destruct (sget vid (VehicleManager.vehicles (snd w))) as [v|] eqn:E;
    [|now apply wired_positions].
  apply wired_replace; auto. simpl. now apply (wired_vehicle w vid v).
Qed.

Lemma update_vehicle_run w o c k (f : Vehicle.t F -> Vehicle.t F) :
  DepotController.update_vehicle k f o w c
  = (Ok tt,
     (fst w,
      match sget k (VehicleManager.vehicles (snd w)) with
      | Some v => VehicleManager.set_vehicles
                    (sset k (f v) (VehicleManager.vehicles (snd w))) (snd w)
      | None => snd w
      end), c).
Proof. reflexivity. Qed.

Lemma update_vehicle_total k (f : Vehicle.t F -> Vehicle.t F) :
  (forall v, Vehicle.assigned_charger (f v) = Vehicle.assigned_charger v) ->
  total G wired (DepotController.update_vehicle k f).
Proof.
  intros Hf o w c _ Hw. rewrite update_vehicle_run. simpl.
  destruct (sget k (VehicleManager.vehicles (snd w))) as [v|] eqn:E;
    [|now destruct w].
  apply wired_replace; auto. rewrite Hf. now apply (wired_vehicle w k v).
Qed.

Lemma assign_parking_spot_from_total spot_ids vehicle_id o w c :
  wired w ->
  (forall s, In s spot_ids ->
     zmem s (DepotState.spot_occupancy
               (DepotController.depot_state (fst w))) = true) ->
  exists r vm' c',
    DepotController.assign_parking_spot_from spot_ids vehicle_id o w c
    = (Ok r, (fst w, vm'), c')
    /\ wired (fst w, vm').
Proof.
  revert w c. induction spot_ids as [|spot rest IH]; intros w c Hw Hk; simpl.
  - exists None, (snd w), c. now destruct w.
  - destruct (zmem_get spot _ (Hk spot (or_introl eq_refl))) as [occupied E].
    unfold bind at 1, DepotController.on_self, zoom, bind, get, index.
    rewrite E. unfold ret at 1. destruct w as [ctl vm]. simpl fst in *. simpl snd in *.
    assert (Hrest : forall s, In s rest ->
              zmem s (DepotState.spot_occupancy
                        (DepotController.depot_state ctl)) = true)
      by (intros s Hs; apply Hk; now right).
    destruct (truthy occupied); simpl.
    + apply (IH (ctl, vm)); auto.
    + unfold DepotController.on_manager, zoom, call. simpl.
      pose proof (wired_assign_spot (ctl, vm) vehicle_id spot Hw) as Hw1.
      simpl in Hw1.
      destruct (VehicleManager.assign_spot vehicle_id spot vm) as [[|] vm1].
      * exists (Some spot), vm1, c. auto.
      * apply (IH (ctl, vm1)); auto.
Qed.

Lemma assign_charger_from_total charger_ids o (self : DepotController.t) c :
  (forall i, In i charger_ids ->
     zmem i (DepotState.charger_status (DepotController.depot_state self)) = true) ->
  exists r,
    DepotController.assign_charger_from charger_ids o self c = (Ok r, self, c)
    /\ forall ch, r = Some ch -> In ch charger_ids.
Proof.
  induction charger_ids as [|i rest IH]; intros Hk; simpl.
  - exists None. split; [reflexivity|discriminate].
  - destruct (zmem_get i _ (Hk i (or_introl eq_refl))) as [status E].
    unfold bind, get, index. rewrite E. unfold ret at 1.
    destruct (negb _ && negb _).
    + exists (Some i). split; [reflexivity|]. intros ch [= <-]. now left.
    + destruct IH as (r & Er & Hr); [intros j Hj; apply Hk; now right|].
      unfold bind, get, index in Er. exists r. split; [exact Er|].
      intros ch Hch. right. now apply Hr.
Qed.
End Wired.

Section WiredSteps.
Context {F : Type} {CA : ChargeArith F}.
Variable G : Streams -> Prop.
Implicit Types (w : DepotController.W (F := F)).

Lemma create_action_total {S} (I : S -> Prop) controller action_type target command
      current_step :
  total G I (DepotController._create_action controller action_type target command
               current_step).
Proof.
  unfold DepotController._create_action.
  apply total_bind; [apply total_uuid4|intros u; apply total_ret].
Qed.

Lemma free_vehicle_resources_total (vehicle : Vehicle.t F) o w c :
  wired w ->
  (forall ch, Vehicle.assigned_charger vehicle = Some ch ->
     zmem ch (DepotState.charger_status
                (DepotController.depot_state (fst w))) = true) ->
  exists w' c',
    DepotController._free_vehicle_resources vehicle o w c = (Ok tt, w', c')
    /\ wired w'.
Proof.
  intros Hw Hch. unfold DepotController._free_vehicle_resources.
  set (w1 := match Vehicle.assigned_spot vehicle with
             | Some spot => (fst w, VehicleManager.free_spot spot (snd w))
             | None => w
             end).
  assert (E1 : match Vehicle.assigned_spot vehicle with
               | Some spot =>
                   DepotController.on_manager
                     (modify (VehicleManager.free_spot spot))
               | None => ret tt
               end o w c = (Ok tt, w1, c)).
  { unfold w1. destruct (Vehicle.assigned_spot vehicle); [reflexivity|].
    now destruct w. }
  assert (Hw1 : wired w1 /\ fst w1 = fst w).
  { unfold w1. destruct (Vehicle.assigned_spot vehicle); [|auto].
    split; [now apply wired_free_spot|reflexivity]. }
  destruct Hw1 as [Hw1 Hfst].
  rewrite (bind_returns _ _ o w c tt w1 c E1).
  destruct (Vehicle.assigned_charger vehicle) as [ch|]; [|exists w1, c; auto].
  destruct (zmem_get ch _ (Hch ch eq_refl)) as [status E].
  unfold DepotController.on_self, zoom, bind, get, index, put.
  rewrite Hfst, E. unfold ret. do 2 eexists. split; [reflexivity|].
  rewrite <- Hfst. apply wired_covers; [exact Hw1|].
  repeat split; simpl; auto. intros k Hk. now apply dict_set_keeps_key.
Qed.

Lemma process_vehicle_total k current_step :
  total G wired (DepotController._process_vehicle k current_step).
Proof.
  intros o w c Ho Hw. unfold DepotController._process_vehicle.
  unfold bind at 1, get.
  destruct (sget k (VehicleManager.vehicles (snd w))) as [vehicle|] eqn:Hk;
    [|exact Hw].
  pose proof (wired_vehicle w k vehicle Hw Hk) as Hch.
  destruct (Vehicle.state vehicle).
  - (* APPROACHING *)
    destruct (DepotController._can_admit_vehicle (fst w)); [|exact Hw].
    destruct (assign_parking_spot_from_total
                (range (DepotController.num_spots (fst w)))
                (Vehicle.vehicle_id vehicle) o w c Hw (proj1 (proj2 Hw)))
      as (r & vm' & c' & E & Hw').
    assert (E' : DepotController._assign_parking_spot vehicle o w c
                 = (Ok r, (fst w, vm'), c')) by exact E.
    rewrite (bind_returns _ _ o w c _ _ _ E').
    destruct r as [s|].
    + apply (total_bind G wired); [now apply update_vehicle_total|intros _|auto|auto].
      apply total_bind; [apply create_action_total|intros a; apply total_ret].
    + apply (total_bind G wired); [now apply update_vehicle_total|intros _|auto|auto].
      apply total_ret.
  - (* WAITING *) exact Hw.
  - (* ENTERING *)
    apply (total_bind G wired); [now apply update_vehicle_total|intros _|auto|auto].
    apply total_ret.
  - (* PARKING *)
    destruct (assign_charger_from_total
                (range (DepotController.num_chargers (fst w))) o (fst w) c
                (proj1 (proj2 (proj2 Hw))))
      as (r & E & Hr).
    assert (E' : DepotController.on_self (DepotController._assign_charger vehicle)
                   o w c = (Ok r, w, c)).
    { unfold DepotController.on_self, zoom, DepotController._assign_charger, bind, get.
      unfold bind, get in E. rewrite E. now destruct w. }
    rewrite (bind_returns _ _ o w c _ _ _ E').
    destruct r as [ch|]; [|exact Hw].
    unfold bind at 1. rewrite update_vehicle_run, Hk.
    apply (total_bind G wired); [now apply update_vehicle_total|intros _|auto|].
    + apply total_bind; [apply create_action_total|intros a; apply total_ret].
    + apply wired_replace; auto. simpl. intros c0 [= <-].
      apply (proj1 (proj2 (proj2 Hw))). now apply Hr.
  - (* CHARGING *)
    destruct (Vehicle.can_depart vehicle).
    + apply (total_bind G wired); [now apply update_vehicle_total|intros _|auto|auto].
      destruct (Vehicle.assigned_charger vehicle); [|apply total_ret].
      apply total_bind; [apply create_action_total|intros a; apply total_ret].
    + destruct (DepotController._is_charger_failed _ _); [|exact Hw].
      apply (total_bind G wired); [now apply update_vehicle_total|intros _|auto|auto].
      apply total_bind; [apply create_action_total|intros a; apply total_ret].
  - (* EXITING *)
    destruct (free_vehicle_resources_total vehicle o w c Hw Hch)
      as (w' & c' & E & Hw').
    rewrite (bind_returns _ _ o w c _ _ _ E).
    apply (total_bind G wired); [now apply update_vehicle_total|intros _|auto|auto].
    apply (total_bind G wired); [now apply update_vehicle_total|intros _].
    apply total_ret.
  - (* DEPARTED *) exact Hw.
Qed.

Lemma control_gates_total current_step :
  total G wired (DepotController._control_gates current_step).
Proof.
  intros o w c _ Hw.
  destruct (control_gates_run o w c (DepotController.should_open_gate w)
              current_step (range (DepotController.num_gates (fst w))) (proj1 Hw))
    as (actions & c' & E & _).
  unfold DepotController._control_gates, bind, get. rewrite E. exact Hw.
Qed.

Lemma update_depot_state_wired readings :
  keeps G wired
        (DepotController.on_self (F := F)
           (DepotController._update_depot_state readings)).
Proof.
  intros o w c Ho Hw.
  unfold DepotController.on_self, DepotController._update_depot_state, zoom.
  pose proof (keeps_for_each G
                (view_covers (DepotController.depot_state (fst w))) readings
                (fun item => DepotController.update_from_reading (fst item) (snd item))
                (fun item _ => update_from_reading_covers G _ (fst item) (snd item))
                o (DepotController.depot_state (fst w)) c Ho (view_covers_refl _))
    as H.
  destruct (for_each readings _ o (DepotController.depot_state (fst w)) c)
    as [[x d] c'].
  simpl. now apply wired_covers.
Qed.

Lemma process_step_total readings current_step :
  forallb (fun item => readable (fst item)) readings = true ->
  total G wired (DepotController.process_step readings current_step).
Proof.
  intros Hnames. unfold DepotController.process_step.
  apply total_bind.
  - intros o w c Ho Hw.
    pose proof (update_depot_state_wired readings o w c Ho Hw) as Hkeep.
    pose proof (update_depot_state_returns readings o (fst w) c) as Hret.
    rewrite Hnames in Hret.
    unfold DepotController.on_self, zoom in *.
    destruct (DepotController._update_depot_state readings o (fst w) c)
      as [[[[]|ex] ctl] c']; simpl in *; [exact Hkeep|discriminate].
  - intros _. apply total_bind; [apply total_gets|intros keys].
    apply total_bind.
    + apply total_for_extend. intros k _. apply process_vehicle_total.
    + intros actions. apply total_bind; [apply control_gates_total|].
      intros gate_actions. apply total_ret.
Qed.
End WiredSteps.



(* ------------------------------------------------------------------ *)
(** ** No arrivals: nothing to control *)

Lemma triple_assume {S A} (G : Streams -> Prop) (P : S -> Prop) (phi : Prop)
      (m : M S A) Q :
  (phi -> triple G P m Q) -> triple G (fun s => P s /\ phi) m Q.
Proof. intros H o s c Ho [HP Hphi]. now apply H. Qed.

(** A closed gate reads closed and stays closed. *)
Lemma gate_read_closed G (k : Z) :
  triple G (fun g => GateSensor.is_open g = false) GateSensor.read
         (fun x g => GateSensor.is_open g = false
                     /\ good_result (fun reading =>
                          gate_reads_closed
                            (SensorReading.sensor_name reading, reading)) x).
Proof.
  intros o g c _ Hg.
  unfold GateSensor.read, bind, random, gets, modify, get, ret.
  destruct (Qltb _ _); simpl; (split; [exact Hg|]);
    intros _; simpl; now rewrite Hg.
Qed.

Lemma spot_read_not_gate G :
  triple G (fun _ => True) OccupancySensor.read
         (fun x _ => good_result (fun reading =>
                       gate_reads_closed
                         (SensorReading.sensor_name reading, reading)) x).
Proof.
  intros o s c _ _. unfold OccupancySensor.read, bind, random, get, ret. simpl.
  intros H. discriminate.
Qed.

Lemma charger_read_not_gate G :
  triple G (fun _ => True) ChargerSensor.read
         (fun x _ => good_result (fun reading =>
                       gate_reads_closed
                         (SensorReading.sensor_name reading, reading)) x).
Proof.
  intros o s c _ _.
  unfold ChargerSensor.read, bind, random, gets, modify, get, ret.
  destruct (Qltb _ _); simpl; intros H; discriminate.
Qed.

(** One loop of [read_all_sensors]: the sensors keep [Pv] and the
    snapshot keeps [Pr], if reading one sensor keeps [Pv] and returns a
    reading that satisfies [Pr] under its name. *)
Lemma read_each_snapshot {V} G (read : M V SensorReading.t)
      (Pv : Z * V -> Prop) (Pr : string * SensorReading.t -> Prop) keys readings :
  (forall k v,
      triple G (fun v' => v' = v /\ Pv (k, v)) read
             (fun x v' => Pv (k, v')
                          /\ good_result (fun reading =>
                               Pr (SensorReading.sensor_name reading, reading)) x)) ->
  Forall Pr readings ->
  triple G (Forall Pv) (SensorNetwork.read_each read keys readings)
         (fun x d => Forall Pv d /\ good_result (Forall Pr) x).
Proof.
  intros Hread Hr. unfold SensorNetwork.read_each.
  apply triple_for_fold; [|exact Hr].
  intros k acc _ Hacc. eapply triple_bind.
  - apply (triple_with_entry G k read Pv
             (good_result (fun reading =>
                Pr (SensorReading.sensor_name reading, reading)))).
    + exact Logic.I.
    + intros v. apply Hread.
  - intros reading o d c _ [Hd Hgood]. simpl in *. split; [exact Hd|].
    apply dict_set_Forall; auto using Seqb_eq'.
  - intros ex d [Hd _]. simpl. auto.
Qed.

Lemma Forall_True {A} (l : list A) : Forall (fun _ => True) l.
Proof. induction l; constructor; auto. Qed.

Lemma read_all_sensors_closed G :
  triple G (fun net => gates_closed (SensorNetwork.gates net))
         SensorNetwork.read_all_sensors
         (fun x net => gates_closed (SensorNetwork.gates net)
                       /\ good_result (Forall gate_reads_closed) x).
Proof.
  intros o net c Ho Hg. unfold SensorNetwork.read_all_sensors. cbv zeta.
  unfold bind at 1, gets. unfold bind at 1, zoom at 1.
  pose proof (read_each_snapshot G GateSensor.read
                (fun kv => GateSensor.is_open (snd kv) = false) gate_reads_closed
                (dict_keys (SensorNetwork.gates net)) []) as H1.
  specialize (H1 (fun k v => triple_conseq G _ _ _ _ _
                               (fun g (H : g = v /\ GateSensor.is_open v = false) =>
                                  eq_ind_r (fun g => GateSensor.is_open g = false)
                                           (proj2 H) (proj1 H))
                               (gate_read_closed G k)
                               (fun x g H => H))
                 (Forall_nil _) o (SensorNetwork.gates net) c Ho Hg).
  destruct (SensorNetwork.read_each GateSensor.read _ [] o (SensorNetwork.gates net) c)
    as [[[readings|ex] gates1] c1]; simpl in H1; destruct H1 as [Hg1 Hr1];
    [|split; [exact Hg1|exact Logic.I]].
  unfold bind at 1, gets. unfold bind at 1, zoom at 1. simpl.
  pose proof (read_each_snapshot G OccupancySensor.read (fun _ => True)
                gate_reads_closed
                (dict_keys (SensorNetwork.occupancy_sensors net)) readings) as H2.
  specialize (H2 (fun k v => triple_conseq G _ _ _ _ _
                               (fun _ _ => Logic.I)
                               (spot_read_not_gate G)
                               (fun x _ H => conj Logic.I H))
                 Hr1 o (SensorNetwork.occupancy_sensors net) c1 Ho (Forall_True _)).
  destruct (SensorNetwork.read_each OccupancySensor.read _ readings o
              (SensorNetwork.occupancy_sensors net) c1)
    as [[[readings2|ex] spots1] c2]; simpl in H2; destruct H2 as [_ Hr2];
    [|split; [exact Hg1|exact Logic.I]].
  unfold bind at 1, gets. unfold bind at 1, zoom at 1. simpl.
  pose proof (read_each_snapshot G ChargerSensor.read (fun _ => True)
                gate_reads_closed
                (dict_keys (SensorNetwork.chargers net)) readings2) as H3.
  specialize (H3 (fun k v => triple_conseq G _ _ _ _ _
                               (fun _ _ => Logic.I)
                               (charger_read_not_gate G)
                               (fun x _ H => conj Logic.I H))
                 Hr2 o (SensorNetwork.chargers net) c2 Ho (Forall_True _)).
  destruct (SensorNetwork.read_each ChargerSensor.read _ readings2 o
              (SensorNetwork.chargers net) c2)
    as [[[readings3|ex] chargers1] c3]; simpl in H3; destruct H3 as [_ Hr3];
    split; try exact Hg1; try exact Logic.I. exact Hr3.
Qed.

Lemma update_from_reading_view_closed G name reading :
  gate_reads_closed (name, reading) ->
  keeps G view_closed (DepotController.update_from_reading name reading).
Proof.
  intros Hr. unfold DepotController.update_from_reading.
  destruct (startswith name "gate_") eqn:E.
  - apply keeps_bind; [apply keeps_sensor_id|]. intros gate_id.
    apply keeps_modify. intros d Hd. unfold view_closed in *. simpl.
    apply dict_set_Forall; [exact Zeqb_eq'|exact Hd|]. simpl. now apply Hr.
  - keeps_auto; apply keeps_modify; auto.
Qed.

Lemma update_depot_state_view_closed G readings :
  Forall gate_reads_closed readings ->
  keeps G (fun self => view_closed (DepotController.depot_state self))
        (DepotController._update_depot_state readings).
Proof.
  intros Hr. unfold DepotController._update_depot_state.
  apply keeps_zoom with (J := view_closed); auto.
  apply keeps_for_each. intros [name reading] Hin.
  apply update_from_reading_view_closed.
  rewrite Forall_forall in Hr. now apply Hr.
Qed.

Section Quiet.
Context {F : Type} {CA : ChargeArith F}.
Implicit Types (w : DepotController.W (F := F)) (e : SimulationEngine.t F).
Variable logged : list ControlAction.

(** With the decision to keep the gates closed and every gate seen
    closed, no gate is commanded. *)
Lemma control_gates_quiet current_step gates o w c :
  view_closed (DepotController.depot_state (fst w)) ->
  exists x c',
    for_extend gates (DepotController.control_gate false current_step) o w c
    = (x, w, c')
    /\ good_result (fun actions => actions = []) x.
Proof.
  intros Hv. revert c. induction gates as [|g rest IH]; intros c; simpl.
  - exists (Ok []), c. split; reflexivity.
  - unfold bind at 1. unfold DepotController.control_gate at 1.
    unfold bind at 1, gets. unfold bind at 1, index.
    destruct (zget g (DepotState.gate_states
                        (DepotController.depot_state (fst w)))) as [v|] eqn:E.
    + assert (Hf : truthy v = false).
      { apply (dict_get_In _ Zeqb_eq') in E. unfold view_closed in Hv.
        rewrite Forall_forall in Hv. apply (Hv _ E). }
      unfold ret at 1. rewrite Hf. simpl. unfold ret at 1.
      destruct (IH c) as (x & c' & Ex & Hx). unfold bind. rewrite Ex.
      destruct x as [actions|ex]; simpl in *.
      * exists (Ok ([] ++ actions)), c'. split; [reflexivity|]. now rewrite Hx.
      * exists (Raise ex), c'. split; reflexivity.
    + exists (Raise KeyError), c. split; reflexivity.
Qed.

Lemma process_step_quiet G readings current_step :
  Forall gate_reads_closed readings ->
  triple G
    (fun w => VehicleManager.vehicles (snd w) = []
              /\ view_closed (DepotController.depot_state (fst w)))
    (DepotController.process_step readings current_step)
    (fun x w => (VehicleManager.vehicles (snd w) = []
                 /\ view_closed (DepotController.depot_state (fst w)))
                /\ good_result (fun actions => actions = []) x).
Proof.
  intros Hr o w c Ho [Hv Hc]. unfold DepotController.process_step.
  unfold bind at 1, DepotController.on_self, zoom.
  pose proof (update_depot_state_view_closed G readings Hr o (fst w) c Ho Hc) as H1.
  destruct (DepotController._update_depot_state readings o (fst w) c)
    as [[[[]|ex] ctl1] c1]; simpl in H1; [|simpl; auto].
  unfold bind at 1, gets. simpl. rewrite Hv. simpl.
  unfold bind at 1, ret at 1.
  assert (Hd : DepotController.should_open_gate (ctl1, snd w) = false).
  { unfold DepotController.should_open_gate, VehicleManager.get_vehicles_by_state.
    simpl. now rewrite Hv. }
  destruct (control_gates_quiet current_step
              (range (DepotController.num_gates ctl1)) o (ctl1, snd w) c1 H1)
    as (x & c' & Ex & Hx).
  assert (Ecg : DepotController._control_gates current_step o (ctl1, snd w) c1
                = (x, (ctl1, snd w), c')).
  { unfold DepotController._control_gates, bind, get. rewrite Hd. exact Ex. }
  unfold bind. rewrite Ecg.
  destruct x as [actions|ex]; simpl in *; auto.
Qed.

(** With an arrival rate of zero and draws in [[0, 1)] nobody arrives. *)
Lemma generate_vehicles_quiet :
  keeps unit_draws (quiet (F := F) logged) SimulationEngine._generate_vehicles.
Proof.
  intros o e c Ho H.
  unfold SimulationEngine._generate_vehicles, bind, random, get.
  assert (Hx : Qltb (rnd o (rnd_pos c))
                    (SimulationConfig.vehicle_arrival_rate (SimulationEngine.config e))
               = false).
  { unfold Qltb. apply negb_false_iff. apply Qle_bool_iff.
    destruct H as [Hrate _]. destruct (Ho (rnd_pos c)) as [H0 _].
    eapply Qle_trans; eauto. }
  rewrite Hx. exact H.
Qed.

Lemma quiet_db e db :
  quiet logged e ->
  DatabaseManager.control_actions db = logged ->
  quiet logged (SimulationEngine.set_db_manager db e).
Proof. intros (H1 & H2 & H3 & H4 & H5) Hdb. repeat split; auto. Qed.

Lemma on_db_quiet G {A} (m : M DatabaseManager.t A) :
  keeps G (fun db => DatabaseManager.control_actions db = logged) m ->
  keeps G (quiet (F := F) logged) (SimulationEngine.on_db m).
Proof.
  intros Hm. unfold SimulationEngine.on_db.
  apply keeps_zoom
    with (J := fun db => DatabaseManager.control_actions db = logged); auto.
  - intros e H. apply H.
  - intros e db H Hdb. now apply quiet_db.
Qed.

Lemma inject_failures_quiet G :
  keeps G (quiet (F := F) logged) SimulationEngine._inject_failures.
Proof.
  unfold SimulationEngine._inject_failures. keeps_auto.
  - unfold SimulationEngine.on_network.
    apply keeps_zoom
      with (J := fun net => gates_closed (SensorNetwork.gates net)).
    + apply keeps_zoom_frame. auto.
    + intros e H. apply H.
    + intros e net (H1 & H2 & H3 & H4 & H5) Hn. repeat split; auto.
  - unfold SimulationEngine.on_network.
    apply keeps_zoom
      with (J := fun net => gates_closed (SensorNetwork.gates net)).
    + apply keeps_zoom with (J := gates_closed); auto.
      apply keeps_with_entry. intros g Hg. apply keeps_modify. auto.
    + intros e H. apply H.
    + intros e net (H1 & H2 & H3 & H4 & H5) Hn. repeat split; auto.
Qed.

Lemma run_step_quiet :
  triple unit_draws (quiet (F := F) logged) SimulationEngine.run_step
         (fun x e => quiet logged e /\ good_result idle_step x).
Proof.
  assert (Hexc : forall (ex : exn) e, quiet logged e ->
             quiet logged e /\ good_result idle_step (Raise ex)) by (simpl; auto).
  unfold SimulationEngine.run_step.
  apply triple_bind_keeps; [apply keeps_modify; intros e0 He0; exact He0|intros _|exact Hexc].
  apply triple_bind_keeps; [apply keeps_modify; intros e0 He0; exact He0|intros _|exact Hexc].
  apply triple_bind_keeps; [apply keeps_get|intros self|exact Hexc].
  cbv zeta.
  apply triple_bind_keeps; [|intros _|exact Hexc].
  { apply on_db_quiet, keeps_modify. auto. }
  apply triple_bind_keeps; [apply inject_failures_quiet|intros _|exact Hexc].
  apply triple_bind_keeps; [apply generate_vehicles_quiet|intros _|exact Hexc].
  apply triple_bind
    with (Qm := fun x e => quiet logged e
                           /\ good_result (Forall gate_reads_closed) x).
  { unfold SimulationEngine.on_network. apply triple_zoom. intros e0 H0.
    eapply triple_conseq; [|apply (read_all_sensors_closed unit_draws)|].
    - intros net ->. apply H0.
    - intros x net [Hn Hx]. split; [|exact Hx].
      destruct H0 as (H1 & H2 & H3 & H4 & H5). repeat split; auto. }
  2:{ intros ex e1 [He1 _]. now apply Hexc. }
  intros readings. simpl. apply triple_assume. intros Hr.
  apply triple_bind_keeps; [|intros _|exact Hexc].
  { keeps_auto. apply on_db_quiet, keeps_modify. auto. }
  apply triple_bind_keeps; [|intros _|exact Hexc].
  { unfold SimulationEngine.on_manager.
    apply keeps_zoom with (J := fun vm => VehicleManager.vehicles vm = []).
    - apply keeps_modify. intros vm Hvm. simpl. now rewrite Hvm.
    - intros e H. apply H.
    - intros e vm (H1 & H2 & H3 & H4 & H5) Hvm. repeat split; auto. }
  apply triple_bind
    with (Qm := fun x e => quiet logged e
                           /\ good_result (fun actions => actions = []) x).
  { unfold SimulationEngine.on_controller. apply triple_zoom. intros e0 H0.
    eapply triple_conseq;
      [|apply (process_step_quiet unit_draws readings
                 (SimulationEngine.current_step self) Hr)|].
    - intros w ->. simpl. split; apply H0.
    - intros x w [[Hv Hc] Hx]. split; [|exact Hx].
      destruct H0 as (H1 & H2 & H3 & H4 & H5). repeat split; auto. }
  2:{ intros ex e1 [He1 _]. now apply Hexc. }
  intros control_actions. simpl. apply triple_assume. intros ->. simpl.
  apply triple_bind_keeps; [apply keeps_ret|intros _|exact Hexc].
  apply triple_bind_keeps; [apply detect_faults_keeps|intros faults|exact Hexc].
  apply triple_bind_keeps; [|intros _|exact Hexc].
  { keeps_auto.
    - apply on_db_quiet, keeps_modify. auto.
    - apply keeps_modify. intros e0 He0. exact He0. }
  intros o e c _ H. unfold bind, get, ret. simpl. split; [exact H|].
  destruct H as (_ & Hv & _). split; simpl; [now rewrite Hv|reflexivity].
Qed.

Lemma run_steps_quiet (k : nat) :
  triple unit_draws (quiet (F := F) logged) (run_steps k)
         (fun x e => quiet logged e /\ good_result (Forall idle_step) x).
Proof.
  induction k as [|k IH]; simpl.
  - intros o e c _ H. simpl. auto.
  - intros o e c Ho H. unfold bind at 1.
    pose proof (run_step_quiet o e c Ho H) as H1.
    destruct (SimulationEngine.run_step o e c) as [[[sr|ex] e1] c1];
      simpl in H1; destruct H1 as [H1 Hsr]; [|simpl; auto].
    unfold bind at 1. pose proof (IH o e1 c1 Ho H1) as H2.
    destruct (run_steps k o e1 c1) as [[[rest|ex] e2] c2];
      simpl in H2; destruct H2 as [H2 Hrest]; simpl; auto.
Qed.

Lemma run_steps_length (k : nat) o e c results e' c' :
  run_steps k o e c = (Ok results, e', c') -> List.length results = k.
Proof.
  revert o e c results e' c'. induction k as [|k IH]; simpl;
    intros o e c results e' c'.
  - unfold ret. now intros [= <- _ _].
  - unfold bind at 1.
    destruct (SimulationEngine.run_step o e c) as [[[sr|ex] e1] c1]; [|discriminate].
    unfold bind at 1.
    destruct (run_steps k o e1 c1) as [[[rest|ex] e2] c2] eqn:E; [|discriminate].
    unfold ret. intros [= <- _ _]. simpl. f_equal. eapply IH. exact E.
Qed.
End Quiet.

(* ------------------------------------------------------------------ *)
(** ** The engine does not raise *)

Lemma total_get {S} (G : Streams -> Prop) (I : S -> Prop) : total G I get.
Proof. intros o s c _ H. exact H. Qed.

Ltac total_step :=
  match goal with
  | |- total _ _ (bind _ _) => apply total_bind; [|intros ?]
  | |- total _ _ (ret _) => apply total_ret
  | |- total _ _ get => apply total_get
  | |- total _ _ (gets _) => apply total_gets
  | |- total _ _ random => apply total_random
  | |- total _ _ uuid4 => apply total_uuid4
  | |- total _ _ (for_each _ _) => apply total_for_each; intros ? ?
  | |- total _ _ (for_extend _ _) => apply total_for_extend; intros ? ?
  | |- total _ _ (for_fold _ _ _) => apply total_for_fold; intros ? ? ?
  | |- total _ _ (let _ := _ in _) => cbv zeta
  | |- total _ _ (if ?b then _ else _) => destruct b
  | |- total _ _ (match ?x with _ => _ end) => destruct x
  end.

Ltac total_auto := repeat total_step.

Lemma id_of_name_gate (z : Z) : id_of_name ("gate_" ++ str_of_int z) = Some z.
Proof.
  unfold id_of_name. simpl. rewrite split_on_str_of_int. simpl.
  apply py_int_str_of_int.
Qed.

Lemma id_of_name_spot (z : Z) : id_of_name ("spot_" ++ str_of_int z) = Some z.
Proof.
  unfold id_of_name. simpl. rewrite split_on_str_of_int. simpl.
  apply py_int_str_of_int.
Qed.

Lemma id_of_name_charger (z : Z) : id_of_name ("charger_" ++ str_of_int z) = Some z.
Proof.
  unfold id_of_name. simpl. rewrite split_on_str_of_int. simpl.
  apply py_int_str_of_int.
Qed.

Lemma readable_gate (z : Z) : readable ("gate_" ++ str_of_int z) = true.
Proof. unfold readable. rewrite id_of_name_gate. apply orb_true_r. Qed.

Lemma readable_spot (z : Z) : readable ("spot_" ++ str_of_int z) = true.
Proof. unfold readable. rewrite id_of_name_spot. apply orb_true_r. Qed.

Lemma readable_charger (z : Z) : readable ("charger_" ++ str_of_int z) = true.
Proof. unfold readable. rewrite id_of_name_charger. apply orb_true_r. Qed.

(** Every sensor returns a reading, and its name is readable. *)
Lemma gate_read_readable o (g : GateSensor.t) c :
  exists reading g' c',
    GateSensor.read o g c = (Ok reading, g', c')
    /\ readable (SensorReading.sensor_name reading) = true.
Proof.
  unfold GateSensor.read, bind, random, gets, modify, get, ret.
  destruct (Qltb _ _); do 3 eexists; (split; [reflexivity|]);
    apply readable_gate.
Qed.

Lemma spot_read_readable o (s : OccupancySensor.t) c :
  exists reading s' c',
    OccupancySensor.read o s c = (Ok reading, s', c')
    /\ readable (SensorReading.sensor_name reading) = true.
Proof.
  unfold OccupancySensor.read, bind, random, get, ret.
  do 3 eexists. split; [reflexivity|]. apply readable_spot.
Qed.

Lemma charger_read_readable o (ch : ChargerSensor.t) c :
  exists reading ch' c',
    ChargerSensor.read o ch c = (Ok reading, ch', c')
    /\ readable (SensorReading.sensor_name reading) = true.
Proof.
  unfold ChargerSensor.read, bind, random, gets, modify, get, ret.
  destruct (Qltb _ _); do 3 eexists; (split; [reflexivity|]);
    apply readable_charger.
Qed.

(** One loop of [read_all_sensors] returns when its keys are keys of the
    dictionary; the keys stay, and the snapshot stays readable. *)
Lemma read_each_total {V} (read : M V SensorReading.t) keys :
  (forall o v c, exists reading v' c',
      read o v c = (Ok reading, v', c')
      /\ readable (SensorReading.sensor_name reading) = true) ->
  forall readings o (d : dict Z V) c,
    (forall k, In k keys -> zmem k d = true) ->
    Forall (fun item => readable (fst item) = true) readings ->
    exists readings' d' c',
      SensorNetwork.read_each read keys readings o d c = (Ok readings', d', c')
      /\ (forall k, zmem k d = true -> zmem k d' = true)
      /\ Forall (fun item => readable (fst item) = true) readings'.
Proof.
  intros Hread. unfold SensorNetwork.read_each.
  induction keys as [|k rest IH]; intros readings o d c Hk Hr; simpl.
  - exists readings, d, c. auto.
  - destruct (zmem_get k d (Hk k (or_introl eq_refl))) as [v E].
    destruct (Hread o v c) as (reading & v' & c' & Er & Hn).
    unfold bind at 1. unfold bind at 1, with_entry. rewrite E, Er.
    unfold ret at 1.
    destruct (IH (sset (SensorReading.sensor_name reading) reading readings) o
                 (zset k v' d) c')
      as (readings' & d' & c'' & Erest & Hkeys & Hr').
    + intros k' Hk'. apply dict_set_keeps_key. apply Hk. now right.
    + apply dict_set_Forall; auto using Seqb_eq'.
    + exists readings', d', c''. split; [exact Erest|]. split; [|exact Hr'].
      intros k' Hk'. apply Hkeys. now apply dict_set_keeps_key.
Qed.

Lemma dict_keys_mem {V} (d : dict Z V) (k : Z) :
  In k (dict_keys d) -> zmem k d = true.
Proof.
  unfold dict_keys. intros H. apply in_map_iff in H.
  destruct H as ([k' v] & <- & Hin). simpl.
  destruct (In_dict_get Z.eqb Zeqb_eq' k' v d Hin) as [v' E].
  unfold dict_mem. now rewrite E.
Qed.

Lemma read_all_sensors_total o (net : SensorNetwork.t) c :
  exists readings net' c',
    SensorNetwork.read_all_sensors o net c = (Ok readings, net', c')
    /\ (forall k, zmem k (SensorNetwork.gates net) = true ->
                  zmem k (SensorNetwork.gates net') = true)
    /\ (forall k, zmem k (SensorNetwork.chargers net) = true ->
                  zmem k (SensorNetwork.chargers net') = true)
    /\ forallb (fun item => readable (fst item)) readings = true.
Proof.
  unfold SensorNetwork.read_all_sensors. cbv zeta.
  unfold bind at 1, gets. unfold bind at 1, zoom at 1.
  destruct (read_each_total GateSensor.read (dict_keys (SensorNetwork.gates net))
              gate_read_readable [] o (SensorNetwork.gates net) c
              (dict_keys_mem _) (Forall_nil _))
    as (r1 & g1 & c1 & E1 & Hg & Hr1).
  rewrite E1. unfold bind at 1, gets. unfold bind at 1, zoom at 1. simpl.
  destruct (read_each_total OccupancySensor.read
              (dict_keys (SensorNetwork.occupancy_sensors net))
              spot_read_readable r1 o (SensorNetwork.occupancy_sensors net) c1
              (dict_keys_mem _) Hr1)
    as (r2 & s2 & c2 & E2 & _ & Hr2).
  rewrite E2. unfold bind at 1, gets. unfold bind at 1, zoom at 1. simpl.
  destruct (read_each_total ChargerSensor.read
              (dict_keys (SensorNetwork.chargers net))
              charger_read_readable r2 o (SensorNetwork.chargers net) c2
              (dict_keys_mem _) Hr2)
    as (r3 & ch3 & c3 & E3 & Hch & Hr3).
  rewrite E3. unfold ret. do 3 eexists. split; [reflexivity|]. simpl.
  repeat split; auto.
  apply forallb_forall. rewrite Forall_forall in Hr3. auto.
Qed.

Lemma total_zoom_frame {S T A} (G : Streams -> Prop) (I : S -> Prop)
      (proj : S -> T) (upd : T -> S -> S) (m : M T A) :
  total G (fun _ => True) m ->
  (forall t s, I s -> I (upd t s)) ->
  total G I (zoom proj upd m).
Proof.
  intros Hm Hu. apply total_zoom with (J := fun _ => True); auto.
Qed.

Section Sound.
Context {F : Type} {CA : ChargeArith F}.
Variable G : Streams -> Prop.
Implicit Types (e : SimulationEngine.t F).

Lemma update_charge_keeps_charger (v : Vehicle.t F) :
  Vehicle.assigned_charger (Vehicle.update_charge v) = Vehicle.assigned_charger v.
Proof.
  unfold Vehicle.update_charge, Vehicle.update_charge_by.
  destruct (VehicleState_eqb _ _); reflexivity.
Qed.

Lemma on_db_total {A} (m : M DatabaseManager.t A) :
  total G (fun _ => True) m -> total G (sound (F := F)) (SimulationEngine.on_db m).
Proof.
  intros Hm. unfold SimulationEngine.on_db. apply total_zoom_frame; auto.
Qed.

Lemma inject_charger_run o e c :
  sound e ->
  zmem 0 (SensorNetwork.chargers (SimulationEngine.sensor_network e)) = true ->
  exists e',
    SimulationEngine.on_network
      (zoom SensorNetwork.chargers SensorNetwork.set_chargers
         (with_entry Z.eqb 0 (modify ChargerSensor.fail))) o e c = (Ok tt, e', c)
    /\ sound e'
    /\ SimulationEngine.config e' = SimulationEngine.config e
    /\ SimulationEngine.current_step e' = SimulationEngine.current_step e.
Proof.
  intros [Hw [Hc Hg]] H0. destruct (zmem_get 0 _ H0) as [ch E].
  unfold SimulationEngine.on_network, zoom, with_entry, modify. rewrite E.
  eexists. split; [reflexivity|]. split; [|split; reflexivity].
  split; [exact Hw|]. split; simpl.
  - intros _. now apply dict_set_keeps_key.
  - exact Hg.
Qed.

Lemma inject_gate_run o e c :
  sound e ->
  zmem 0 (SensorNetwork.gates (SimulationEngine.sensor_network e)) = true ->
  exists e',
    SimulationEngine.on_network
      (zoom SensorNetwork.gates SensorNetwork.set_gates
         (with_entry Z.eqb 0 (modify GateSensor.fail))) o e c = (Ok tt, e', c)
    /\ sound e'.
Proof.
  intros [Hw [Hc Hg]] H0. destruct (zmem_get 0 _ H0) as [g E].
  unfold SimulationEngine.on_network, zoom, with_entry, modify. rewrite E.
  eexists. split; [reflexivity|].
  split; [exact Hw|]. split; simpl.
  - exact Hc.
  - intros _. now apply dict_set_keeps_key.
Qed.

(** An injection is made only when its step is configured, and then
    device 0 exists. *)
Lemma inject_failures_total : total G (sound (F := F)) SimulationEngine._inject_failures.
Proof.
  intros o e c _ Hs. unfold SimulationEngine._inject_failures.
  unfold bind at 1, get.
  assert (H1 : exists e1,
             (if truthy_step (SimulationConfig.charger_failure_step
                                (SimulationEngine.config e))
                 && match SimulationConfig.charger_failure_step
                            (SimulationEngine.config e) with
                    | Some n => (SimulationEngine.current_step e =? n)%Z
                    | None => false
                    end
              then SimulationEngine.on_network
                     (zoom SensorNetwork.chargers SensorNetwork.set_chargers
                        (with_entry Z.eqb 0 (modify ChargerSensor.fail)))
              else ret tt) o e c = (Ok tt, e1, c)
             /\ sound e1
             /\ SimulationEngine.config e1 = SimulationEngine.config e).
  { destruct (truthy_step _) eqn:Et; [|exists e; auto].
    destruct (match SimulationConfig.charger_failure_step _ with
              | Some n => _ | None => false end); [|exists e; auto].
    destruct (inject_charger_run o e c Hs (proj1 (proj2 Hs) Et))
      as (e1 & E1 & Hs1 & Hcfg & _). exists e1. auto. }
  destruct H1 as (e1 & E1 & Hs1 & Hcfg).
  rewrite (bind_returns _ _ o e c tt e1 c E1).
  destruct (truthy_step (SimulationConfig.gate_failure_step _)) eqn:Et;
    [|exact Hs1].
  destruct (match SimulationConfig.gate_failure_step _ with
            | Some n => _ | None => false end); [|exact Hs1].
  rewrite <- Hcfg in Et.
  destruct (inject_gate_run o e1 c Hs1 (proj2 (proj2 Hs1) Et)) as (e2 & E2 & Hs2).
  cbn [andb]. rewrite E2. exact Hs2.
Qed.

Lemma generate_vehicles_total :
  total G (sound (F := F)) SimulationEngine._generate_vehicles.
Proof.
  intros o e c _ Hs.
  unfold SimulationEngine._generate_vehicles, bind, random, get, Vehicle.create_new,
    uuid4, ret, SimulationEngine.on_manager, zoom, modify.
  destruct (Qltb _ _); [|exact Hs]. simpl.
  destruct Hs as [(W1 & W2 & W3 & W4) Hfit]. repeat split; auto; try apply Hfit.
  simpl. apply dict_set_Forall; auto using Seqb_eq'. simpl. discriminate.
Qed.

Lemma detect_faults_total (I : SimulationEngine.t F -> Prop) readings :
  total G I (SimulationEngine._detect_faults readings).
Proof. unfold SimulationEngine._detect_faults. total_auto. Qed.

(** A step of a sound engine returns, and the engine is sound again. *)
Lemma run_step_total : total G (sound (F := F)) SimulationEngine.run_step.
Proof.
  unfold SimulationEngine.run_step.
  apply total_bind; [apply total_modify; intros e0 H0; exact H0|intros _].
  apply total_bind; [apply total_modify; intros e0 H0; exact H0|intros _].
  apply total_bind; [apply total_get|intros self]. cbv zeta.
  apply total_bind; [|intros _].
  { apply on_db_total, total_modify. auto. }
  apply total_bind; [apply inject_failures_total|intros _].
  apply total_bind; [apply generate_vehicles_total|intros _].
  apply triple_bind
    with (Qm := post (fun readings e =>
                        sound e
                        /\ forallb (fun item => readable (fst item)) readings = true)
                     (fun _ => False)).
  { intros o e c _ [Hw [Hc Hg]].
    unfold SimulationEngine.on_network, zoom.
    destruct (read_all_sensors_total o (SimulationEngine.sensor_network e) c)
      as (readings & net' & c' & E & Hgk & Hck & Hr).
    rewrite E. simpl. split; [|exact Hr]. split; [exact Hw|].
    split; simpl; intros Ht; [apply Hck, Hc, Ht|apply Hgk, Hg, Ht]. }
  2:{ intros ex e []. }
  intros readings. simpl. apply triple_assume. intros Hr.
  apply total_bind; [|intros _].
  { total_auto. apply on_db_total, total_modify. auto. }
  apply total_bind; [|intros _].
  { intros o e c _ [(W1 & W2 & W3 & W4) Hfit]. simpl.
    split; [|exact Hfit]. repeat split; auto. simpl.
    apply Forall_map. eapply Forall_impl; [|exact W4]. simpl.
    intros kv H ch. rewrite update_charge_keeps_charger. apply H. }
  apply total_bind; [|intros control_actions].
  { unfold SimulationEngine.on_controller.
    apply total_zoom with (J := wired (F := F)).
    - now apply process_step_total.
    - intros e [Hw _]. exact Hw.
    - intros e [ctl vm] [_ Hfit] Hw. split; [exact Hw|exact Hfit]. }
  apply total_bind; [|intros _].
  { total_auto. apply on_db_total, total_modify. auto. }
  apply total_bind; [apply detect_faults_total|intros faults].
  apply total_bind; [|intros _].
  { total_auto.
    - apply on_db_total, total_modify. auto.
    - apply total_modify. intros e0 H0. exact H0. }
  total_auto.
Qed.

Lemma run_steps_total (k : nat) : total G (sound (F := F)) (run_steps k).
Proof.
  induction k as [|k IH]; simpl; total_auto; auto using run_step_total.
Qed.
End Sound.

(* ------------------------------------------------------------------ *)
(** ** A new engine *)

Section NewEngine.
Context {F : Type} {CA : ChargeArith F}.

Lemma created_is_quiet config db run_id :
  (SimulationConfig.vehicle_arrival_rate config == 0)%Q ->
  quiet (DatabaseManager.control_actions db)
        (SimulationEngine.create (F := F) config db run_id).
Proof.
  intros Hrate. repeat split; simpl; auto.
  - rewrite Hrate. apply Qle_refl.
  - unfold gates_closed, dict_of_range. apply Forall_map.
    apply Forall_forall. intros i _. reflexivity.
  - unfold view_closed. simpl. unfold dict_of_range. apply Forall_map.
    apply Forall_forall. intros i _. reflexivity.
Qed.

Lemma dict_of_range_mem {V} (n k : Z) (f : Z -> V) :
  0 <= k < n -> zmem k (dict_of_range n f) = true.
Proof. intros H. unfold dict_mem. now rewrite dict_of_range_get. Qed.

Lemma created_is_sound config db run_id :
  injections_configured config ->
  sound (SimulationEngine.create (F := F) config db run_id).
Proof.
  intros [Hc Hg]. split; [|split]; simpl.
  - repeat split; simpl; try (intros k Hk; apply dict_of_range_mem;
                              now apply In_range).
    constructor.
  - intros Ht. apply dict_of_range_mem. specialize (Hc Ht). lia.
  - intros Ht. apply dict_of_range_mem. specialize (Hg Ht). lia.
Qed.
End NewEngine.

(** C9.  An engine constructed with an arrival rate of zero, on draws in
    [[0, 1)]: after any number of steps the registry is empty and no
    control action has been added to the log; every step reported no
    vehicle and no control action.  The run does not raise, provided a
    failure injection is configured only for a kind of device the depot
    has. *)
Theorem no_arrivals_no_actions {F : Type} {CA : ChargeArith F}
    (config : SimulationConfig.t) (db : DatabaseManager.t) (run_id : string)
    (o : Streams) (c : Cursor) (n : nat)
    (Hrate : (SimulationConfig.vehicle_arrival_rate config == 0)%Q)
    (Hdraws : unit_draws o) :
  let x := run_steps n o (SimulationEngine.create (F := F) config db run_id) c in
  let e' := final_state x in
  VehicleManager.vehicles (SimulationEngine.vehicle_manager e') = []
  /\ DatabaseManager.control_actions (SimulationEngine.db_manager e')
     = DatabaseManager.control_actions db
  /\ (forall results, final_outcome x = Ok results ->
        List.length results = n /\ Forall idle_step results)
  /\ (injections_configured config -> returned (final_outcome x) = true).
Proof.
  cbv zeta.
  pose proof (run_steps_quiet (DatabaseManager.control_actions db) n o
                (SimulationEngine.create (F := F) config db run_id) c Hdraws
                (created_is_quiet config db run_id Hrate)) as Hq.
  pose proof (fun H => run_steps_total any_streams n o
                (SimulationEngine.create (F := F) config db run_id) c Logic.I
                (created_is_sound config db run_id H)) as Ht.
  pose proof (run_steps_length n o
                (SimulationEngine.create (F := F) config db run_id) c) as Hl.
  destruct (run_steps n o (SimulationEngine.create config db run_id) c)
    as [[x e'] c'].
  unfold final_state, final_outcome. simpl in *.
  destruct Hq as [(_ & Hv & Hdb & _) Hres].
  split; [exact Hv|]. split; [exact Hdb|]. split.
  - intros results ->. split; [eapply Hl; reflexivity|exact Hres].
  - intros Hc. specialize (Ht Hc). destruct x; [reflexivity|contradiction].
Qed.

(** The statement for the "normal" depot with no arrivals, over three
    steps. *)
Lemma no_arrivals_no_actions_witness :
  let x := run_steps 3 streams_half
             (SimulationEngine.create (F := Q) scenario_no_arrivals
                DatabaseManager.empty "run") cursor0 in
  VehicleManager.vehicles (SimulationEngine.vehicle_manager (final_state x)) = []
  /\ DatabaseManager.control_actions (SimulationEngine.db_manager (final_state x)) = []
  /\ returned (final_outcome x) = true.
Proof.
  intros x.
  assert (Hrate : (SimulationConfig.vehicle_arrival_rate scenario_no_arrivals == 0)%Q)
    by reflexivity.
  assert (Hdraws : unit_draws streams_half).
  { intros i. simpl. split; [discriminate|reflexivity]. }
  destruct (no_arrivals_no_actions scenario_no_arrivals DatabaseManager.empty "run"
              streams_half cursor0 3 Hrate Hdraws) as (Hv & Hdb & _ & Ht).
  split; [exact Hv|]. split; [exact Hdb|].
  apply Ht. split; simpl; discriminate.
Defined.

(* ================================================================== *)
(** * Further properties of the code *)

(* ------------------------------------------------------------------ *)
(** ** More on dictionaries *)

Section DictOrder.
Context {K V : Type}.
Variable eqb : K -> K -> bool.
Hypothesis eqb_eq : forall x y, eqb x y = true <-> x = y.

Lemma dict_get_notin (k : K) (d : dict K V) :
  dict_get eqb k d = None -> ~ In k (dict_keys d).
Proof.
  induction d as [|[k' v'] t IH]; simpl; [tauto|].
  destruct (eqb k k') eqn:E; [discriminate|].
  intros H [->|Hin]; [|now apply IH].
  now rewrite (eqb_same eqb eqb_eq) in E.
Qed.

Lemma dict_get_of_In (k : K) (v : V) (d : dict K V) :
  NoDup (dict_keys d) -> In (k, v) d -> dict_get eqb k d = Some v.
Proof.
  induction d as [|[k' v'] t IH]; simpl; [tauto|].
  intros Hnd [[= -> ->]|Hin].
  - now rewrite (eqb_same eqb eqb_eq).
  - inversion Hnd as [|? ? Hk Ht]; subst.
    destruct (eqb k k') eqn:E.
    + apply eqb_eq in E. subst k'. exfalso. apply Hk.
      change k with (fst (k, v)). now apply in_map.
    + now apply IH.
Qed.

Lemma dict_set_keys (k : K) (v : V) (d : dict K V) :
  dict_keys (dict_set eqb k v d)
  = if dict_mem eqb k d then dict_keys d else dict_keys d ++ [k].
Proof.
  unfold dict_mem.
  induction d as [|[k' v'] t IH]; simpl; [reflexivity|].
  destruct (eqb k k') eqn:E; simpl; [reflexivity|].
  rewrite IH. now destruct (dict_get eqb k t).
Qed.

Lemma dict_set_NoDup (k : K) (v : V) (d : dict K V) :
  NoDup (dict_keys d) -> NoDup (dict_keys (dict_set eqb k v d)).
Proof.
  intros Hnd. rewrite dict_set_keys. unfold dict_mem.
  destruct (dict_get eqb k d) eqn:E; [exact Hnd|].
  apply dict_get_notin in E.
  apply NoDup_app; [exact Hnd|repeat constructor; auto| ].
  intros x Hx [<-|[]]. now apply E.
Qed.

(** What a dictionary holds after an assignment: the new entry, and the
    entries under the other keys. *)
Lemma dict_set_In_inv (k : K) (v : V) (d : dict K V) (kv : K * V) :
  NoDup (dict_keys d) ->
  In kv (dict_set eqb k v d) -> kv = (k, v) \/ (In kv d /\ fst kv <> k).
Proof.
  induction d as [|[k' v'] t IH]; simpl.
  - intros _ [<-|[]]. now left.
  - intros Hnd. inversion Hnd as [|? ? Hk Ht]; subst.
    destruct (eqb k k') eqn:E.
    + apply eqb_eq in E. subst k'. intros [<-|Hin]; [now left|].
      right. split; [now right|]. intros <-. apply Hk. now apply in_map.
    + intros [<-|Hin].
      * right. split; [now left|]. simpl. intros ->.
        now rewrite (eqb_same eqb eqb_eq) in E.
      * destruct (IH Ht Hin) as [->|[Hin' Hne]]; [now left|].
        right. split; [now right|exact Hne].
Qed.
End DictOrder.

(* ------------------------------------------------------------------ *)
(** ** Conflict detection *)

Section Conflicts.
Context {F : Type} {CA : ChargeArith F}.
Implicit Types (vm : VehicleManager.t F) (vs : list (Vehicle.t F)).

Lemma claimants_cons (s : Z) (v : Vehicle.t F) vs :
  claimants s (v :: vs)
  = if claims_spot s v then Vehicle.vehicle_id v :: claimants s vs
    else claimants s vs.
Proof. unfold claimants. simpl. now destruct (claims_spot s v). Qed.

(** The claims dictionary after the first loop: under every spot, the
    ids already collected followed by those of the vehicles scanned. *)
Lemma spot_claims_get vs : forall (acc : dict Z (list string)) (s : Z),
  zget s (VehicleManager.spot_claims vs acc)
  = match claimants s vs with
    | [] => zget s acc
    | _ :: _ => Some (match zget s acc with Some l => l | None => [] end
                      ++ claimants s vs)
    end.
Proof.
  induction vs as [|v rest IH]; intros acc s; [reflexivity|].
  cbn [VehicleManager.spot_claims]. rewrite claimants_cons.
  unfold claims_spot.
  destruct (Vehicle.assigned_spot v) as [t|] eqn:Espot; [|apply IH].
  set (acc1 := if zmem t acc then acc else zset t [] acc).
  assert (H1 : zget t acc1
               = Some (match zget t acc with Some l => l | None => [] end)).
  { unfold acc1, dict_mem. destruct (zget t acc) eqn:E; [exact E|].
    apply (dict_get_set_same Z.eqb Zeqb_eq'). }
  assert (H1' : forall s', s' <> t -> zget s' acc1 = zget s' acc).
  { intros s' Hne. unfold acc1. destruct (zmem t acc); [reflexivity|].
    now apply (dict_get_set_other Z.eqb Zeqb_eq'). }
  rewrite H1, IH.
  destruct (Z.eqb_spec t s) as [->|Hne].
  - rewrite (dict_get_set_same Z.eqb Zeqb_eq').
    destruct (claimants s rest); [reflexivity|].
    now rewrite <- app_assoc.
  - assert (Hne' : s <> t) by congruence.
    rewrite (dict_get_set_other Z.eqb Zeqb_eq' _ _ _ _ Hne'), (H1' _ Hne').
    reflexivity.
Qed.

Lemma spot_claims_NoDup vs : forall (acc : dict Z (list string)),
  NoDup (dict_keys acc) -> NoDup (dict_keys (VehicleManager.spot_claims vs acc)).
Proof.
  induction vs as [|v rest IH]; intros acc Hnd; simpl; [exact Hnd|].
  destruct (Vehicle.assigned_spot v) as [t|]; [|now apply IH].
  apply IH. apply (dict_set_NoDup Z.eqb Zeqb_eq').
  destruct (zmem t acc); [exact Hnd|].
  now apply (dict_set_NoDup Z.eqb Zeqb_eq').
Qed.

(** Dropping entries of a dictionary leaves its keys distinct. *)
Lemma filter_keys_distinct {K V : Type} (keep : K * V -> bool) (d : dict K V) :
  NoDup (dict_keys d) -> NoDup (dict_keys (filter keep d)).
Proof.
  unfold dict_keys. intros Hkeys.
  induction d as [|entry rest IH]; cbn [filter map] in *; [exact Hkeys|].
  apply NoDup_cons_iff in Hkeys. destruct Hkeys as [Hfresh Hrest].
  destruct (keep entry); cbn [map]; [|exact (IH Hrest)].
  apply NoDup_cons_iff. split; [|exact (IH Hrest)].
  rewrite in_map_iff. intros (other & Hkey & Hkept).
  apply Hfresh. rewrite <- Hkey.
  apply in_map. exact (proj1 (proj1 (filter_In _ _ _) Hkept)).
Qed.

Lemma detect_conflicts_In vm (spot : Z) (ids : list string) :
  In (spot, ids) (VehicleManager.detect_occupancy_conflicts vm)
  <-> ids = claimants spot (dict_values (VehicleManager.vehicles vm))
      /\ (1 < List.length ids)%nat.
Proof.
  unfold VehicleManager.detect_occupancy_conflicts.
  rewrite filter_In. simpl. rewrite Nat.ltb_lt.
  pose proof (spot_claims_get (dict_values (VehicleManager.vehicles vm)) [] spot)
    as Hget.
  cbn [dict_get app] in Hget.
  assert (Hnd : NoDup (dict_keys (VehicleManager.spot_claims
                                    (dict_values (VehicleManager.vehicles vm)) [])))
    by (apply spot_claims_NoDup; constructor).
  split.
  - intros [Hin Hlen]. split; [|exact Hlen].
    apply (dict_get_of_In Z.eqb Zeqb_eq' _ _ _ Hnd) in Hin.
    rewrite Hin in Hget.
    destruct (claimants spot (dict_values (VehicleManager.vehicles vm)));
      simpl in Hget; congruence.
  - intros [-> Hlen]. split; [|exact Hlen].
    apply (dict_get_In Z.eqb Zeqb_eq'). rewrite Hget.
    destruct (claimants spot (dict_values (VehicleManager.vehicles vm)));
      [simpl in Hlen; lia|reflexivity].
Qed.

Lemma detect_conflicts_NoDup vm :
  NoDup (map fst (VehicleManager.detect_occupancy_conflicts vm)).
Proof.
  unfold VehicleManager.detect_occupancy_conflicts.
  apply (filter_keys_distinct
           (fun conflict : Z * list string => (1 <? List.length (snd conflict))%nat)).
  apply spot_claims_NoDup. constructor.
Qed.
End Conflicts.

(** X1.  [detect_occupancy_conflicts] reports a spot exactly when two or
    more vehicles claim it, once, with the ids of all the vehicles that
    claim it in the order of the registry. *)
Theorem conflicts_are_multiple_claims {F : Type} {CA : ChargeArith F}
    (vm : VehicleManager.t F) :
  (forall spot ids,
      In (spot, ids) (VehicleManager.detect_occupancy_conflicts vm)
      <-> ids = claimants spot (dict_values (VehicleManager.vehicles vm))
          /\ (1 < List.length ids)%nat)
  /\ NoDup (map fst (VehicleManager.detect_occupancy_conflicts vm)).
Proof.
  split.
  - intros spot ids. apply detect_conflicts_In.
  - apply detect_conflicts_NoDup.
Qed.

(* ------------------------------------------------------------------ *)
(** ** A registry whose dictionaries agree *)

Section RegistryOk.
Context {F : Type} {CA : ChargeArith F}.
Implicit Types (vm : VehicleManager.t F).

Lemma no_claim_no_claimant (s : Z) (k0 : string) (d : dict string (Vehicle.t F)) :
  (forall kv, In kv d -> claims_spot s (snd kv) = true -> fst kv = k0) ->
  ~ In k0 (dict_keys d) ->
  filter (claims_spot s) (dict_values d) = [].
Proof.
  induction d as [|[k v] t IH]; simpl; [reflexivity|].
  intros Hall Hk.
  destruct (claims_spot s v) eqn:E.
  - exfalso. apply Hk. left. apply (Hall (k, v)); [now left|exact E].
  - apply IH; [|tauto]. intros kv Hin. apply Hall. now right.
Qed.

Lemma one_claimant (s : Z) (k0 : string) (d : dict string (Vehicle.t F)) :
  NoDup (dict_keys d) ->
  (forall kv, In kv d -> claims_spot s (snd kv) = true -> fst kv = k0) ->
  (List.length (filter (claims_spot s) (dict_values d)) <= 1)%nat.
Proof.
  induction d as [|[k v] t IH]; simpl; [lia|].
  intros Hnd Hall. inversion Hnd as [|? ? Hk Ht]; subst.
  destruct (claims_spot s v) eqn:E.
  - assert (k = k0) by (apply (Hall (k, v)); [now left|exact E]). subst k0.
    rewrite (no_claim_no_claimant s k t); [simpl; lia| |exact Hk].
    intros kv Hin. apply Hall. now right.
  - apply IH; [exact Ht|]. intros kv Hin. apply Hall. now right.
Qed.

Lemma registry_ok_no_conflict vm :
  registry_ok vm -> VehicleManager.detect_occupancy_conflicts vm = [].
Proof.
  intros [Hnd Hall].
  destruct (VehicleManager.detect_occupancy_conflicts vm) as [|[s ids] rest] eqn:E;
    [reflexivity|exfalso].
  assert (Hin : In (s, ids) (VehicleManager.detect_occupancy_conflicts vm))
    by (rewrite E; now left).
  apply detect_conflicts_In in Hin. destruct Hin as [-> Hlen].
  unfold claimants in Hlen. rewrite length_map in Hlen.
  pose proof (one_claimant s
    (match zget s (VehicleManager.vehicle_positions vm) with
     | Some (Some k) => k
     | _ => ""
     end) (VehicleManager.vehicles vm) Hnd) as Hle.
  assert (List.length (filter (claims_spot s)
                         (dict_values (VehicleManager.vehicles vm))) <= 1)%nat; [|lia].
  apply Hle. intros kv Hkv Hclaim.
  rewrite Forall_forall in Hall. destruct (Hall kv Hkv) as (_ & _ & Hpos).
  unfold claims_spot in Hclaim.
  destruct (Vehicle.assigned_spot (snd kv)) as [t|]; [|discriminate].
  apply Z.eqb_eq in Hclaim. subst t. now rewrite (Hpos s eq_refl).
Qed.

Lemma registry_ok_init : registry_ok (VehicleManager.init (F := F)).
Proof. split; constructor. Qed.

Lemma registry_ok_add vm (v : Vehicle.t F) :
  Vehicle.vehicle_id v <> "" -> Vehicle.assigned_spot v = None ->
  registry_ok vm -> registry_ok (VehicleManager.add_vehicle v vm).
Proof.
  intros Hid Hspot [Hnd Hall]. split; simpl.
  - now apply (dict_set_NoDup String.eqb Seqb_eq').
  - apply (dict_set_Forall String.eqb Seqb_eq'); [exact Hall|]. simpl.
    repeat split; auto. intros s. rewrite Hspot. discriminate.
Qed.

Lemma update_charge_same_claim : same_claim (Vehicle.update_charge (F := F)).
Proof.
  intros v. unfold Vehicle.update_charge, Vehicle.update_charge_by.
  now destruct (VehicleState_eqb (Vehicle.state v) CHARGING).
Qed.

Lemma registry_ok_update_all vm :
  registry_ok vm -> registry_ok (VehicleManager.update_all_vehicles vm).
Proof.
  intros [Hnd Hall]. split; simpl.
  - unfold dict_keys. rewrite map_map. exact Hnd.
  - apply Forall_map. simpl.
    eapply Forall_impl; [|exact Hall]. intros [k v]. simpl.
    destruct (update_charge_same_claim v) as [-> ->]. auto.
Qed.

(** An assignment to the vehicle under [k] that leaves its claim alone,
    and any change of positions that keeps the other vehicles' spots. *)
Lemma registry_ok_replace vm k (v v' : Vehicle.t F) positions :
  registry_ok vm ->
  sget k (VehicleManager.vehicles vm) = Some v ->
  Vehicle.vehicle_id v' = Vehicle.vehicle_id v ->
  (forall s, Vehicle.assigned_spot v' = Some s -> zget s positions = Some (Some k)) ->
  (forall k2 s, k2 <> k ->
     zget s (VehicleManager.vehicle_positions vm) = Some (Some k2) ->
     zget s positions = Some (Some k2)) ->
  registry_ok (VehicleManager.mk (sset k v' (VehicleManager.vehicles vm)) positions).
Proof.
  intros [Hnd Hall] Hk Hid Hown Hothers. split; simpl.
  - now apply (dict_set_NoDup String.eqb Seqb_eq').
  - rewrite Forall_forall in Hall |- *. intros kv Hin.
    apply (dict_set_In_inv String.eqb Seqb_eq' _ _ _ _ Hnd) in Hin.
    apply (dict_get_In String.eqb Seqb_eq') in Hk.
    destruct (Hall _ Hk) as (Hidv & Hne & _). simpl in Hidv, Hne.
    destruct Hin as [->|[Hin Hkv]]; simpl.
    + repeat split; auto. congruence.
    + destruct (Hall _ Hin) as (H1 & H2 & H3). repeat split; auto.
Qed.

Lemma registry_ok_assign vm vehicle_id spot_id :
  registry_ok vm ->
  registry_ok (snd (VehicleManager.assign_spot vehicle_id spot_id vm)).
Proof.
  intros Hok. unfold VehicleManager.assign_spot.
  destruct (VehicleManager.spot_taken spot_id vm) eqn:Etaken; [exact Hok|].
  destruct (sget vehicle_id (VehicleManager.vehicles vm)) as [v|] eqn:Ek; [|exact Hok].
  cbv zeta. simpl.
  assert (Hv : forall s, Vehicle.assigned_spot v = Some s ->
                zget s (VehicleManager.vehicle_positions vm) = Some (Some vehicle_id)).
  { destruct Hok as [_ Hall]. rewrite Forall_forall in Hall.
    apply (dict_get_In String.eqb Seqb_eq') in Ek.
    now destruct (Hall _ Ek) as (_ & _ & H). }
  apply registry_ok_replace with (v := v); auto.
  - intros s [= <-]. apply (dict_get_set_same Z.eqb Zeqb_eq').
  - intros k2 s Hne Hpos.
    assert (Hs : s <> spot_id).
    { intros ->. unfold VehicleManager.spot_taken in Etaken.
      now rewrite Hpos in Etaken. }
    rewrite (dict_get_set_other Z.eqb Zeqb_eq' _ _ _ _ Hs).
    destruct (Vehicle.assigned_spot v) as [previous|] eqn:Eprev; [|exact Hpos].
    assert (Hp : s <> previous).
    { intros ->. rewrite (Hv _ eq_refl) in Hpos. congruence. }
    now rewrite (dict_get_set_other Z.eqb Zeqb_eq' _ _ _ _ Hp).
Qed.

(** No vehicle claims a spot the positions do not record as its own. *)
Lemma registry_ok_positions vm spot_id :
  registry_ok vm ->
  Forall (fun kv => Vehicle.assigned_spot (snd kv) <> Some spot_id)
         (VehicleManager.vehicles vm) ->
  registry_ok (VehicleManager.mk (VehicleManager.vehicles vm)
                 (zset spot_id None (VehicleManager.vehicle_positions vm))).
Proof.
  intros [Hnd Hall] Hfree. split; [exact Hnd|]. simpl.
  rewrite Forall_forall in Hall, Hfree |- *. intros kv Hin.
  destruct (Hall _ Hin) as (H1 & H2 & H3). repeat split; auto.
  intros s Hs.
  assert (Hne : s <> spot_id) by (intros ->; now apply (Hfree _ Hin)).
  rewrite (dict_get_set_other Z.eqb Zeqb_eq' _ _ _ _ Hne). now apply H3.
Qed.

Lemma registry_ok_free vm spot_id :
  registry_ok vm -> registry_ok (VehicleManager.free_spot spot_id vm).
Proof.
  intros Hok. unfold VehicleManager.free_spot.
  destruct (zget spot_id (VehicleManager.vehicle_positions vm)) as [holder|] eqn:Epos;
    [|exact Hok].
  assert (Hclaim : forall kv, In kv (VehicleManager.vehicles vm) ->
            Vehicle.assigned_spot (snd kv) = Some spot_id ->
            holder = Some (fst kv)).
  { intros kv Hin Hs. destruct Hok as [_ Hall]. rewrite Forall_forall in Hall.
    destruct (Hall _ Hin) as (_ & _ & H). rewrite (H _ Hs) in Epos. congruence. }
  assert (Hnone : (forall kv, In kv (VehicleManager.vehicles vm) ->
                     holder <> Some (fst kv)) ->
            registry_ok (VehicleManager.mk (VehicleManager.vehicles vm)
                           (zset spot_id None (VehicleManager.vehicle_positions vm)))).
  { intros Hno. apply registry_ok_positions; [exact Hok|].
    rewrite Forall_forall. intros kv Hin Hs. now apply (Hno kv Hin), Hclaim. }
  destruct holder as [vid|]; [|apply Hnone; discriminate].
  destruct (String.eqb vid "") eqn:Eempty; simpl.
  - apply Hnone. intros kv Hin [= ->]. apply String.eqb_eq in Eempty.
    destruct Hok as [_ Hall]. rewrite Forall_forall in Hall.
    now destruct (Hall _ Hin) as (_ & H & _).
  - destruct (sget vid (VehicleManager.vehicles vm)) as [v|] eqn:Ek.
    + apply registry_ok_replace with (v := v); auto.
      * simpl. discriminate.
      * intros k2 s Hne Hpos.
        assert (Hs : s <> spot_id) by (intros ->; congruence).
        now rewrite (dict_get_set_other Z.eqb Zeqb_eq' _ _ _ _ Hs).
    + apply Hnone. intros kv Hin [= ->].
      destruct kv as [k v]. simpl in Ek.
      destruct (In_dict_get String.eqb Seqb_eq' _ _ _ Hin) as [v' Hv'].
      congruence.
Qed.

Lemma registry_ok_update vm k (f : Vehicle.t F -> Vehicle.t F) (v : Vehicle.t F) :
  same_claim f ->
  sget k (VehicleManager.vehicles vm) = Some v ->
  registry_ok vm ->
  registry_ok (VehicleManager.set_vehicles
                 (sset k (f v) (VehicleManager.vehicles vm)) vm).
Proof.
  intros Hf Hk Hok. destruct (Hf v) as [Hid Hspot].
  apply registry_ok_replace with (v := v); auto.
  rewrite Hspot. intros s Hs.
  destruct Hok as [_ Hall]. rewrite Forall_forall in Hall.
  apply (dict_get_In String.eqb Seqb_eq') in Hk.
  destruct (Hall _ Hk) as (_ & _ & H). now apply H.
Qed.
End RegistryOk.

(** Properties of the registry that the three ways the controller has
    of changing it maintain are maintained by a step of the controller. *)
Section RegistryFrame.
Context {F : Type} {CA : ChargeArith F}.
Variable G : Streams -> Prop.
Variable R : VehicleManager.t F -> Prop.
Hypothesis R_assign : forall vehicle_id spot_id vm,
  R vm -> R (snd (VehicleManager.assign_spot vehicle_id spot_id vm)).
Hypothesis R_free : forall spot_id vm, R vm -> R (VehicleManager.free_spot spot_id vm).
Hypothesis R_update : forall k f vm v,
  same_claim f -> sget k (VehicleManager.vehicles vm) = Some v ->
  R vm ->
  R (VehicleManager.set_vehicles (sset k (f v) (VehicleManager.vehicles vm)) vm).

Local Abbreviation Rw := (fun w : DepotController.W (F := F) => R (snd w)).

Lemma update_vehicle_registry k (f : Vehicle.t F -> Vehicle.t F) :
  same_claim f -> keeps G Rw (DepotController.update_vehicle k f).
Proof.
  intros Hf. unfold DepotController.update_vehicle, DepotController.on_manager.
  apply keeps_zoom with (J := R); auto.
  apply keeps_modify. intros vm H.
  destruct (sget k (VehicleManager.vehicles vm)) as [v|] eqn:E; [|exact H].
  now apply R_update.
Qed.

Lemma on_self_registry {A} (m : M DepotController.t A) :
  keeps G Rw (DepotController.on_self m).
Proof. apply keeps_zoom_frame. auto. Qed.

Lemma assign_parking_spot_from_registry spot_ids vehicle_id :
  keeps G Rw (DepotController.assign_parking_spot_from spot_ids vehicle_id).
Proof.
  induction spot_ids as [|spot rest IH]; simpl; keeps_auto; auto.
  - apply on_self_registry.
  - unfold DepotController.on_manager. apply keeps_zoom with (J := R); auto.
    apply keeps_call. intros vm. apply R_assign.
Qed.

Lemma process_vehicle_registry k current_step :
  keeps G Rw (DepotController._process_vehicle k current_step).
Proof.
  unfold DepotController._process_vehicle, DepotController._assign_parking_spot,
    DepotController._free_vehicle_resources, DepotController._create_action.
  keeps_auto;
    first [ apply on_self_registry
          | apply assign_parking_spot_from_registry
          | apply update_vehicle_registry; intros ?; split; reflexivity
          | idtac ].
  unfold DepotController.on_manager. apply keeps_zoom with (J := R); auto.
  apply keeps_modify. intros vm. apply R_free.
Qed.

Lemma process_step_registry readings current_step :
  keeps G Rw (DepotController.process_step readings current_step).
Proof.
  unfold DepotController.process_step, DepotController._control_gates,
    DepotController.control_gate, DepotController._create_action.
  keeps_auto;
    first [ apply on_self_registry | apply process_vehicle_registry ].
Qed.
End RegistryFrame.

(* ------------------------------------------------------------------ *)
(** ** Loops that leave the object alone *)

Lemma for_extend_pure {S X Y} (body : X -> M S (list Y)) (Pb : X -> list Y -> Prop) :
  (forall x o s c, exists ys c', body x o s c = (Ok ys, s, c') /\ Pb x ys) ->
  forall l o s c, exists yss c',
    for_extend l body o s c = (Ok (List.concat yss), s, c') /\ Forall2 Pb l yss.
Proof.
  intros Hbody. induction l as [|x t IH]; intros o s c.
  - exists [], c. split; [reflexivity|constructor].
  - destruct (Hbody x o s c) as (ys & c1 & E1 & H1).
    destruct (IH o s c1) as (yss & c2 & E2 & H2).
    exists (ys :: yss), c2. split; [|now constructor].
    simpl. unfold bind. rewrite E1, E2. reflexivity.
Qed.

Lemma Forall2_concat_Forall {X Y} (Pb : X -> list Y -> Prop) (Py : Y -> Prop)
      (l : list X) (yss : list (list Y)) :
  (forall x ys, Pb x ys -> Forall Py ys) ->
  Forall2 Pb l yss -> Forall Py (List.concat yss).
Proof.
  intros H. induction 1; simpl; [constructor|].
  apply Forall_app. split; [now apply (H x)|assumption].
Qed.

Lemma substring_nonempty (u : string) : u <> "" -> substring 0 8 u <> "".
Proof. destruct u; simpl; congruence. Qed.

(* ------------------------------------------------------------------ *)
(** ** No occupancy conflict in a run *)

Section NoConflict.
Context {F : Type} {CA : ChargeArith F}.
Implicit Types (e : SimulationEngine.t F).

(** The registry agrees with itself and every fault detected so far came
    from a sensor reading. *)
Local Abbreviation agreed :=
  (fun e : SimulationEngine.t F =>
     registry_ok (SimulationEngine.vehicle_manager e)
     /\ Forall sensor_fault (SimulationEngine.faults_detected e)).

Lemma classify_not_conflict (reading : SensorReading.t) :
  SimulationEngine._classify_fault_type reading <> OCCUPANCY_CONFLICT.
Proof.
  unfold SimulationEngine._classify_fault_type.
  destruct (SensorReading.sensor_type reading); simpl; discriminate.
Qed.

Lemma detect_faults_agreed readings o e c :
  registry_ok (SimulationEngine.vehicle_manager e) ->
  exists faults c',
    SimulationEngine._detect_faults readings o e c = (Ok faults, e, c')
    /\ Forall sensor_fault faults.
Proof.
  intros Hok. unfold SimulationEngine._detect_faults.
  unfold bind at 1. unfold get at 1. cbv beta iota zeta.
  rewrite (registry_ok_no_conflict _ Hok).
  match goal with
  | |- context [for_extend (dict_values readings) ?body] =>
      destruct (for_extend_pure body (fun _ ys => Forall sensor_fault ys))
        with (l := dict_values readings) (o := o) (s := e) (c := c)
        as (yss & c1 & E & H2)
  end.
  { intros reading o' s' c'. destruct (SensorReading.is_fault reading).
    - eexists _, _. split; [reflexivity|].
      repeat constructor. simpl. apply classify_not_conflict.
    - eexists _, _. split; [reflexivity|constructor]. }
  exists (List.concat yss), c1. unfold bind at 1. rewrite E. simpl.
  unfold bind, ret. rewrite app_nil_r. split; [reflexivity|].
  eapply Forall2_concat_Forall; [|exact H2]. auto.
Qed.

Lemma generate_vehicles_agreed :
  keeps ids_nonempty agreed SimulationEngine._generate_vehicles.
Proof.
  intros o e c Ho [Hok Hf].
  unfold SimulationEngine._generate_vehicles, Vehicle.create_new,
    SimulationEngine.on_manager, bind, random, get, uuid4, ret, zoom, modify.
  simpl.
  destruct (Qltb _ _); simpl; split; auto.
  apply registry_ok_add; simpl; auto. apply substring_nonempty, Ho.
Qed.

Lemma run_step_agreed : keeps ids_nonempty agreed SimulationEngine.run_step.
Proof.
  unfold SimulationEngine.run_step.
  apply keeps_bind; [apply keeps_modify; intros ? Hag; exact Hag|intros _].
  apply keeps_bind; [apply keeps_modify; intros ? Hag; exact Hag|intros _].
  apply keeps_bind; [apply keeps_get|intros self]. cbv zeta.
  apply keeps_bind; [apply keeps_zoom_frame; intros ? ? Hag; exact Hag|intros _].
  apply keeps_bind.
  { unfold SimulationEngine._inject_failures. keeps_auto;
      apply keeps_zoom_frame; intros ? ? Hag; exact Hag. }
  intros _.
  apply keeps_bind; [apply generate_vehicles_agreed|intros _].
  apply keeps_bind; [apply keeps_zoom_frame; intros ? ? Hag; exact Hag|intros readings].
  apply keeps_bind.
  { keeps_auto. apply keeps_zoom_frame; intros ? ? Hag; exact Hag. }
  intros _.
  apply keeps_bind.
  { unfold SimulationEngine.on_manager.
    apply keeps_zoom with (J := registry_ok (F := F)).
    - apply keeps_modify. apply registry_ok_update_all.
    - intros s H. apply H.
    - intros s t [_ Hf] Ht. split; [exact Ht|exact Hf]. }
  intros _.
  apply keeps_bind.
  { unfold SimulationEngine.on_controller.
    apply keeps_zoom
      with (J := fun w : DepotController.W (F := F) => registry_ok (snd w)).
    - apply process_step_registry.
      + intros. now apply registry_ok_assign.
      + intros. now apply registry_ok_free.
      + intros. now apply registry_ok_update.
    - intros s H. apply H.
    - intros s t [_ Hf] Ht. split; [exact Ht|exact Hf]. }
  intros control_actions.
  apply keeps_bind.
  { keeps_auto. apply keeps_zoom_frame; intros ? ? Hag; exact Hag. }
  intros _.
  apply triple_bind
    with (Qm := fun x e => agreed e /\ all_items sensor_fault x).
  - intros o e c Ho [Hok Hf].
    destruct (detect_faults_agreed readings o e c Hok) as (faults & c' & E & Hall).
    rewrite E. simpl. auto.
  - intros faults. intros o e c Ho [Hagreed Hall]. simpl in Hall.
    assert (Hloop : keeps ids_nonempty agreed
              (for_each faults
                 (fun fault =>
                    SimulationEngine.on_db
                      (modify (DatabaseManager.insert_fault_event fault)) ;;
                    modify (fun self : SimulationEngine.t F =>
                              SimulationEngine.set_faults_detected
                                (SimulationEngine.faults_detected self ++ [fault])
                                self)))).
    { apply keeps_for_each. intros fault Hin.
      apply keeps_bind; [apply keeps_zoom_frame; intros ? ? Hag; exact Hag|intros _].
      apply keeps_modify. intros s [H1 H2]. split; [exact H1|]. simpl.
      apply Forall_app. split; [exact H2|]. constructor; [|constructor].
      rewrite Forall_forall in Hall. now apply Hall. }
    assert (Hrest : keeps ids_nonempty agreed
              (for_each faults
                 (fun fault =>
                    SimulationEngine.on_db
                      (modify (DatabaseManager.insert_fault_event fault)) ;;
                    modify (fun self : SimulationEngine.t F =>
                              SimulationEngine.set_faults_detected
                                (SimulationEngine.faults_detected self ++ [fault])
                                self)) ;;
               self0 <- get ;;
               ret (mkStepResult (SimulationEngine.current_step self0)
                      (List.length (VehicleManager.vehicles
                                      (SimulationEngine.vehicle_manager self0)))
                      (List.length readings) (List.length control_actions)
                      (List.length faults)))).
    { apply keeps_bind; [exact Hloop|intros _]. keeps_auto. }
    exact (Hrest o e c Ho Hagreed).
  - intros ex s [H _]. exact H.
Qed.
End NoConflict.

(** X2.  In a run of an engine as [SimulationEngine(config, db)] builds
    it, with ids that are not the empty string, the registry never holds
    two vehicles on one spot: after any number of steps
    [detect_occupancy_conflicts] reports nothing, and every fault
    detected so far is a warning raised from a sensor reading, none an
    occupancy conflict. *)
Theorem no_occupancy_conflict_in_a_run {F : Type} {CA : ChargeArith F}
    (config : SimulationConfig.t) (db : DatabaseManager.t) (run_id : string)
    (o : Streams) (c : Cursor) (n : nat)
    (Hids : ids_nonempty o) :
  let e' := final_state
              (run_steps n o (SimulationEngine.create (F := F) config db run_id) c) in
  VehicleManager.detect_occupancy_conflicts (SimulationEngine.vehicle_manager e') = []
  /\ Forall sensor_fault (SimulationEngine.faults_detected e').
Proof.
  intros e'.
  assert (H : registry_ok (SimulationEngine.vehicle_manager e')
              /\ Forall sensor_fault (SimulationEngine.faults_detected e')).
  { apply (keeps_final ids_nonempty
             (fun e : SimulationEngine.t F =>
                registry_ok (SimulationEngine.vehicle_manager e)
                /\ Forall sensor_fault (SimulationEngine.faults_detected e))).
    - apply run_steps_keeps, run_step_agreed.
    - exact Hids.
    - split; [apply registry_ok_init|constructor]. }
  destruct H as [Hok Hf]. split; [|exact Hf].
  now apply registry_ok_no_conflict.
Qed.

(** The run above on the "high_traffic" scenario. *)
Lemma streams_half_ids : ids_nonempty streams_half.
Proof.
  intros i H. simpl in H. unfold uid_counting in H.
  pose proof (py_int_str_of_int (10000000 + Z.of_nat i)) as Hp.
  rewrite H in Hp. discriminate.
Qed.

Lemma no_occupancy_conflict_in_a_run_witness :
  let e' := final_state
              (run_steps 5 streams_half
                 (SimulationEngine.create (F := Q) scenario_high_traffic
                    DatabaseManager.empty "run") cursor0) in
  VehicleManager.detect_occupancy_conflicts (SimulationEngine.vehicle_manager e') = []
  /\ Forall sensor_fault (SimulationEngine.faults_detected e').
Proof.
  exact (no_occupancy_conflict_in_a_run (F := Q) scenario_high_traffic
           DatabaseManager.empty "run" streams_half cursor0 5 streams_half_ids).
Defined.

(* ------------------------------------------------------------------ *)
(** ** The snapshot of the sensors *)

Lemma dict_mem_notin {K V} (eqb : K -> K -> bool)
      (eqb_eq : forall x y, eqb x y = true <-> x = y) (k : K) (d : dict K V) :
  ~ In k (dict_keys d) -> dict_mem eqb k d = false.
Proof.
  intros Hk. unfold dict_mem. destruct (dict_get eqb k d) as [v|] eqn:E; [|reflexivity].
  exfalso. apply Hk. apply (dict_get_In eqb eqb_eq) in E.
  change k with (fst (k, v)). now apply in_map.
Qed.

Lemma dict_set_Forall_key {V} (Pv : Z * V -> Prop) (k : Z) (v v' : V) (d : dict Z V) :
  zget k d = Some v -> Pv (k, v') -> Forall Pv d -> Forall Pv (zset k v' d).
Proof. intros _ Hv Hd. now apply (dict_set_Forall Z.eqb Zeqb_eq'). Qed.

Lemma dict_set_same_keys {V} (k : Z) (v : V) (d : dict Z V) :
  zmem k d = true -> dict_keys (zset k v d) = dict_keys d.
Proof. intros H. rewrite (dict_set_keys Z.eqb). now rewrite H. Qed.

Lemma zget_mem {V} (k : Z) (v : V) (d : dict Z V) : zget k d = Some v -> zmem k d = true.
Proof. unfold dict_mem. now intros ->. Qed.

Lemma with_entry_run {V A} (k : Z) (m : M V A) o (d : dict Z V) c v x v' c' :
  zget k d = Some v -> m o v c = (x, v', c') ->
  with_entry Z.eqb k m o d c = (x, zset k v' d, c').
Proof. intros Hv E. unfold with_entry. now rewrite Hv, E. Qed.

Section ReadEach.
Context {V : Type}.
Variable read : M V SensorReading.t.
Variable idf : V -> Z.
Variable nm : Z -> string.
Hypothesis read_run : forall o v c, exists reading v',
  read o v c = (Ok reading, v', after_draws 1 c)
  /\ SensorReading.sensor_name reading = nm (idf v)
  /\ idf v' = idf v.

(** One loop of [read_all_sensors]: one reading for each key, filed under
    the sensor's name after those already there, for one draw each. *)
Lemma read_each_shape (keys : list Z) : forall readings o (d : dict Z V) c,
  Forall (fun kv => idf (snd kv) = fst kv) d ->
  (forall k, In k keys -> zmem k d = true) ->
  NoDup (map nm keys) ->
  (forall k, In k keys -> ~ In (nm k) (dict_keys readings)) ->
  exists readings' d',
    SensorNetwork.read_each read keys readings o d c
    = (Ok readings', d', after_draws (List.length keys) c)
    /\ dict_keys readings' = dict_keys readings ++ map nm keys
    /\ dict_keys d' = dict_keys d
    /\ Forall (fun kv => idf (snd kv) = fst kv) d'.
Proof.
  unfold SensorNetwork.read_each.
  induction keys as [|k rest IH]; intros readings o d c Hd Hmem Hnd Hfresh.
  - exists readings, d. simpl. unfold ret, after_draws. destruct c.
    rewrite app_nil_r. auto.
  - simpl in Hnd. inversion Hnd as [|? ? Hk Hrest]; subst.
    destruct (zmem_get k d (Hmem k (or_introl eq_refl))) as [v Hv].
    destruct (read_run o v c) as (reading & v' & E & Hname & Hid).
    assert (Hkv : idf v = k).
    { rewrite Forall_forall in Hd.
      apply (Hd (k, v)), (dict_get_In Z.eqb Zeqb_eq'), Hv. }
    rewrite Hkv in Hname, Hid.
    destruct (IH (sset (nm k) reading readings) o (zset k v' d) (after_draws 1 c))
      as (readings' & d' & E' & Hkeys & Hdk & Hd').
    + now apply dict_set_Forall_key with (v := v).
    + intros k2 H2. apply (dict_set_keeps_key Z.eqb).
      apply Hmem. now right.
    + exact Hrest.
    + intros k2 H2. rewrite (dict_set_keys String.eqb).
      rewrite (dict_mem_notin String.eqb Seqb_eq');
        [|apply Hfresh; now left].
      rewrite in_app_iff. intros [Hin|[Heq|[]]].
      * now apply (Hfresh k2 (or_intror H2)).
      * apply Hk. rewrite Heq. now apply in_map.
    + exists readings', d'. split; [|split; [|split]].
      * simpl. unfold bind at 1. unfold bind at 1.
        rewrite (with_entry_run k read o d c v _ _ _ Hv E).
        unfold ret at 1. rewrite Hname, E'.
        unfold after_draws. simpl. do 2 f_equal. lia.
      * rewrite Hkeys, (dict_set_keys String.eqb).
        rewrite (dict_mem_notin String.eqb Seqb_eq');
          [|apply Hfresh; now left].
        rewrite <- app_assoc. reflexivity.
      * rewrite Hdk. apply dict_set_same_keys. now apply zget_mem with (v := v).
      * exact Hd'.
Qed.
End ReadEach.

Lemma gate_read_run o (g : GateSensor.t) c :
  exists reading g',
    GateSensor.read o g c = (Ok reading, g', after_draws 1 c)
    /\ SensorReading.sensor_name reading = gate_name (GateSensor.gate_id g)
    /\ GateSensor.gate_id g' = GateSensor.gate_id g.
Proof.
  unfold GateSensor.read, bind, random, gets, modify, get, ret. simpl.
  destruct (Qltb _ _); eexists _, _; split; reflexivity || (split; reflexivity).
Qed.

Lemma spot_read_run o (s : OccupancySensor.t) c :
  exists reading s',
    OccupancySensor.read o s c = (Ok reading, s', after_draws 1 c)
    /\ SensorReading.sensor_name reading = spot_name (OccupancySensor.spot_id s)
    /\ OccupancySensor.spot_id s' = OccupancySensor.spot_id s.
Proof.
  unfold OccupancySensor.read, bind, random, get, ret. simpl.
  eexists _, _; split; reflexivity || (split; reflexivity).
Qed.

Lemma charger_read_run o (ch : ChargerSensor.t) c :
  exists reading ch',
    ChargerSensor.read o ch c = (Ok reading, ch', after_draws 1 c)
    /\ SensorReading.sensor_name reading = charger_name (ChargerSensor.charger_id ch)
    /\ ChargerSensor.charger_id ch' = ChargerSensor.charger_id ch.
Proof.
  unfold ChargerSensor.read, bind, random, gets, modify, get, ret. simpl.
  destruct (Qltb _ _); eexists _, _; split; reflexivity || (split; reflexivity).
Qed.

Lemma spot_name_inj (a b : Z) : spot_name a = spot_name b -> a = b.
Proof. unfold spot_name. simpl. intros [= H]. now apply str_of_int_inj. Qed.

Lemma charger_name_inj (a b : Z) : charger_name a = charger_name b -> a = b.
Proof. unfold charger_name. simpl. intros [= H]. now apply str_of_int_inj. Qed.

Lemma NoDup_names (nm : Z -> string) (keys : list Z) :
  (forall a b, nm a = nm b -> a = b) -> NoDup keys -> NoDup (map nm keys).
Proof. intros Hinj. now apply Injective_map_NoDup. Qed.

Lemma after_draws_add (a b : nat) (c : Cursor) :
  after_draws a (after_draws b c) = after_draws (b + a) c.
Proof. unfold after_draws. simpl. f_equal. lia. Qed.

(** [read_all_sensors] on a network whose sensors are filed under their
    ids. *)
Lemma read_all_sensors_shape o (net : SensorNetwork.t) c :
  well_named net ->
  exists readings net',
    SensorNetwork.read_all_sensors o net c
    = (Ok readings, net', after_draws (List.length (reading_names net)) c)
    /\ dict_keys readings = reading_names net
    /\ well_named net'
    /\ dict_keys (SensorNetwork.gates net') = dict_keys (SensorNetwork.gates net)
    /\ dict_keys (SensorNetwork.occupancy_sensors net')
       = dict_keys (SensorNetwork.occupancy_sensors net)
    /\ dict_keys (SensorNetwork.chargers net') = dict_keys (SensorNetwork.chargers net).
Proof.
  intros ((Hgn & Hg) & (Hsn & Hs) & (Hcn & Hc)).
  destruct net as [gates spots chargers]. simpl in *.
  destruct (read_each_shape GateSensor.read GateSensor.gate_id gate_name
              gate_read_run (dict_keys gates) [] o gates c)
    as (r1 & gates' & E1 & K1 & Kg & Hg'); auto.
  { intros k. apply dict_keys_mem. }
  { apply NoDup_names; [exact gate_name_inj|exact Hgn]. }
  destruct (read_each_shape OccupancySensor.read OccupancySensor.spot_id spot_name
              spot_read_run (dict_keys spots) r1 o spots
              (after_draws (List.length (dict_keys gates)) c))
    as (r2 & spots' & E2 & K2 & Ks & Hs'); auto.
  { intros k. apply dict_keys_mem. }
  { apply NoDup_names; [exact spot_name_inj|exact Hsn]. }
  { intros k _. rewrite K1. simpl. rewrite in_map_iff.
    intros (x & Hx & _). discriminate Hx. }
  destruct (read_each_shape ChargerSensor.read ChargerSensor.charger_id charger_name
              charger_read_run (dict_keys chargers) r2 o chargers
              (after_draws (List.length (dict_keys spots))
                 (after_draws (List.length (dict_keys gates)) c)))
    as (r3 & chargers' & E3 & K3 & Kc & Hc'); auto.
  { intros k. apply dict_keys_mem. }
  { apply NoDup_names; [exact charger_name_inj|exact Hcn]. }
  { intros k _. rewrite K2, K1. simpl. rewrite in_app_iff, !in_map_iff.
    intros [(x & Hx & _)|(x & Hx & _)]; discriminate Hx. }
  exists r3, (SensorNetwork.mk gates' spots' chargers').
  split; [|split; [|split; [|split; [|split]]]]; simpl; auto.
  - unfold SensorNetwork.read_all_sensors.
    unfold bind, gets, zoom, ret. simpl.
    rewrite E1. simpl. rewrite E2. simpl. rewrite E3. simpl.
    unfold reading_names. simpl.
    rewrite !after_draws_add, !length_app, !length_map.
    do 2 f_equal; lia.
  - rewrite K3, K2, K1. unfold reading_names. simpl. now rewrite <- app_assoc.
  - unfold well_named. simpl. rewrite Kg, Ks, Kc. auto.
Qed.

Lemma dict_of_range_keys {V} (n : Z) (f : Z -> V) :
  dict_keys (dict_of_range n f) = range n.
Proof. unfold dict_of_range, dict_keys. rewrite map_map. simpl. apply map_id. Qed.

Lemma well_named_init (num_gates num_spots num_chargers : Z) :
  well_named (SensorNetwork.init num_gates num_spots num_chargers).
Proof.
  unfold well_named, SensorNetwork.init. simpl.
  rewrite !dict_of_range_keys.
  repeat split; try apply NoDup_range;
    unfold dict_of_range; apply Forall_map, Forall_forall; reflexivity.
Qed.

Lemma reading_names_init (num_gates num_spots num_chargers : Z) :
  reading_names (SensorNetwork.init num_gates num_spots num_chargers)
  = map gate_name (range num_gates) ++ map spot_name (range num_spots)
    ++ map charger_name (range num_chargers).
Proof.
  unfold reading_names, SensorNetwork.init. simpl.
  now rewrite !dict_of_range_keys.
Qed.

(** The snapshot of a network whose sensors are filed under their ids. *)
Lemma read_all_sensors_names (o : Streams) (net : SensorNetwork.t) (c : Cursor) :
  well_named net ->
  exists readings net',
    SensorNetwork.read_all_sensors o net c
    = (Ok readings, net', after_draws (List.length (reading_names net)) c)
    /\ dict_keys readings = reading_names net
    /\ well_named net'
    /\ reading_names net' = reading_names net.
Proof.
  intros Hnet.
  destruct (read_all_sensors_shape o net c Hnet)
    as (readings & net' & E & Hk & Hw & Kg & Ks & Kc).
  exists readings, net'. repeat split; auto; try apply Hw.
  unfold reading_names. now rewrite Kg, Ks, Kc.
Qed.

(** X3.  [read_all_sensors] on a network whose sensors are filed under
    their ids returns one reading per sensor, named after its kind and
    id, the gates first, then the spots, then the chargers, each kind in
    the order of its dictionary; it takes one random draw per sensor and
    no uuid, and leaves the sensors filed as they were. *)
Theorem snapshot_in_fixed_order (o : Streams) (net : SensorNetwork.t) (c : Cursor)
    (Hnet : well_named net) :
  exists readings net',
    SensorNetwork.read_all_sensors o net c
    = (Ok readings, net', after_draws (List.length (reading_names net)) c)
    /\ dict_keys readings = reading_names net
    /\ well_named net'
    /\ reading_names net' = reading_names net.
Proof. exact (read_all_sensors_names o net c Hnet). Qed.

Lemma snapshot_in_fixed_order_witness :
  exists readings net',
    SensorNetwork.read_all_sensors streams_half (SensorNetwork.init 2 1 1) cursor0
    = (Ok readings, net', mkCursor 4 0)
    /\ dict_keys readings = ["gate_0"; "gate_1"; "spot_0"; "charger_0"].
Proof.
  destruct (snapshot_in_fixed_order streams_half (SensorNetwork.init 2 1 1) cursor0
              (well_named_init 2 1 1))
    as (readings & net' & E & Hk & _ & _).
  exists readings, net'. split; [exact E|exact Hk].
Defined.

(* ------------------------------------------------------------------ *)
(** ** Invariants of the sensors across a snapshot *)

Section Snapshot.
Variable G : Streams -> Prop.
Variable Pg : Z * GateSensor.t -> Prop.
Variable Ps : Z * OccupancySensor.t -> Prop.
Variable Pc : Z * ChargerSensor.t -> Prop.
Variable Pr : string * SensorReading.t -> Prop.

Hypothesis gate_keeps : forall k v,
  triple G (fun v' => v' = v /\ Pg (k, v)) GateSensor.read
         (fun x v' => Pg (k, v')
                      /\ good_result (fun reading =>
                           Pr (SensorReading.sensor_name reading, reading)) x).
Hypothesis spot_keeps : forall k v,
  triple G (fun v' => v' = v /\ Ps (k, v)) OccupancySensor.read
         (fun x v' => Ps (k, v')
                      /\ good_result (fun reading =>
                           Pr (SensorReading.sensor_name reading, reading)) x).
Hypothesis charger_keeps : forall k v,
  triple G (fun v' => v' = v /\ Pc (k, v)) ChargerSensor.read
         (fun x v' => Pc (k, v')
                      /\ good_result (fun reading =>
                           Pr (SensorReading.sensor_name reading, reading)) x).

Lemma read_all_sensors_snapshot :
  triple G
    (fun net => Forall Pg (SensorNetwork.gates net)
                /\ Forall Ps (SensorNetwork.occupancy_sensors net)
                /\ Forall Pc (SensorNetwork.chargers net))
    SensorNetwork.read_all_sensors
    (fun x net => (Forall Pg (SensorNetwork.gates net)
                   /\ Forall Ps (SensorNetwork.occupancy_sensors net)
                   /\ Forall Pc (SensorNetwork.chargers net))
                  /\ good_result (Forall Pr) x).
Proof.
  intros o net c Ho (Hg & Hs & Hc). unfold SensorNetwork.read_all_sensors. cbv zeta.
  unfold bind at 1, gets. unfold bind at 1, zoom at 1.
  pose proof (read_each_snapshot G GateSensor.read Pg Pr
                (dict_keys (SensorNetwork.gates net)) [] gate_keeps (Forall_nil _)
                o (SensorNetwork.gates net) c Ho Hg) as H1.
  destruct (SensorNetwork.read_each GateSensor.read _ [] o (SensorNetwork.gates net) c)
    as [[[readings|ex] gates1] c1]; simpl in H1; destruct H1 as [Hg1 Hr1];
    [|simpl; auto].
  unfold bind at 1, gets. unfold bind at 1, zoom at 1. simpl.
  pose proof (read_each_snapshot G OccupancySensor.read Ps Pr
                (dict_keys (SensorNetwork.occupancy_sensors net)) readings
                spot_keeps Hr1 o (SensorNetwork.occupancy_sensors net) c1 Ho Hs) as H2.
  destruct (SensorNetwork.read_each OccupancySensor.read _ readings o
              (SensorNetwork.occupancy_sensors net) c1)
    as [[[readings2|ex] spots1] c2]; simpl in H2; destruct H2 as [Hs1 Hr2];
    [|simpl; auto].
  unfold bind at 1, gets. unfold bind at 1, zoom at 1. simpl.
  pose proof (read_each_snapshot G ChargerSensor.read Pc Pr
                (dict_keys (SensorNetwork.chargers net)) readings2
                charger_keeps Hr2 o (SensorNetwork.chargers net) c2 Ho Hc) as H3.
  destruct (SensorNetwork.read_each ChargerSensor.read _ readings2 o
              (SensorNetwork.chargers net) c2)
    as [[[readings3|ex] chargers1] c3]; simpl in H3; destruct H3 as [Hc1 Hr3];
    simpl; auto.
Qed.
End Snapshot.

Lemma keeps_and {S A} (G : Streams -> Prop) (I J : S -> Prop) (m : M S A) :
  keeps G I m -> keeps G J m -> keeps G (fun s => I s /\ J s) m.
Proof.
  intros HI HJ o s c Ho [Hi Hj].
  specialize (HI o s c Ho Hi). specialize (HJ o s c Ho Hj).
  destruct (m o s c) as [[x s'] c']. auto.
Qed.

(** The sensors of a network nobody acts on. *)
Lemma read_all_sensors_unactuated G :
  triple G unactuated SensorNetwork.read_all_sensors
         (fun x net => unactuated net /\ good_result (Forall idle_reading) x).
Proof.
  apply (read_all_sensors_snapshot G
           (fun kv => GateSensor.is_open (snd kv) = false)
           (fun kv => OccupancySensor.is_occupied (snd kv) = false)
           (fun kv => ChargerSensor.is_connected (snd kv) = false
                      /\ ChargerSensor.is_charging (snd kv) = false
                      /\ ChargerSensor.power_output (snd kv) = 0%Q)
           idle_reading).
  - intros k v o g c _ [-> Hg]. simpl in Hg.
    unfold GateSensor.read, bind, random, gets, modify, get, ret.
    destruct (Qltb _ _); simpl; (split; [exact Hg|]);
      unfold idle_reading; simpl; now rewrite Hg.
  - intros k v o s c _ [-> Hs]. simpl in Hs.
    unfold OccupancySensor.read, bind, random, get, ret. simpl.
    split; [exact Hs|]. unfold idle_reading. simpl. rewrite Hs.
    now destruct (Qltb _ _).
  - intros k v o ch c _ [-> (H1 & H2 & H3)]. simpl in H1, H2, H3.
    unfold ChargerSensor.read, bind, random, gets, modify, get, ret.
    destruct (Qltb _ _); simpl.
    + split; [auto|]. unfold idle_reading. simpl. now rewrite H1.
    + split; [auto|]. unfold idle_reading. simpl. rewrite H1, H2, H3.
      now destruct (ChargerSensor.is_failed v).
Qed.

Lemma inject_charger_keeps_forall G (Pc : Z * ChargerSensor.t -> Prop)
      (Pn : SensorNetwork.t -> Prop) :
  (forall k v, Pc (k, v) -> Pc (k, ChargerSensor.fail v)) ->
  (forall net, Pn net -> Forall Pc (SensorNetwork.chargers net)) ->
  (forall net chargers, Pn net -> Forall Pc chargers ->
     dict_keys chargers = dict_keys (SensorNetwork.chargers net) ->
     Pn (SensorNetwork.set_chargers chargers net)) ->
  keeps G Pn (zoom SensorNetwork.chargers SensorNetwork.set_chargers
                (with_entry Z.eqb 0 (modify ChargerSensor.fail))).
Proof.
  intros Hfail Hproj Hupd o net c _ Hn.
  unfold zoom, with_entry, modify.
  destruct (zget 0 (SensorNetwork.chargers net)) as [v|] eqn:E.
  - apply Hupd; auto.
    + apply dict_set_Forall_key with (v := v); auto.
      apply Hfail. pose proof (Hproj net Hn) as H. rewrite Forall_forall in H.
      apply (H (0, v)), (dict_get_In Z.eqb Zeqb_eq'), E.
    + apply dict_set_same_keys. now apply zget_mem with (v := v).
  - destruct net; exact Hn.
Qed.

Lemma inject_gate_keeps_forall G (Pg : Z * GateSensor.t -> Prop)
      (Pn : SensorNetwork.t -> Prop) :
  (forall k v, Pg (k, v) -> Pg (k, GateSensor.fail v)) ->
  (forall net, Pn net -> Forall Pg (SensorNetwork.gates net)) ->
  (forall net gates, Pn net -> Forall Pg gates ->
     dict_keys gates = dict_keys (SensorNetwork.gates net) ->
     Pn (SensorNetwork.set_gates gates net)) ->
  keeps G Pn (zoom SensorNetwork.gates SensorNetwork.set_gates
                (with_entry Z.eqb 0 (modify GateSensor.fail))).
Proof.
  intros Hfail Hproj Hupd o net c _ Hn.
  unfold zoom, with_entry, modify.
  destruct (zget 0 (SensorNetwork.gates net)) as [v|] eqn:E.
  - apply Hupd; auto.
    + apply dict_set_Forall_key with (v := v); auto.
      apply Hfail. pose proof (Hproj net Hn) as H. rewrite Forall_forall in H.
      apply (H (0, v)), (dict_get_In Z.eqb Zeqb_eq'), E.
    + apply dict_set_same_keys. now apply zget_mem with (v := v).
  - destruct net; exact Hn.
Qed.

Section EngineNetwork.
Context {F : Type} {CA : ChargeArith F}.

Lemma run_step_unactuated G :
  keeps G (fun e : SimulationEngine.t F => unactuated (SimulationEngine.sensor_network e))
        SimulationEngine.run_step.
Proof.
  apply run_step_keeps_network.
  - intros o net c Ho Hn.
    pose proof (read_all_sensors_unactuated G o net c Ho Hn) as H.
    destruct (SensorNetwork.read_all_sensors o net c) as [[x net'] c']. apply H.
  - apply (inject_charger_keeps_forall G
             (fun kv => ChargerSensor.is_connected (snd kv) = false
                        /\ ChargerSensor.is_charging (snd kv) = false
                        /\ ChargerSensor.power_output (snd kv) = 0%Q)).
    + intros k v H. exact H.
    + intros net H. apply H.
    + intros net chargers (H1 & H2 & _) H _. repeat split; assumption.
  - apply (inject_gate_keeps_forall G
             (fun kv => GateSensor.is_open (snd kv) = false)).
    + intros k v H. exact H.
    + intros net H. apply H.
    + intros net gates (_ & H2 & H3) H _. repeat split; assumption.
Qed.

(** The sensors stay filed under their ids, under the same keys. *)
Lemma run_step_well_named G (names : list string) :
  keeps G (fun e : SimulationEngine.t F =>
             well_named (SimulationEngine.sensor_network e)
             /\ reading_names (SimulationEngine.sensor_network e) = names)
        SimulationEngine.run_step.
Proof.
  apply (run_step_keeps_network G
           (fun net => well_named net /\ reading_names net = names)).
  - intros o net c Ho [Hw Hn].
    destruct (read_all_sensors_names o net c Hw) as (readings & net' & E & _ & Hw' & Hn').
    rewrite E. split; [exact Hw'|congruence].
  - apply (inject_charger_keeps_forall G
             (fun kv => ChargerSensor.charger_id (snd kv) = fst kv)).
    + intros k v H. exact H.
    + intros net [H _]. apply H.
    + intros net chargers [(Hg & Hs & Hc) Hn] H Hk. split.
      * unfold well_named. simpl. rewrite Hk. tauto.
      * rewrite <- Hn. unfold reading_names. simpl. now rewrite Hk.
  - apply (inject_gate_keeps_forall G
             (fun kv => GateSensor.gate_id (snd kv) = fst kv)).
    + intros k v H. exact H.
    + intros net [H _]. apply H.
    + intros net gates [(Hg & Hs & Hc) Hn] H Hk. split.
      * unfold well_named. simpl. rewrite Hk. tauto.
      * rewrite <- Hn. unfold reading_names. simpl. now rewrite Hk.
Qed.
End EngineNetwork.

Lemma unactuated_init (num_gates num_spots num_chargers : Z) :
  unactuated (SensorNetwork.init num_gates num_spots num_chargers).
Proof.
  unfold unactuated, SensorNetwork.init, dict_of_range. simpl.
  repeat split; apply Forall_map, Forall_forall; intros; simpl; auto.
Qed.

(** X4.  The engine never acts on a sensor: in a run of an engine as
    [SimulationEngine(config, db)] builds it, after any number of steps
    every gate sensor is still closed, every occupancy sensor still
    free and every charger sensor still disconnected, not charging and
    without power, whatever the control actions issued; so every gate
    reads closed, a spot reads occupied only in a reading flagged as
    noise, and every charger reads idle. *)
Theorem sensors_are_never_actuated {F : Type} {CA : ChargeArith F}
    (config : SimulationConfig.t) (db : DatabaseManager.t) (run_id : string)
    (o : Streams) (c : Cursor) (n : nat) :
  let e' := final_state
              (run_steps n o (SimulationEngine.create (F := F) config db run_id) c) in
  unactuated (SimulationEngine.sensor_network e')
  /\ forall o' c',
       good_result (Forall idle_reading)
         (final_outcome
            (SensorNetwork.read_all_sensors o' (SimulationEngine.sensor_network e') c')).
Proof.
  intros e'.
  assert (H : unactuated (SimulationEngine.sensor_network e')).
  { apply (keeps_final any_streams
             (fun e : SimulationEngine.t F =>
                unactuated (SimulationEngine.sensor_network e))).
    - apply run_steps_keeps, run_step_unactuated.
    - exact Logic.I.
    - apply unactuated_init. }
  split; [exact H|]. intros o' c'.
  pose proof (read_all_sensors_unactuated any_streams o'
                (SimulationEngine.sensor_network e') c' Logic.I H) as Hr.
  destruct (SensorNetwork.read_all_sensors o' _ c') as [[x net'] c'']. apply Hr.
Qed.

(* ------------------------------------------------------------------ *)
(** ** The phases of a step, one by one *)

Lemma bind_inv {S A B} (m : M S A) (f : A -> M S B) o s c b s' c' :
  bind m f o s c = (Ok b, s', c') ->
  exists a s1 c1, m o s c = (Ok a, s1, c1) /\ f a o s1 c1 = (Ok b, s', c').
Proof.
  unfold bind. destruct (m o s c) as [[[a|ex] s1] c1]; [|discriminate].
  intros H. now exists a, s1, c1.
Qed.

Section Phases.
Context {F : Type} {CA : ChargeArith F}.
Implicit Types (e : SimulationEngine.t F).

Lemma set_sensor_network_eta e :
  SimulationEngine.set_sensor_network (SimulationEngine.sensor_network e) e = e.
Proof. now destruct e. Qed.

Lemma set_vehicle_manager_eta e :
  SimulationEngine.set_vehicle_manager (SimulationEngine.vehicle_manager e) e = e.
Proof. now destruct e. Qed.

Lemma set_db_manager_eta e :
  SimulationEngine.set_db_manager (SimulationEngine.db_manager e) e = e.
Proof. now destruct e. Qed.

(** [_inject_failures] changes the sensor network only, and draws
    nothing; when it returns, what was due has been failed. *)
Lemma inject_failures_inv o e c x e2 c2 :
  SimulationEngine._inject_failures o e c = (x, e2, c2) ->
  c2 = c
  /\ exists net',
       e2 = SimulationEngine.set_sensor_network net' e
       /\ (x = Ok tt -> charger_failure_due e = true -> charger_down 0 net')
       /\ (x = Ok tt -> gate_failure_due e = true -> gate_down 0 net').
Proof.
  unfold SimulationEngine._inject_failures. unfold bind at 1, get.
  fold (charger_failure_due e). fold (gate_failure_due e).
  unfold bind, SimulationEngine.on_network, zoom, with_entry, modify, ret.
  destruct (charger_failure_due e), (gate_failure_due e); simpl;
    destruct (zget 0 (SensorNetwork.chargers (SimulationEngine.sensor_network e)))
      as [ch|] eqn:Ec;
    destruct (zget 0 (SensorNetwork.gates (SimulationEngine.sensor_network e)))
      as [g|] eqn:Eg; simpl; try rewrite Eg; simpl;
    intros [= <- <- <-]; (split; [reflexivity|]);
    first [ eexists; split; [reflexivity|]
          | exists (SimulationEngine.sensor_network e);
            rewrite set_sensor_network_eta; split; [reflexivity|] ];
    (split; intros Hx Hd; try discriminate Hx; try discriminate Hd);
    first [ exists (ChargerSensor.fail ch); simpl; split; [|reflexivity];
            apply (dict_get_set_same Z.eqb Zeqb_eq')
          | exists (GateSensor.fail g); simpl; split; [|reflexivity];
            apply (dict_get_set_same Z.eqb Zeqb_eq') ].
Qed.

(** [_generate_vehicles] takes one draw and, below the arrival rate, one
    uuid for a vehicle it adds to the registry. *)
Lemma generate_vehicles_run o e c :
  SimulationEngine._generate_vehicles o e c
  = if Qltb (rnd o (rnd_pos c))
            (SimulationConfig.vehicle_arrival_rate (SimulationEngine.config e))
    then (Ok tt,
          SimulationEngine.set_vehicle_manager
            (VehicleManager.add_vehicle
               (arrival (uid o (uid_pos c)) (SimulationEngine.current_step e))
               (SimulationEngine.vehicle_manager e)) e,
          mkCursor (S (rnd_pos c)) (S (uid_pos c)))
    else (Ok tt, e, mkCursor (S (rnd_pos c)) (uid_pos c)).
Proof.
  unfold SimulationEngine._generate_vehicles, Vehicle.create_new,
    SimulationEngine.on_manager, bind, random, get, uuid4, ret, zoom, modify.
  simpl. now destruct (Qltb _ _).
Qed.

(** A loop that logs rows changes the log sink only. *)
Lemma log_loop {X} (l : list X) (f : X -> DatabaseManager.t -> DatabaseManager.t) :
  forall o e c,
    for_each l (fun x => SimulationEngine.on_db (modify (f x))) o e c
    = (Ok tt,
       SimulationEngine.set_db_manager
         (fold_left (fun db x => f x db) l (SimulationEngine.db_manager e)) e,
       c).
Proof.
  induction l as [|x t IH]; intros o e c; simpl.
  - unfold ret. now rewrite set_db_manager_eta.
  - unfold bind at 1. unfold SimulationEngine.on_db at 1, zoom, modify.
    rewrite IH. reflexivity.
Qed.

Lemma log_readings_loop (sid : string) (l : list SensorReading.t) :
  forall o e c, exists db' c',
    for_each l
      (fun reading =>
         u <- uuid4 ;;
         SimulationEngine.on_db
           (modify (DatabaseManager.insert_sensor_reading
                      (DBSensorReading.mk u sid
                         (SensorType_value (SensorReading.sensor_type reading))
                         (SensorReading.sensor_name reading)
                         (SensorReading.value reading)
                         (SensorReading.is_fault reading))))) o e c
    = (Ok tt, SimulationEngine.set_db_manager db' e, c')
    /\ DatabaseManager.fault_events db'
       = DatabaseManager.fault_events (SimulationEngine.db_manager e)
    /\ DatabaseManager.control_actions db'
       = DatabaseManager.control_actions (SimulationEngine.db_manager e)
    /\ DatabaseManager.simulation_steps db'
       = DatabaseManager.simulation_steps (SimulationEngine.db_manager e)
    /\ List.length (DatabaseManager.sensor_readings db')
       = (List.length (DatabaseManager.sensor_readings (SimulationEngine.db_manager e))
          + List.length l)%nat.
Proof.
  induction l as [|x t IH]; intros o e c.
  - exists (SimulationEngine.db_manager e), c. simpl. unfold ret.
    rewrite set_db_manager_eta. repeat split; auto.
  - match goal with
    | |- context [for_each _ ?b] => set (body := b) in *
    end.
    cbn [for_each]. unfold bind at 1. unfold body at 1.
    unfold bind at 1, uuid4 at 1, SimulationEngine.on_db at 1, zoom, modify.
    match goal with
    | |- context [for_each t body o ?e1 ?c1] =>
        destruct (IH o e1 c1) as (db' & c' & E & H1 & H2 & H3 & H4)
    end.
    exists db', c'. rewrite E. simpl in *.
    repeat split; auto. rewrite H4, length_app. simpl. lia.
Qed.

Lemma fold_insert_faults (faults : list FaultEvent) : forall db,
  DatabaseManager.fault_events
    (fold_left (fun db f => DatabaseManager.insert_fault_event f db) faults db)
  = DatabaseManager.fault_events db ++ faults
  /\ DatabaseManager.control_actions
       (fold_left (fun db f => DatabaseManager.insert_fault_event f db) faults db)
     = DatabaseManager.control_actions db.
Proof.
  induction faults as [|f t IH]; intros db; simpl.
  - now rewrite app_nil_r.
  - destruct (IH (DatabaseManager.insert_fault_event f db)) as [-> ->]. simpl.
    now rewrite <- app_assoc.
Qed.

Lemma fold_insert_actions (actions : list ControlAction) : forall db,
  DatabaseManager.control_actions
    (fold_left (fun db a => DatabaseManager.insert_control_action a db) actions db)
  = DatabaseManager.control_actions db ++ actions
  /\ DatabaseManager.fault_events
       (fold_left (fun db a => DatabaseManager.insert_control_action a db) actions db)
     = DatabaseManager.fault_events db.
Proof.
  induction actions as [|a t IH]; intros db; simpl.
  - now rewrite app_nil_r.
  - destruct (IH (DatabaseManager.insert_control_action a db)) as [-> ->]. simpl.
    now rewrite <- app_assoc.
Qed.

(** The loop that records the faults of a step. *)
Lemma record_faults_loop (faults : list FaultEvent) : forall o e c,
  for_each faults
    (fun fault =>
       SimulationEngine.on_db (modify (DatabaseManager.insert_fault_event fault)) ;;
       modify (fun self : SimulationEngine.t F =>
                 SimulationEngine.set_faults_detected
                   (SimulationEngine.faults_detected self ++ [fault]) self)) o e c
  = (Ok tt,
     SimulationEngine.set_faults_detected
       (SimulationEngine.faults_detected e ++ faults)
       (SimulationEngine.set_db_manager
          (fold_left (fun db f => DatabaseManager.insert_fault_event f db) faults
                     (SimulationEngine.db_manager e)) e),
     c).
Proof.
  induction faults as [|f t IH]; intros o e c; simpl.
  - unfold ret. rewrite app_nil_r, set_db_manager_eta. now destruct e.
  - unfold bind at 1. unfold bind at 1.
    unfold SimulationEngine.on_db at 1, zoom, modify.
    rewrite IH. simpl. now rewrite <- app_assoc.
Qed.

(** [_detect_faults] leaves the engine as it is. *)
Lemma detect_faults_frame readings o e c :
  snd (fst (SimulationEngine._detect_faults readings o e c)) = e.
Proof.
  pose proof (detect_faults_keeps any_streams (fun s => s = e) readings o e c
                Logic.I eq_refl) as H.
  now destruct (SimulationEngine._detect_faults readings o e c) as [[x s] c'].
Qed.
End Phases.

(* ------------------------------------------------------------------ *)
(** ** The fault detector *)

(** The faults of a step, from the readings and from the registry. *)
Lemma detect_faults_run {F : Type} {CA : ChargeArith F}
    (readings : dict string SensorReading.t) (o : Streams)
    (e : SimulationEngine.t F) (c : Cursor) :
  exists from_readings from_conflicts c',
    SimulationEngine._detect_faults readings o e c
    = (Ok (List.concat from_readings ++ List.concat from_conflicts), e, c')
    /\ Forall2 (faults_of_reading (SimulationEngine.current_step e))
               (dict_values readings) from_readings
    /\ Forall2 (faults_of_conflict (SimulationEngine.current_step e))
               (VehicleManager.detect_occupancy_conflicts
                  (SimulationEngine.vehicle_manager e))
               from_conflicts.
Proof.
  unfold SimulationEngine._detect_faults.
  unfold bind at 1. unfold get at 1. cbv beta iota zeta.
  match goal with
  | |- context [bind (for_extend (dict_values readings) ?body) _] =>
      destruct (for_extend_pure body
                  (faults_of_reading (SimulationEngine.current_step e))
                  ltac:(intros reading o' s' c'; unfold faults_of_reading;
                        destruct (SensorReading.is_fault reading);
                        eexists _, _; (split; [reflexivity|]);
                        [eexists; split; [reflexivity|repeat split]|reflexivity])
                  (dict_values readings) o e c)
        as (yss & c1 & E1 & H1)
  end.
  unfold bind at 1. rewrite E1.
  match goal with
  | |- context [bind (for_extend ?l ?body) _] =>
      destruct (for_extend_pure body
                  (faults_of_conflict (SimulationEngine.current_step e))
                  ltac:(intros conflict o' s' c'; unfold faults_of_conflict;
                        eexists _, _; (split; [reflexivity|]);
                        eexists; split; [reflexivity|repeat split])
                  l o e c1)
        as (zss & c2 & E2 & H2)
  end.
  unfold bind at 1. rewrite E2.
  exists yss, zss, c2. unfold ret. auto.
Qed.

Section FaultSummaries.
Context {F : Type} {CA : ChargeArith F}.

(** The classifier compares the value of the kind with two strings;
    by kind, it is this. *)
Lemma classify_by_kind (reading : SensorReading.t) :
  SimulationEngine._classify_fault_type reading
  = fault_by_kind (SensorReading.sensor_type reading).
Proof.
  unfold SimulationEngine._classify_fault_type.
  now destruct (SensorReading.sensor_type reading).
Qed.

Lemma faults_of_readings_summary (step : Z) (rs : list SensorReading.t) yss :
  Forall2 (faults_of_reading step) rs yss ->
  map fault_summary (List.concat yss)
  = map (fun reading => (fault_by_kind (SensorReading.sensor_type reading), WARNING,
                         SensorReading.sensor_name reading))
        (filter SensorReading.is_fault rs)
  /\ Forall (fun f => detected_at f = step /\ resolved_at f = None) (List.concat yss).
Proof.
  induction 1 as [|reading ys rs yss Hr _ [IHs IHd]]; simpl;
    [split; [reflexivity|constructor]|].
  unfold faults_of_reading in Hr.
  destruct (SensorReading.is_fault reading).
  - destruct Hr as (f & -> & Htype & Hlevel & Hname & Hdate & Hres). simpl. split.
    + f_equal; [|exact IHs].
      unfold fault_summary. now rewrite Htype, Hlevel, Hname, classify_by_kind.
    + constructor; auto.
  - subst ys. simpl. auto.
Qed.

Lemma faults_of_conflicts_summary (step : Z) (conflicts : list (Z * list string)) zss :
  Forall2 (faults_of_conflict step) conflicts zss ->
  map fault_summary (List.concat zss)
  = map (fun conflict : Z * list string =>
           (OCCUPANCY_CONFLICT, CRITICAL, spot_name (fst conflict))) conflicts
  /\ Forall (fun f => detected_at f = step /\ resolved_at f = None) (List.concat zss).
Proof.
  induction 1 as [|conflict zs conflicts zss Hc _ [IHs IHd]]; simpl;
    [split; [reflexivity|constructor]|].
  destruct Hc as (f & -> & Htype & Hlevel & Hname & Hdate & Hres). simpl. split.
  - f_equal; [|exact IHs]. unfold fault_summary. now rewrite Htype, Hlevel, Hname.
  - constructor; auto.
Qed.
End FaultSummaries.

(** X5.  What [_detect_faults] returns, read off its two loops.  The
    engine is left as it is.  The faults are, in this order: one warning
    for every reading of the snapshot flagged as a fault, in the order
    of the snapshot, naming the sensor and typed by its kind
    (charger_failure for a charger, gate_stuck for a gate, sensor_noise
    for an occupancy sensor); then one critical occupancy_conflict for
    every conflict the registry reports, naming the spot.  So there are
    as many faults as flagged readings and conflicts together; each is
    dated with the current step and none is resolved. *)
Theorem faults_follow_readings_then_conflicts {F : Type} {CA : ChargeArith F}
    (readings : dict string SensorReading.t) (o : Streams)
    (e : SimulationEngine.t F) (c : Cursor) :
  exists faults c',
    SimulationEngine._detect_faults readings o e c = (Ok faults, e, c')
    /\ map fault_summary faults
       = map (fun reading =>
                (fault_by_kind (SensorReading.sensor_type reading), WARNING,
                 SensorReading.sensor_name reading))
             (filter SensorReading.is_fault (dict_values readings))
         ++ map (fun conflict : Z * list string =>
                   (OCCUPANCY_CONFLICT, CRITICAL, spot_name (fst conflict)))
                (VehicleManager.detect_occupancy_conflicts
                   (SimulationEngine.vehicle_manager e))
    /\ List.length faults
       = (List.length (filter SensorReading.is_fault (dict_values readings))
          + List.length (VehicleManager.detect_occupancy_conflicts
                           (SimulationEngine.vehicle_manager e)))%nat
    /\ Forall (fun f => detected_at f = SimulationEngine.current_step e
                        /\ resolved_at f = None) faults.
Proof.
  destruct (detect_faults_run readings o e c) as (yss & zss & c' & E & Hr & Hc).
  destruct (faults_of_readings_summary _ _ _ Hr) as [Hrs Hrd].
  destruct (faults_of_conflicts_summary _ _ _ Hc) as [Hcs Hcd].
  exists (List.concat yss ++ List.concat zss), c'.
  assert (Hsum : map fault_summary (List.concat yss ++ List.concat zss)
                 = map (fun reading =>
                          (fault_by_kind (SensorReading.sensor_type reading), WARNING,
                           SensorReading.sensor_name reading))
                       (filter SensorReading.is_fault (dict_values readings))
                   ++ map (fun conflict : Z * list string =>
                             (OCCUPANCY_CONFLICT, CRITICAL, spot_name (fst conflict)))
                          (VehicleManager.detect_occupancy_conflicts
                             (SimulationEngine.vehicle_manager e)))
    by now rewrite map_app, Hrs, Hcs.
  split; [exact E|]. split; [exact Hsum|]. split.
  - apply (f_equal (@List.length (FaultType * AlertLevel * string))) in Hsum.
    now rewrite length_app, !length_map in Hsum.
  - apply Forall_app. split; assumption.
Qed.

(* ------------------------------------------------------------------ *)
(** ** A step that returns, taken apart *)

Section StepInversion.
Context {F : Type} {CA : ChargeArith F}.
Implicit Types (e : SimulationEngine.t F).

(** What a step that returns has done, phase by phase. *)
Lemma run_step_inv o e c step_result e' c' :
  SimulationEngine.run_step o e c = (Ok step_result, e', c') ->
  exists net2 readings net4 c4 c5 actions ctl7 vm7 c7 faults db',
    SimulationEngine._inject_failures o (stamp e) c
    = (Ok tt, SimulationEngine.set_sensor_network net2 (stamp e), c)
    /\ SensorNetwork.read_all_sensors o net2 (cursor_after_arrival o c e)
       = (Ok readings, net4, c4)
    /\ DepotController.process_step readings (SimulationEngine.current_step e + 1) o
         (SimulationEngine.controller e,
          VehicleManager.update_all_vehicles (registry_after_arrival o c e)) c5
       = (Ok actions, (ctl7, vm7), c7)
    /\ (exists e8,
           SimulationEngine._detect_faults readings o e8 c7 = (Ok faults, e8, c')
           /\ SimulationEngine.vehicle_manager e8 = vm7
           /\ SimulationEngine.current_step e8 = SimulationEngine.current_step e + 1)
    /\ e' = SimulationEngine.mk (SimulationEngine.config e) db' net4 vm7 ctl7
              (SimulationEngine.current_step e + 1) (SimulationEngine.run_id e)
              (Some (SimulationEngine.run_id e ++ "_"
                       ++ str_of_int (SimulationEngine.current_step e + 1))%string)
              (SimulationEngine.faults_detected e ++ faults)
    /\ step_result
       = mkStepResult (SimulationEngine.current_step e + 1)
           (List.length (VehicleManager.vehicles vm7))
           (List.length readings) (List.length actions) (List.length faults)
    /\ DatabaseManager.fault_events db'
       = DatabaseManager.fault_events (SimulationEngine.db_manager e) ++ faults
    /\ DatabaseManager.control_actions db'
       = DatabaseManager.control_actions (SimulationEngine.db_manager e) ++ actions.
Proof.
  intros H. unfold SimulationEngine.run_step in H.
  apply bind_inv in H. destruct H as (a1 & s1 & c1 & E1 & H).
  apply bind_inv in H. destruct H as (a2 & s2 & c2 & E2 & H).
  apply bind_inv in H. destruct H as (self & s3 & c3 & E3 & H). cbv zeta in H.
  apply bind_inv in H. destruct H as (a4 & s4 & c4' & E4 & H).
  unfold modify in E1, E2. unfold get in E3.
  unfold SimulationEngine.on_db, zoom, modify in E4.
  injection E1 as <- <- <-. injection E2 as <- <- <-. injection E3 as <- <- <-.
  injection E4 as <- <- <-.
  match type of H with
  | bind _ _ o ?s _ = _ => change s with (stamp e) in H
  end.
  apply bind_inv in H. destruct H as ([] & s5 & c5' & E5 & H).
  destruct (inject_failures_inv o (stamp e) c _ _ _ E5) as (-> & net2 & -> & _).
  apply bind_inv in H. destruct H as ([] & s6 & c6 & E6 & H).
  rewrite generate_vehicles_run in E6.
  assert (Hs6 : s6 = SimulationEngine.set_vehicle_manager
                       (registry_after_arrival o c e)
                       (SimulationEngine.set_sensor_network net2 (stamp e))
                /\ c6 = cursor_after_arrival o c e).
  { unfold registry_after_arrival, cursor_after_arrival. simpl in E6 |- *.
    destruct (Qltb _ _); injection E6 as <- <-; split; reflexivity. }
  destruct Hs6 as [-> ->]. clear E6.
  apply bind_inv in H. destruct H as (readings & s7 & c7' & E7 & H).
  unfold SimulationEngine.on_network, zoom in E7. simpl in E7.
  destruct (SensorNetwork.read_all_sensors o net2 (cursor_after_arrival o c e))
    as [[xr net4] c4] eqn:Er.
  injection E7 as -> <- <-.
  apply bind_inv in H. destruct H as ([] & s8 & c8 & E8 & H).
  match type of E8 with
  | for_each _ _ o ?s ?cc = _ =>
      destruct (log_readings_loop
                  (SimulationEngine.run_id e ++ "_"
                     ++ str_of_int (SimulationEngine.current_step e + 1))%string
                  (dict_values readings) o s cc)
        as (db8 & c8' & E8' & Hf8 & Ha8 & _ & _)
  end.
  simpl in E8, E8'. rewrite E8' in E8. injection E8 as <- <-.
  apply bind_inv in H. destruct H as ([] & s9 & c9 & E9 & H).
  unfold SimulationEngine.on_manager, zoom, modify in E9. simpl in E9.
  injection E9 as <- <-.
  apply bind_inv in H. destruct H as (actions & s10 & c10 & E10 & H).
  unfold SimulationEngine.on_controller, zoom in E10. simpl in E10.
  destruct (DepotController.process_step readings (SimulationEngine.current_step e + 1)
              o (SimulationEngine.controller e,
                 VehicleManager.update_all_vehicles (registry_after_arrival o c e))
              c8') as [[xa [ctl7 vm7]] c7] eqn:Ep.
  injection E10 as -> <- <-.
  apply bind_inv in H. destruct H as ([] & s11 & c11 & E11 & H).
  rewrite log_loop in E11. injection E11 as <- <-.
  apply bind_inv in H. destruct H as (faults & s12 & c12 & E12 & H).
  match type of E12 with
  | SimulationEngine._detect_faults _ _ ?s ?cc = _ =>
      pose proof (detect_faults_frame readings o s cc) as Hframe
  end.
  rewrite E12 in Hframe. cbn [fst snd] in Hframe. subst s12.
  apply bind_inv in H. destruct H as ([] & s13 & c13 & E13 & H).
  rewrite record_faults_loop in E13. injection E13 as <- <-.
  unfold bind, get, ret in H. injection H as <- <- <-.
  eexists net2, readings, net4, c4, c8', actions, ctl7, vm7, c7, faults, _.
  split; [exact E5|]. split; [exact Er|]. split; [exact Ep|].
  split; [eexists; split; [exact E12|split; reflexivity]|].
  split; [reflexivity|]. split; [reflexivity|].
  simpl. split.
  - rewrite (proj1 (fold_insert_faults faults _)).
    rewrite (proj2 (fold_insert_actions actions _)). simpl.
    now rewrite Hf8.
  - rewrite (proj2 (fold_insert_faults faults _)).
    rewrite (proj1 (fold_insert_actions actions _)). simpl.
    now rewrite Ha8.
Qed.
End StepInversion.

(* ------------------------------------------------------------------ *)
(** ** From a failed sensor to a fault *)

Lemma Forall2_In_l {X Y} (R : X -> Y -> Prop) (l : list X) (l' : list Y) (x : X) :
  Forall2 R l l' -> In x l -> exists y, In y l' /\ R x y.
Proof.
  induction 1 as [|x0 y0 l l' H0 _ IH]; intros Hin; [contradiction|].
  destruct Hin as [->|Hin].
  - exists y0. split; [now left|exact H0].
  - destruct (IH Hin) as (y & Hy & HR). exists y. split; [now right|exact HR].
Qed.

Lemma dict_keys_In {K V} (k : K) (d : dict K V) :
  In k (dict_keys d) -> exists v, In (k, v) d.
Proof.
  unfold dict_keys. rewrite in_map_iff. intros ([k' v] & <- & Hin). now exists v.
Qed.

Section DetectedFaults.
Context {F : Type} {CA : ChargeArith F}.
Implicit Types (e : SimulationEngine.t F).

Lemma detect_faults_of_flagged readings o e c faults e' c' (reading : SensorReading.t) :
  SimulationEngine._detect_faults readings o e c = (Ok faults, e', c') ->
  In reading (dict_values readings) ->
  SensorReading.is_fault reading = true ->
  exists f, In f faults
            /\ fault_of_reading reading (SimulationEngine.current_step e) f.
Proof.
  intros E Hin Hflag.
  destruct (detect_faults_run readings o e c)
    as (yss & zss & c2 & E2 & H1 & _).
  rewrite E2 in E. injection E as <- _ _.
  destruct (Forall2_In_l _ _ _ _ H1 Hin) as (ys & Hys & Hr).
  unfold faults_of_reading in Hr. rewrite Hflag in Hr.
  destruct Hr as (f & -> & Hf). exists f. split; [|exact Hf].
  apply in_or_app. left. apply in_concat. exists [f]. split; [exact Hys|now left].
Qed.

Lemma detect_faults_dated readings o e c faults e' c' :
  SimulationEngine._detect_faults readings o e c = (Ok faults, e', c') ->
  Forall (fun f => detected_at f = SimulationEngine.current_step e) faults.
Proof.
  intros E.
  destruct (detect_faults_run readings o e c)
    as (yss & zss & c2 & E2 & H1 & H2).
  rewrite E2 in E. injection E as <- _ _.
  apply Forall_app. split.
  - eapply Forall2_concat_Forall; [|exact H1].
    intros reading ys. unfold faults_of_reading.
    destruct (SensorReading.is_fault reading).
    + intros (f & -> & Hf). repeat constructor. apply Hf.
    + intros ->. constructor.
  - eapply Forall2_concat_Forall; [|exact H2].
    intros conflict ys (f & -> & Hf). repeat constructor. apply Hf.
Qed.
End DetectedFaults.

Ltac names_differ :=
  let i := fresh "i" in
  let H := fresh "H" in
  intros i H; unfold gate_name, spot_name, charger_name in H; simpl in H;
  discriminate H.

Lemma gate_read_unflagged G kind (name : string) k v :
  (forall i, gate_name i <> name) ->
  triple G (fun v' : GateSensor.t => v' = v /\ (fun _ : Z * GateSensor.t => True) (k, v))
         GateSensor.read
         (fun x v' => (fun _ : Z * GateSensor.t => True) (k, v')
                      /\ good_result (fun reading =>
                           flagged kind name
                             (SensorReading.sensor_name reading, reading)) x).
Proof.
  intros Hname o g c _ _.
  unfold GateSensor.read, bind, random, gets, modify, get, ret.
  destruct (Qltb _ _); simpl; (split; [exact Logic.I|]);
    intros H; now apply Hname in H.
Qed.

Lemma spot_read_unflagged G kind (name : string) k v :
  (forall i, spot_name i <> name) ->
  triple G (fun v' : OccupancySensor.t =>
              v' = v /\ (fun _ : Z * OccupancySensor.t => True) (k, v))
         OccupancySensor.read
         (fun x v' => (fun _ : Z * OccupancySensor.t => True) (k, v')
                      /\ good_result (fun reading =>
                           flagged kind name
                             (SensorReading.sensor_name reading, reading)) x).
Proof.
  intros Hname o s c _ _.
  unfold OccupancySensor.read, bind, random, get, ret. simpl.
  split; [exact Logic.I|]. intros H. now apply Hname in H.
Qed.

Lemma charger_read_unflagged G kind (name : string) k v :
  (forall i, charger_name i <> name) ->
  triple G (fun v' : ChargerSensor.t =>
              v' = v /\ (fun _ : Z * ChargerSensor.t => True) (k, v))
         ChargerSensor.read
         (fun x v' => (fun _ : Z * ChargerSensor.t => True) (k, v')
                      /\ good_result (fun reading =>
                           flagged kind name
                             (SensorReading.sensor_name reading, reading)) x).
Proof.
  intros Hname o s c _ _.
  unfold ChargerSensor.read, bind, random, gets, modify, get, ret.
  destruct (Qltb _ _); simpl; (split; [exact Logic.I|]);
    intros H; now apply Hname in H.
Qed.

Lemma charger_read_flagged G k v :
  triple G (fun v' => v' = v /\ charger_zero_failed (k, v)) ChargerSensor.read
         (fun x v' => charger_zero_failed (k, v')
                      /\ good_result (fun reading =>
                           flagged CHARGER (charger_name 0)
                             (SensorReading.sensor_name reading, reading)) x).
Proof.
  intros o ch c _ [-> [Hid Hk]]. simpl in Hid, Hk.
  unfold ChargerSensor.read, bind, random, gets, modify, get, ret.
  destruct (Qltb _ _); simpl.
  - split; [split; [exact Hid|auto]|].
    intros H. simpl in H. repeat split; auto.
  - split; [split; [exact Hid|exact Hk]|].
    intros H. simpl in H. pose proof (charger_name_inj _ _ H) as H0.
    repeat split; auto. apply Hk. congruence.
Qed.

Lemma gate_read_flagged G k v :
  triple G (fun v' => v' = v /\ gate_zero_failed (k, v)) GateSensor.read
         (fun x v' => gate_zero_failed (k, v')
                      /\ good_result (fun reading =>
                           flagged GATE (gate_name 0)
                             (SensorReading.sensor_name reading, reading)) x).
Proof.
  intros o g c _ [-> [Hid Hk]]. simpl in Hid, Hk.
  unfold GateSensor.read, bind, random, gets, modify, get, ret.
  destruct (Qltb _ _); simpl.
  - split; [split; [exact Hid|auto]|].
    intros H. simpl in H. repeat split; auto.
  - split; [split; [exact Hid|exact Hk]|].
    intros H. simpl in H. pose proof (gate_name_inj _ _ H) as H0.
    repeat split; auto. apply Hk. congruence.
Qed.

(** A failed charger 0 is flagged in the snapshot, under its name. *)
Lemma failed_charger_is_read o (net : SensorNetwork.t) c readings net' c' :
  well_named net -> charger_down 0 net ->
  SensorNetwork.read_all_sensors o net c = (Ok readings, net', c') ->
  exists reading,
    In reading (dict_values readings)
    /\ SensorReading.is_fault reading = true
    /\ SensorReading.sensor_type reading = CHARGER
    /\ SensorReading.sensor_name reading = charger_name 0.
Proof.
  intros Hw (ch & Hch & Hfailed) E.
  destruct (read_all_sensors_names o net c Hw) as (r0 & n0 & E0 & Hkeys & _ & _).
  rewrite E in E0. injection E0 as -> _ _.
  destruct Hw as (_ & _ & Hcn & Hc).
  pose proof (read_all_sensors_snapshot any_streams
    (fun _ => True) (fun _ => True) charger_zero_failed
    (flagged CHARGER (charger_name 0))
    (fun k v => gate_read_unflagged any_streams CHARGER (charger_name 0) k v ltac:(names_differ))
    (fun k v => spot_read_unflagged any_streams CHARGER (charger_name 0) k v ltac:(names_differ))
    (charger_read_flagged _)
    o net c Logic.I) as Hsnap.
  rewrite E in Hsnap.
  destruct Hsnap as [_ Hr]; [|].
  { repeat split; try apply Forall_True.
    rewrite Forall_forall in Hc |- *. intros [k v] Hin. split; [now apply Hc|].
    simpl. intros ->.
    apply (dict_get_of_In Z.eqb Zeqb_eq' _ _ _ Hcn) in Hin. congruence. }
  simpl in Hr.
  assert (Hin : In (charger_name 0) (dict_keys r0)).
  { rewrite Hkeys. unfold reading_names. rewrite !in_app_iff. right. right.
    apply in_map. apply (dict_get_In Z.eqb Zeqb_eq') in Hch.
    change 0 with (fst (0, ch)). now apply in_map. }
  destruct (dict_keys_In _ _ Hin) as (reading & Hreading).
  rewrite Forall_forall in Hr. destruct (Hr _ Hreading eq_refl) as (H1 & H2 & H3).
  exists reading. repeat split; auto.
  change reading with (snd (charger_name 0, reading)). now apply in_map.
Qed.

(** A failed gate 0 is flagged in the snapshot, under its name. *)
Lemma failed_gate_is_read o (net : SensorNetwork.t) c readings net' c' :
  well_named net -> gate_down 0 net ->
  SensorNetwork.read_all_sensors o net c = (Ok readings, net', c') ->
  exists reading,
    In reading (dict_values readings)
    /\ SensorReading.is_fault reading = true
    /\ SensorReading.sensor_type reading = GATE
    /\ SensorReading.sensor_name reading = gate_name 0.
Proof.
  intros Hw (g & Hg & Hfailed) E.
  destruct (read_all_sensors_names o net c Hw) as (r0 & n0 & E0 & Hkeys & _ & _).
  rewrite E in E0. injection E0 as -> _ _.
  destruct Hw as ((Hgn & Hgs) & _ & _).
  pose proof (read_all_sensors_snapshot any_streams
    gate_zero_failed (fun _ => True) (fun _ => True)
    (flagged GATE (gate_name 0))
    (gate_read_flagged _)
    (fun k v => spot_read_unflagged any_streams GATE (gate_name 0) k v ltac:(names_differ))
    (fun k v => charger_read_unflagged any_streams GATE (gate_name 0) k v ltac:(names_differ))
    o net c Logic.I) as Hsnap.
  rewrite E in Hsnap.
  destruct Hsnap as [_ Hr]; [|].
  { repeat split; try apply Forall_True.
    rewrite Forall_forall in Hgs |- *. intros [k v] Hin. split; [now apply Hgs|].
    simpl. intros ->.
    apply (dict_get_of_In Z.eqb Zeqb_eq' _ _ _ Hgn) in Hin. congruence. }
  simpl in Hr.
  assert (Hin : In (gate_name 0) (dict_keys r0)).
  { rewrite Hkeys. unfold reading_names. rewrite !in_app_iff. left.
    apply in_map. apply (dict_get_In Z.eqb Zeqb_eq') in Hg.
    change 0 with (fst (0, g)). now apply in_map. }
  destruct (dict_keys_In _ _ Hin) as (reading & Hreading).
  rewrite Forall_forall in Hr. destruct (Hr _ Hreading eq_refl) as (H1 & H2 & H3).
  exists reading. repeat split; auto.
  change reading with (snd (gate_name 0, reading)). now apply in_map.
Qed.

(* ------------------------------------------------------------------ *)
(** ** A step of an engine that cannot raise *)

Lemma keeps_run {S A} (G : Streams -> Prop) (I : S -> Prop) (m : M S A) o s c x s' c' :
  keeps G I m -> G o -> I s -> m o s c = (x, s', c') -> I s'.
Proof. intros Hk Ho Hs E. specialize (Hk o s c Ho Hs). now rewrite E in Hk. Qed.

Lemma inject_charger_well_named G (names : list string) :
  keeps G (fun net => well_named net /\ reading_names net = names)
        (zoom SensorNetwork.chargers SensorNetwork.set_chargers
           (with_entry Z.eqb 0 (modify ChargerSensor.fail))).
Proof.
  apply (inject_charger_keeps_forall G
           (fun kv => ChargerSensor.charger_id (snd kv) = fst kv)).
  - intros k v H. exact H.
  - intros net [H _]. apply H.
  - intros net chargers [(Hg & Hs & Hc) Hn] H Hk. split.
    + unfold well_named. simpl. rewrite Hk. tauto.
    + rewrite <- Hn. unfold reading_names. simpl. now rewrite Hk.
Qed.

Lemma inject_gate_well_named G (names : list string) :
  keeps G (fun net => well_named net /\ reading_names net = names)
        (zoom SensorNetwork.gates SensorNetwork.set_gates
           (with_entry Z.eqb 0 (modify GateSensor.fail))).
Proof.
  apply (inject_gate_keeps_forall G
           (fun kv => GateSensor.gate_id (snd kv) = fst kv)).
  - intros k v H. exact H.
  - intros net [H _]. apply H.
  - intros net gates [(Hg & Hs & Hc) Hn] H Hk. split.
    + unfold well_named. simpl. rewrite Hk. tauto.
    + rewrite <- Hn. unfold reading_names. simpl. now rewrite Hk.
Qed.

(** The injection of a failure on one kind of sensor leaves the sensors
    of the other kind alone. *)
Lemma inject_gate_keeps_charger_down G (i : Z) :
  keeps G (charger_down i)
        (zoom SensorNetwork.gates SensorNetwork.set_gates
           (with_entry Z.eqb 0 (modify GateSensor.fail))).
Proof. apply keeps_zoom_frame. intros t s H. exact H. Qed.

Lemma inject_charger_keeps_gate_down G (i : Z) :
  keeps G (gate_down i)
        (zoom SensorNetwork.chargers SensorNetwork.set_chargers
           (with_entry Z.eqb 0 (modify ChargerSensor.fail))).
Proof. apply keeps_zoom_frame. intros t s H. exact H. Qed.

Section EngineStep.
Context {F : Type} {CA : ChargeArith F}.
Implicit Types (e : SimulationEngine.t F).

Lemma inject_failures_keeps_network G (Pn : SensorNetwork.t -> Prop) :
  keeps G Pn (zoom SensorNetwork.chargers SensorNetwork.set_chargers
                (with_entry Z.eqb 0 (modify ChargerSensor.fail))) ->
  keeps G Pn (zoom SensorNetwork.gates SensorNetwork.set_gates
                (with_entry Z.eqb 0 (modify GateSensor.fail))) ->
  keeps G (fun e => Pn (SimulationEngine.sensor_network e))
        SimulationEngine._inject_failures.
Proof.
  intros Hch Hg.
  assert (Hnet : forall A (m : M SensorNetwork.t A),
             keeps G Pn m ->
             keeps G (fun e : SimulationEngine.t F =>
                        Pn (SimulationEngine.sensor_network e))
                   (SimulationEngine.on_network m)).
  { intros A m Hm. eapply keeps_zoom; [exact Hm| |]; auto. }
  unfold SimulationEngine._inject_failures.
  keeps_auto; apply Hnet; assumption.
Qed.

Lemma classify_charger (reading : SensorReading.t) :
  SensorReading.sensor_type reading = CHARGER ->
  SimulationEngine._classify_fault_type reading = CHARGER_FAILURE.
Proof. unfold SimulationEngine._classify_fault_type. now intros ->. Qed.

Lemma classify_gate (reading : SensorReading.t) :
  SensorReading.sensor_type reading = GATE ->
  SimulationEngine._classify_fault_type reading = GATE_STUCK.
Proof. unfold SimulationEngine._classify_fault_type. now intros ->. Qed.

(** One step of an engine that is sound and whose sensors are filed
    under their ids. *)
Lemma run_step_ok o e c :
  sound e -> well_named (SimulationEngine.sensor_network e) ->
  exists step_result e' c' faults,
    SimulationEngine.run_step o e c = (Ok step_result, e', c')
    /\ sound e'
    /\ (well_named (SimulationEngine.sensor_network e')
        /\ reading_names (SimulationEngine.sensor_network e')
           = reading_names (SimulationEngine.sensor_network e))
    /\ SimulationEngine.config e' = SimulationEngine.config e
    /\ SimulationEngine.current_step e' = SimulationEngine.current_step e + 1
    /\ SimulationEngine.faults_detected e' = SimulationEngine.faults_detected e ++ faults
    /\ step_result
       = mkStepResult (SimulationEngine.current_step e + 1)
           (List.length (VehicleManager.vehicles (SimulationEngine.vehicle_manager e')))
           (List.length (reading_names (SimulationEngine.sensor_network e)))
           (result_control_actions step_result) (List.length faults)
    /\ Forall (fun f => detected_at f = SimulationEngine.current_step e + 1) faults
    /\ (charger_down 0 (SimulationEngine.sensor_network e)
        \/ charger_failure_due (stamp e) = true ->
        charger_down 0 (SimulationEngine.sensor_network e')
        /\ exists f, In f faults /\ warns CHARGER_FAILURE (charger_name 0) f)
    /\ (gate_down 0 (SimulationEngine.sensor_network e)
        \/ gate_failure_due (stamp e) = true ->
        gate_down 0 (SimulationEngine.sensor_network e')
        /\ exists f, In f faults /\ warns GATE_STUCK (gate_name 0) f).
Proof.
  intros Hs Hw.
  destruct (total_run any_streams sound SimulationEngine.run_step o e c
              (run_step_total any_streams) Logic.I Hs)
    as (step_result & e' & c' & E & Hs').
  destruct (run_step_inv o e c _ _ _ E)
    as (net2 & readings & net4 & c4 & c5 & actions & ctl7 & vm7 & c7 & faults & db'
        & E5 & Er & Ep & (e8 & E12 & Hvm & Hcs) & He' & Hsr & _ & _).
  pose proof (keeps_run any_streams _ _ o (stamp e) c _ _ _
                (inject_failures_keeps_network any_streams _
                   (inject_charger_well_named any_streams
                      (reading_names (SimulationEngine.sensor_network e)))
                   (inject_gate_well_named any_streams
                      (reading_names (SimulationEngine.sensor_network e))))
                Logic.I (conj Hw eq_refl) E5) as [Hw2 Hn2].
  simpl in Hw2, Hn2.
  destruct (read_all_sensors_names o net2 (cursor_after_arrival o c e) Hw2)
    as (r0 & n0 & E0 & Hkeys & Hw4 & Hn4).
  rewrite Er in E0. injection E0 as <- <- _.
  exists step_result, e', c', faults.
  split; [exact E|]. split; [exact Hs'|]. subst e'. simpl.
  split; [split; [exact Hw4|congruence]|].
  split; [reflexivity|]. split; [reflexivity|]. split; [reflexivity|].
  split.
  { rewrite Hsr. simpl. f_equal.
    rewrite <- Hn2, <- Hkeys. unfold dict_keys. now rewrite length_map. }
  split.
  { rewrite <- Hcs. eapply detect_faults_dated. exact E12. }
  split.
  - intros Hdown.
    assert (Hd2 : charger_down 0 net2).
    { destruct Hdown as [Hdown|Hdue].
      - exact (keeps_run any_streams _ _ o (stamp e) c _ _ _
                 (inject_failures_keeps_network any_streams _
                    (inject_charger_keeps_charger_down any_streams 0)
                    (inject_gate_keeps_charger_down any_streams 0))
                 Logic.I Hdown E5).
      - destruct (inject_failures_inv o (stamp e) c _ _ _ E5)
          as (_ & net' & Hnet' & Hc' & _).
        apply (f_equal SimulationEngine.sensor_network) in Hnet'. simpl in Hnet'.
        subst net'. now apply Hc'. }
    split.
    + exact (keeps_run any_streams _ _ o net2 _ _ _ _
               (read_all_sensors_keeps_charger_down any_streams 0)
               Logic.I Hd2 Er).
    + destruct (failed_charger_is_read o net2 _ _ _ _ Hw2 Hd2 Er)
        as (reading & Hin & Hflag & Htype & Hname).
      destruct (detect_faults_of_flagged _ _ _ _ _ _ _ _ E12 Hin Hflag)
        as (f & Hf & Hty & Hal & Hco & _).
      exists f. split; [exact Hf|]. repeat split; auto.
      * rewrite Hty. now apply classify_charger.
      * now rewrite Hco.
  - intros Hdown.
    assert (Hd2 : gate_down 0 net2).
    { destruct Hdown as [Hdown|Hdue].
      - exact (keeps_run any_streams _ _ o (stamp e) c _ _ _
                 (inject_failures_keeps_network any_streams _
                    (inject_charger_keeps_gate_down any_streams 0)
                    (inject_gate_keeps_gate_down any_streams 0))
                 Logic.I Hdown E5).
      - destruct (inject_failures_inv o (stamp e) c _ _ _ E5)
          as (_ & net' & Hnet' & _ & Hg').
        apply (f_equal SimulationEngine.sensor_network) in Hnet'. simpl in Hnet'.
        subst net'. now apply Hg'. }
    split.
    + exact (keeps_run any_streams _ _ o net2 _ _ _ _
               (read_all_sensors_keeps_gate_down any_streams 0)
               Logic.I Hd2 Er).
    + destruct (failed_gate_is_read o net2 _ _ _ _ Hw2 Hd2 Er)
        as (reading & Hin & Hflag & Htype & Hname).
      destruct (detect_faults_of_flagged _ _ _ _ _ _ _ _ E12 Hin Hflag)
        as (f & Hf & Hty & Hal & Hco & _).
      exists f. split; [exact Hf|]. repeat split; auto.
      * rewrite Hty. now apply classify_gate.
      * now rewrite Hco.
Qed.
End EngineStep.

(* ------------------------------------------------------------------ *)
(** ** Runs of an engine that cannot raise *)

Section EngineRuns.
Context {F : Type} {CA : ChargeArith F}.
Implicit Types (e : SimulationEngine.t F).

Lemma run_steps_ok o (n : nat) : forall e c,
  sound e -> well_named (SimulationEngine.sensor_network e) ->
  exists results e' c' faults,
    run_steps n o e c = (Ok results, e', c')
    /\ sound e'
    /\ (well_named (SimulationEngine.sensor_network e')
        /\ reading_names (SimulationEngine.sensor_network e')
           = reading_names (SimulationEngine.sensor_network e))
    /\ SimulationEngine.config e' = SimulationEngine.config e
    /\ SimulationEngine.current_step e'
       = SimulationEngine.current_step e + Z.of_nat n
    /\ SimulationEngine.faults_detected e' = SimulationEngine.faults_detected e ++ faults
    /\ map result_step results
       = map (fun i => SimulationEngine.current_step e + Z.of_nat i) (seq 1 n)
    /\ Forall (fun r => result_sensor_readings r
                        = List.length
                            (reading_names (SimulationEngine.sensor_network e)))
              results
    /\ List.length faults = list_sum (map result_faults results)
    /\ Forall (fun f => SimulationEngine.current_step e < detected_at f
                        <= SimulationEngine.current_step e + Z.of_nat n) faults.
Proof.
  induction n as [|n IH]; intros e c Hs Hw.
  - exists [], e, c, []. simpl. unfold ret. rewrite app_nil_r, Z.add_0_r.
    repeat match goal with |- _ /\ _ => split end; auto.
  - destruct (run_step_ok o e c Hs Hw)
      as (sr & e1 & c1 & f1 & E1 & Hs1 & [Hw1 Hn1] & Hc1 & Hk1 & Hf1 & Hsr & Hd1 & _).
    destruct (IH e1 c1 Hs1 Hw1)
      as (rest & e' & c' & f2 & E2 & Hs2 & [Hw2 Hn2] & Hc2 & Hk2 & Hf2 & Hst & Hrd
          & Hlen & Hd2).
    exists (sr :: rest), e', c', (f1 ++ f2).
    split.
    { cbn [run_steps]. unfold bind at 1. rewrite E1.
      unfold bind at 1. rewrite E2. reflexivity. }
    split; [exact Hs2|]. split; [split; [exact Hw2|congruence]|].
    split; [congruence|]. split; [lia|].
    split; [rewrite Hf2, Hf1; now rewrite app_assoc|].
    split.
    { change (seq 1 (S n)) with (1%nat :: seq 2 n). cbn [map].
      apply (f_equal2 cons).
      - rewrite Hsr. simpl. lia.
      - rewrite Hst, <- (seq_shift n 1), map_map. apply map_ext. intros i. lia. }
    split.
    { constructor; [rewrite Hsr; reflexivity|].
      rewrite <- Hn1. exact Hrd. }
    split.
    { rewrite length_app, Hlen. cbn [map list_sum]. f_equal.
      rewrite Hsr. reflexivity. }
    apply Forall_app. split.
    + eapply Forall_impl; [|exact Hd1]. intros f Hf. simpl in Hf. lia.
    + eapply Forall_impl; [|exact Hd2]. intros f Hf. simpl in Hf. lia.
Qed.

Lemma due_at_step e (k : Z) :
  0 < k -> SimulationEngine.current_step e + 1 = k ->
  (SimulationConfig.charger_failure_step (SimulationEngine.config e) = Some k ->
   charger_failure_due (stamp e) = true)
  /\ (SimulationConfig.gate_failure_step (SimulationEngine.config e) = Some k ->
      gate_failure_due (stamp e) = true).
Proof.
  intros Hk Hcs. unfold charger_failure_due, gate_failure_due. simpl.
  split; intros ->; simpl; rewrite Hcs, Z.eqb_refl;
    destruct (Z.eqb_spec k 0); try lia; reflexivity.
Qed.

(** A failed charger 0, or a charger failure still to be injected, is
    reported at every step from the injection on. *)
Lemma run_steps_report_charger o (k : Z) (n : nat) : forall e c,
  sound e -> well_named (SimulationEngine.sensor_network e) ->
  SimulationConfig.charger_failure_step (SimulationEngine.config e) = Some k ->
  0 < k ->
  charger_down 0 (SimulationEngine.sensor_network e)
  \/ SimulationEngine.current_step e < k ->
  forall j, k <= j ->
    SimulationEngine.current_step e < j
    <= SimulationEngine.current_step e + Z.of_nat n ->
    exists f,
      In f (SimulationEngine.faults_detected (final_state (run_steps n o e c)))
      /\ warns CHARGER_FAILURE (charger_name 0) f
      /\ detected_at f = j.
Proof.
  induction n as [|n IH]; intros e c Hs Hw Hcfg Hk Hstart j Hkj Hj; [lia|].
  destruct (run_step_ok o e c Hs Hw)
    as (sr & e1 & c1 & f1 & E1 & Hs1 & [Hw1 Hn1] & Hc1 & Hk1 & Hf1 & Hsr & Hd1
        & Hch & _).
  destruct (run_steps_after_first o e c sr e1 c1 n E1) as [-> _].
  assert (Hfirst : SimulationEngine.current_step e + 1 = j ->
            charger_down 0 (SimulationEngine.sensor_network e)
            \/ charger_failure_due (stamp e) = true).
  { intros Hj1. destruct Hstart as [Hdown|Hlt]; [now left|right].
    apply (due_at_step e k Hk); [lia|exact Hcfg]. }
  destruct (Z.eq_dec (SimulationEngine.current_step e + 1) j) as [Hj1|Hj1].
  - destruct (Hch (Hfirst Hj1)) as (_ & f & Hf & Hwarn).
    exists f. split; [|split; [exact Hwarn|]].
    + destruct (run_steps_ok o n e1 c1 Hs1 Hw1)
        as (rest & e' & c' & f2 & E2 & _ & _ & _ & _ & Hf2 & _).
      rewrite E2. unfold final_state. simpl. rewrite Hf2, Hf1.
      rewrite !in_app_iff. auto.
    + rewrite Forall_forall in Hd1. rewrite (Hd1 f Hf). exact Hj1.
  - apply IH; auto; try congruence; try lia.
    destruct Hstart as [Hdown|Hlt].
    + left. now apply Hch; left.
    + destruct (Z.eq_dec (SimulationEngine.current_step e + 1) k) as [Hek|Hek].
      * left. apply Hch. right. apply (due_at_step e k Hk Hek). exact Hcfg.
      * right. lia.
Qed.

Lemma run_steps_report_gate o (k : Z) (n : nat) : forall e c,
  sound e -> well_named (SimulationEngine.sensor_network e) ->
  SimulationConfig.gate_failure_step (SimulationEngine.config e) = Some k ->
  0 < k ->
  gate_down 0 (SimulationEngine.sensor_network e)
  \/ SimulationEngine.current_step e < k ->
  forall j, k <= j ->
    SimulationEngine.current_step e < j
    <= SimulationEngine.current_step e + Z.of_nat n ->
    exists f,
      In f (SimulationEngine.faults_detected (final_state (run_steps n o e c)))
      /\ warns GATE_STUCK (gate_name 0) f
      /\ detected_at f = j.
Proof.
  induction n as [|n IH]; intros e c Hs Hw Hcfg Hk Hstart j Hkj Hj; [lia|].
  destruct (run_step_ok o e c Hs Hw)
    as (sr & e1 & c1 & f1 & E1 & Hs1 & [Hw1 Hn1] & Hc1 & Hk1 & Hf1 & Hsr & Hd1
        & _ & Hg).
  destruct (run_steps_after_first o e c sr e1 c1 n E1) as [-> _].
  assert (Hfirst : SimulationEngine.current_step e + 1 = j ->
            gate_down 0 (SimulationEngine.sensor_network e)
            \/ gate_failure_due (stamp e) = true).
  { intros Hj1. destruct Hstart as [Hdown|Hlt]; [now left|right].
    apply (due_at_step e k Hk); [lia|exact Hcfg]. }
  destruct (Z.eq_dec (SimulationEngine.current_step e + 1) j) as [Hj1|Hj1].
  - destruct (Hg (Hfirst Hj1)) as (_ & f & Hf & Hwarn).
    exists f. split; [|split; [exact Hwarn|]].
    + destruct (run_steps_ok o n e1 c1 Hs1 Hw1)
        as (rest & e' & c' & f2 & E2 & _ & _ & _ & _ & Hf2 & _).
      rewrite E2. unfold final_state. simpl. rewrite Hf2, Hf1.
      rewrite !in_app_iff. auto.
    + rewrite Forall_forall in Hd1. rewrite (Hd1 f Hf). exact Hj1.
  - apply IH; auto; try congruence; try lia.
    destruct Hstart as [Hdown|Hlt].
    + left. now apply Hg; left.
    + destruct (Z.eq_dec (SimulationEngine.current_step e + 1) k) as [Hek|Hek].
      * left. apply Hg. right. apply (due_at_step e k Hk Hek). exact Hcfg.
      * right. lia.
Qed.
End EngineRuns.

(** X6.  An engine built for a configuration whose failure injections
    have a device to act on never raises, and counts its steps: [n]
    calls of [run_step] return [n] results, numbered 1 to [n], each
    reporting one reading per configured sensor; the step counter ends
    at [n]; the faults detected are as many as the results report, and
    each is dated with a step between 1 and [n]. *)
Theorem steps_are_counted {F : Type} {CA : ChargeArith F}
    (config : SimulationConfig.t) (db : DatabaseManager.t) (run_id : string)
    (o : Streams) (c : Cursor) (n : nat)
    (Hcfg : injections_configured config) :
  let x := run_steps n o (SimulationEngine.create (F := F) config db run_id) c in
  exists results,
    final_outcome x = Ok results
    /\ SimulationEngine.current_step (final_state x) = Z.of_nat n
    /\ map result_step results = map Z.of_nat (seq 1 n)
    /\ Forall (fun r => result_sensor_readings r
                        = (List.length (range (SimulationConfig.num_gates config))
                           + List.length (range (SimulationConfig.num_spots config))
                           + List.length (range (SimulationConfig.num_chargers config)))%nat)
              results
    /\ List.length (SimulationEngine.faults_detected (final_state x))
       = list_sum (map result_faults results)
    /\ Forall (fun f => 1 <= detected_at f <= Z.of_nat n)
              (SimulationEngine.faults_detected (final_state x)).
Proof.
  intros x.
  destruct (run_steps_ok o n (SimulationEngine.create (F := F) config db run_id) c
              (created_is_sound config db run_id Hcfg)
              (well_named_init _ _ _))
    as (results & e' & c' & faults & E & _ & _ & _ & Hk & Hf & Hst & Hrd & Hlen & Hd).
  exists results. unfold x. rewrite E. unfold final_outcome, final_state. simpl in *.
  split; [reflexivity|]. split; [exact Hk|]. split; [exact Hst|].
  split.
  { eapply Forall_impl; [|exact Hrd]. intros r ->.
    rewrite reading_names_init, !length_app, !length_map. lia. }
  rewrite Hf. split; [exact Hlen|].
  eapply Forall_impl; [|exact Hd]. intros f H. simpl in H. lia.
Qed.

Lemma no_injection_configured (num_gates num_spots num_chargers max_steps : Z)
      (rate noise : Q) :
  injections_configured
    (SimulationConfig.mk num_gates num_spots num_chargers max_steps rate None None noise).
Proof. split; intros H; discriminate H. Qed.

Lemma steps_are_counted_witness :
  let x := run_steps 3 streams_half
             (SimulationEngine.create (F := Q) scenario_no_arrivals
                DatabaseManager.empty "run") cursor0 in
  exists results,
    final_outcome x = Ok results
    /\ SimulationEngine.current_step (final_state x) = 3
    /\ map result_step results = [1; 2; 3]
    /\ Forall (fun r => result_sensor_readings r = 10%nat) results.
Proof.
  destruct (steps_are_counted (F := Q) scenario_no_arrivals DatabaseManager.empty "run"
              streams_half cursor0 3 (no_injection_configured 2 5 3 50 0 (5 # 100)))
    as (results & H1 & H2 & H3 & H4 & _).
  exists results. repeat split; assumption.
Defined.

(** X7.  A failure injected by the scenario is reported from its step
    on: when [charger_failure_step] is [k > 0], every step [j] from [k]
    to the last one run has added to the faults detected a warning of
    type charger_failure on "charger_0" dated [j]; the same holds of
    [gate_failure_step], with type gate_stuck on "gate_0".  The fault is
    raised anew at every step, not once. *)
Theorem injected_failure_is_reported_every_step {F : Type} {CA : ChargeArith F}
    (config : SimulationConfig.t) (db : DatabaseManager.t) (run_id : string)
    (o : Streams) (c : Cursor) (n : nat) (k j : Z)
    (Hcfg : injections_configured config)
    (Hk : 0 < k) (Hkj : k <= j) (Hjn : j <= Z.of_nat n) :
  let e' := final_state
              (run_steps n o (SimulationEngine.create (F := F) config db run_id) c) in
  (SimulationConfig.charger_failure_step config = Some k ->
   exists f, In f (SimulationEngine.faults_detected e')
             /\ warns CHARGER_FAILURE "charger_0" f /\ detected_at f = j)
  /\ (SimulationConfig.gate_failure_step config = Some k ->
      exists f, In f (SimulationEngine.faults_detected e')
                /\ warns GATE_STUCK "gate_0" f /\ detected_at f = j).
Proof.
  intros e'.
  assert (H0 : SimulationEngine.current_step
                 (SimulationEngine.create (F := F) config db run_id) < k)
    by (simpl; lia).
  assert (Hj : SimulationEngine.current_step
                 (SimulationEngine.create (F := F) config db run_id) < j
               <= SimulationEngine.current_step
                    (SimulationEngine.create (F := F) config db run_id) + Z.of_nat n)
    by (simpl; lia).
  split; intros Hstep.
  - exact (run_steps_report_charger o k n _ c
             (created_is_sound config db run_id Hcfg) (well_named_init _ _ _)
             Hstep Hk (or_intror H0) j Hkj Hj).
  - exact (run_steps_report_gate o k n _ c
             (created_is_sound config db run_id Hcfg) (well_named_init _ _ _)
             Hstep Hk (or_intror H0) j Hkj Hj).
Qed.

Lemma injected_failure_is_reported_every_step_witness :
  let e' := final_state
              (run_steps 31 streams_half
                 (SimulationEngine.create (F := Q) scenario_charger_failure
                    DatabaseManager.empty "run") cursor0) in
  exists f, In f (SimulationEngine.faults_detected e')
            /\ warns CHARGER_FAILURE "charger_0" f /\ detected_at f = 31.
Proof.
  refine (proj1 (injected_failure_is_reported_every_step (F := Q)
                   scenario_charger_failure DatabaseManager.empty "run"
                   streams_half cursor0 31 30 31 _ _ _ _) eq_refl).
  - split; simpl; intros H; [lia|discriminate H].
  - lia.
  - lia.
  - lia.
Defined.

(* ------------------------------------------------------------------ *)
(** ** First fit *)

Lemma find_seq_first (f : Z -> bool) (i : Z) (m : nat) : forall start : nat,
  find f (map Z.of_nat (seq start m)) = Some i ->
  forall j, Z.of_nat start <= j < i -> f j = false.
Proof.
  induction m as [|m IH]; intros start; simpl; [discriminate|].
  destruct (f (Z.of_nat start)) eqn:E.
  - intros [= <-] j Hj. lia.
  - intros Hfind j Hj.
    destruct (Z.eq_dec j (Z.of_nat start)) as [->|Hne]; [exact E|].
    apply (IH (S start) Hfind). lia.
Qed.

(** The first hit of a scan of [range(n)] has no hit below it. *)
Lemma find_range_first (f : Z -> bool) (n i : Z) :
  find f (range n) = Some i -> forall j, 0 <= j < i -> f j = false.
Proof. unfold range. intros H j Hj. apply (find_seq_first f i _ 0%nat H). simpl. lia. Qed.

Section FirstFit.
Context {F : Type} {CA : ChargeArith F}.
Implicit Types (w : DepotController.W (F := F)).

Lemma assign_charger_from_find (self : DepotController.t) o c (ids : list Z) :
  (forall i, In i ids ->
     zmem i (DepotState.charger_status (DepotController.depot_state self)) = true) ->
  DepotController.assign_charger_from ids o self c
  = (Ok (find (charger_eligible self) ids), self, c).
Proof.
  induction ids as [|i rest IH]; intros Hview; [reflexivity|].
  cbn [DepotController.assign_charger_from find].
  unfold bind at 1, get. unfold bind at 1, index.
  destruct (zmem_get i _ (Hview i (or_introl eq_refl))) as [status Hst].
  unfold charger_eligible at 1. rewrite Hst. unfold ret at 1.
  destruct (negb (Status.get_or_false (Status.connected status))
            && negb (Status.get_or_false (Status.failed status))); [reflexivity|].
  apply IH. intros j Hj. apply Hview. now right.
Qed.

Lemma assign_parking_spot_from_find w o c (vehicle_id : string) (v : Vehicle.t F)
      (ids : list Z) :
  sget vehicle_id (VehicleManager.vehicles (snd w)) = Some v ->
  (forall s, In s ids ->
     zmem s (DepotState.spot_occupancy (DepotController.depot_state (fst w))) = true) ->
  DepotController.assign_parking_spot_from ids vehicle_id o w c
  = (Ok (find (spot_claimable w) ids),
     match find (spot_claimable w) ids with
     | Some s => (fst w, snd (VehicleManager.assign_spot vehicle_id s (snd w)))
     | None => w
     end, c).
Proof.
  intros Hreg. induction ids as [|s rest IH]; intros Hview.
  - simpl. unfold ret. reflexivity.
  - cbn [DepotController.assign_parking_spot_from find].
    unfold bind at 1, DepotController.on_self at 1, zoom at 1.
    unfold bind at 1, get, index.
    destruct (zmem_get s _ (Hview s (or_introl eq_refl))) as [occupied Hocc].
    rewrite Hocc. unfold ret at 1. cbv beta iota.
    assert (Hcl : spot_claimable w s
                  = negb (truthy occupied)
                    && negb (VehicleManager.spot_taken s (snd w)))
      by (unfold spot_claimable; now rewrite Hocc).
    rewrite Hcl.
    assert (Hw : (fst w, snd w) = w) by now destruct w.
    rewrite Hw.
    destruct (truthy occupied); cbn [negb andb].
    + apply IH. intros j Hj. apply Hview. now right.
    + unfold bind at 1, DepotController.on_manager at 1, zoom at 1, call.
      unfold VehicleManager.assign_spot.
      destruct (VehicleManager.spot_taken s (snd w)) eqn:Etaken; cbn [negb].
      * rewrite Hw. apply IH. intros j Hj. apply Hview. now right.
      * rewrite Hreg. cbv beta iota. rewrite ?Etaken. reflexivity.
Qed.
End FirstFit.

(** X8.  [_assign_charger] is a first fit that reads the view only: when
    the view has an entry for every configured charger, it returns the
    least charger id the view shows neither connected nor failed, or
    [None] when there is none, changes nothing and draws nothing; the
    vehicle it is called for plays no part. *)
Theorem assign_charger_is_first_fit {F : Type} {CA : ChargeArith F}
    (vehicle : Vehicle.t F) (self : DepotController.t) (o : Streams) (c : Cursor)
    (Hview : forall i, In i (range (DepotController.num_chargers self)) ->
               zmem i (DepotState.charger_status
                         (DepotController.depot_state self)) = true) :
  let result := find (charger_eligible self)
                     (range (DepotController.num_chargers self)) in
  DepotController._assign_charger vehicle o self c = (Ok result, self, c)
  /\ (forall i, result = Some i ->
        0 <= i < DepotController.num_chargers self
        /\ charger_eligible self i = true
        /\ forall j, 0 <= j < i -> charger_eligible self j = false)
  /\ (result = None ->
      forall j, 0 <= j < DepotController.num_chargers self ->
                charger_eligible self j = false).
Proof.
  intros result. split; [|split].
  - unfold DepotController._assign_charger, bind, get.
    now apply assign_charger_from_find.
  - intros i Hi. unfold result in Hi.
    pose proof (find_some _ _ Hi) as [Hin Hel]. apply In_range in Hin.
    split; [exact Hin|]. split; [exact Hel|].
    intros j Hj. exact (find_range_first _ _ _ Hi j Hj).
  - intros Hnone j Hj. unfold result in Hnone.
    apply (find_none _ _ Hnone). apply In_range. exact Hj.
Qed.

Lemma assign_charger_is_first_fit_witness :
  DepotController._assign_charger (vehicle_in PARKING "v1") streams_half
    (DepotController.init 1 1 3) cursor0
  = (Ok (Some 0), DepotController.init 1 1 3, cursor0).
Proof.
  refine (proj1 (assign_charger_is_first_fit (vehicle_in PARKING "v1")
                   (DepotController.init 1 1 3) streams_half cursor0 _)).
  intros i Hi. apply In_range in Hi. simpl. now apply dict_of_range_mem.
Defined.

(** X9.  [_assign_parking_spot] is a first fit over [range(num_spots)]:
    when the view has an entry for every configured spot, a registered
    vehicle is given the least spot that the view shows free and that
    the registry has not given away, by [assign_spot]; when there is no
    such spot it returns [None] and changes nothing.  A vehicle that is
    not registered is never given a spot. *)
Theorem assign_parking_spot_is_first_fit {F : Type} {CA : ChargeArith F}
    (vehicle : Vehicle.t F) (w : DepotController.W (F := F))
    (o : Streams) (c : Cursor)
    (Hview : forall s, In s (range (DepotController.num_spots (fst w))) ->
               zmem s (DepotState.spot_occupancy
                         (DepotController.depot_state (fst w))) = true) :
  let result := find (spot_claimable w) (range (DepotController.num_spots (fst w))) in
  (smem (Vehicle.vehicle_id vehicle) (VehicleManager.vehicles (snd w)) = true ->
   DepotController._assign_parking_spot vehicle o w c
   = (Ok result,
      match result with
      | Some s =>
          (fst w, snd (VehicleManager.assign_spot (Vehicle.vehicle_id vehicle) s (snd w)))
      | None => w
      end, c)
   /\ (forall s, result = Some s ->
         0 <= s < DepotController.num_spots (fst w)
         /\ spot_claimable w s = true
         /\ (forall j, 0 <= j < s -> spot_claimable w j = false)
         /\ fst (VehicleManager.assign_spot (Vehicle.vehicle_id vehicle) s (snd w))
            = true)
   /\ (result = None ->
       forall j, 0 <= j < DepotController.num_spots (fst w) ->
                 spot_claimable w j = false))
  /\ (smem (Vehicle.vehicle_id vehicle) (VehicleManager.vehicles (snd w)) = false ->
      DepotController._assign_parking_spot vehicle o w c = (Ok None, w, c)).
Proof.
  intros result. split.
  - intros Hreg. unfold dict_mem in Hreg.
    destruct (sget (Vehicle.vehicle_id vehicle) (VehicleManager.vehicles (snd w)))
      as [v|] eqn:Ev; [|discriminate].
    split; [|split].
    + unfold DepotController._assign_parking_spot, bind, gets.
      now apply assign_parking_spot_from_find with (v := v).
    + intros s Hs. unfold result in Hs.
      pose proof (find_some _ _ Hs) as [Hin Hcl]. apply In_range in Hin.
      split; [exact Hin|]. split; [exact Hcl|].
      split; [exact (find_range_first _ _ _ Hs)|].
      unfold spot_claimable in Hcl. apply andb_prop in Hcl. destruct Hcl as [_ Hfree].
      unfold VehicleManager.assign_spot.
      destruct (VehicleManager.spot_taken s (snd w)); [discriminate|].
      now rewrite Ev.
    + intros Hnone j Hj. unfold result in Hnone.
      apply (find_none _ _ Hnone). apply In_range. exact Hj.
  - intros Hreg. unfold dict_mem in Hreg.
    destruct (sget (Vehicle.vehicle_id vehicle) (VehicleManager.vehicles (snd w)))
      as [v|] eqn:Ev; [discriminate|].
    unfold DepotController._assign_parking_spot, bind, gets.
    generalize (range (DepotController.num_spots (fst w))) Hview.
    intros ids. induction ids as [|s rest IH]; intros Hv; [reflexivity|].
    cbn [DepotController.assign_parking_spot_from].
    unfold bind at 1, DepotController.on_self at 1, zoom at 1.
    unfold bind at 1, get, index.
    destruct (zmem_get s _ (Hv s (or_introl eq_refl))) as [occupied Hocc].
    rewrite Hocc. unfold ret at 1. cbv beta iota.
    assert (Hw : (fst w, snd w) = w) by now destruct w.
    rewrite Hw.
    destruct (truthy occupied); cbn [negb].
    + apply IH. intros j Hj. apply Hv. now right.
    + unfold bind at 1, DepotController.on_manager at 1, zoom at 1, call.
      unfold VehicleManager.assign_spot.
      destruct (VehicleManager.spot_taken s (snd w)); rewrite ?Ev, Hw;
        apply IH; intros j Hj; apply Hv; now right.
Qed.

Lemma assign_parking_spot_is_first_fit_witness :
  let w := (DepotController.init 1 2 1, registry_of [vehicle_in APPROACHING "v1"]) in
  DepotController._assign_parking_spot (vehicle_in APPROACHING "v1") streams_half w
    cursor0
  = (Ok (Some 0), (fst w, snd (VehicleManager.assign_spot "v1" 0 (snd w))), cursor0).
Proof.
  intros w.
  refine (proj1 (proj1 (assign_parking_spot_is_first_fit
                          (vehicle_in APPROACHING "v1") w streams_half cursor0 _)
                   eq_refl)).
  intros s Hs. apply In_range in Hs. simpl. now apply dict_of_range_mem.
Defined.

(* ------------------------------------------------------------------ *)
(** ** The moves of a vehicle in a step of the controller *)

Section VehicleMoves.
Context {F : Type} {CA : ChargeArith F}.
Implicit Types (w : DepotController.W (F := F)) (vm : VehicleManager.t F).

Lemma filed_replace vm k2 id st (ch : F) k (v0 : Vehicle.t F) (spot : option Z)
      positions :
  sget k (VehicleManager.vehicles vm) = Some v0 ->
  filed k2 id st ch vm ->
  filed k2 id st ch
    (VehicleManager.mk
       (sset k (Vehicle.set_assigned_spot spot v0) (VehicleManager.vehicles vm))
       positions).
Proof.
  intros Hk (v & Hv & Hid & Hst & Hch). unfold filed. simpl.
  destruct (String.eqb_spec k2 k) as [->|Hne].
  - rewrite (dict_get_set_same String.eqb Seqb_eq').
    eexists. split; [reflexivity|]. simpl. rewrite Hk in Hv. injection Hv as ->. auto.
  - rewrite (dict_get_set_other String.eqb Seqb_eq' _ _ _ _ Hne). now exists v.
Qed.

Lemma filed_assign vm k2 id st (ch : F) vehicle_id spot_id :
  filed k2 id st ch vm ->
  filed k2 id st ch (snd (VehicleManager.assign_spot vehicle_id spot_id vm)).
Proof.
  intros H. unfold VehicleManager.assign_spot.
  destruct (VehicleManager.spot_taken spot_id vm); [exact H|].
  destruct (sget vehicle_id (VehicleManager.vehicles vm)) as [v0|] eqn:E; [|exact H].
  cbv zeta. simpl. now apply filed_replace.
Qed.

Lemma filed_free vm k2 id st (ch : F) spot_id :
  filed k2 id st ch vm -> filed k2 id st ch (VehicleManager.free_spot spot_id vm).
Proof.
  intros H. unfold VehicleManager.free_spot.
  destruct (zget spot_id (VehicleManager.vehicle_positions vm)) as [[vid|]|];
    try exact H.
  destruct (negb (String.eqb vid "")); [|exact H].
  destruct (sget vid (VehicleManager.vehicles vm)) as [v0|] eqn:E; [|exact H].
  now apply filed_replace.
Qed.

(** An assignment to the vehicle under [k]. *)
Lemma filed_update w o c k (f : Vehicle.t F -> Vehicle.t F) k2 id st (ch : F) :
  filed k2 id st ch (snd w) ->
  exists w',
    DepotController.update_vehicle k f o w c = (Ok tt, w', c)
    /\ fst w' = fst w
    /\ (k2 <> k -> filed k2 id st ch (snd w'))
    /\ (k2 = k ->
        exists v, sget k (VehicleManager.vehicles (snd w)) = Some v
                  /\ sget k (VehicleManager.vehicles (snd w')) = Some (f v)).
Proof.
  intros (v & Hv & Hid & Hst & Hch). rewrite update_vehicle_run.
  eexists. split; [reflexivity|]. split; [reflexivity|]. simpl. split.
  - intros Hne.
    destruct (sget k (VehicleManager.vehicles (snd w))) as [v0|];
      [|now exists v].
    unfold filed. simpl.
    rewrite (dict_get_set_other String.eqb Seqb_eq' _ _ _ _ Hne). now exists v.
  - intros ->. rewrite Hv. exists v. split; [reflexivity|]. simpl.
    apply (dict_get_set_same String.eqb Seqb_eq').
Qed.

Lemma update_filed w o c k (f : Vehicle.t F -> Vehicle.t F) id st (ch : F) st' :
  filed k id st ch (snd w) ->
  (forall v, Vehicle.vehicle_id (f v) = Vehicle.vehicle_id v
             /\ Vehicle.charge_level (f v) = Vehicle.charge_level v) ->
  (forall v, Vehicle.state v = st -> Vehicle.state (f v) = st') ->
  exists w',
    DepotController.update_vehicle k f o w c = (Ok tt, w', c)
    /\ fst w' = fst w
    /\ filed k id st' ch (snd w').
Proof.
  intros Hf Hsame Hstate.
  destruct (filed_update w o c k f k id st ch Hf) as (w' & E & Hfst & _ & Hk).
  destruct (Hk eq_refl) as (v & Hv & Hv').
  exists w'. split; [exact E|]. split; [exact Hfst|].
  destruct Hf as (v0 & Hv0 & Hid & Hst & Hch).
  rewrite Hv in Hv0. injection Hv0 as ->.
  exists (f v0). destruct (Hsame v0) as [H1 H2].
  repeat split; auto; congruence.
Qed.

Lemma filed_assign_parking_spot_from k2 id st (ch : F) spot_ids vehicle_id :
  keeps any_streams (fun w => filed k2 id st ch (snd w))
        (DepotController.assign_parking_spot_from spot_ids vehicle_id).
Proof.
  apply (assign_parking_spot_from_registry any_streams (filed k2 id st ch)).
  intros. now apply filed_assign.
Qed.

Lemma filed_free_vehicle_resources k2 id st (ch : F) (vehicle : Vehicle.t F) :
  keeps any_streams (fun w => filed k2 id st ch (snd w))
        (DepotController._free_vehicle_resources vehicle).
Proof.
  unfold DepotController._free_vehicle_resources.
  keeps_auto; try (apply keeps_zoom_frame; intros t s H; exact H).
  unfold DepotController.on_manager.
  apply keeps_zoom with (J := filed k2 id st ch); auto.
  apply keeps_modify. intros vm. apply filed_free.
Qed.

Lemma create_action_run {S} controller action_type target command current_step
      o (s : S) c :
  exists a c',
    DepotController._create_action controller action_type target command
      current_step o s c = (Ok a, s, c')
    /\ action_summary a = (action_type, target, command).
Proof.
  unfold DepotController._create_action, bind, uuid4, ret.
  eexists _, _. repeat split.
Qed.
End VehicleMoves.

Lemma bind_update_inv {F : Type} {CA : ChargeArith F} {B}
      (w : DepotController.W (F := F)) o c k (f : Vehicle.t F -> Vehicle.t F)
      id st (ch : F) st' (g : unit -> M (DepotController.W (F := F)) B) b w' c' :
  filed k id st ch (snd w) ->
  (forall v, Vehicle.vehicle_id (f v) = Vehicle.vehicle_id v
             /\ Vehicle.charge_level (f v) = Vehicle.charge_level v) ->
  (forall v, Vehicle.state v = st -> Vehicle.state (f v) = st') ->
  bind (DepotController.update_vehicle k f) g o w c = (Ok b, w', c') ->
  exists w1, fst w1 = fst w /\ filed k id st' ch (snd w1)
             /\ g tt o w1 c = (Ok b, w', c').
Proof.
  intros Hf Hsame Hstate H.
  destruct (update_filed w o c k f id st ch st' Hf Hsame Hstate)
    as (w1 & E & Hfst & Hf1).
  unfold bind in H. rewrite E in H. now exists w1.
Qed.

Lemma bind_create_inv {F : Type} {CA : ChargeArith F} {B}
      (w : DepotController.W (F := F)) o c controller action_type target command
      current_step (g : ControlAction -> M (DepotController.W (F := F)) B) b w' c' :
  bind (DepotController._create_action controller action_type target command
          current_step) g o w c = (Ok b, w', c') ->
  exists a c1, g a o w c1 = (Ok b, w', c').
Proof.
  intros H.
  destruct (create_action_run controller action_type target command current_step
              o w c) as (a & c1 & E & _).
  unfold bind in H. rewrite E in H. now exists a, c1.
Qed.

(** An assignment to the vehicle under [k], in a hypothesis [H] that the
    rest of the method returns: [Hf] is what is filed under [k] before,
    [Hf2] what is filed after, in [w2]. *)
Ltac after_update H Hf st' w2 Hf2 :=
  match type of H with
  | bind (DepotController.update_vehicle ?k ?f) ?g ?o ?w ?c = (Ok ?b, ?w', ?c') =>
      let Hn := fresh "H" in
      destruct (fun Hsame Hstate =>
                  bind_update_inv w o c k f _ _ _ st' g b w' c' Hf Hsame Hstate H)
        as (w2 & _ & Hf2 & Hn);
      [ intros ?; split; reflexivity
      | first [ intros ? ?; reflexivity | intros ? Hst; exact Hst ]
      | clear H; rename Hn into H; cbv beta in H ]
  end.

Ltac after_action H :=
  let a := fresh "a" in
  let c := fresh "c" in
  apply bind_create_inv in H; destruct H as (a & c & H); cbv beta in H.

Ltac returned_here H :=
  unfold ret in H; injection H as <- <- <-.

Section OneMove.
Context {F : Type} {CA : ChargeArith F}.
Implicit Types (w : DepotController.W (F := F)) (vm : VehicleManager.t F).

Lemma update_other_keeps k (f : Vehicle.t F -> Vehicle.t F) k2 id st (ch : F) :
  k2 <> k ->
  keeps any_streams (fun w => filed k2 id st ch (snd w))
        (DepotController.update_vehicle k f).
Proof.
  intros Hne o w c _ H.
  destruct (filed_update w o c k f k2 id st ch H) as (w' & E & _ & Hother & _).
  rewrite E. now apply Hother.
Qed.

(** Processing one vehicle leaves the others' ids, states and charge
    levels as they were. *)
Lemma process_vehicle_other k current_step k2 id st (ch : F) :
  k2 <> k ->
  keeps any_streams (fun w => filed k2 id st ch (snd w))
        (DepotController._process_vehicle k current_step).
Proof.
  intros Hne.
  unfold DepotController._process_vehicle, DepotController._assign_parking_spot,
    DepotController._create_action.
  keeps_auto;
    first [ apply keeps_zoom_frame; intros ? ? Hfiled; exact Hfiled
          | apply filed_assign_parking_spot_from
          | apply update_other_keeps; exact Hne
          | apply filed_free_vehicle_resources
          | idtac ].
Qed.

(** The move of the vehicle that is processed. *)
Lemma process_vehicle_own k current_step o w c actions w' c' (v : Vehicle.t F) :
  sget k (VehicleManager.vehicles (snd w)) = Some v ->
  DepotController._process_vehicle k current_step o w c = (Ok actions, w', c') ->
  exists st',
    filed k (Vehicle.vehicle_id v) st' (Vehicle.charge_level v) (snd w')
    /\ fsm_edge (Vehicle.state v) st' = true
    /\ (List.length actions <= 1)%nat
    /\ (st' = Vehicle.state v -> actions = []).
Proof.
  intros Hv H.
  assert (Hf : filed k (Vehicle.vehicle_id v) (Vehicle.state v)
                 (Vehicle.charge_level v) (snd w)) by (exists v; auto).
  unfold DepotController._process_vehicle in H.
  apply bind_inv in H. destruct H as (w0 & s0 & c0 & E0 & H).
  unfold get in E0. injection E0 as <- <- <-. rewrite Hv in H.
  destruct (Vehicle.state v) eqn:Est.
  - (* APPROACHING *)
    destruct (DepotController._can_admit_vehicle (fst w)).
    + apply bind_inv in H. destruct H as (spot & w1 & c1 & E1 & H).
      assert (Hf1 : filed k (Vehicle.vehicle_id v) APPROACHING
                      (Vehicle.charge_level v) (snd w1)).
      { unfold DepotController._assign_parking_spot in E1.
        apply bind_inv in E1. destruct E1 as (self & s1 & c2 & Eg & E1).
        unfold gets in Eg. injection Eg as <- <- <-.
        exact (keeps_run any_streams _ _ _ _ _ _ _ _
                 (filed_assign_parking_spot_from k _ _ _ _ _) Logic.I Hf E1). }
      destruct spot as [s|].
      * after_update H Hf1 ENTERING w2 Hf2. after_action H. returned_here H.
        exists ENTERING. repeat split; auto; try discriminate.
      * after_update H Hf1 WAITING w2 Hf2. returned_here H.
        exists WAITING. repeat split; auto; try discriminate.
    + returned_here H. exists APPROACHING. repeat split; auto.
  - (* WAITING *)
    returned_here H. exists WAITING. repeat split; auto.
  - (* ENTERING *)
    after_update H Hf PARKING w2 Hf2. returned_here H.
    exists PARKING. repeat split; auto; try discriminate.
  - (* PARKING *)
    apply bind_inv in H. destruct H as (charger & w1 & c1 & E1 & H).
    assert (Hf1 : filed k (Vehicle.vehicle_id v) PARKING
                    (Vehicle.charge_level v) (snd w1)).
    { refine (keeps_run any_streams
                (fun w0 : DepotController.W (F := F) =>
                   filed k (Vehicle.vehicle_id v) PARKING (Vehicle.charge_level v)
                         (snd w0))
                _ _ _ _ _ _ _ _ Logic.I Hf E1).
      apply keeps_zoom_frame. intros t s Hs. exact Hs. }
    destruct charger as [ch|].
    + after_update H Hf1 PARKING w2 Hf2. after_update H Hf2 CHARGING w3 Hf3.
      after_action H. returned_here H.
      exists CHARGING. repeat split; auto; try discriminate.
    + returned_here H. exists PARKING. repeat split; auto.
  - (* CHARGING *)
    destruct (Vehicle.can_depart v).
    + after_update H Hf EXITING w2 Hf2.
      destruct (Vehicle.assigned_charger v).
      * after_action H. returned_here H.
        exists EXITING. repeat split; auto; try discriminate.
      * returned_here H. exists EXITING. repeat split; auto; try discriminate.
    + destruct (DepotController._is_charger_failed _ _).
      * after_update H Hf WAITING w2 Hf2. after_action H. returned_here H.
        exists WAITING. repeat split; auto; try discriminate.
      * returned_here H. exists CHARGING. repeat split; auto.
  - (* EXITING *)
    apply bind_inv in H. destruct H as ([] & w1 & c1 & E1 & H).
    pose proof (keeps_run any_streams _ _ _ _ _ _ _ _
                  (filed_free_vehicle_resources k _ _ _ v) Logic.I Hf E1) as Hf1.
    after_update H Hf1 DEPARTED w2 Hf2. after_update H Hf2 DEPARTED w3 Hf3.
    returned_here H. exists DEPARTED. repeat split; auto; try discriminate.
  - (* DEPARTED *)
    returned_here H. exists DEPARTED. repeat split; auto.
Qed.
End OneMove.

(* ------------------------------------------------------------------ *)
(** ** An APPROACHING vehicle at the gate *)

(** C3, as amended.  An APPROACHING vehicle processed while admission is
    not possible is left as it is: its state is still APPROACHING, the
    controller and the registry are unchanged and no action is produced.
    When admission is possible the scan for a spot decides: if it finds
    none, the vehicle becomes WAITING and nothing else changes; if it
    claims a spot, the vehicle becomes ENTERING and one
    vehicle_assignment action is produced; if it raises, so does the
    call, and nothing has changed.  So the vehicle is WAITING after the
    call exactly when admission was possible and the scan found no
    spot. *)
Theorem approaching_without_capacity_is_unchanged {F : Type} {CA : ChargeArith F}
    (o : Streams) (w : DepotController.W (F := F)) (c : Cursor) (k : string)
    (vehicle : Vehicle.t F) (current_step : Z)
    (Hk : sget k (VehicleManager.vehicles (snd w)) = Some vehicle)
    (Hstate : Vehicle.state vehicle = APPROACHING) :
  (DepotController._can_admit_vehicle (fst w) = false ->
     DepotController._process_vehicle k current_step o w c = (Ok [], w, c))
  /\ (DepotController._can_admit_vehicle (fst w) = true ->
      forall w' c',
        DepotController._assign_parking_spot vehicle o w c = (Ok None, w', c') ->
        DepotController._process_vehicle k current_step o w c
        = (Ok [],
           (fst w, VehicleManager.set_vehicles
                     (sset k (Vehicle.set_state WAITING vehicle)
                           (VehicleManager.vehicles (snd w))) (snd w)),
           c))
  /\ (DepotController._can_admit_vehicle (fst w) = true ->
      forall spot w' c',
        DepotController._assign_parking_spot vehicle o w c = (Ok (Some spot), w', c') ->
        exists actions w'' c'',
          DepotController._process_vehicle k current_step o w c = (Ok actions, w'', c'')
          /\ filed k (Vehicle.vehicle_id vehicle) ENTERING
                   (Vehicle.charge_level vehicle) (snd w'')
          /\ map action_summary actions
             = [("vehicle_assignment",
                 ("vehicle_" ++ Vehicle.vehicle_id vehicle)%string,
                 ("assign_spot_" ++ str_of_int spot)%string)])
  /\ (DepotController._can_admit_vehicle (fst w) = true ->
      forall ex w' c',
        DepotController._assign_parking_spot vehicle o w c = (Raise ex, w', c') ->
        DepotController._process_vehicle k current_step o w c = (Raise ex, w, c))
  /\ ((exists vehicle',
         sget k (VehicleManager.vehicles
                   (snd (final_state
                           (DepotController._process_vehicle k current_step o w c))))
         = Some vehicle'
         /\ Vehicle.state vehicle' = WAITING)
      <-> DepotController._can_admit_vehicle (fst w) = true
          /\ exists w' c',
               DepotController._assign_parking_spot vehicle o w c = (Ok None, w', c')).
Proof.
  assert (Hrun : DepotController._process_vehicle k current_step o w c
                 = if DepotController._can_admit_vehicle (fst w)
                   then (spot <- DepotController._assign_parking_spot vehicle ;;
                         match spot with
                         | Some s =>
                             DepotController.update_vehicle k
                               (Vehicle.set_state ENTERING) ;;
                             a <- DepotController._create_action "depot_controller"
                                    "vehicle_assignment"
                                    ("vehicle_" ++ Vehicle.vehicle_id vehicle)
                                    ("assign_spot_" ++ str_of_int s) current_step ;;
                             ret [a]
                         | None =>
                             DepotController.update_vehicle k
                               (Vehicle.set_state WAITING) ;;
                             ret []
                         end) o w c
                   else (Ok [], w, c)).
  { unfold DepotController._process_vehicle. unfold bind at 1. unfold get at 1.
    rewrite Hk, Hstate. now destruct (DepotController._can_admit_vehicle (fst w)). }
  assert (H1 : DepotController._can_admit_vehicle (fst w) = false ->
               DepotController._process_vehicle k current_step o w c = (Ok [], w, c)).
  { intros Hno. now rewrite Hrun, Hno. }
  assert (H2 : DepotController._can_admit_vehicle (fst w) = true ->
               forall w' c',
                 DepotController._assign_parking_spot vehicle o w c = (Ok None, w', c') ->
                 DepotController._process_vehicle k current_step o w c
                 = (Ok [],
                    (fst w, VehicleManager.set_vehicles
                              (sset k (Vehicle.set_state WAITING vehicle)
                                    (VehicleManager.vehicles (snd w))) (snd w)),
                    c)).
  { intros Hyes w' c' Hscan.
    assert (w' = w /\ c' = c) as [-> ->].
    { unfold DepotController._assign_parking_spot, bind, gets in Hscan.
      now apply assign_parking_spot_none in Hscan. }
    rewrite Hrun, Hyes. unfold bind at 1. rewrite Hscan.
    unfold DepotController.update_vehicle, DepotController.on_manager, zoom,
      modify, bind, ret. simpl. now rewrite Hk. }
  assert (H3 : DepotController._can_admit_vehicle (fst w) = true ->
               forall spot w' c',
                 DepotController._assign_parking_spot vehicle o w c
                 = (Ok (Some spot), w', c') ->
                 exists actions w'' c'',
                   DepotController._process_vehicle k current_step o w c
                   = (Ok actions, w'', c'')
                   /\ filed k (Vehicle.vehicle_id vehicle) ENTERING
                            (Vehicle.charge_level vehicle) (snd w'')
                   /\ map action_summary actions
                      = [("vehicle_assignment",
                          ("vehicle_" ++ Vehicle.vehicle_id vehicle)%string,
                          ("assign_spot_" ++ str_of_int spot)%string)]).
  { intros Hyes spot w' c' Hscan.
    assert (Hf : filed k (Vehicle.vehicle_id vehicle) APPROACHING
                   (Vehicle.charge_level vehicle) (snd w)) by (exists vehicle; auto).
    assert (Hf1 : filed k (Vehicle.vehicle_id vehicle) APPROACHING
                    (Vehicle.charge_level vehicle) (snd w')).
    { pose proof Hscan as E1.
      unfold DepotController._assign_parking_spot in E1.
      apply bind_inv in E1. destruct E1 as (self & s1 & c2 & Eg & E1).
      unfold gets in Eg. injection Eg as <- <- <-.
      exact (keeps_run any_streams _ _ _ _ _ _ _ _
               (filed_assign_parking_spot_from k _ _ _ _ _) Logic.I Hf E1). }
    destruct (update_filed w' o c' k (Vehicle.set_state ENTERING) _ _ _ ENTERING Hf1)
      as (w2 & E2 & _ & Hf2).
    { intros v. split; reflexivity. }
    { intros v _. reflexivity. }
    destruct (create_action_run "depot_controller" "vehicle_assignment"
                ("vehicle_" ++ Vehicle.vehicle_id vehicle)
                ("assign_spot_" ++ str_of_int spot) current_step o w2 c')
      as (a & c3 & Ea & Hsum).
    exists [a], w2, c3. split; [|split; [exact Hf2|simpl; now rewrite Hsum]].
    rewrite Hrun, Hyes. unfold bind at 1. rewrite Hscan.
    unfold bind at 1. rewrite E2. unfold bind at 1. now rewrite Ea. }
  assert (H4 : DepotController._can_admit_vehicle (fst w) = true ->
               forall ex w' c',
                 DepotController._assign_parking_spot vehicle o w c
                 = (Raise ex, w', c') ->
                 DepotController._process_vehicle k current_step o w c
                 = (Raise ex, w, c)).
  { intros Hyes ex w' c' Hscan.
    assert (w' = w /\ c' = c) as [-> ->].
    { unfold DepotController._assign_parking_spot, bind, gets in Hscan.
      now apply assign_parking_spot_raise in Hscan. }
    rewrite Hrun, Hyes. unfold bind at 1. now rewrite Hscan. }
  split; [exact H1|]. split; [exact H2|]. split; [exact H3|]. split; [exact H4|].
  destruct (DepotController._can_admit_vehicle (fst w)) eqn:Hadmit.
  - destruct (DepotController._assign_parking_spot vehicle o w c)
      as [[[[spot|]|ex] w'] c'] eqn:Hscan.
    + destruct (H3 eq_refl spot w' c' eq_refl)
        as (actions & w'' & c'' & E & (v1 & Hv1 & _ & Hst1 & _) & _).
      rewrite E. unfold final_state. cbn [fst snd]. split.
      * intros (v2 & Hv2 & Hst2). congruence.
      * intros (_ & w0 & c0 & H). discriminate H.
    + rewrite (H2 eq_refl w' c' eq_refl). unfold final_state. cbn [fst snd].
      split.
      * intros _. split; [reflexivity|]. now exists w', c'.
      * intros _. exists (Vehicle.set_state WAITING vehicle).
        split; [|reflexivity].
        apply (dict_get_set_same String.eqb Seqb_eq').
    + rewrite (H4 eq_refl ex w' c' eq_refl). unfold final_state. cbn [fst snd].
      split.
      * intros (v2 & Hv2 & Hst2). congruence.
      * intros (_ & w0 & c0 & H). discriminate H.
  - rewrite (H1 eq_refl). unfold final_state. cbn [fst snd]. split.
    + intros (v2 & Hv2 & Hst2). congruence.
    + intros (H & _). discriminate H.
Qed.

(** The amended statement at a depot whose only spot reads occupied. *)
Lemma approaching_without_capacity_witness :
  let w := (DepotController.mk 1 1 1
              (DepotState.mk [0] [0] [(0, VBool false)] [(0, VBool true)]
                 [(0, Status.mk (Some false) (Some false) None None)]),
            registry_of [vehicle_in APPROACHING "v1"]) in
  DepotController._process_vehicle "v1" 1 streams_half w cursor0 = (Ok [], w, cursor0).
Proof.
  intros w.
  exact (proj1 (approaching_without_capacity_is_unchanged streams_half w cursor0 "v1"
                  (vehicle_in APPROACHING "v1") 1 eq_refl eq_refl) eq_refl).
Defined.

Section StepMoves.
Context {F : Type} {CA : ChargeArith F}.
Implicit Types (w : DepotController.W (F := F)) (vm : VehicleManager.t F).

(** The loop over the vehicles: a move for each vehicle listed, the
    others left where they were. *)
Lemma process_all_moves current_step (l : list string) :
  NoDup l ->
  forall o w c actions w' c',
    for_extend l (fun k => DepotController._process_vehicle k current_step) o w c
    = (Ok actions, w', c') ->
    forall k (v : Vehicle.t F),
      sget k (VehicleManager.vehicles (snd w)) = Some v ->
      exists st',
        filed k (Vehicle.vehicle_id v) st' (Vehicle.charge_level v) (snd w')
        /\ (In k l -> fsm_edge (Vehicle.state v) st' = true)
        /\ (~ In k l -> st' = Vehicle.state v).
Proof.
  induction l as [|k0 rest IH]; intros Hnd o w c actions w' c' H k v Hv.
  - simpl in H. unfold ret in H. injection H as <- <- <-.
    exists (Vehicle.state v). split; [now exists v|]. split; [intros []|auto].
  - inversion Hnd as [|? ? Hk0 Hrest]; subst.
    cbn [for_extend] in H.
    apply bind_inv in H. destruct H as (a0 & w1 & c1 & E1 & H).
    apply bind_inv in H. destruct H as (ar & w2 & c2 & E2 & H).
    unfold ret in H. injection H as <- <- <-.
    destruct (String.eqb_spec k k0) as [->|Hne].
    + destruct (process_vehicle_own k0 current_step o w c a0 w1 c1 v Hv E1)
        as (st1 & (v1 & Hv1 & Hid1 & Hst1 & Hch1) & Hedge & _).
      destruct (IH Hrest o w1 c1 ar w2 c2 E2 k0 v1 Hv1)
        as (st' & Hfiled & _ & Hsame).
      exists st'. rewrite Hid1, Hch1 in Hfiled. split; [exact Hfiled|].
      rewrite (Hsame Hk0), Hst1. split; [intros _; exact Hedge|].
      intros Hnot. exfalso. apply Hnot. now left.
    + assert (Hf : filed k (Vehicle.vehicle_id v) (Vehicle.state v)
                     (Vehicle.charge_level v) (snd w)) by (exists v; auto).
      pose proof (keeps_run any_streams _ _ _ _ _ _ _ _
                    (process_vehicle_other k0 current_step k _ _ _ Hne)
                    Logic.I Hf E1) as (v1 & Hv1 & Hid1 & Hst1 & Hch1).
      destruct (IH Hrest o w1 c1 ar w2 c2 E2 k v1 Hv1)
        as (st' & Hfiled & Hin & Hsame).
      exists st'. rewrite Hid1, Hch1 in Hfiled. split; [exact Hfiled|].
      rewrite Hst1 in Hin, Hsame. split.
      * intros [Heq|Hr]; [congruence|now apply Hin].
      * intros Hnot. apply Hsame. intros Hr. apply Hnot. now right.
Qed.

Lemma control_gates_frame current_step o w c :
  snd (fst (DepotController._control_gates current_step o w c)) = w.
Proof.
  assert (Hk : keeps any_streams (fun s : DepotController.W (F := F) => s = w)
                 (DepotController._control_gates current_step)).
  { unfold DepotController._control_gates, DepotController.control_gate,
      DepotController._create_action. keeps_auto. }
  pose proof (Hk o w c Logic.I eq_refl) as H.
  now destruct (DepotController._control_gates current_step o w c) as [[x s] c'].
Qed.

Lemma assign_spot_keys vm vehicle_id spot_id :
  dict_keys (VehicleManager.vehicles
               (snd (VehicleManager.assign_spot vehicle_id spot_id vm)))
  = dict_keys (VehicleManager.vehicles vm).
Proof.
  unfold VehicleManager.assign_spot.
  destruct (VehicleManager.spot_taken spot_id vm); [reflexivity|].
  destruct (sget vehicle_id (VehicleManager.vehicles vm)) as [v|] eqn:E;
    [|reflexivity].
  cbv zeta. simpl. rewrite (dict_set_keys String.eqb). unfold dict_mem.
  now rewrite E.
Qed.

Lemma free_spot_keys vm spot_id :
  dict_keys (VehicleManager.vehicles (VehicleManager.free_spot spot_id vm))
  = dict_keys (VehicleManager.vehicles vm).
Proof.
  unfold VehicleManager.free_spot.
  destruct (zget spot_id (VehicleManager.vehicle_positions vm)) as [[vid|]|];
    try reflexivity.
  simpl. destruct (negb (String.eqb vid "")); [|reflexivity].
  destruct (sget vid (VehicleManager.vehicles vm)) as [v|] eqn:E; [|reflexivity].
  rewrite (dict_set_keys String.eqb). unfold dict_mem. now rewrite E.
Qed.

(** A step of the controller neither adds nor removes a vehicle. *)
Lemma process_step_keys (keys : list string) readings current_step :
  keeps any_streams
        (fun w => dict_keys (VehicleManager.vehicles (snd w)) = keys)
        (DepotController.process_step readings current_step).
Proof.
  apply (process_step_registry any_streams
           (fun vm => dict_keys (VehicleManager.vehicles vm) = keys)).
  - intros vid s vm H. now rewrite assign_spot_keys.
  - intros s vm H. now rewrite free_spot_keys.
  - intros k f vm v _ Hk H. simpl.
    rewrite (dict_set_keys String.eqb). unfold dict_mem. now rewrite Hk.
Qed.
End StepMoves.

(** X10.  In a step of the controller that returns, every registered
    vehicle makes exactly one move of the state machine that
    [_process_vehicle] implements: APPROACHING stays, or becomes ENTERING
    or WAITING; ENTERING becomes PARKING; PARKING stays or becomes
    CHARGING; CHARGING stays, or becomes EXITING or WAITING; EXITING
    becomes DEPARTED; WAITING and DEPARTED stay.  The vehicle keeps its
    id and its charge level, and no vehicle is added or removed. *)
Theorem every_vehicle_moves_once {F : Type} {CA : ChargeArith F}
    (readings : dict string SensorReading.t) (current_step : Z)
    (o : Streams) (w : DepotController.W (F := F)) (c : Cursor)
    (actions : list ControlAction) (w' : DepotController.W (F := F)) (c' : Cursor)
    (Hkeys : NoDup (dict_keys (VehicleManager.vehicles (snd w))))
    (Hrun : DepotController.process_step readings current_step o w c
            = (Ok actions, w', c')) :
  dict_keys (VehicleManager.vehicles (snd w'))
  = dict_keys (VehicleManager.vehicles (snd w))
  /\ forall k v,
       sget k (VehicleManager.vehicles (snd w)) = Some v ->
       exists v',
         sget k (VehicleManager.vehicles (snd w')) = Some v'
         /\ Vehicle.vehicle_id v' = Vehicle.vehicle_id v
         /\ Vehicle.charge_level v' = Vehicle.charge_level v
         /\ fsm_edge (Vehicle.state v) (Vehicle.state v') = true.
Proof.
  split.
  - exact (keeps_run any_streams _ _ _ _ _ _ _ _
             (process_step_keys _ readings current_step) Logic.I eq_refl Hrun).
  - intros k v Hv.
    unfold DepotController.process_step in Hrun.
    apply bind_inv in Hrun. destruct Hrun as ([] & w1 & c1 & E1 & H).
    assert (Hw1 : snd w1 = snd w).
    { unfold DepotController.on_self, zoom in E1.
      destruct (DepotController._update_depot_state readings o (fst w) c)
        as [[x s] c0]. now injection E1 as _ <- _. }
    apply bind_inv in H. destruct H as (keys & w2 & c2 & E2 & H).
    unfold gets in E2. injection E2 as <- <- <-.
    apply bind_inv in H. destruct H as (acts & w3 & c3 & E3 & H).
    apply bind_inv in H. destruct H as (gate_actions & w4 & c4 & E4 & H).
    unfold ret in H. injection H as <- <- <-.
    pose proof (control_gates_frame current_step o w3 c3) as Hframe.
    rewrite E4 in Hframe. simpl in Hframe. subst w4.
    rewrite Hw1 in E3.
    destruct (process_all_moves current_step _ Hkeys o w1 c1 acts w3 c3 E3 k v)
      as (st' & (v' & Hv' & Hid & Hst & Hch) & Hin & _).
    { now rewrite Hw1. }
    exists v'. repeat split; auto. rewrite Hst. apply Hin.
    apply (dict_get_In String.eqb Seqb_eq') in Hv.
    change k with (fst (k, v)). now apply in_map.
Qed.

Lemma every_vehicle_moves_once_witness :
  let w := (DepotController.init 1 1 1, registry_of [vehicle_in ENTERING "v1"]) in
  let w' := final_state (DepotController.process_step [] 1 streams_half w cursor0) in
  exists v', sget "v1" (VehicleManager.vehicles (snd w')) = Some v'
             /\ fsm_edge ENTERING (Vehicle.state v') = true.
Proof.
  intros w w'.
  assert (Hrun : DepotController.process_step [] 1 streams_half w cursor0
                 = (Ok [], w', cursor0)) by reflexivity.
  destruct (every_vehicle_moves_once [] 1 streams_half w cursor0 [] w' cursor0
              ltac:(repeat constructor; simpl; tauto) Hrun)
    as [_ H].
  destruct (H "v1" (vehicle_in ENTERING "v1") eq_refl) as (v' & Hv' & _ & _ & Hedge).
  exists v'. split; [exact Hv'|exact Hedge].
Defined.

(* ------------------------------------------------------------------ *)
(** ** A spot given and given back *)

Section SpotRoundTrip.
Context {F : Type} {CA : ChargeArith F}.
Implicit Types (vm : VehicleManager.t F).

Lemma occupancy_status_get vm (spot_id : Z) :
  zget spot_id (VehicleManager.get_occupancy_status vm)
  = option_map (fun holder : option string =>
                  match holder with Some _ => true | None => false end)
               (zget spot_id (VehicleManager.vehicle_positions vm)).
Proof.
  unfold VehicleManager.get_occupancy_status.
  induction (VehicleManager.vehicle_positions vm) as [|[k' h] t IH]; simpl;
    [reflexivity|].
  destruct (Z.eqb spot_id k'); auto.
Qed.

Lemma nonempty_id (vehicle_id : string) :
  vehicle_id <> "" -> negb (String.eqb vehicle_id "") = true.
Proof.
  intros H. destruct (String.eqb_spec vehicle_id ""); [contradiction|reflexivity].
Qed.

Lemma sset_twice_keys (k : string) (v v' v0 : Vehicle.t F)
      (d : dict string (Vehicle.t F)) :
  sget k d = Some v0 ->
  dict_keys (sset k v' (sset k v d)) = dict_keys d.
Proof.
  intros H. rewrite !(dict_set_keys String.eqb). unfold dict_mem.
  rewrite (dict_get_set_same String.eqb Seqb_eq'). now rewrite H.
Qed.
End SpotRoundTrip.

(** X11.  A spot given and given back.  When a registered vehicle whose
    id is not the empty string is given a free spot, [assign_spot]
    succeeds, [get_vehicle_at_spot] returns that vehicle with the spot
    recorded and [get_occupancy_status] shows the spot occupied; after
    [free_spot] the spot is shown free and held by nobody, the vehicle
    records no spot, no vehicle has been added or removed, and the spot
    can be assigned again. *)
Theorem spot_given_and_given_back {F : Type} {CA : ChargeArith F}
    (vm : VehicleManager.t F) (vehicle_id : string) (spot_id : Z)
    (vehicle : Vehicle.t F)
    (Hid : vehicle_id <> "")
    (Hreg : sget vehicle_id (VehicleManager.vehicles vm) = Some vehicle)
    (Hfree : VehicleManager.spot_taken spot_id vm = false) :
  let given := snd (VehicleManager.assign_spot vehicle_id spot_id vm) in
  let back := VehicleManager.free_spot spot_id given in
  fst (VehicleManager.assign_spot vehicle_id spot_id vm) = true
  /\ VehicleManager.get_vehicle_at_spot spot_id given
     = Some (Vehicle.set_assigned_spot (Some spot_id) vehicle)
  /\ zget spot_id (VehicleManager.get_occupancy_status given) = Some true
  /\ VehicleManager.get_vehicle_at_spot spot_id back = None
  /\ zget spot_id (VehicleManager.get_occupancy_status back) = Some false
  /\ sget vehicle_id (VehicleManager.vehicles back)
     = Some (Vehicle.set_assigned_spot None vehicle)
  /\ dict_keys (VehicleManager.vehicles back)
     = dict_keys (VehicleManager.vehicles vm)
  /\ fst (VehicleManager.assign_spot vehicle_id spot_id back) = true.
Proof.
  cbv zeta.
  set (positions := match Vehicle.assigned_spot vehicle with
                    | Some previous =>
                        zset previous None (VehicleManager.vehicle_positions vm)
                    | None => VehicleManager.vehicle_positions vm
                    end).
  set (given := VehicleManager.mk
                  (sset vehicle_id (Vehicle.set_assigned_spot (Some spot_id) vehicle)
                        (VehicleManager.vehicles vm))
                  (zset spot_id (Some vehicle_id) positions)).
  assert (Egiven : VehicleManager.assign_spot vehicle_id spot_id vm = (true, given)).
  { unfold VehicleManager.assign_spot. now rewrite Hfree, Hreg. }
  rewrite Egiven. cbn [fst snd].
  assert (Hpos : zget spot_id (VehicleManager.vehicle_positions given)
                 = Some (Some vehicle_id))
    by apply (dict_get_set_same Z.eqb Zeqb_eq').
  assert (Hveh : sget vehicle_id (VehicleManager.vehicles given)
                 = Some (Vehicle.set_assigned_spot (Some spot_id) vehicle))
    by apply (dict_get_set_same String.eqb Seqb_eq').
  assert (Hback : VehicleManager.free_spot spot_id given
                  = VehicleManager.mk
                      (sset vehicle_id (Vehicle.set_assigned_spot None vehicle)
                            (VehicleManager.vehicles given))
                      (zset spot_id None (VehicleManager.vehicle_positions given))).
  { unfold VehicleManager.free_spot. rewrite Hpos, (nonempty_id _ Hid), Hveh.
    reflexivity. }
  rewrite Hback.
  split; [reflexivity|]. split.
  { unfold VehicleManager.get_vehicle_at_spot.
    now rewrite Hpos, (nonempty_id _ Hid), Hveh. }
  split; [now rewrite occupancy_status_get, Hpos|].
  split.
  { unfold VehicleManager.get_vehicle_at_spot.
    cbn [VehicleManager.vehicle_positions].
    now rewrite (dict_get_set_same Z.eqb Zeqb_eq'). }
  split.
  { rewrite occupancy_status_get. cbn [VehicleManager.vehicle_positions].
    now rewrite (dict_get_set_same Z.eqb Zeqb_eq'). }
  split; [apply (dict_get_set_same String.eqb Seqb_eq')|].
  split.
  { cbn [VehicleManager.vehicles]. unfold given. cbn [VehicleManager.vehicles].
    now apply sset_twice_keys with (v0 := vehicle). }
  unfold VehicleManager.assign_spot, VehicleManager.spot_taken.
  cbn [VehicleManager.vehicle_positions VehicleManager.vehicles].
  rewrite (dict_get_set_same Z.eqb Zeqb_eq').
  now rewrite (dict_get_set_same String.eqb Seqb_eq').
Qed.

Lemma spot_given_and_given_back_witness :
  let vm := registry_of [vehicle_in APPROACHING "v1"] in
  let back := VehicleManager.free_spot 0
                (snd (VehicleManager.assign_spot "v1" 0 vm)) in
  VehicleManager.get_vehicle_at_spot 0 back = None
  /\ sget "v1" (VehicleManager.vehicles back)
     = Some (Vehicle.set_assigned_spot None (vehicle_in APPROACHING "v1")).
Proof.
  intros vm back.
  destruct (spot_given_and_given_back vm "v1" 0 (vehicle_in APPROACHING "v1")
              ltac:(discriminate) eq_refl eq_refl)
    as (_ & _ & _ & H1 & _ & H2 & _).
  split; [exact H1|exact H2].
Defined.

(* ------------------------------------------------------------------ *)
(** ** The registry through its methods *)

Section DictDel.
Context {K V : Type}.
Variable eqb : K -> K -> bool.
Hypothesis eqb_eq : forall x y, eqb x y = true <-> x = y.

Lemma dict_del_In (k : K) (d : dict K V) (kv : K * V) :
  In kv (dict_del eqb k d) -> In kv d.
Proof.
  induction d as [|[k' v'] t IH]; simpl; [tauto|].
  destruct (eqb k k'); [now right|].
  intros [<-|H]; [now left|right; auto].
Qed.

Lemma dict_del_NoDup (k : K) (d : dict K V) :
  NoDup (dict_keys d) -> NoDup (dict_keys (dict_del eqb k d)).
Proof.
  induction d as [|[k' v'] t IH]; simpl; [auto|].
  intros Hnd. inversion Hnd as [|? ? Hk Ht]; subst.
  destruct (eqb k k'); [exact Ht|]. simpl. constructor; [|auto].
  intros Hin. apply Hk. unfold dict_keys in *.
  apply in_map_iff in Hin. destruct Hin as (kv & <- & Hin).
  apply in_map. now apply dict_del_In in Hin.
Qed.

Lemma dict_del_gone (k : K) (d : dict K V) (kv : K * V) :
  NoDup (dict_keys d) -> In kv (dict_del eqb k d) -> fst kv <> k.
Proof.
  induction d as [|[k' v'] t IH]; simpl; [tauto|].
  intros Hnd. inversion Hnd as [|? ? Hk Ht]; subst.
  destruct (eqb k k') eqn:E.
  - apply eqb_eq in E. subst k'. intros Hin Heq. apply Hk. rewrite <- Heq.
    now apply (in_map fst).
  - intros [<-|Hin]; [|auto]. simpl. intros ->.
    assert (H : eqb k k = true) by now apply eqb_eq.
    congruence.
Qed.
End DictDel.

Section RegistryMethods.
Context {F : Type} {CA : ChargeArith F}.
Implicit Types (vm : VehicleManager.t F).

Lemma registry_ok_remove vm vehicle_id :
  registry_ok vm -> registry_ok (VehicleManager.remove_vehicle vehicle_id vm).
Proof.
  intros Hok. unfold VehicleManager.remove_vehicle.
  destruct (sget vehicle_id (VehicleManager.vehicles vm)) as [v|] eqn:Ev;
    [|exact Hok].
  destruct Hok as [Hnd Hall]. rewrite Forall_forall in Hall.
  split; simpl; [now apply dict_del_NoDup|].
  rewrite Forall_forall. intros kv Hin.
  pose proof (dict_del_gone String.eqb Seqb_eq' _ _ _ Hnd Hin) as Hne.
  apply dict_del_In in Hin.
  destruct (Hall _ Hin) as (Hid & Hnonempty & Hspot).
  split; [exact Hid|]. split; [exact Hnonempty|].
  intros s Hs. specialize (Hspot s Hs).
  destruct (Vehicle.assigned_spot v) as [spot|] eqn:Espot; [|exact Hspot].
  assert (Hdiff : s <> spot).
  { intros ->.
    destruct (Hall _ (dict_get_In String.eqb Seqb_eq' _ _ _ Ev)) as (_ & _ & Hv).
    simpl in Hv. rewrite (Hv _ Espot) in Hspot. congruence. }
  now rewrite (dict_get_set_other Z.eqb Zeqb_eq' _ _ _ _ Hdiff).
Qed.

Lemma manager_apply_ok vm (op : manager_op F) :
  adds_new op -> registry_ok vm -> registry_ok (manager_apply vm op).
Proof.
  destruct op as [vehicle|vehicle_id|vehicle_id spot_id|spot_id|]; simpl;
    intros Hop Hok.
  - destruct Hop. now apply registry_ok_add.
  - now apply registry_ok_remove.
  - now apply registry_ok_assign.
  - now apply registry_ok_free.
  - now apply registry_ok_update_all.
Qed.

Lemma manager_ops_ok (ops : list (manager_op F)) : forall vm,
  Forall adds_new ops -> registry_ok vm ->
  registry_ok (fold_left manager_apply ops vm).
Proof.
  induction ops as [|op rest IH]; intros vm Hops Hok; simpl; [exact Hok|].
  inversion Hops; subst. apply IH; [assumption|]. now apply manager_apply_ok.
Qed.

Lemma registry_ok_holder vm (k : string) (v : Vehicle.t F) (spot_id : Z) :
  registry_ok vm ->
  sget k (VehicleManager.vehicles vm) = Some v ->
  Vehicle.assigned_spot v = Some spot_id ->
  VehicleManager.get_vehicle_at_spot spot_id vm = Some v.
Proof.
  intros [_ Hall] Hv Hs. rewrite Forall_forall in Hall.
  destruct (Hall _ (dict_get_In String.eqb Seqb_eq' _ _ _ Hv)) as (_ & Hne & Hspot).
  simpl in Hne, Hspot.
  unfold VehicleManager.get_vehicle_at_spot.
  now rewrite (Hspot _ Hs), (nonempty_id _ Hne), Hv.
Qed.
End RegistryMethods.

(** X12.  The methods of [VehicleManager] cannot produce an occupancy
    conflict: after any sequence of calls of [add_vehicle],
    [remove_vehicle], [assign_spot], [free_spot] and
    [update_all_vehicles] on a new registry, in which every vehicle is
    added with an id that is not the empty string and no spot (as
    [Vehicle.create_new] builds it), [detect_occupancy_conflicts]
    reports nothing, and a vehicle that records a spot is the one
    [get_vehicle_at_spot] returns for it. *)
Theorem registry_methods_never_conflict {F : Type} {CA : ChargeArith F}
    (ops : list (manager_op F))
    (Hops : Forall adds_new ops) :
  let vm := fold_left manager_apply ops VehicleManager.init in
  VehicleManager.detect_occupancy_conflicts vm = []
  /\ forall k v spot_id,
       sget k (VehicleManager.vehicles vm) = Some v ->
       Vehicle.assigned_spot v = Some spot_id ->
       VehicleManager.get_vehicle_at_spot spot_id vm = Some v.
Proof.
  intros vm.
  assert (Hok : registry_ok vm)
    by (apply manager_ops_ok; [exact Hops|apply registry_ok_init]).
  split; [now apply registry_ok_no_conflict|].
  intros k v spot_id. now apply registry_ok_holder.
Qed.

Lemma registry_methods_never_conflict_witness :
  VehicleManager.detect_occupancy_conflicts
    (fold_left manager_apply
       [AddVehicle (vehicle_in APPROACHING "v1");
        AddVehicle (vehicle_in APPROACHING "v2");
        AssignSpot "v1" 0; AssignSpot "v2" 0; FreeSpot 0; AssignSpot "v2" 0;
        RemoveVehicle "v1"; UpdateAllVehicles]
       VehicleManager.init)
  = [].
Proof.
  refine (proj1 (registry_methods_never_conflict _ _)).
  repeat constructor; simpl; discriminate.
Defined.

(* ------------------------------------------------------------------ *)
(** ** The vehicles of a run *)

Section Fleet.
Context {F : Type} {CA : ChargeArith F}.
Implicit Types (e : SimulationEngine.t F) (vm : VehicleManager.t F).

Local Abbreviation ids_of e :=
  (dict_keys (VehicleManager.vehicles (SimulationEngine.vehicle_manager e))).

Lemma update_all_keys vm :
  dict_keys (VehicleManager.vehicles (VehicleManager.update_all_vehicles vm))
  = dict_keys (VehicleManager.vehicles vm).
Proof.
  unfold VehicleManager.update_all_vehicles, dict_keys. simpl.
  rewrite map_map. reflexivity.
Qed.

(** What holds of the ids registered holds after a step of the
    controller. *)
Lemma process_step_ids (P : list string -> Prop) readings current_step :
  keeps any_streams
        (fun w : DepotController.W (F := F) =>
           P (dict_keys (VehicleManager.vehicles (snd w))))
        (DepotController.process_step readings current_step).
Proof.
  apply (process_step_registry any_streams
           (fun vm => P (dict_keys (VehicleManager.vehicles vm)))).
  - intros vid s vm H. now rewrite assign_spot_keys.
  - intros s vm H. now rewrite free_spot_keys.
  - intros k f vm v _ Hk H. simpl.
    rewrite (dict_set_keys String.eqb). unfold dict_mem. now rewrite Hk.
Qed.

Lemma extended_by_refl {A} (n : nat) (l : list A) : extended_by n l l.
Proof. exists []. rewrite app_nil_r. split; [reflexivity|simpl; lia]. Qed.

Lemma generate_vehicles_arrival (ks : list string) :
  triple any_streams (fun e => ids_of e = ks) SimulationEngine._generate_vehicles
         (fun _ e => extended_by 1 ks (ids_of e)).
Proof.
  intros o e c _ H.
  unfold SimulationEngine._generate_vehicles, Vehicle.create_new,
    SimulationEngine.on_manager, bind, random, get, uuid4, ret, zoom, modify.
  simpl.
  destruct (Qltb _ _); simpl; [|rewrite H; apply extended_by_refl].
  rewrite (dict_set_keys String.eqb), H.
  destruct (dict_mem _ _ _); [apply extended_by_refl|].
  eexists. split; [reflexivity|simpl; lia].
Qed.

Lemma run_step_arrival (ks : list string) :
  triple any_streams (fun e => ids_of e = ks) SimulationEngine.run_step
         (fun _ e => extended_by 1 ks (ids_of e)).
Proof.
  assert (Hraise : forall (ex : exn) e, ids_of e = ks -> extended_by 1 ks (ids_of e))
    by (intros _ e ->; apply extended_by_refl).
  unfold SimulationEngine.run_step.
  apply triple_bind_keeps; [apply keeps_modify; auto|intros _|exact Hraise].
  apply triple_bind_keeps; [apply keeps_modify; auto|intros _|exact Hraise].
  apply triple_bind_keeps; [apply keeps_get|intros self|exact Hraise].
  cbv zeta.
  apply triple_bind_keeps; [apply keeps_zoom_frame; auto|intros _|exact Hraise].
  apply triple_bind_keeps; [|intros _|exact Hraise].
  { unfold SimulationEngine._inject_failures. keeps_auto;
      apply keeps_zoom_frame; auto. }
  apply triple_bind with (Qm := fun _ e => extended_by 1 ks (ids_of e));
    [apply generate_vehicles_arrival|intros _|auto].
  apply keeps_as_triple.
  keeps_auto;
    first [ apply detect_faults_keeps
          | apply keeps_zoom_frame; solve [auto]
          | apply keeps_modify; solve [auto]
          | idtac ].
  - unfold SimulationEngine.on_manager.
    apply keeps_zoom
      with (J := fun vm => extended_by 1 ks (dict_keys (VehicleManager.vehicles vm))).
    + apply keeps_modify. intros vm H. now rewrite update_all_keys.
    + auto.
    + auto.
  - apply (on_controller_keeps any_streams
             (fun vm => extended_by 1 ks (dict_keys (VehicleManager.vehicles vm)))).
    apply (process_step_ids (fun l => extended_by 1 ks l)).
Qed.

Lemma run_steps_arrivals (n : nat) : forall ks : list string,
  triple any_streams (fun e => ids_of e = ks) (run_steps n)
         (fun _ e => extended_by n ks (ids_of e)).
Proof.
  induction n as [|n IH]; intros ks; simpl.
  - intros o e c _ H. simpl. rewrite H. apply extended_by_refl.
  - apply triple_bind with (Qm := fun _ e => extended_by 1 ks (ids_of e));
      [apply run_step_arrival|intros step_result|].
    + intros o e c Ho (more & Hmore & Hlen).
      pose proof (IH (ids_of e) o e c Ho eq_refl) as H.
      unfold bind, ret.
      destruct (run_steps n o e c) as [[[rest|ex] e'] c']; simpl;
        destruct H as (more' & -> & Hlen'); rewrite Hmore, <- app_assoc;
        eexists; (split; [reflexivity|rewrite length_app; lia]).
    + intros ex e (more & Hmore & Hlen). exists more. split; [exact Hmore|lia].
Qed.

Lemma last_cons_default {A} (l : list A) : forall x d, last (x :: l) d = last l x.
Proof.
  induction l as [|y t IH]; intros x d; [reflexivity|].
  change (last (x :: y :: t) d) with (last (y :: t) d). now rewrite !IH.
Qed.

Lemma run_step_count o e c step_result e' c' :
  SimulationEngine.run_step o e c = (Ok step_result, e', c') ->
  result_vehicles step_result
  = List.length (VehicleManager.vehicles (SimulationEngine.vehicle_manager e')).
Proof.
  intros E.
  destruct (run_step_inv o e c _ _ _ E)
    as (net2 & readings & net4 & c4 & c5 & actions & ctl7 & vm7 & c7 & faults & db'
        & _ & _ & _ & _ & -> & -> & _).
  reflexivity.
Qed.

Lemma run_steps_counts (n : nat) : forall o e c results e' c',
  run_steps n o e c = (Ok results, e', c') ->
  let size e0 := List.length
                   (VehicleManager.vehicles (SimulationEngine.vehicle_manager e0)) in
  fleet_grows (size e) (map result_vehicles results)
  /\ last (map result_vehicles results) (size e) = size e'.
Proof.
  induction n as [|n IH]; intros o e c results e' c' H size; simpl in H.
  - unfold ret in H. injection H as <- <- <-. simpl. auto.
  - apply bind_inv in H. destruct H as (sr & e1 & c1 & E1 & H).
    apply bind_inv in H. destruct H as (rest & e2 & c2 & E2 & H).
    unfold ret in H. injection H as <- <- <-.
    destruct (IH o e1 c1 rest e2 c2 E2) as [Hgrows Hlast].
    pose proof (run_step_arrival (ids_of e) o e c Logic.I eq_refl) as Harr.
    rewrite E1 in Harr. destruct Harr as (more & Hmore & Hlen).
    apply (f_equal (@List.length string)) in Hmore.
    unfold dict_keys in Hmore. rewrite length_app, !length_map in Hmore.
    rewrite map_cons, last_cons_default, (run_step_count _ _ _ _ _ _ E1).
    split; [|exact Hlast].
    simpl. split; [unfold size; lia|exact Hgrows].
Qed.
End Fleet.

(** X13.  The engine never removes a vehicle.  After [n] calls of
    [run_step], whether or not one of them raised, the ids registered
    are those registered before, in the same order, followed by at most
    [n] new ones: a vehicle that has departed stays in the registry.
    In a run that returns, the size of the registry that each step
    reports is the size reported by the step before or one more, and
    the last one is the size of the registry at the end. *)
Theorem vehicles_are_never_removed {F : Type} {CA : ChargeArith F}
    (n : nat) (o : Streams) (e : SimulationEngine.t F) (c : Cursor) :
  let x := run_steps n o e c in
  let size e0 := List.length
                   (VehicleManager.vehicles (SimulationEngine.vehicle_manager e0)) in
  extended_by n
    (dict_keys (VehicleManager.vehicles (SimulationEngine.vehicle_manager e)))
    (dict_keys (VehicleManager.vehicles
                  (SimulationEngine.vehicle_manager (final_state x))))
  /\ forall results,
       final_outcome x = Ok results ->
       fleet_grows (size e) (map result_vehicles results)
       /\ last (map result_vehicles results) (size e) = size (final_state x).
Proof.
  intros x size. split.
  - pose proof (run_steps_arrivals n _ o e c Logic.I eq_refl) as H.
    unfold x, final_state. now destruct (run_steps n o e c) as [[y e'] c'].
  - intros results Hres. unfold x, final_state, final_outcome in *.
    destruct (run_steps n o e c) as [[y e'] c'] eqn:E. simpl in Hres. subst y.
    exact (run_steps_counts n o e c results e' c' E).
Qed.

(* ------------------------------------------------------------------ *)
(** ** A complete simulation *)

(** X14.  The result of [run_complete_simulation] adds up.  On an
    engine built for a configuration whose failure injections have a
    device to act on, it returns: the run id is the engine's,
    [total_steps] is the number of step results, which are numbered
    from 1 and are at most [max_steps], [total_faults] is the sum of the
    faults the steps report, and a run that ends with at most 10 faults
    has made all its [max_steps] steps. *)
Theorem complete_simulation_adds_up {F : Type} {CA : ChargeArith F}
    (config : SimulationConfig.t) (db : DatabaseManager.t) (run_id : string)
    (scenario_name : string) (o : Streams) (c : Cursor)
    (Hcfg : injections_configured config) :
  let e := SimulationEngine.create (F := F) config db run_id in
  exists r,
    final_outcome (SimulationEngine.run_complete_simulation scenario_name o e c) = Ok r
    /\ result_run_id r = run_id
    /\ total_steps r = Z.of_nat (List.length (step_results r))
    /\ (List.length (step_results r) <= Z.to_nat (SimulationConfig.max_steps config))%nat
    /\ map result_step (step_results r)
       = map Z.of_nat (seq 1 (List.length (step_results r)))
    /\ total_faults r = list_sum (map result_faults (step_results r))
    /\ ((total_faults r <= 10)%nat ->
        List.length (step_results r) = Z.to_nat (SimulationConfig.max_steps config)).
Proof.
  intros e.
  set (e0 := SimulationEngine.set_db_manager
               (DatabaseManager.insert_simulation_run
                  (mkSimulationRun (SimulationEngine.run_id e) scenario_name 0)
                  (SimulationEngine.db_manager e)) e).
  assert (Hs0 : sound e0) by exact (created_is_sound config db run_id Hcfg).
  assert (Hw0 : well_named (SimulationEngine.sensor_network e0))
    by apply well_named_init.
  destruct (simulation_loop_steps
              (Z.to_nat (SimulationConfig.max_steps config)) [] o e0 c)
    as (k & Hk & Eloop & _ & Hlast).
  destruct (run_steps_ok o k e0 c Hs0 Hw0)
    as (results & e' & c' & faults & E & _ & _ & _ & Hstep & Hf & Hst & _ & Hlen & _).
  assert (Hk' : List.length results = k).
  { apply (f_equal (@List.length Z)) in Hst.
    now rewrite !length_map, length_seq in Hst. }
  simpl in Hstep, Hf, Hst.
  assert (Hrid : SimulationEngine.run_id e' = run_id).
  { refine (keeps_run any_streams
              (fun e1 : SimulationEngine.t F => SimulationEngine.run_id e1 = run_id)
              (run_steps k) o e0 c _ _ _ _ Logic.I eq_refl E).
    apply run_steps_keeps.
    unfold SimulationEngine.run_step, SimulationEngine._inject_failures,
      SimulationEngine._generate_vehicles, SimulationEngine._detect_faults,
      Vehicle.create_new.
    keeps_auto;
      first [ apply keeps_modify; solve [auto]
            | apply keeps_zoom_frame; solve [auto] ]. }
  exists (mkRunResult run_id (SimulationEngine.current_step e')
            (List.length (SimulationEngine.faults_detected e')) results).
  split.
  { unfold SimulationEngine.run_complete_simulation.
    unfold bind at 1. unfold SimulationEngine.start_simulation at 1.
    unfold bind at 1, get at 1, SimulationEngine.on_db at 1, zoom at 1, modify at 1.
    fold e0. unfold bind at 1, get at 1. unfold bind at 1.
    change (SimulationConfig.max_steps (SimulationEngine.config e0))
      with (SimulationConfig.max_steps config).
    rewrite Eloop. unfold bind at 1. rewrite E. unfold ret at 1.
    cbn [app].
    unfold SimulationEngine._finalize_simulation, bind, get,
      SimulationEngine.on_db, zoom, modify, ret, final_outcome.
    cbn [fst snd]. simpl. now rewrite Hrid. }
  cbn [result_run_id total_steps total_faults step_results].
  split; [reflexivity|]. split; [rewrite Hstep, Hk'; reflexivity|].
  split; [lia|]. split; [rewrite Hk'; exact Hst|].
  split; [rewrite Hf; exact Hlen|].
  intros Hfew.
  destruct (Nat.eq_dec k (Z.to_nat (SimulationConfig.max_steps config)))
    as [Heq|Hne]; [lia|].
  destruct Hlast as [Hraised|Hmany]; [lia| |].
  - rewrite E in Hraised. discriminate Hraised.
  - rewrite E in Hmany. unfold fault_count, final_state in Hmany. simpl in Hmany. lia.
Qed.

Lemma complete_simulation_adds_up_witness :
  exists r,
    final_outcome
      (SimulationEngine.run_complete_simulation "normal" streams_half
         (SimulationEngine.create (F := Q) scenario_no_arrivals
            DatabaseManager.empty "run") cursor0) = Ok r
    /\ total_steps r = Z.of_nat (List.length (step_results r))
    /\ total_faults r = list_sum (map result_faults (step_results r)).
Proof.
  destruct (complete_simulation_adds_up (F := Q) scenario_no_arrivals
              DatabaseManager.empty "run" "normal" streams_half cursor0
              (no_injection_configured 2 5 3 50 0 (5 # 100)))
    as (r & H1 & _ & H2 & _ & _ & H3 & _).
  exists r. repeat split; assumption.
Defined.

(* ------------------------------------------------------------------ *)
(** ** What a charger reports *)

Lemma charger_read_consistent G :
  triple G charger_consistent ChargerSensor.read
         (fun x ch => charger_consistent ch /\ good_result coherent_status x).
Proof.
  intros o ch c _ [Hconn Hpow].
  unfold ChargerSensor.read, bind, random, gets, modify, get, ret.
  destruct (Qltb _ _); simpl.
  - split; [split; [discriminate|reflexivity]|].
    eexists _, _, _, _. split; [reflexivity|]. simpl.
    split; [reflexivity|]. split; [discriminate|reflexivity].
  - split; [split; assumption|].
    eexists _, _, _, _. split; [reflexivity|]. split; [reflexivity|].
    destruct (ChargerSensor.is_failed ch), (ChargerSensor.is_charging ch); simpl;
      split; auto; discriminate.
Qed.

Lemma charger_apply_consistent G (op : charger_op) :
  keeps G charger_consistent (charger_apply op).
Proof.
  destruct op; simpl.
  - apply keeps_bind; [|intros _; apply keeps_ret].
    intros o ch c Ho H. pose proof (charger_read_consistent G o ch c Ho H) as Hr.
    destruct (ChargerSensor.read o ch c) as [[x ch'] c']. apply Hr.
  - apply keeps_modify. intros ch [Hconn Hpow]. split; simpl; auto.
  - apply keeps_modify. intros ch [Hconn Hpow]. split; simpl; auto; discriminate.
  - apply keeps_modify. intros ch [Hconn Hpow].
    assert (H : charger_consistent ch) by (split; assumption).
    unfold ChargerSensor.start_charging.
    destruct (ChargerSensor.is_failed ch); simpl; [exact H|].
    destruct (ChargerSensor.is_connected ch) eqn:E; simpl; [|exact H].
    split; simpl; [auto|discriminate].
  - apply keeps_modify. intros ch [Hconn Hpow]. split; simpl; auto; discriminate.
  - apply keeps_modify. intros ch [Hconn Hpow]. split; simpl; auto.
Qed.

(** X15.  What a charger sensor reports is coherent whatever was done
    to it.  After any sequence of [read], [connect_vehicle],
    [disconnect_vehicle], [start_charging], [stop_charging] and fault
    injections on a new [ChargerSensor], a reading returns a status
    with its four keys set, flagged as a fault exactly when the charger
    has failed, that reports charging only of a connected charger that
    has not failed and a power other than zero only while charging. *)
Theorem charger_reports_are_coherent (ops : list charger_op) (charger_id : Z)
    (o : Streams) (c : Cursor) (o' : Streams) (c' : Cursor) :
  let ch := final_state (for_each ops charger_apply o (ChargerSensor.init charger_id) c) in
  exists reading ch' c'',
    ChargerSensor.read o' ch c' = (Ok reading, ch', c'')
    /\ coherent_status reading
    /\ charger_consistent ch'.
Proof.
  intros ch.
  assert (H : charger_consistent ch).
  { apply (keeps_final any_streams charger_consistent).
    - apply keeps_for_each. intros op _. apply charger_apply_consistent.
    - exact Logic.I.
    - split; [discriminate|reflexivity]. }
  pose proof (charger_read_consistent any_streams o' ch c' Logic.I H) as Hr.
  destruct (charger_read_run o' ch c') as (reading & ch' & E & _).
  rewrite E in Hr. destruct Hr as [Hc Hs].
  exists reading, ch', (after_draws 1 c'). auto.
Qed.

(* ------------------------------------------------------------------ *)
(** ** Faults injected by name *)

Section InjectByName.
Implicit Types (net : SensorNetwork.t).







End InjectByName.


